(* ===== verification/_CoqProject ===== *)
-Q . S2P
Prelude.v
CString.v
Config.v
FdTable.v
FdMap.v
Paths.v
Cgroup.v
Memory.v
Segments.v
ProcFilter.v
Dirent.v
FdTracker.v
IoctlFilter.v
Preload.v
Libc.v
ToyLibc.v
Hooks.v
HooksInv.v
HooksEval.v
HooksHide.v
HooksFds.v
HooksMem.v
HooksOff.v
HooksCases.v
