(* ===== verification/Prelude.v ===== *)
(** * Runpod Shim: a verification

    The shim is a shared library preloaded into the processes of a container.
    It interposes libc functions so that a process sees the memory limit of its
    cgroup instead of the host's memory, and only the NVIDIA GPUs whose device
    nodes are mounted in the container.  This library models the C code under
    [src/src/] as Rocq functions, one per C function and of the same name, and
    proves what they promise.

    ** Parts of the program and the files that model them

    - [core/config.c], [gpu/gpu_video.c], [core/guard.c]: [Config].  The cached
      configuration and the thread's guard, as explicit state.
    - [core/fd_map.c]: [FdMap].  The 64-slot table of virtual files; the
      abstract state is a finite map from descriptors to unread bytes.
    - [core/paths.c]: [Paths].  Joining cgroup mount points, roots and relative
      paths, with the truncation rules of [snprintf].
    - [cgroup/cgroup.c]: [Cgroup].  Parsing /proc/self/mountinfo and
      /proc/self/cgroup, the candidates, the smallest limit.
    - [memory/memory.c], [memory/proc_meminfo.c]: [Memory].  The snapshot with
      its once-detected cgroup, and the rewritten /proc/meminfo.
    - [gpu/proc_filter.c]: [Segments] (path normalization), [ProcFilter]
      (names, information texts, the allowed set, the decision on a path) and
      [Dirent] (detection at start-up over raw getdents64 and read calls, the
      in-place filter of a getdents64 buffer).
    - [gpu/fd_tracker.c]: [FdTracker].  Classification of paths and the linked
      list of GPU descriptors; the abstract state is a finite map.
    - [gpu/ioctl_filter.c], [gpu/nvidia_rm.h]: [IoctlFilter].  The filters of
      driver answers, over byte-addressed memory with the structure layouts.
    - [preload.c]: [Preload] (the pure decisions) and [Hooks] (every
      interposed function, on the state [shim] that collects the statics of
      all files above and a world [W] for everything outside).

    [CString] holds C strings, streams, [fgets] and [snprintf]; this file holds
    what all share: the state monad [M], machine integers, list scans, the
    tactics [to_prop], [case_goal], [zlia].

    ** Interfaces

    - [FdTable] (class): what [close] relies on in a descriptor table.  [FdMap]
      and [FdTracker] are instances, the theorem on [close] is stated by it.
    - [Libc] (class): the real functions that [core/real.c] finds and the raw
      system calls, over an abstract type of worlds, so their results and
      effects are arbitrary.  Its laws are few and documented behaviour:
      [errno] is what was set, a write accepts at most what it is given,
      interruptions of writes and entries of a directory stream are finite in
      number.  [ToyLibc] is a concrete instance, on which the witnesses run.

    ** What is shown

    - [HooksHide]: a hidden GPU is absent.  Denied paths fail with ENOENT in
      open, openat, opendir, stat and fstatat, absolutely or relative to a
      tracked directory; readdir and getdents64 list only allowed GPUs.
    - [HooksMem]: open and read, or fopen, of /proc/meminfo deliver the text
      with the cgroup's sizes; sysinfo and sysconf report them; while the guard
      is held the shim's calls are the real ones; the write loop terminates.
    - [HooksFds]: open, dup, dup2, dup3, fcntl and close keep the descriptor
      tables in step with the descriptors ([close] when its lock is taken).
    - [HooksOff]: with both modules off every sequence of calls behaves as the
      real functions do on the caller's arguments.  Which argument a call has
      is stated there by the manual (a table of the [fcntl] commands, the bits
      of O_CREAT and O_TMPFILE), not by the shim's own tables; commands outside
      the table lose their argument ([HooksCases]).
    - [HooksInv]: the invariant of the whole state in every reachable process,
      by induction on the calls; the guard is always given back.
    - [Cgroup], [Paths], [Memory]: the limit found is the smallest valid one;
      snapshots are consistent for the life of the process; the text built is
      the real file with three lines rewritten.
    - [Segments], [ProcFilter], [Dirent], [FdTracker]: normalization is
      lexical; the decision on a path and its classification agree with each
      other and with their reading on path components; the allowed GPUs are
      the mounted ones; the list refines a map.
    - [IoctlFilter]: the answers keep exactly the allowed ids, ids are learnt
      only from cards with an allowed minor, other requests are untouched.
    - [HooksCases] and the examples at the end of the filter's part of
      [Dirent] are concrete runs that contradict the documentation or the
      evident intention of the code.

    Where a statement needs a notion the code also has (the parent of a
    directory, a device path, a wanted GPU, a filtered control), the notion is
    a proposition of its own, and a lemma ties the code's test to it.

    ** Conventions and bounds

    Integers are [Z] with the conversions [u32], [u64], [i32] written out.
    Buffers are byte lists; out-parameters are results.  A list passed by
    reference and changed ([rps_gpu_filter_dirent64_buffer], the ioctl
    parameters) is returned changed.  Fuel: [scale_loop] has 33 rounds (the
    scale doubles from 1 and stops at 2 ^ 31); [filter_loop] has two more than
    the length (each record takes at least one byte), and so have the loops
    over lines and segments; [write_loop] has the length plus the interruptions
    still to come; [readdir_loop] the entries the stream still has.  For each
    there is a theorem or lemma that the fuel suffices.  Platform constants are
    those of x86-64 Linux.

    ** Not modelled

    - Trace output ([core/log.c]) and the symbol lookup of [core/real.c].
    - Concurrency.  A call is one step; the mutexes are parameters that may
      fail where the code tests them.  Races between a real call and the
      bookkeeping behind it, in different threads, are outside the model.
    - Calls made before the constructor has run: reachable states start with
      [runpod_shim_init].
    - The test-only entry points ([RUNPOD_SHIM_TESTING]), the shell tools and
      the packaging.

    ** Plan

    Still to come: processes whose first calls precede the constructor, the
    threads' interleavings over the two locked tables, and the wrap-around
    corners of the ioctl answers with overlapping buffers. *)

From stdpp Require Export base list strings gmap.
From Stdlib Require Export ZArith Lia Ascii.

#[local] Open Scope Z_scope.

(** ** Notations and automation *)

Declare Scope shim_scope.
Delimit Scope shim_scope with shim.
#[global] Open Scope shim_scope.

Create HintDb shim discriminated.
Create Rewrite HintDb shim_rw.

(** [lia] with the defining equations of [/] and [mod]. *)
Ltac zlia := Z.to_euclidean_division_equations; lia.

(** Case analysis on the first boolean test or match of the goal. *)
Ltac case_goal :=
  match goal with
  | |- context [if ?b then _ else _] => destruct b eqn:?
  | |- context [match ?x with _ => _ end] => destruct x eqn:?
  end.

(** The same for a hypothesis. *)
Ltac case_hyp H :=
  match type of H with
  | context [if ?b then _ else _] => destruct b eqn:?
  | context [match ?x with _ => _ end] => destruct x eqn:?
  end.

(** Turn the boolean tests of the context into propositions. *)
Ltac to_prop :=
  repeat match goal with
  | H : (_ && _)%bool = true |- _ => apply andb_true_iff in H as [? ?]
  | H : (_ || _)%bool = false |- _ => apply orb_false_iff in H as [? ?]
  | H : (_ || _)%bool = true |- _ => apply orb_true_iff in H
  | H : (_ && _)%bool = false |- _ => apply andb_false_iff in H
  | H : negb _ = true |- _ => apply negb_true_iff in H
  | H : negb _ = false |- _ => apply negb_false_iff in H
  | H : (_ <? _) = true |- _ => apply Z.ltb_lt in H
  | H : (_ <? _) = false |- _ => apply Z.ltb_ge in H
  | H : (_ <=? _) = true |- _ => apply Z.leb_le in H
  | H : (_ <=? _) = false |- _ => apply Z.leb_gt in H
  | H : (_ =? _) = true |- _ => apply Z.eqb_eq in H
  | H : (_ =? _) = false |- _ => apply Z.eqb_neq in H
  | H : (_ <? _)%nat = true |- _ => apply Nat.ltb_lt in H
  | H : (_ <? _)%nat = false |- _ => apply Nat.ltb_ge in H
  | H : (_ <=? _)%nat = true |- _ => apply Nat.leb_le in H
  | H : (_ <=? _)%nat = false |- _ => apply Nat.leb_gt in H
  | H : (_ =? _)%nat = true |- _ => apply Nat.eqb_eq in H
  | H : (_ =? _)%nat = false |- _ => apply Nat.eqb_neq in H
  | H : bool_decide _ = true |- _ => apply bool_decide_eq_true in H
  | H : bool_decide _ = false |- _ => apply bool_decide_eq_false in H
  end.

(** ** State passing *)

(** A stateful C function: it reads and updates the process state [S]. *)
Definition M (S A : Type) : Type := S -> A * S.

#[export] Instance M_ret (S : Type) : MRet (M S) := fun A a s => (a, s).
#[export] Instance M_bind (S : Type) : MBind (M S) :=
  fun A B k m s => let '(a, s') := m s in k a s'.

Definition gets {S A : Type} (f : S -> A) : M S A := fun s => (f s, s).
Definition modify {S : Type} (f : S -> S) : M S unit := fun s => (tt, f s).

(** ** Machine integers *)

Definition INT_MAX : Z := 2147483647.
Definition UINT_MAX : Z := 4294967295.
Definition UINT64_MAX : Z := 18446744073709551615.
Definition LONG_MAX : Z := 9223372036854775807.

(** Conversion to [uint64_t] / [uint32_t] (reduction modulo the width). *)
Definition u64 (z : Z) : Z := z mod 2 ^ 64.
Definition u32 (z : Z) : Z := z mod 2 ^ 32.

(** Conversion to [int] (two's complement, as gcc and clang define it). *)
Definition i32 (z : Z) : Z :=
  let w := z mod 2 ^ 32 in if w <? 2 ^ 31 then w else w - 2 ^ 32.

Lemma u64_small (z : Z) : 0 <= z <= UINT64_MAX -> u64 z = z.
Proof. unfold u64, UINT64_MAX. intros H. apply Z.mod_small. lia. Qed.

Lemma u32_small (z : Z) : 0 <= z <= UINT_MAX -> u32 z = z.
Proof. unfold u32, UINT_MAX. intros H. apply Z.mod_small. lia. Qed.

Lemma i32_small (z : Z) : 0 <= z <= INT_MAX -> i32 z = z.
Proof.
  unfold i32, INT_MAX. intros H. rewrite Z.mod_small by lia.
  destruct (Z.ltb_spec z (2 ^ 31)); lia.
Qed.

(** ** Lists *)

Section lists.
Context {A : Type}.
Implicit Types (l : list A) (p : A -> bool).

(** Longest prefix satisfying [p], and what is left after it. *)
Fixpoint take_while p l : list A :=
  match l with
  | [] => []
  | x :: l' => if p x then x :: take_while p l' else []
  end.

Fixpoint drop_while p l : list A :=
  match l with
  | [] => []
  | x :: l' => if p x then drop_while p l' else l
  end.

Lemma take_drop_while p l : take_while p l ++ drop_while p l = l.
Proof. induction l as [|x l IH]; simpl; [done|]. destruct (p x); simpl; congruence. Qed.

Lemma length_drop_while p l : (length (drop_while p l) <= length l)%nat.
Proof. rewrite <-(take_drop_while p l) at 2. rewrite length_app. lia. Qed.

Lemma length_take_while p l : (length (take_while p l) <= length l)%nat.
Proof. rewrite <-(take_drop_while p l) at 2. rewrite length_app. lia. Qed.

Lemma take_while_Forall p l : Forall (fun x => p x = true) (take_while p l).
Proof. induction l as [|x l IH]; simpl; [constructor|]. destruct (p x) eqn:?; auto. Qed.

Lemma take_while_all p l : Forall (fun x => p x = true) l -> take_while p l = l.
Proof. induction 1 as [|x l Hx _ IH]; simpl; [done|]. by rewrite Hx, IH. Qed.

Lemma drop_while_all p l : Forall (fun x => p x = true) l -> drop_while p l = [].
Proof. induction 1 as [|x l Hx _ IH]; simpl; [done|]. by rewrite Hx, IH. Qed.

Lemma drop_while_head p l x l' : drop_while p l = x :: l' -> p x = false.
Proof.
  induction l as [|y l IH]; simpl; [done|].
  destruct (p y) eqn:?; [done|]. intros [= -> ->]. done.
Qed.

Lemma take_while_app p l x l' :
  Forall (fun y => p y = true) l -> p x = false -> take_while p (l ++ x :: l') = l.
Proof. intros H Hx. induction H as [|y l Hy _ IH]; simpl; [by rewrite Hx|]. by rewrite Hy, IH. Qed.

Lemma drop_while_app p l x l' :
  Forall (fun y => p y = true) l -> p x = false -> drop_while p (l ++ x :: l') = x :: l'.
Proof. intros H Hx. induction H as [|y l Hy _ IH]; simpl; [by rewrite Hx|]. by rewrite Hy. Qed.

(** Index of the first element satisfying [p]: the shape of the source's
    [for (i = 0; i < n; i++) if (p(a[i])) { ...; break; }] scans. *)
Fixpoint find_index p l : option nat :=
  match l with
  | [] => None
  | x :: l' => if p x then Some 0%nat else S <$> find_index p l'
  end.

Lemma find_index_Some p l i :
  find_index p l = Some i -> exists x, l !! i = Some x /\ p x = true.
Proof.
  revert i. induction l as [|x l IH]; intros i; simpl; [done|].
  destruct (p x) eqn:Hp.
  - intros [= <-]. by exists x.
  - destruct (find_index p l) as [j|] eqn:Hj; simpl; [|done].
    intros [= <-]. by apply IH.
Qed.

Lemma find_index_None p l x : find_index p l = None -> x ∈ l -> p x = false.
Proof.
  induction l as [|y l IH]; simpl; intros H Hx; [by apply elem_of_nil in Hx|].
  destruct (p y) eqn:Hp; [done|].
  destruct (find_index p l) eqn:?; [done|].
  apply elem_of_cons in Hx as [->|Hx]; auto.
Qed.

Lemma find_index_None_2 p l : (forall x, x ∈ l -> p x = false) -> find_index p l = None.
Proof.
  induction l as [|y l IH]; simpl; intros H; [done|].
  rewrite (H y) by (by left). rewrite IH; [done|]. intros x Hx. apply H. by right.
Qed.

Lemma existsb_elem p l : existsb p l = true <-> exists x, x ∈ l /\ p x = true.
Proof. rewrite existsb_exists. setoid_rewrite list_elem_of_In. done. Qed.

(** Prefix of a list of a given length, when a longer list starts with it. *)
Lemma take_length_app l l' : take (length l) (l ++ l') = l.
Proof. by rewrite take_app_length. Qed.

Lemma take_eq_app l l' : take (length l) l' = l -> l' = l ++ drop (length l) l'.
Proof. intros H. rewrite <-H at 1. by rewrite take_drop. Qed.

End lists.

(** The scans of the source split the table at the slot they find. *)
Lemma find_index_split {A} (p : A -> bool) (t : list A) (i : nat) :
  find_index p t = Some i ->
  exists l1 e l2, t = l1 ++ e :: l2 /\ length l1 = i /\ p e = true /\
    Forall (fun x => p x = false) l1.
Proof.
  revert i. induction t as [|x t IH]; intros i; simpl; [done|].
  destruct (p x) eqn:Hx.
  - intros [= <-]. exists [], x, t. by repeat split.
  - destruct (find_index p t) as [j|]; simpl; [|done]. intros [= <-].
    destruct (IH j eq_refl) as (l1 & e & l2 & -> & <- & He & Hl).
    exists (x :: l1), e, l2. by repeat split; [..|constructor].
Qed.

Lemma find_index_None_Forall {A} (p : A -> bool) (t : list A) :
  find_index p t = None -> Forall (fun x => p x = false) t.
Proof. intros H. apply Forall_forall. intros x. by apply find_index_None. Qed.

Lemma insert_middle {A} (l1 l2 : list A) (x y : A) (i : nat) :
  length l1 = i -> <[i := y]> (l1 ++ x :: l2) = l1 ++ y :: l2.
Proof. intros <-. by rewrite list_insert_middle || (rewrite insert_app_r_alt, Nat.sub_diag). Qed.

Lemma lookup_middle {A} (l1 l2 : list A) (x : A) (i : nat) :
  length l1 = i -> (l1 ++ x :: l2) !! i = Some x.
Proof. intros <-. by apply list_lookup_middle. Qed.

#[export] Hint Resolve length_drop_while length_take_while take_while_Forall : shim.
#[export] Hint Rewrite @take_length_app @take_drop_while @length_app : shim_rw.
