(* ===== verification/CString.v ===== *)
(** C strings, character classes and the parts of [<string.h>] and [<stdio.h>]
    the shim is written with: [strncmp], [strchr], [strcspn], [strtok_r],
    [snprintf] and line-wise reading with [fgets].  A [cstr] is the sequence of
    bytes in front of the terminating NUL. *)

From S2P Require Import Prelude.

#[local] Open Scope Z_scope.

Abbreviation cstr := (list ascii).

(** A string literal of the source. *)
Definition cs (s : string) : cstr := String.list_ascii_of_string s.

#[global] Arguments cs : simpl never.

Definition NUL : ascii := "000"%char.
Definition TAB : ascii := "009"%char.
Definition NL : ascii := "010"%char.
Definition CR : ascii := "013"%char.
Definition SP : ascii := " "%char.
Definition SLASH : ascii := "/"%char.

(** ** Character classes (the "C" locale) *)

Definition code (c : ascii) : Z := Z.of_N (N_of_ascii c).

(** [isdigit((unsigned char)c)], also written [c < '0' || c > '9'] (negated). *)
Definition is_digit (c : ascii) : bool := (48 <=? code c) && (code c <=? 57).
Definition digit_val (c : ascii) : Z := code c - 48.

(** [isspace((unsigned char)c)]. *)
Definition is_space (c : ascii) : bool := ((9 <=? code c) && (code c <=? 13)) || (code c =? 32).

Definition char_eqb (a b : ascii) : bool := bool_decide (a = b).

Lemma digit_val_range (c : ascii) : is_digit c = true -> 0 <= digit_val c <= 9.
Proof. unfold is_digit, digit_val. intros H. to_prop. lia. Qed.

(** ** [<string.h>] *)

(** [strcmp(a, b) == 0] *)
Definition streq (a b : cstr) : bool := bool_decide (a = b).

(** [strncmp(a, b, n) == 0] *)
Definition strneq (a b : cstr) (n : nat) : bool := bool_decide (take n a = take n b).

#[global] Arguments streq : simpl never.
#[global] Arguments strneq : simpl never.

(** [strncmp(s, p, strlen(p)) == 0] *)
Definition has_prefix (p s : cstr) : bool := strneq s p (length p).

(** [strchr(s, c)]: the suffix of [s] that starts with its first [c]. *)
Definition strchr (s : cstr) (c : ascii) : option cstr :=
  match drop_while (fun x => negb (char_eqb x c)) s with
  | [] => None
  | r => Some r
  end.

(** What precedes the first [c] ([s] itself when there is none). *)
Definition before (s : cstr) (c : ascii) : cstr :=
  take_while (fun x => negb (char_eqb x c)) s.

(** The C string an array of bytes holds: the bytes in front of the first NUL. *)
Definition cstr_of (bytes : list ascii) : cstr := before bytes NUL.

(** A value a [char *] can point to. *)
Definition no_nul (s : list ascii) : Prop := Forall (fun c => c <> NUL) s.

(** [line[strcspn(line, "\r\n")] = '\0'] *)
Definition chomp (s : cstr) : cstr :=
  take_while (fun c => negb (char_eqb c CR || char_eqb c NL)) s.

(** [strtok_r(s, d, &save)] for a one-character delimiter: the next token and
    the new [save]. *)
Definition strtok_r (d : ascii) (s : cstr) : option (cstr * cstr) :=
  match drop_while (fun x => char_eqb x d) s with
  | [] => None
  | s' => Some (before s' d, tail (drop_while (fun x => negb (char_eqb x d)) s'))
  end.

(** All tokens a [strtok_r] loop produces. *)
Fixpoint tokens_fuel (fuel : nat) (d : ascii) (s : cstr) : list cstr :=
  match fuel with
  | O => []
  | S n => match strtok_r d s with
           | None => []
           | Some (tok, rest) => tok :: tokens_fuel n d rest
           end
  end.
Definition tokens (d : ascii) (s : cstr) : list cstr := tokens_fuel (S (length s)) d s.

(** [snprintf(buf, buflen, ...)] of an output [out]: the returned length
    (negative when it does not fit an [int]) and the string left in [buf]. *)
Definition snprintf (buflen : nat) (out : cstr) : Z * cstr :=
  (if Z.of_nat (length out) <=? INT_MAX then Z.of_nat (length out) else -1,
   take (buflen - 1) out).

(** ** Decimal numerals *)

(** The number a digit string denotes, read after [v]. *)
Fixpoint dec_from (v : Z) (s : cstr) : Z :=
  match s with
  | [] => v
  | c :: s' => dec_from (v * 10 + digit_val c) s'
  end.
Definition dec (s : cstr) : Z := dec_from 0 s.

Definition all_digits (s : cstr) : bool := forallb is_digit s.

(** The shim's digit loops: stop at the first non-digit, refuse a digit that
    would take the value above [max]; [wrap] is the width of the C type. *)
Fixpoint parse_digits (max : Z) (wrap : Z -> Z) (value : Z) (s : cstr) : option Z :=
  match s with
  | [] => Some value
  | c :: s' =>
      if negb (is_digit c) then None
      else
        let digit := digit_val c in
        if (max - digit) / 10 <? value then None
        else parse_digits max wrap (wrap (value * 10 + digit)) s'
  end.

Lemma dec_from_ge (s : cstr) (v : Z) :
  0 <= v -> all_digits s = true -> v <= dec_from v s.
Proof.
  revert v. induction s as [|c s IH]; simpl; intros v Hv H; [lia|].
  unfold all_digits in H. simpl in H. apply andb_true_iff in H as [Hc Hs].
  pose proof (digit_val_range c Hc) as Hd.
  specialize (IH (v * 10 + digit_val c) ltac:(lia) Hs). lia.
Qed.

(** The overflow guard is exact: the loop returns the value of the numeral
    precisely when the string is all digits and the value fits. *)
Lemma parse_digits_spec (max : Z) (wrap : Z -> Z) (s : cstr) (v : Z) :
  (forall z, 0 <= z <= max -> wrap z = z) -> 0 <= v <= max ->
  parse_digits max wrap v s =
  if all_digits s && (dec_from v s <=? max) then Some (dec_from v s) else None.
Proof.
  intros Hwrap. revert v. induction s as [|c s IH]; simpl; intros v Hv.
  { destruct (Z.leb_spec v max); [done|lia]. }
  destruct (is_digit c) eqn:Hc; simpl; [|done].
  pose proof (digit_val_range c Hc) as Hd.
  destruct (Z.ltb_spec ((max - digit_val c) / 10) v) as [Hov|Hov].
  - assert (max < v * 10 + digit_val c) as Hbig by zlia.
    destruct (all_digits s) eqn:Hs; simpl; [|done].
    pose proof (dec_from_ge s (v * 10 + digit_val c) ltac:(lia) Hs) as Hge.
    destruct (Z.leb_spec (dec_from (v * 10 + digit_val c) s) max); [lia|done].
  - assert (v * 10 + digit_val c <= max) by zlia.
    rewrite Hwrap by lia. apply IH. lia.
Qed.

(** ** Streams and [fgets] *)

(** An open input stream: the bytes not read yet, and whether reading past
    them fails with an error instead of end of file. *)
Record stream := Stream { st_data : list ascii; st_err : bool }.

(** At most [n] bytes, up to and including a newline; the flag says that the
    line or the buffer was completed before the data ran out. *)
Fixpoint take_line (n : nat) (data : list ascii) : list ascii * list ascii * bool :=
  match n with
  | O => ([], data, true)
  | S n' =>
      match data with
      | [] => ([], [], false)
      | c :: d => if char_eqb c NL then ([c], d, true)
                  else let '(l, r, k) := take_line n' d in (c :: l, r, k)
      end
  end.

(** [fgets(buf, size, fp)]: the bytes stored and the stream afterwards, or
    NULL at end of file and on a read error. *)
Definition fgets (size : nat) (s : stream) : option (list ascii * stream) :=
  let '(l, r, complete) := take_line (size - 1) (st_data s) in
  if complete then Some (l, Stream r (st_err s))
  else if st_err s then None
  else match l with [] => None | _ => Some (l, Stream r false) end.

(** The buffers a loop [while (fgets(line, size, fp) != NULL)] sees. *)
Fixpoint fgets_loop (fuel size : nat) (s : stream) : list (list ascii) :=
  match fuel with
  | O => []
  | S n => match fgets size s with
           | None => []
           | Some (l, s') => l :: fgets_loop n size s'
           end
  end.
Definition fgets_all (size : nat) (s : stream) : list (list ascii) :=
  fgets_loop (S (length (st_data s))) size s.

(** ** Facts about strings *)

Lemma char_eqb_spec (a b : ascii) : char_eqb a b = true <-> a = b.
Proof. apply bool_decide_eq_true. Qed.

Lemma char_eqb_refl (a : ascii) : char_eqb a a = true.
Proof. by apply char_eqb_spec. Qed.

Lemma char_eqb_neq (a b : ascii) : char_eqb a b = false <-> a <> b.
Proof. apply bool_decide_eq_false. Qed.

Lemma streq_spec (a b : cstr) : streq a b = true <-> a = b.
Proof. apply bool_decide_eq_true. Qed.

Lemma streq_refl (a : cstr) : streq a a = true.
Proof. by apply streq_spec. Qed.

Lemma streq_neq (a b : cstr) : streq a b = false <-> a <> b.
Proof. apply bool_decide_eq_false. Qed.

Lemma has_prefix_spec (p s : cstr) : has_prefix p s = true <-> exists r, s = p ++ r.
Proof.
  unfold has_prefix, strneq. rewrite bool_decide_eq_true, firstn_all. split.
  - intros H. exists (drop (length p) s). by apply take_eq_app.
  - intros [r ->]. apply take_length_app.
Qed.

Lemma has_prefix_app (p r : cstr) : has_prefix p (p ++ r) = true.
Proof. apply has_prefix_spec. by exists r. Qed.

Lemma not_char_Forall (c : ascii) (s : cstr) :
  c ∉ s -> Forall (fun x => negb (char_eqb x c) = true) s.
Proof.
  intros H. apply Forall_forall. intros x Hx. apply negb_true_iff, char_eqb_neq.
  by intros ->.
Qed.

Lemma before_all (c : ascii) (s : cstr) : c ∉ s -> before s c = s.
Proof. intros H. by apply take_while_all, not_char_Forall. Qed.

Lemma before_app (c : ascii) (s r : cstr) : c ∉ s -> before (s ++ c :: r) c = s.
Proof.
  intros H. apply take_while_app; [by apply not_char_Forall|]. by rewrite char_eqb_refl.
Qed.

Lemma before_not_in (c : ascii) (s : cstr) : c ∉ before s c.
Proof.
  intros H. pose proof (take_while_Forall (fun x => negb (char_eqb x c)) s) as HF.
  rewrite Forall_forall in HF. apply HF in H. by rewrite char_eqb_refl in H.
Qed.

Lemma strchr_None (c : ascii) (s : cstr) : strchr s c = None <-> c ∉ s.
Proof.
  unfold strchr. split.
  - intros H. destruct (drop_while _ s) eqn:E; [|done].
    rewrite <-(take_drop_while (fun x => negb (char_eqb x c)) s), E, app_nil_r.
    apply before_not_in.
  - intros H. by rewrite drop_while_all by (by apply not_char_Forall).
Qed.

Lemma strchr_app (c : ascii) (s r : cstr) : c ∉ s -> strchr (s ++ c :: r) c = Some (c :: r).
Proof.
  intros H. unfold strchr.
  rewrite drop_while_app; [done|by apply not_char_Forall|by rewrite char_eqb_refl].
Qed.

Lemma strchr_Some (c : ascii) (s r : cstr) :
  strchr s c = Some r -> s = before s c ++ r /\ exists r', r = c :: r'.
Proof.
  unfold strchr. intros H. destruct (drop_while _ s) as [|x l] eqn:E; [done|].
  injection H as <-. split.
  - rewrite <-E. symmetry. apply take_drop_while.
  - exists l. f_equal. apply drop_while_head in E. apply negb_false_iff in E.
    by apply char_eqb_spec.
Qed.

Lemma cstr_of_no_nul (s : cstr) : no_nul s -> cstr_of s = s.
Proof.
  intros H. apply before_all. intros Hin. unfold no_nul in H. rewrite Forall_forall in H.
  by apply (H NUL).
Qed.

(** ** Facts about [fgets] *)

Lemma take_line_app (n : nat) (data l r : list ascii) (k : bool) :
  take_line n data = (l, r, k) -> data = l ++ r.
Proof.
  revert data l r k. induction n as [|n IH]; intros data l r k; simpl; [by intros [= <- <- _]|].
  destruct data as [|c d]; [by intros [= <- <- _]|].
  destruct (char_eqb c NL); [by intros [= <- <- _]|].
  destruct (take_line n d) as [[l' r'] k'] eqn:E. intros [= <- <- <-].
  simpl. f_equal. by eapply IH.
Qed.

Lemma take_line_length (n : nat) (data l r : list ascii) (k : bool) :
  take_line n data = (l, r, k) ->
  (length l <= n)%nat /\ (k = true -> n <> 0%nat -> l <> []) /\ (k = false -> r = []).
Proof.
  revert data l r k. induction n as [|n IH]; intros data l r k; simpl.
  { intros [= <- <- <-]. split; [simpl; lia|]. split; [lia|done]. }
  destruct data as [|c d]; [intros [= <- <- <-]; split; [simpl; lia|done]|].
  destruct (char_eqb c NL); [intros [= <- <- <-]; split; [simpl; lia|done]|].
  destruct (take_line n d) as [[l' r'] k'] eqn:E. intros [= <- <- <-].
  apply IH in E as (? & _ & ?). simpl. split; [lia|]. split; [done|done].
Qed.

Lemma fgets_Some (size : nat) (s s' : stream) (l : list ascii) :
  (2 <= size)%nat -> fgets size s = Some (l, s') ->
  st_data s = l ++ st_data s' /\ l <> [] /\ (length l < size)%nat /\ (st_err s' = true -> st_err s = true).
Proof.
  intros Hs. unfold fgets. destruct (take_line (size - 1) (st_data s)) as [[l0 r] k] eqn:E.
  pose proof (take_line_app _ _ _ _ _ E) as Happ.
  pose proof (take_line_length _ _ _ _ _ E) as (Hlen & Hne & Hr).
  destruct k.
  - intros [= <- <-]. simpl. repeat split; [done|apply Hne; [done|lia]|lia|done].
  - destruct (st_err s); [done|]. destruct l0; [done|].
    intros [= <- <-]. simpl in *. repeat split; [done|done|lia|done].
Qed.

Lemma fgets_None (size : nat) (s : stream) :
  (2 <= size)%nat -> st_err s = false -> fgets size s = None -> st_data s = [].
Proof.
  intros Hs He. unfold fgets. rewrite He.
  destruct (take_line (size - 1) (st_data s)) as [[l r] k] eqn:E.
  destruct k; [done|]. destruct l; [|done]. intros _.
  rewrite (take_line_app _ _ _ _ _ E). simpl.
  by apply take_line_length in E as (_ & _ & ->).
Qed.

Lemma fgets_err (size : nat) (s s' : stream) (l : list ascii) :
  st_err s = false -> fgets size s = Some (l, s') -> st_err s' = false.
Proof.
  intros He. unfold fgets. rewrite He. destruct (take_line _ _) as [[l0 r] k].
  destruct k; [by intros [= _ <-]|]. destruct l0; [done|]. by intros [= _ <-].
Qed.

(** Without a read error the buffers are exactly the file, in order. *)
Lemma fgets_all_concat (size : nat) (s : stream) :
  (2 <= size)%nat -> st_err s = false -> concat (fgets_all size s) = st_data s.
Proof.
  intros Hs. unfold fgets_all.
  remember (S (length (st_data s))) as m eqn:Hm. assert (length (st_data s) < m)%nat as Hlt by lia.
  clear Hm. revert s Hlt. induction m as [|m IH]; intros s Hm He; [lia|].
  simpl. destruct (fgets size s) as [[l s']|] eqn:E.
  - pose proof (fgets_err _ _ _ _ He E) as He'.
    apply fgets_Some in E as (Hd & Hl & _); [|done]. simpl. rewrite IH; [done| |done].
    rewrite Hd in Hm. rewrite length_app in Hm. destruct l; [done|simpl in Hm; lia].
  - apply fgets_None in E; [|done..]. by rewrite E.
Qed.

(** ** Splitting and tokens *)

(** The parts of a string between the delimiters, empty ones included. *)
Fixpoint split_on (d : ascii) (s : cstr) : list cstr :=
  match s with
  | [] => [[]]
  | c :: s' => if char_eqb c d then [] :: split_on d s'
               else match split_on d s' with
                    | [] => [[c]]
                    | x :: r => (c :: x) :: r
                    end
  end.

Lemma split_on_step (d : ascii) (s : cstr) :
  split_on d s = before s d ::
    match strchr s d with None => [] | Some r => split_on d (tail r) end.
Proof.
  unfold before, strchr. induction s as [|c s IH]; [done|]. simpl.
  destruct (char_eqb c d) eqn:E; simpl; [done|]. by rewrite IH.
Qed.

(** Tokens written with one delimiter between them. *)
Fixpoint join_with (d : ascii) (toks : list cstr) : cstr :=
  match toks with
  | [] => []
  | [t] => t
  | t :: toks' => t ++ d :: join_with d toks'
  end.

Definition is_token (d : ascii) (t : cstr) : Prop := t <> [] /\ d ∉ t.

Lemma strtok_r_at (d c : ascii) (s s0 : cstr) :
  s = c :: s0 -> c <> d ->
  strtok_r d s = Some (before s d, tail (drop_while (fun x => negb (char_eqb x d)) s)).
Proof.
  intros -> Hc%char_eqb_neq. unfold strtok_r.
  assert (drop_while (fun x => char_eqb x d) (c :: s0) = c :: s0) as -> by (simpl; by rewrite Hc).
  done.
Qed.

Lemma strtok_r_first (d : ascii) (t rest : cstr) :
  is_token d t -> strtok_r d (t ++ d :: rest) = Some (t, rest).
Proof.
  intros [Hne Hd]. destruct t as [|c t]; [done|].
  rewrite (strtok_r_at d c _ (t ++ d :: rest)) by (done || (intros ->; apply Hd; by left)).
  rewrite before_app by done.
  rewrite (drop_while_app _ (c :: t) d) by (apply not_char_Forall || rewrite char_eqb_refl; done).
  done.
Qed.

Lemma strtok_r_last (d : ascii) (t : cstr) : is_token d t -> strtok_r d t = Some (t, []).
Proof.
  intros [Hne Hd]. destruct t as [|c t]; [done|].
  rewrite (strtok_r_at d c _ t) by (done || (intros ->; apply Hd; by left)).
  rewrite before_all by done.
  by rewrite (drop_while_all _ (c :: t)) by (by apply not_char_Forall).
Qed.

(** [strtok_r] reads back the tokens a line was written from. *)
Lemma tokens_join (d : ascii) (toks : list cstr) :
  Forall (is_token d) toks -> tokens d (join_with d toks) = toks.
Proof.
  intros Hall. unfold tokens.
  assert (forall fuel, (length (join_with d toks) < fuel)%nat ->
    tokens_fuel fuel d (join_with d toks) = toks) as H; [|apply H; lia].
  induction Hall as [|t toks Ht Hall IH]; intros fuel Hf; (destruct fuel as [|fuel]; [lia|]); [done|].
  destruct toks as [|t' toks].
  - simpl in *. rewrite strtok_r_last by done. by destruct fuel.
  - change (join_with d (t :: t' :: toks)) with (t ++ d :: join_with d (t' :: toks)) in *.
    cbn [tokens_fuel]. rewrite strtok_r_first by done. f_equal. apply IH.
    rewrite length_app in Hf. cbn [length] in Hf. lia.
Qed.

(** ** Decimal output *)

Definition digit_char (d : Z) : ascii := ascii_of_N (Z.to_N (48 + d)).

Fixpoint dec_digits (fuel : nat) (n : Z) (acc : cstr) : cstr :=
  match fuel with
  | O => acc
  | S f => if n <? 10 then digit_char n :: acc
           else dec_digits f (n / 10) (digit_char (n mod 10) :: acc)
  end.

(** ["%llu"]: 20 digits are enough for 64 bits. *)
Definition print_u64 (n : Z) : cstr := dec_digits 20 n [].

#[global] Arguments print_u64 : simpl never.

Lemma code_digit_char (d : Z) : 0 <= d <= 9 -> code (digit_char d) = 48 + d.
Proof.
  intros H. unfold code, digit_char. rewrite N_ascii_embedding by lia. lia.
Qed.

Lemma digit_char_spec (d : Z) :
  0 <= d <= 9 -> is_digit (digit_char d) = true /\ digit_val (digit_char d) = d.
Proof.
  intros H. unfold is_digit, digit_val. rewrite code_digit_char by done. split; [|lia].
  apply andb_true_iff. rewrite !Z.leb_le. lia.
Qed.

Lemma dec_digits_spec (fuel : nat) (n : Z) (acc : cstr) :
  0 <= n < 10 ^ Z.of_nat fuel -> all_digits acc = true ->
  all_digits (dec_digits fuel n acc) = true /\
  (forall v, dec_from v (dec_digits fuel n acc) =
     dec_from (v * 10 ^ Z.of_nat (length (dec_digits fuel n acc) - length acc) + n) acc) /\
  (length (dec_digits fuel n acc) <= length acc + fuel)%nat /\
  ((0 < fuel)%nat -> length acc < length (dec_digits fuel n acc))%nat.
Proof.
  revert n acc. induction fuel as [|f IH]; intros n acc Hn Hacc.
  { simpl in *. replace n with 0 by lia. rewrite Nat.sub_diag. repeat split; try lia; [done|].
    intros v. f_equal. lia. }
  cbn [dec_digits]. destruct (Z.ltb_spec n 10) as [Hlt|Hge].
  - destruct (digit_char_spec n ltac:(lia)) as [Hd Hv].
    unfold all_digits in *. simpl. rewrite Hd, Hacc. repeat split; try (simpl; lia).
    intros v. rewrite Hv. f_equal. replace (S (length acc) - length acc)%nat with 1%nat by lia. lia.
  - destruct (digit_char_spec (n mod 10) ltac:(zlia)) as [Hd Hv].
    assert (0 <= n / 10 < 10 ^ Z.of_nat f) as Hq.
    { rewrite Nat2Z.inj_succ, Z.pow_succ_r in Hn by lia. zlia. }
    destruct (IH (n / 10) (digit_char (n mod 10) :: acc) Hq) as (H1 & H2 & H3 & H4).
    { unfold all_digits in *. simpl. by rewrite Hd. }
    set (out := dec_digits f (n / 10) (digit_char (n mod 10) :: acc)) in *.
    simpl length in *. repeat split; [done| |lia|].
    + intros v. rewrite H2. simpl. rewrite Hv. f_equal.
      assert (length acc < length out)%nat as Hl.
      { destruct f as [|f]; [simpl in Hq; lia|]. specialize (H4 ltac:(lia)). lia. }
      replace (length out - length acc)%nat with (S (length out - S (length acc))) by lia.
      rewrite Nat2Z.inj_succ, Z.pow_succ_r by lia.
      pose proof (Z.div_mod n 10 ltac:(lia)). nia.
    + intros _. destruct f as [|f]; [simpl in Hq; lia|]. specialize (H4 ltac:(lia)). lia.
Qed.

Lemma print_u64_spec (n : Z) :
  0 <= n <= UINT64_MAX ->
  all_digits (print_u64 n) = true /\ dec (print_u64 n) = n /\
  (0 < length (print_u64 n) <= 20)%nat.
Proof.
  unfold UINT64_MAX. intros Hn.
  destruct (dec_digits_spec 20 n []) as (H1 & H2 & H3 & H4); [lia|done|].
  fold (print_u64 n) in *. split; [done|]. split; [|simpl in *; lia].
  unfold dec. rewrite H2. simpl. lia.
Qed.
