(* ===== verification/Config.v ===== *)
(** Configuration ([core/config.c]), the GPU module switches
    ([gpu/gpu_video.c]) and the re-entrancy guard ([core/guard.c]).

    The configuration is read from the environment once and cached; the guard
    is the thread-local [depth] that keeps the shim from intercepting the libc
    calls it makes itself. *)

From S2P Require Import Prelude CString.

#[local] Open Scope Z_scope.

(** ** [core/config.c] *)

Record rps_config := RpsConfig {
  cfg_gpu_video : bool;
  cfg_gpu_ioctl : bool;
  cfg_cgroup_memory : bool;
  cfg_trace : bool
}.

(** The file's statics [config] and [initialized] (zero at program start). *)
Record config_state := ConfigState { cs_config : rps_config; cs_initialized : bool }.
Definition config_start : config_state :=
  ConfigState (RpsConfig false false false false) false.

Section config.
Variable getenv : cstr -> option cstr.

Definition rps_env_is_disabled (name : cstr) : bool :=
  match getenv name with
  | None => false
  | Some value =>
      streq value (cs "0") || streq value (cs "false") ||
      streq value (cs "FALSE") || streq value (cs "off") ||
      streq value (cs "OFF") || streq value (cs "no") ||
      streq value (cs "NO")
  end.

Definition rps_env_is_enabled (name : cstr) : bool :=
  match getenv name with
  | None => false
  | Some value =>
      streq value (cs "1") || streq value (cs "true") ||
      streq value (cs "TRUE") || streq value (cs "on") ||
      streq value (cs "ON") || streq value (cs "yes") ||
      streq value (cs "YES")
  end.

Definition rps_config_get : M config_state rps_config := fun st =>
  if negb (cs_initialized st) then
    let config := {|
      cfg_gpu_video := negb (rps_env_is_disabled (cs "RUNPOD_SHIM_GPU_VIDEO"));
      cfg_gpu_ioctl := negb (rps_env_is_disabled (cs "RUNPOD_SHIM_GPU_IOCTL"));
      cfg_cgroup_memory := negb (rps_env_is_disabled (cs "RUNPOD_SHIM_CGROUP_MEMORY"));
      cfg_trace := rps_env_is_enabled (cs "RUNPOD_SHIM_TRACE") |} in
    (config, ConfigState config true)
  else (cs_config st, st).

(** ** [gpu/gpu_video.c] *)

Definition rps_gpu_video_enabled : M config_state bool :=
  cfg ← rps_config_get; mret (cfg_gpu_video cfg).

Definition rps_gpu_ioctl_enabled : M config_state bool :=
  cfg ← rps_config_get; mret (cfg_gpu_video cfg && cfg_gpu_ioctl cfg).

End config.

(** ** [core/guard.c]: the state is the thread's [depth]. *)

Definition rps_guard_enter : M Z bool := fun depth =>
  if negb (depth =? 0) then (false, depth) else (true, i32 (depth + 1)).

Definition rps_guard_leave : M Z unit := fun depth =>
  if 0 <? depth then (tt, i32 (depth - 1)) else (tt, depth).

(** What a thread can do with its guard. *)
Inductive guard_event := Enter (granted : bool) | Leave.

Inductive guard_step : Z -> guard_event -> Z -> Prop :=
| step_enter d b d' : rps_guard_enter d = (b, d') -> guard_step d (Enter b) d'
| step_leave d d' : rps_guard_leave d = (tt, d') -> guard_step d Leave d'.

Inductive guard_run : Z -> list guard_event -> Z -> Prop :=
| run_nil d : guard_run d [] d
| run_cons d e d' es d'' : guard_step d e d' -> guard_run d' es d'' -> guard_run d (e :: es) d''.

(** How many activations are open after a run: granted entries minus leaves,
    a leave without an open activation being ignored. *)
Fixpoint open_activations (n : Z) (es : list guard_event) : Z :=
  match es with
  | [] => n
  | Enter true :: es' => open_activations (n + 1) es'
  | Enter false :: es' => open_activations n es'
  | Leave :: es' => open_activations (Z.max 0 (n - 1)) es'
  end.

(** The results of successive calls, each made under its own environment. *)
Fixpoint config_calls (envs : list (cstr -> option cstr)) (st : config_state) : list rps_config :=
  match envs with
  | [] => []
  | e :: envs' => let '(c, st') := rps_config_get e st in c :: config_calls envs' st'
  end.

(** ** Lemmas *)

Lemma config_get_initialized (e : cstr -> option cstr) (st : config_state) :
  cs_initialized st = true -> rps_config_get e st = (cs_config st, st).
Proof. intros H. unfold rps_config_get. by rewrite H. Qed.

Lemma config_calls_initialized (envs : list (cstr -> option cstr)) (c : rps_config) :
  config_calls envs (ConfigState c true) = replicate (length envs) c.
Proof.
  induction envs as [|e envs IH]; simpl; [done|].
  by rewrite IH.
Qed.

Lemma config_get_sets (e : cstr -> option cstr) (st st' : config_state) (c : rps_config) :
  rps_config_get e st = (c, st') -> cs_initialized st' = true /\ cs_config st' = c.
Proof.
  unfold rps_config_get. destruct (cs_initialized st) eqn:Hi; simpl; by intros [= <- <-].
Qed.

Lemma guard_enter_free : rps_guard_enter 0 = (true, 1).
Proof. reflexivity. Qed.

Lemma guard_enter_busy (d : Z) : d <> 0 -> rps_guard_enter d = (false, d).
Proof. intros H. unfold rps_guard_enter. destruct (Z.eqb_spec d 0); [done|reflexivity]. Qed.

Lemma guard_leave_one : rps_guard_leave 1 = (tt, 0).
Proof. reflexivity. Qed.

#[export] Hint Rewrite guard_enter_free guard_leave_one : shim_rw.

(** ** Properties *)

(** The configuration is decided by the environment of the first call:
    every call of a sequence returns the modules that environment did not opt
    out of (and tracing if it asked for it), whatever the environment has
    become in between. *)
Theorem config_frozen (e0 : cstr -> option cstr) (envs : list (cstr -> option cstr)) :
  config_calls (e0 :: envs) config_start =
  replicate (S (length envs)) {|
    cfg_gpu_video := negb (rps_env_is_disabled e0 (cs "RUNPOD_SHIM_GPU_VIDEO"));
    cfg_gpu_ioctl := negb (rps_env_is_disabled e0 (cs "RUNPOD_SHIM_GPU_IOCTL"));
    cfg_cgroup_memory := negb (rps_env_is_disabled e0 (cs "RUNPOD_SHIM_CGROUP_MEMORY"));
    cfg_trace := rps_env_is_enabled e0 (cs "RUNPOD_SHIM_TRACE") |}.
Proof. simpl. f_equal. by apply config_calls_initialized. Qed.

(** C40: the guard never counts above one: along any run of a thread, its depth is
    0 or 1 and equals the number of open activations, and an entry is granted
    exactly when none is open. *)
Theorem guard_exclusive (es : list guard_event) (d : Z) :
  guard_run 0 es d ->
  (d = 0 \/ d = 1) /\ d = open_activations 0 es /\
  (rps_guard_enter d).1 = (open_activations 0 es =? 0).
Proof.
  assert (forall d0, d0 = 0 \/ d0 = 1 -> guard_run d0 es d ->
    (d = 0 \/ d = 1) /\ d = open_activations d0 es) as H.
  { intros d0 H0 Hr. revert H0. induction Hr as [d|d e d1 es d2 Hs _ IH]; intros H0; [done|].
    inversion Hs as [? b ? He|? ? Hl]; subst; destruct H0 as [->| ->];
      injection He || injection Hl; intros; subst; apply IH; auto. }
  intros Hr. destruct (H 0 (or_introl eq_refl) Hr) as [H01 Ho].
  split; [done|]. split; [done|]. rewrite <-Ho.
  destruct H01 as [->| ->]; reflexivity.
Qed.

Lemma guard_exclusive_witness :
  let es := [Enter true; Enter false; Leave; Leave; Enter true] in
  (1 = 0 \/ 1 = 1) /\ 1 = open_activations 0 es /\
  (rps_guard_enter 1).1 = (open_activations 0 es =? 0).
Proof.
  intros es. apply (guard_exclusive es 1). unfold es.
  eapply run_cons; [apply step_enter; reflexivity|].
  eapply run_cons; [apply step_enter; reflexivity|].
  eapply run_cons; [apply step_leave; reflexivity|].
  eapply run_cons; [apply step_leave; reflexivity|].
  eapply run_cons; [apply step_enter; reflexivity|].
  apply run_nil.
Defined.
