(* ===== verification/FdTable.v ===== *)
(** The interface of a descriptor table: what the interposed [close] and [dup]
    calls ([preload.c]) rely on in the two tables the shim keeps, the
    virtual files ([core/fd_map.c]) and the GPU descriptors
    ([gpu/fd_tracker.c]).  Each table is an instance. *)

From S2P Require Import Prelude.

#[local] Open Scope Z_scope.

Class FdTable (T V : Type) := {
  ft_wf : T -> Prop;
  ft_view : T -> gmap Z V;
  ft_remove : Z -> T -> T;
  ft_remove_wf : forall fd t, ft_wf t -> ft_wf (ft_remove fd t);
  ft_remove_view : forall fd t, ft_wf t -> ft_view (ft_remove fd t) = delete fd (ft_view t)
}.

Section interface.
Context `{FdTable T V}.
Implicit Types (t : T) (fd : Z).

Lemma ft_removed (fd : Z) (t : T) : ft_wf t -> ft_view (ft_remove fd t) !! fd = None.
Proof. intros Hwf. rewrite ft_remove_view by done. apply lookup_delete_eq. Qed.

Lemma ft_remove_ne (fd fd' : Z) (t : T) :
  ft_wf t -> fd <> fd' -> ft_view (ft_remove fd t) !! fd' = ft_view t !! fd'.
Proof. intros Hwf Hne. rewrite ft_remove_view by done. by apply lookup_delete_ne. Qed.

(** Removing a descriptor twice is removing it once. *)
Lemma ft_remove_twice (fd : Z) (t : T) :
  ft_wf t -> ft_view (ft_remove fd (ft_remove fd t)) = ft_view (ft_remove fd t).
Proof.
  intros Hwf. rewrite ft_remove_view by by apply ft_remove_wf.
  apply delete_id. by apply ft_removed.
Qed.
End interface.

#[export] Hint Resolve ft_remove_wf ft_removed : shim.
