(* ===== verification/FdMap.v ===== *)
(** The virtual-file table ([core/fd_map.c]): 64 slots that map a file
    descriptor to the bytes the shim serves for it and a read offset.

    The operations are modelled on the table itself; [fd_view] abstracts a
    table to the finite map from descriptors to the bytes not read yet, and
    the refinement theorems state the operations on that map. *)

From S2P Require Import Prelude CString FdTable.

#[local] Open Scope Z_scope.

Definition RPS_FD_MAP_CAPACITY : nat := 64.

(** [struct rps_fd_map_entry]; a NULL [data] is the empty list (its [len] is 0). *)
Record entry := Entry {
  e_active : bool;
  e_fd : Z;
  e_data : list ascii;
  e_len : Z;
  e_offset : Z
}.

(** The static [entries], zero-initialised. *)
Definition entries_start : list entry :=
  replicate RPS_FD_MAP_CAPACITY (Entry false 0 [] 0 0).

(** What [clear_entry] leaves in a slot. *)
Definition clear_entry : entry := Entry false (-1) [] 0 0.

Definition entry_holds (fd : Z) (e : entry) : bool := e_active e && (e_fd e =? fd).

(** [data = None] is a NULL pointer; [lock_ok] and [malloc_ok] say whether
    [pthread_mutex_lock] and [malloc] succeed. *)
Definition rps_fd_map_put (lock_ok malloc_ok : bool)
    (fd : Z) (data : option (list ascii)) (len : Z) (entries : list entry)
    : bool * list entry :=
  if (fd <? 0) || (bool_decide (data = None) && (0 <? len)) then (false, entries)
  else if (0 <? len) && negb malloc_ok then (false, entries)
  else
    let copy := if 0 <? len then take (Z.to_nat len) (default [] data) else [] in
    if negb lock_ok then (false, entries)
    else
      let '(slot, entries) :=
        match find_index (entry_holds fd) entries with
        | Some i => (Some i, <[i := clear_entry]> entries)
        | None => (find_index (fun e => negb (e_active e)) entries, entries)
        end in
      match slot with
      | None => (false, entries)
      | Some i => (true, <[i := Entry true fd copy len 0]> entries)
      end.

(** The result is [*out] and the bytes copied to [buf] when the descriptor is
    tracked.  The conversion of the count to [ssize_t] is the identity: no
    buffer holds 2^63 bytes. *)
Definition rps_fd_map_take_read (lock_ok : bool)
    (fd : Z) (buf_null : bool) (count : Z) (out_null : bool) (entries : list entry)
    : option (Z * list ascii) * list entry :=
  if (buf_null && (0 <? count)) || out_null then (None, entries)
  else if negb lock_ok then (None, entries)
  else
    match find_index (entry_holds fd) entries with
    | None => (None, entries)
    | Some i =>
        match entries !! i with
        | None => (None, entries)
        | Some e =>
            let remaining := u64 (e_len e - e_offset e) in
            let nread := if remaining <? count then remaining else count in
            if 0 <? nread then
              (Some (nread, take (Z.to_nat nread) (drop (Z.to_nat (e_offset e)) (e_data e))),
               <[i := Entry (e_active e) (e_fd e) (e_data e) (e_len e) (u64 (e_offset e + nread))]> entries)
            else (Some (nread, []), entries)
        end
    end.

Definition rps_fd_map_remove (lock_ok : bool) (fd : Z) (entries : list entry) : list entry :=
  if negb lock_ok then entries
  else match find_index (entry_holds fd) entries with
       | Some i => <[i := clear_entry]> entries
       | None => entries
       end.

(** ** Invariant and abstraction *)

Definition entry_wf (e : entry) : Prop :=
  e_len e = Z.of_nat (length (e_data e)) /\ 0 <= e_offset e <= e_len e /\
  e_len e <= UINT64_MAX /\ (e_active e = true -> 0 <= e_fd e).

(** The bytes a slot still has to deliver. *)
Definition entry_rest (e : entry) : list ascii := drop (Z.to_nat (e_offset e)) (e_data e).

(** The tracked descriptors, in slot order, with their unread bytes. *)
Definition entry_view (e : entry) : option (Z * list ascii) :=
  if e_active e then Some (e_fd e, entry_rest e) else None.
Definition tracked (t : list entry) : list (Z * list ascii) := omap entry_view t.

(** The abstraction: descriptor |-> unread bytes. *)
Definition fd_view (t : list entry) : gmap Z (list ascii) := list_to_map (tracked t).

Record table_wf (t : list entry) : Prop := {
  twf_length : length t = RPS_FD_MAP_CAPACITY;
  twf_entries : Forall entry_wf t;
  twf_nodup : NoDup (tracked t).*1
}.

(** ** The specification: operations on the abstract map *)

Definition spec_put (fd : Z) (data : list ascii) (m : gmap Z (list ascii))
    : bool * gmap Z (list ascii) :=
  if bool_decide (is_Some (m !! fd)) || (size m <? RPS_FD_MAP_CAPACITY)%nat
  then (true, <[fd := data]> m) else (false, m).

Definition spec_read (fd count : Z) (m : gmap Z (list ascii))
    : option (Z * list ascii) * gmap Z (list ascii) :=
  match m !! fd with
  | None => (None, m)
  | Some rest =>
      let got := take (Z.to_nat count) rest in
      (Some (Z.of_nat (length got), got), <[fd := drop (Z.to_nat count) rest]> m)
  end.

(** ** Lemmas on slots *)

Lemma tracked_app (l1 l2 : list entry) : tracked (l1 ++ l2) = tracked l1 ++ tracked l2.
Proof. apply omap_app. Qed.

Lemma tracked_length (t : list entry) : (length (tracked t) <= length t)%nat.
Proof.
  induction t as [|e t IH]; simpl; [done|].
  unfold tracked in *. simpl. destruct (entry_view e); simpl; lia.
Qed.

Lemma tracked_full (t : list entry) :
  length (tracked t) = length t <-> Forall (fun e => e_active e = true) t.
Proof.
  induction t as [|e t IH]; simpl; [by split|].
  rewrite Forall_cons. pose proof (tracked_length t) as Hle.
  unfold tracked, entry_view in *. simpl. destruct (e_active e); simpl.
  - rewrite <-IH. split; [intros [= ->]; by split|intros [_ ->]; done].
  - split; [lia|by intros [? _]].
Qed.

Lemma tracked_not_held (fd : Z) (t : list entry) :
  Forall (fun e => entry_holds fd e = false) t -> fd ∉ (tracked t).*1.
Proof.
  induction 1 as [|e t He _ IH]; simpl; [apply not_elem_of_nil|].
  unfold tracked, entry_view, entry_holds in *. simpl.
  destruct (e_active e); simpl in *; [|done].
  apply not_elem_of_cons. split; [|done]. intros ->. by rewrite Z.eqb_refl in He.
Qed.

Lemma list_to_map_middle (l1 l2 : list (Z * list ascii)) (k : Z) (v : list ascii) :
  NoDup (l1 ++ (k, v) :: l2).*1 ->
  (list_to_map (l1 ++ (k, v) :: l2) : gmap Z (list ascii)) = <[k := v]> (list_to_map (l1 ++ l2)) /\
  (list_to_map (l1 ++ l2) : gmap Z (list ascii)) !! k = None.
Proof.
  intros Hnd. assert (l1 ++ (k, v) :: l2 ≡ₚ (k, v) :: l1 ++ l2) as Hp
    by (symmetry; apply Permutation_middle).
  split.
  - by rewrite (list_to_map_proper _ _ Hnd Hp).
  - apply not_elem_of_list_to_map_1. rewrite Hp in Hnd. by apply NoDup_cons in Hnd as [? _].
Qed.

Lemma fd_view_split (l1 l2 : list entry) (e : entry) :
  NoDup (tracked (l1 ++ e :: l2)).*1 -> e_active e = true ->
  fd_view (l1 ++ e :: l2) = <[e_fd e := entry_rest e]> (list_to_map (tracked l1 ++ tracked l2)) /\
  (list_to_map (tracked l1 ++ tracked l2) : gmap Z (list ascii)) !! e_fd e = None.
Proof.
  intros Hnd Ha. unfold fd_view. rewrite tracked_app in *.
  unfold tracked in *. simpl in *. unfold entry_view in *. rewrite Ha in *.
  by apply list_to_map_middle.
Qed.

Lemma fd_view_inactive (l1 l2 : list entry) (e : entry) :
  e_active e = false -> tracked (l1 ++ e :: l2) = tracked l1 ++ tracked l2.
Proof.
  intros Ha. rewrite tracked_app. unfold tracked, entry_view. simpl. by rewrite Ha.
Qed.

Lemma tracked_active (l1 l2 : list entry) (e : entry) :
  e_active e = true ->
  tracked (l1 ++ e :: l2) = tracked l1 ++ (e_fd e, entry_rest e) :: tracked l2.
Proof.
  intros Ha. rewrite tracked_app. unfold tracked, entry_view. simpl. by rewrite Ha.
Qed.

Lemma entry_holds_spec (fd : Z) (e : entry) :
  entry_holds fd e = true <-> e_active e = true /\ e_fd e = fd.
Proof. unfold entry_holds. rewrite andb_true_iff, Z.eqb_eq. done. Qed.

Lemma size_fd_view (t : list entry) :
  NoDup (tracked t).*1 -> size (fd_view t) = length (tracked t).
Proof. intros H. unfold fd_view. by apply map_size_list_to_map. Qed.

(** A slot found for [fd]: the view has its bytes. *)
Lemma fd_view_held (fd : Z) (t : list entry) (i : nat) :
  table_wf t -> find_index (entry_holds fd) t = Some i ->
  exists e, t !! i = Some e /\ entry_holds fd e = true /\ entry_wf e /\
    fd_view t !! fd = Some (entry_rest e).
Proof.
  intros Hwf H. apply find_index_split in H as (l1 & e & l2 & -> & Hi & He & _).
  exists e. split; [by apply lookup_middle|]. split; [done|].
  destruct Hwf as [_ Hall Hnd]. split.
  { rewrite Forall_app, Forall_cons in Hall. by destruct Hall as (_ & ? & _). }
  apply entry_holds_spec in He as [Ha <-].
  destruct (fd_view_split l1 l2 e Hnd Ha) as [-> _]. apply lookup_insert_eq.
Qed.

Lemma fd_view_not_held (fd : Z) (t : list entry) :
  find_index (entry_holds fd) t = None -> fd_view t !! fd = None.
Proof.
  intros H. apply not_elem_of_list_to_map_1, tracked_not_held. by apply find_index_None_Forall.
Qed.

Lemma fd_view_held_iff (fd : Z) (t : list entry) :
  table_wf t ->
  bool_decide (is_Some (fd_view t !! fd)) =
  match find_index (entry_holds fd) t with Some _ => true | None => false end.
Proof.
  intros Hwf. destruct (find_index _ t) as [i|] eqn:E.
  - apply bool_decide_eq_true. destruct (fd_view_held _ _ _ Hwf E) as (e & _ & _ & _ & ->). eauto.
  - apply bool_decide_eq_false. rewrite (fd_view_not_held _ _ E). by intros [? ?].
Qed.

(** Writing an active entry for [fd] into the slot [fd] has, or into a free
    slot when it has none. *)
Lemma fill_slot (l1 l2 : list entry) (e e' : entry) :
  table_wf (l1 ++ e :: l2) -> entry_wf e' -> e_active e' = true ->
  (e_active e = true /\ e_fd e = e_fd e' \/
   e_active e = false /\ e_fd e' ∉ (tracked (l1 ++ e :: l2)).*1) ->
  table_wf (l1 ++ e' :: l2) /\
  fd_view (l1 ++ e' :: l2) = <[e_fd e' := entry_rest e']> (fd_view (l1 ++ e :: l2)).
Proof.
  intros [Hlen Hall Hnd] Hwf' Ha' Hcase.
  assert (NoDup (tracked (l1 ++ e' :: l2)).*1) as Hnd'.
  { rewrite tracked_active, fmap_app, fmap_cons by done. simpl.
    destruct Hcase as [[Ha Hf]|[Ha Hf]].
    - rewrite tracked_active, fmap_app, fmap_cons in Hnd by done. simpl in Hnd. by rewrite <-Hf.
    - rewrite fd_view_inactive, fmap_app in Hf, Hnd by done.
      rewrite <-Permutation_middle. by apply NoDup_cons. }
  split.
  { split; [by rewrite !length_app in *|..|done].
    rewrite Forall_app, Forall_cons in Hall. destruct Hall as (? & _ & ?).
    by rewrite Forall_app, Forall_cons. }
  destruct (fd_view_split l1 l2 e' Hnd' Ha') as [-> _].
  destruct Hcase as [[Ha Hf]|[Ha Hf]].
  - destruct (fd_view_split l1 l2 e Hnd Ha) as [-> _]. rewrite Hf. by rewrite insert_insert_eq.
  - unfold fd_view. by rewrite fd_view_inactive by done.
Qed.

Lemma clear_entry_wf : entry_wf clear_entry.
Proof. unfold entry_wf, clear_entry, UINT64_MAX. simpl. repeat split; try lia; done. Qed.

Lemma clear_slot (l1 l2 : list entry) (e : entry) :
  table_wf (l1 ++ e :: l2) -> e_active e = true ->
  table_wf (l1 ++ clear_entry :: l2) /\
  fd_view (l1 ++ clear_entry :: l2) = delete (e_fd e) (fd_view (l1 ++ e :: l2)).
Proof.
  intros [Hlen Hall Hnd] Ha. destruct (fd_view_split l1 l2 e Hnd Ha) as [Hv Hnone].
  rewrite tracked_active, fmap_app, fmap_cons in Hnd by done.
  rewrite <-Permutation_middle in Hnd. apply NoDup_cons in Hnd as [_ Hnd].
  split.
  - split; [by rewrite !length_app in *|..].
    + rewrite Forall_app, Forall_cons in Hall. destruct Hall as (? & _ & ?).
      rewrite Forall_app, Forall_cons. auto using clear_entry_wf.
    + by rewrite fd_view_inactive, fmap_app by done.
  - rewrite Hv. unfold fd_view. rewrite fd_view_inactive by done.
    by rewrite delete_insert_id by done.
Qed.

(** ** Each operation against its specification *)

(** The bytes a caller passes to [rps_fd_map_put]. *)
Definition put_bytes (data : option (list ascii)) (len : Z) : list ascii :=
  take (Z.to_nat len) (default [] data).

(** A call the C contract allows: [len] is a [size_t] and [data] holds at
    least [len] bytes (NULL only when the call has none to copy). *)
Definition put_args_ok (data : option (list ascii)) (len : Z) : Prop :=
  0 <= len <= UINT64_MAX /\
  match data with Some d => len <= Z.of_nat (length d) | None => True end.

Lemma put_copy_eq (data : option (list ascii)) (len : Z) :
  0 <= len -> (if 0 <? len then take (Z.to_nat len) (default [] data) else []) = put_bytes data len.
Proof.
  intros H. unfold put_bytes. destruct (Z.ltb_spec 0 len); [done|].
  by replace len with 0 by lia.
Qed.

Lemma put_bytes_length (data : option (list ascii)) (len : Z) :
  put_args_ok data len -> (data = None -> len <= 0) -> Z.of_nat (length (put_bytes data len)) = len.
Proof.
  intros [Hl Hd] Hn. unfold put_bytes. rewrite length_take. destruct data as [d|]; simpl; [lia|].
  specialize (Hn eq_refl). lia.
Qed.

Lemma free_slot_iff (t : list entry) :
  table_wf t ->
  match find_index (fun e => negb (e_active e)) t with Some _ => true | None => false end =
  (size (fd_view t) <? RPS_FD_MAP_CAPACITY)%nat.
Proof.
  intros [Hlen _ Hnd]. rewrite (size_fd_view _ Hnd), <-Hlen.
  pose proof (tracked_length t) as Hle.
  destruct (find_index _ t) as [i|] eqn:E; symmetry.
  - apply Nat.ltb_lt. apply find_index_split in E as (l1 & e & l2 & -> & _ & He & _).
    apply negb_true_iff in He.
    destruct (decide (length (tracked (l1 ++ e :: l2)) = length (l1 ++ e :: l2))) as [Heq|]; [|lia].
    apply tracked_full in Heq. rewrite Forall_app, Forall_cons in Heq.
    destruct Heq as (_ & Ha & _). congruence.
  - apply Nat.ltb_ge. apply find_index_None_Forall in E.
    cut (length (tracked t) = length t); [lia|]. apply tracked_full.
    eapply Forall_impl; [exact E|]. intros e He. by apply negb_false_iff.
Qed.

Lemma put_refines (fd len : Z) (data : option (list ascii)) (t : list entry) :
  table_wf t -> put_args_ok data len ->
  let '(ok, t') := rps_fd_map_put true true fd data len t in
  table_wf t' /\
  (ok, fd_view t') =
    if (fd <? 0) || (bool_decide (data = None) && (0 <? len)) then (false, fd_view t)
    else spec_put fd (put_bytes data len) (fd_view t).
Proof.
  intros Hwf Hargs. unfold rps_fd_map_put. rewrite andb_false_r.
  destruct ((fd <? 0) || _) eqn:Hbad; [done|]. to_prop.
  assert (data = None -> len <= 0) as Hnone.
  { intros ->. destruct H0 as [H0|H0]; [by rewrite bool_decide_eq_true_2 in H0|by apply Z.ltb_ge]. }
  rewrite put_copy_eq by apply Hargs. simpl. unfold spec_put.
  rewrite fd_view_held_iff, <-free_slot_iff by done.
  set (e' := Entry true fd (put_bytes data len) len 0).
  assert (entry_wf e') as Hwf'.
  { unfold entry_wf, e'. simpl. rewrite put_bytes_length by done. destruct Hargs. lia. }
  destruct (find_index (entry_holds fd) t) as [i|] eqn:E; simpl.
  - rewrite list_insert_insert_eq.
    apply find_index_split in E as (l1 & e & l2 & -> & Hi & He & _).
    rewrite insert_middle by done. apply entry_holds_spec in He as [Ha Hf].
    by destruct (fill_slot l1 l2 e e' Hwf Hwf' eq_refl (or_introl (conj Ha Hf))) as [? ->].
  - destruct (find_index (fun e => negb (e_active e)) t) as [i|] eqn:E2; simpl; [|done].
    apply find_index_None_Forall, tracked_not_held in E.
    apply find_index_split in E2 as (l1 & e & l2 & -> & Hi & He & _).
    rewrite insert_middle by done. apply negb_true_iff in He.
    by destruct (fill_slot l1 l2 e e' Hwf Hwf' eq_refl (or_intror (conj He E))) as [? ->].
Qed.

Lemma put_failed_alloc (lock_ok malloc_ok : bool) (fd len : Z) (data : option (list ascii))
    (t : list entry) :
  lock_ok && (malloc_ok || (len <=? 0)) = false ->
  rps_fd_map_put lock_ok malloc_ok fd data len t = (false, t).
Proof.
  intros H. unfold rps_fd_map_put. destruct ((fd <? 0) || _); [done|].
  destruct lock_ok, malloc_ok; simpl in H; try done; destruct (0 <? len) eqn:E; simpl; try done.
  to_prop. lia.
Qed.

Lemma read_refines (fd count : Z) (buf_null : bool) (t : list entry) :
  table_wf t -> 0 <= count <= UINT64_MAX -> buf_null && (0 <? count) = false ->
  let '(r, t') := rps_fd_map_take_read true fd buf_null count false t in
  table_wf t' /\ (r, fd_view t') = spec_read fd count (fd_view t).
Proof.
  intros Hwf Hc Hbuf. unfold rps_fd_map_take_read. rewrite Hbuf. simpl. unfold spec_read.
  destruct (find_index (entry_holds fd) t) as [i|] eqn:E; [|by rewrite (fd_view_not_held _ _ E)].
  destruct (fd_view_held _ _ _ Hwf E) as (e & He & Hh & (Hlen & Hoff & Hmax & Hfd) & Hv).
  rewrite He, Hv. apply entry_holds_spec in Hh as [Ha Hf].
  rewrite u64_small by lia.
  assert (Z.of_nat (length (entry_rest e)) = e_len e - e_offset e) as Hrest
    by (unfold entry_rest; rewrite length_drop; lia).
  set (n := if e_len e - e_offset e <? count then e_len e - e_offset e else count).
  assert (n = Z.min (e_len e - e_offset e) count) as Hn
    by (unfold n; destruct (Z.ltb_spec (e_len e - e_offset e) count); lia).
  assert (take (Z.to_nat count) (entry_rest e) = take (Z.to_nat n) (entry_rest e)) as Htake.
  { destruct (Z.leb_spec (e_len e - e_offset e) count).
    - rewrite !take_ge by lia. done.
    - f_equal; f_equal; lia. }
  rewrite Htake.
  assert (Z.of_nat (length (take (Z.to_nat n) (entry_rest e))) = n) as ->
    by (rewrite length_take; lia).
  destruct (Z.ltb_spec 0 n) as [Hpos|Hz].
  - rewrite u64_small by lia. fold (entry_rest e).
    set (e' := Entry _ _ _ _ _).
    apply find_index_split in E as (l1 & e0 & l2 & -> & Hi & _ & _).
    rewrite lookup_middle in He by done. injection He as ->.
    rewrite insert_middle by done.
    assert (entry_wf e') as Hwf' by (unfold entry_wf, e'; simpl; repeat split; auto; lia).
    destruct (fill_slot l1 l2 e e' Hwf Hwf' Ha (or_introl (conj Ha eq_refl))) as [? ->].
    split; [done|]. unfold e' at 1. simpl. rewrite Hf. f_equal. f_equal.
    unfold entry_rest, e'. simpl. rewrite drop_drop.
    destruct (Z.leb_spec (e_len e - e_offset e) count).
    + rewrite !drop_ge by lia. done.
    + f_equal. lia.
  - split; [done|]. replace (Z.to_nat n) with 0%nat by lia. replace n with 0 by lia. simpl. f_equal.
    symmetry. apply insert_id. rewrite Hv. f_equal.
    destruct (decide (count = 0)) as [->|]; [by rewrite drop_0|].
    rewrite drop_ge by lia. by apply nil_length_inv; lia.
Qed.

Lemma remove_refines (fd : Z) (t : list entry) :
  table_wf t ->
  table_wf (rps_fd_map_remove true fd t) /\
  fd_view (rps_fd_map_remove true fd t) = delete fd (fd_view t).
Proof.
  intros Hwf. unfold rps_fd_map_remove. simpl.
  destruct (find_index (entry_holds fd) t) as [i|] eqn:E.
  - apply find_index_split in E as (l1 & e & l2 & -> & Hi & He & _).
    apply entry_holds_spec in He as [Ha <-]. rewrite insert_middle by done.
    by apply clear_slot.
  - split; [done|]. symmetry. by apply delete_id, fd_view_not_held.
Qed.

Lemma entries_start_wf : table_wf entries_start.
Proof.
  split; [done| |].
  - apply Forall_replicate. unfold entry_wf, UINT64_MAX. simpl. repeat split; try lia; done.
  - apply NoDup_nil_2.
Qed.

(** Whatever the lock and the allocator do, the table stays well formed. *)
Lemma put_wf (lock_ok malloc_ok : bool) (fd len : Z) (data : option (list ascii)) (t : list entry) :
  table_wf t -> put_args_ok data len -> table_wf (rps_fd_map_put lock_ok malloc_ok fd data len t).2.
Proof.
  intros Hwf Hargs. destruct (lock_ok && (malloc_ok || (len <=? 0))) eqn:E.
  - apply andb_true_iff in E as [-> E].
    assert (rps_fd_map_put true malloc_ok fd data len t = rps_fd_map_put true true fd data len t) as ->.
    { unfold rps_fd_map_put. destruct malloc_ok; [done|]. cbn [orb] in E. to_prop.
      by rewrite (proj2 (Z.ltb_ge 0 len)). }
    pose proof (put_refines fd len data t Hwf Hargs) as H.
    destruct (rps_fd_map_put true true fd data len t). by destruct H.
  - by rewrite put_failed_alloc.
Qed.

Lemma read_wf (lock_ok : bool) (fd count : Z) (buf_null : bool) (t : list entry) :
  table_wf t -> 0 <= count <= UINT64_MAX ->
  table_wf (rps_fd_map_take_read lock_ok fd buf_null count false t).2.
Proof.
  intros Hwf Hc. destruct (buf_null && (0 <? count)) eqn:Hb.
  { unfold rps_fd_map_take_read. by rewrite Hb. }
  destruct lock_ok; [|unfold rps_fd_map_take_read; by rewrite Hb].
  pose proof (read_refines fd count buf_null t Hwf Hc Hb) as H.
  destruct (rps_fd_map_take_read true fd buf_null count false t). by destruct H.
Qed.

Lemma remove_wf (lock_ok : bool) (fd : Z) (t : list entry) :
  table_wf t -> table_wf (rps_fd_map_remove lock_ok fd t).
Proof. intros Hwf. destruct lock_ok; [by apply remove_refines|done]. Qed.

(** The table is one of the descriptor tables [close] clears (its lock is
    taken successfully). *)
#[export] Instance fd_map_table : FdTable (list entry) (list ascii) := {|
  ft_wf := table_wf;
  ft_view := fd_view;
  ft_remove := rps_fd_map_remove true;
  ft_remove_wf fd t Hwf := proj1 (remove_refines fd t Hwf);
  ft_remove_view fd t Hwf := proj2 (remove_refines fd t Hwf)
|}.

(** ** Traces of operations *)

Inductive fd_op :=
| OpPut (fd : Z) (data : option (list ascii)) (len : Z)
| OpRead (fd : Z) (buf_null : bool) (count : Z)
| OpRemove (fd : Z).

Inductive fd_result :=
| RPut (ok : bool)
| RRead (got : option (Z * list ascii))
| RRemove.

Definition exec (op : fd_op) (t : list entry) : fd_result * list entry :=
  match op with
  | OpPut fd data len => let '(ok, t') := rps_fd_map_put true true fd data len t in (RPut ok, t')
  | OpRead fd b n => let '(r, t') := rps_fd_map_take_read true fd b n false t in (RRead r, t')
  | OpRemove fd => (RRemove, rps_fd_map_remove true fd t)
  end.

Definition spec_exec (op : fd_op) (m : gmap Z (list ascii)) : fd_result * gmap Z (list ascii) :=
  match op with
  | OpPut fd data len =>
      if (fd <? 0) || (bool_decide (data = None) && (0 <? len)) then (RPut false, m)
      else let '(ok, m') := spec_put fd (put_bytes data len) m in (RPut ok, m')
  | OpRead fd b n => let '(r, m') := spec_read fd n m in (RRead r, m')
  | OpRemove fd => (RRemove, delete fd m)
  end.

(** Calls the C contract allows. *)
Definition op_ok (op : fd_op) : Prop :=
  match op with
  | OpPut _ data len => put_args_ok data len
  | OpRead _ b n => 0 <= n <= UINT64_MAX /\ b && (0 <? n) = false
  | OpRemove _ => True
  end.

(** Run a list of operations, collecting the results. *)
Fixpoint run {S R : Type} (step : fd_op -> S -> R * S) (ops : list fd_op) (s : S) : list R * S :=
  match ops with
  | [] => ([], s)
  | op :: ops' => let '(r, s1) := step op s in let '(rs, s2) := run step ops' s1 in (r :: rs, s2)
  end.

Lemma exec_refines (op : fd_op) (t : list entry) :
  table_wf t -> op_ok op ->
  table_wf (exec op t).2 /\
  spec_exec op (fd_view t) = ((exec op t).1, fd_view (exec op t).2).
Proof.
  intros Hwf Hok. destruct op as [fd data len|fd b n|fd]; simpl in *.
  - pose proof (put_refines fd len data t Hwf Hok) as H.
    destruct (rps_fd_map_put true true fd data len t) as [ok t']. simpl.
    destruct H as [? H]. split; [done|].
    destruct ((fd <? 0) || _); [by injection H as -> ->|]. by rewrite <-H.
  - destruct Hok as [Hn Hb]. pose proof (read_refines fd n b t Hwf Hn Hb) as H.
    destruct (rps_fd_map_take_read true fd b n false t) as [r t']. simpl.
    destruct H as [? H]. split; [done|]. by rewrite <-H.
  - destruct (remove_refines fd t Hwf) as [? ->]. done.
Qed.

Lemma run_refines (ops : list fd_op) (t : list entry) :
  table_wf t -> Forall op_ok ops ->
  table_wf (run exec ops t).2 /\
  run spec_exec ops (fd_view t) = ((run exec ops t).1, fd_view (run exec ops t).2).
Proof.
  intros Hwf Hok. revert t Hwf. induction Hok as [|op ops Hop _ IH]; intros t Hwf; simpl; [done|].
  destruct (exec_refines op t Hwf Hop) as [Hwf1 ->].
  destruct (exec op t) as [r t1]. simpl in *.
  destruct (IH t1 Hwf1) as [Hwf2 ->]. by destruct (run exec ops t1) as [rs t2].
Qed.

(** The operation neither attaches nor drops [fd]. *)
Definition op_keeps (fd : Z) (op : fd_op) : bool :=
  match op with
  | OpPut fd' _ _ | OpRemove fd' => negb (fd' =? fd)
  | OpRead _ _ _ => true
  end.

(** The bytes the reads of [fd] returned, in order. *)
Fixpoint delivered (fd : Z) (ops : list fd_op) (rs : list fd_result) : list ascii :=
  match ops, rs with
  | OpRead fd' _ _ :: ops', RRead (Some (_, got)) :: rs' =>
      (if fd' =? fd then got else []) ++ delivered fd ops' rs'
  | _ :: ops', _ :: rs' => delivered fd ops' rs'
  | _, _ => []
  end.

(** The bytes the reads of [fd] asked for. *)
Fixpoint requested (fd : Z) (ops : list fd_op) : nat :=
  match ops with
  | OpRead fd' _ n :: ops' => (if (fd' =? fd)%Z then Z.to_nat n else 0) + requested fd ops'
  | _ :: ops' => requested fd ops'
  | [] => 0
  end%nat.

Lemma take_drop_app {A} (n m : nat) (l : list A) :
  take n l ++ take m (drop n l) = take (n + m) l.
Proof. by rewrite take_take_drop. Qed.

Lemma spec_exec_keeps (fd : Z) (op : fd_op) (m : gmap Z (list ascii)) (rest : list ascii) :
  m !! fd = Some rest -> op_keeps fd op = true ->
  (spec_exec op m).2 !! fd = Some (drop (requested fd [op]) rest).
Proof.
  intros Hm Hk. destruct op as [fd' data len|fd' b n|fd']; simpl in *; to_prop.
  - destruct ((fd' <? 0) || _); [done|]. unfold spec_put.
    destruct (bool_decide (is_Some (m !! fd')) || _); simpl; [|done].
    by rewrite lookup_insert_ne.
  - unfold spec_read. destruct (Z.eqb_spec fd' fd) as [->|Hne].
    + rewrite Hm. simpl. rewrite lookup_insert_eq, Nat.add_0_r. done.
    + destruct (m !! fd'); simpl; [by rewrite lookup_insert_ne|done].
  - by rewrite lookup_delete_ne.
Qed.

Lemma spec_run_delivers (fd : Z) (ops : list fd_op) (m : gmap Z (list ascii)) (rest : list ascii) :
  m !! fd = Some rest -> forallb (op_keeps fd) ops = true ->
  delivered fd ops (run spec_exec ops m).1 = take (requested fd ops) rest.
Proof.
  revert m rest. induction ops as [|op ops IH]; intros m rest Hm Hk; [done|].
  simpl in Hk. apply andb_true_iff in Hk as [Hop Hk].
  pose proof (spec_exec_keeps fd op m rest Hm Hop) as Hnext.
  simpl. destruct (spec_exec op m) as [r m1] eqn:E. simpl in Hnext.
  specialize (IH m1 _ Hnext Hk). destruct (run spec_exec ops m1) as [rs m2] eqn:E2. simpl in *.
  destruct op as [fd' data len|fd' b n|fd']; try (by rewrite drop_0 in IH).
  cbn [requested] in IH. simpl in E. unfold spec_read in E.
  destruct (Z.eqb_spec fd' fd) as [->|Hne].
  - rewrite Hm in E. injection E as <- <-. rewrite IH, Nat.add_0_r. apply take_drop_app.
  - rewrite drop_0 in IH. destruct (m !! fd'); by injection E as <- <-.
Qed.

(** ** Properties *)

(** C6: the virtual-file table refines a finite map.  From the zero-initialised
    table, every sequence of attach, read and remove calls (under their C
    contract) gives the results the abstract map gives, ends in a table whose
    view is the abstract map, and keeps the table well formed: 64 slots, each
    descriptor in at most one of them, offsets inside the data. *)
Theorem fd_map_refines (ops : list fd_op) :
  Forall op_ok ops ->
  table_wf (run exec ops entries_start).2 /\
  run spec_exec ops ∅ = ((run exec ops entries_start).1, fd_view (run exec ops entries_start).2).
Proof. apply run_refines, entries_start_wf. Qed.

Lemma fd_map_refines_witness :
  run spec_exec [OpPut 3 (Some (cs "MemTotal")) 8; OpRead 3 false 3; OpRead 3 false 64; OpRemove 3] ∅ =
  ([RPut true; RRead (Some (3, cs "Mem")); RRead (Some (5, cs "Total")); RRemove], ∅).
Proof.
  refine (eq_trans (proj2 (fd_map_refines _ _)) _).
  - repeat constructor; simpl; unfold UINT64_MAX; lia.
  - vm_compute. reflexivity.
Defined.

(** Reads are sequential and isolated.  Once [fd] is attached, whatever
    other descriptors are attached, read and removed in between, the reads of
    [fd] deliver the attached bytes in order, without loss or repetition, up
    to the number of bytes asked for or the end of the data. *)
Theorem fd_map_delivers (fd : Z) (data : list ascii) (ops : list fd_op) (t t1 : list entry) :
  table_wf t -> Z.of_nat (length data) <= UINT64_MAX -> Forall op_ok ops ->
  forallb (op_keeps fd) ops = true ->
  rps_fd_map_put true true fd (Some data) (Z.of_nat (length data)) t = (true, t1) ->
  delivered fd ops (run exec ops t1).1 = take (requested fd ops) data.
Proof.
  intros Hwf Hlen Hok Hk Hput.
  pose proof (put_refines fd (Z.of_nat (length data)) (Some data) t Hwf) as H.
  rewrite Hput in H. destruct H as [Hwf1 Hv]; [split; lia|].
  destruct ((fd <? 0) || _); [done|]. unfold spec_put in Hv.
  destruct (bool_decide (is_Some _) || _); [|done]. injection Hv as Hv.
  destruct (run_refines ops t1 Hwf1 Hok) as [_ Hr].
  rewrite <-(f_equal fst Hr : _ = (run exec ops t1).1). apply spec_run_delivers; [|done].
  rewrite Hv. unfold put_bytes. simpl. rewrite Nat2Z.id, firstn_all. apply lookup_insert_eq.
Qed.

Lemma fd_map_delivers_witness :
  let ops := [OpRead 5 false 2; OpPut 6 (Some (cs "zz")) 2; OpRead 6 false 1; OpRead 5 false 9] in
  let t1 := (rps_fd_map_put true true 5 (Some (cs "abcdef")) 6 entries_start).2 in
  delivered 5 ops (run exec ops t1).1 = cs "abcdef".
Proof.
  intros ops t1. refine (eq_trans (fd_map_delivers 5 (cs "abcdef") ops entries_start t1 _ _ _ _ _) _).
  - apply entries_start_wf.
  - vm_compute. discriminate.
  - repeat constructor; simpl; unfold UINT64_MAX; lia.
  - reflexivity.
  - reflexivity.
  - reflexivity.
Defined.
