(* ===== verification/Paths.v ===== *)
(** Path construction ([core/paths.c]): the location of a procfs file and of a
    control file of a cgroup, with the test roots the environment can set.
    The [written] counts are those of [snprintf]; a path that does not fit its
    buffer is refused. *)

From S2P Require Import Prelude CString.

#[local] Open Scope Z_scope.

Definition clean_rel (path : cstr) : cstr := drop_while (fun c => char_eqb c SLASH) path.

Definition clean_proc_rel (path : cstr) : cstr :=
  let proc_self := cs "/proc/self/" in
  if has_prefix proc_self path then drop (length proc_self) path else clean_rel path.

Definition clean_cgroup_mount_rel (mount_point : cstr) : cstr :=
  let cgroup_root := cs "/sys/fs/cgroup" in
  if streq mount_point cgroup_root then []
  else if has_prefix cgroup_root mount_point &&
          bool_decide (mount_point !! length cgroup_root = Some SLASH)
  then drop (S (length cgroup_root)) mount_point
  else clean_rel mount_point.

(** The buffer is its content and the count [used]; the result is the code
    and the buffer afterwards.  A NULL segment is [None]. *)
Definition append_segment (buflen : nat) (segment : option cstr) (st : cstr * nat)
    : Z * (cstr * nat) :=
  let '(buf, used) := st in
  match segment with
  | None | Some [] => (0, st)
  | Some seg =>
      let out :=
        if (0 <? used)%nat && bool_decide (buf !! (used - 1)%nat = Some SLASH)
        then clean_rel seg else SLASH :: clean_rel seg in
      let '(written, s) := snprintf (buflen - used) out in
      let buf' := take used buf ++ s in
      if (written <? 0) || (Z.of_nat (buflen - used) <=? written) then (-1, (buf', used))
      else (0, (buf', (used + Z.to_nat written)%nat))
  end.

(** [while (root_len > 1 && mount_root[root_len - 1] == '/') root_len--;] *)
Fixpoint trim_root_len (mount_root : cstr) (root_len : nat) : nat :=
  match root_len with
  | S (S _ as n) =>
      if bool_decide (mount_root !! n = Some SLASH) then trim_root_len mount_root n else root_len
  | _ => root_len
  end.

Definition or_root (path : option cstr) : cstr :=
  match path with None | Some [] => [SLASH] | Some p => p end.

Definition cgroup_path_under_mount_root (mount_root rel_path : option cstr) : option cstr :=
  let mount_root := or_root mount_root in
  let rel_path := or_root rel_path in
  let root_len := trim_root_len mount_root (length mount_root) in
  if (root_len =? 1)%nat && bool_decide (mount_root !! 0%nat = Some SLASH) then Some rel_path
  else if negb (strneq rel_path mount_root root_len) then None
  else match rel_path !! root_len with
       | None => Some [SLASH]
       | Some c => if char_eqb c SLASH then Some (drop root_len rel_path) else None
       end.

Section paths.
Variable getenv : cstr -> option cstr.

Definition rps_proc_path (buflen : nat) (path : cstr) : Z * cstr :=
  match getenv (cs "RUNPOD_SHIM_TEST_PROC_ROOT") with
  | None | Some [] =>
      let '(written, buf) := snprintf buflen path in
      (if written <? i32 (Z.of_nat buflen) then 0 else -1, buf)
  | Some root =>
      let '(written, buf) := snprintf buflen (root ++ SLASH :: clean_proc_rel path) in
      (if written <? i32 (Z.of_nat buflen) then 0 else -1, buf)
  end.

(** [root] and [mount_point] after the choice of the root (lines 110-115). *)
Definition cgroup_root_parts (mount_point : cstr) : cstr * cstr :=
  match getenv (cs "RUNPOD_SHIM_TEST_CGROUP_ROOT") with
  | None | Some [] => (mount_point, [])
  | Some root => (root, clean_cgroup_mount_rel mount_point)
  end.

(** [buf0] is what the caller's buffer held before the call. *)
Definition rps_cgroup_path (buf0 : cstr) (buflen : nat) (mount_point : cstr)
    (mount_root rel_path file : option cstr) : Z * cstr :=
  match cgroup_path_under_mount_root mount_root rel_path with
  | None => (-1, buf0)
  | Some inside_mount =>
      let '(root, mount_point) := cgroup_root_parts mount_point in
      let '(written, buf) := snprintf buflen root in
      if (written <? 0) || (Z.of_nat buflen <=? written) then (-1, buf)
      else
        let '(rc, st) := append_segment buflen (Some mount_point) (buf, Z.to_nat written) in
        if negb (rc =? 0) then (-1, st.1)
        else
          let '(rc, st) := append_segment buflen (Some inside_mount) st in
          if negb (rc =? 0) then (-1, st.1)
          else
            let '(rc, st) := append_segment buflen file st in
            if negb (rc =? 0) then (-1, st.1) else (0, st.1)
  end.

End paths.

(** ** Specification *)

(** Join a segment to a path with exactly one separator between them. *)
Definition join_segment (path segment : cstr) : cstr :=
  match segment with
  | [] => path
  | _ => if bool_decide (last path = Some SLASH) then path ++ clean_rel segment
         else path ++ SLASH :: clean_rel segment
  end.

(** The mount root without its trailing slashes (the root itself is kept). *)
Definition canonical_root (mount_root : cstr) : cstr :=
  take (trim_root_len mount_root (length mount_root)) mount_root.

(** Where a cgroup's files are: below the mount point, or below the test root. *)
Definition cgroup_base (getenv : cstr -> option cstr) (mount_point : cstr) : cstr :=
  let '(root, seg) := cgroup_root_parts getenv mount_point in join_segment root seg.

#[global] Arguments append_segment : simpl never.
#[global] Arguments snprintf : simpl never.
#[global] Arguments join_segment : simpl never.
#[global] Arguments cgroup_path_under_mount_root : simpl never.

(** ** Lemmas *)

Lemma snprintf_fits (buflen : nat) (out : cstr) :
  Z.of_nat buflen <= INT_MAX -> (length out < buflen)%nat ->
  snprintf buflen out = (Z.of_nat (length out), out).
Proof.
  intros Hb Hl. unfold snprintf. destruct (Z.leb_spec (Z.of_nat (length out)) INT_MAX); [|lia].
  by rewrite take_ge by lia.
Qed.

(** The shim's test for truncation accepts exactly the outputs that fit. *)
Lemma snprintf_check (buflen : nat) (out : cstr) (written : Z) (s : cstr) :
  Z.of_nat buflen <= INT_MAX -> snprintf buflen out = (written, s) ->
  (written <? 0) || (Z.of_nat buflen <=? written) = negb (length out <? buflen)%nat.
Proof.
  intros Hb [= <- <-]. destruct (Nat.ltb_spec (length out) buflen) as [H|H];
  destruct (Z.leb_spec (Z.of_nat (length out)) INT_MAX) as [H1|H1]; simpl; try lia.
Qed.

Lemma join_segment_length (path segment : cstr) :
  (length path <= length (join_segment path segment))%nat.
Proof.
  unfold join_segment. destruct segment; [done|].
  destruct (bool_decide _); rewrite length_app; lia.
Qed.

Lemma append_segment_spec (buflen : nat) (segment : option cstr) (buf : cstr) :
  Z.of_nat buflen <= INT_MAX -> (length buf < buflen)%nat ->
  let path := join_segment buf (default [] segment) in
  let '(rc, st) := append_segment buflen segment (buf, length buf) in
  if (length path <? buflen)%nat then rc = 0 /\ st = (path, length path) else rc = -1.
Proof.
  intros Hb Hl. unfold append_segment, join_segment.
  assert ((length buf <? buflen)%nat = true) as Hlt by (by apply Nat.ltb_lt).
  destruct segment as [[|c seg]|]; simpl default; cbv match; [by rewrite Hlt| |by rewrite Hlt].
  replace (_ && bool_decide (buf !! (length buf - 1)%nat = Some SLASH))
    with (bool_decide (last buf = Some SLASH)).
  2: { rewrite last_lookup. destruct buf as [|b buf]; [done|].
       replace (pred (length (b :: buf))) with (length (b :: buf) - 1)%nat by (simpl; lia). done. }
  set (out := if bool_decide _ then clean_rel (c :: seg) else SLASH :: clean_rel (c :: seg)).
  replace (if bool_decide (last buf = Some SLASH) then _ else _) with (buf ++ out)
    by (unfold out; by destruct (bool_decide _)).
  destruct (snprintf (buflen - length buf) out) as [written s] eqn:E.
  rewrite (snprintf_check (buflen - length buf) out written s) by (lia || done).
  rewrite length_app.
  destruct (Nat.ltb_spec (length out) (buflen - length buf)) as [H|H]; simpl.
  - rewrite (proj2 (Nat.ltb_lt _ _)) by lia.
    rewrite snprintf_fits in E by lia. injection E as <- <-.
    rewrite firstn_all, Nat2Z.id. done.
  - by rewrite (proj2 (Nat.ltb_ge _ _)) by lia.
Qed.

Lemma append_segment_ok (buflen : nat) (segment : option cstr) (buf : cstr) :
  Z.of_nat buflen <= INT_MAX -> (length buf < buflen)%nat ->
  (length (join_segment buf (default [] segment)) < buflen)%nat ->
  append_segment buflen segment (buf, length buf) =
  (0, (join_segment buf (default [] segment), length (join_segment buf (default [] segment)))).
Proof.
  intros Hb Hl Hj. pose proof (append_segment_spec buflen segment buf Hb Hl) as H.
  destruct (append_segment buflen segment (buf, length buf)) as [rc st]. simpl in H.
  rewrite (proj2 (Nat.ltb_lt _ _)) in H by lia. by destruct H as [-> ->].
Qed.

Lemma append_segment_fail (buflen : nat) (segment : option cstr) (buf : cstr) :
  Z.of_nat buflen <= INT_MAX -> (length buf < buflen)%nat ->
  (buflen <= length (join_segment buf (default [] segment)))%nat ->
  (append_segment buflen segment (buf, length buf)).1 = -1.
Proof.
  intros Hb Hl Hj. pose proof (append_segment_spec buflen segment buf Hb Hl) as H.
  destruct (append_segment buflen segment (buf, length buf)) as [rc st]. simpl in H.
  by rewrite (proj2 (Nat.ltb_ge _ _)) in H by lia.
Qed.

Lemma trim_root_len_spec (s : cstr) (n : nat) :
  (n <= length s)%nat ->
  (trim_root_len s n <= n)%nat /\ ((0 < n)%nat -> (0 < trim_root_len s n)%nat) /\
  ((1 < trim_root_len s n)%nat -> last (take (trim_root_len s n) s) <> Some SLASH).
Proof.
  induction n as [|n IH]; intros Hn; simpl; [repeat split; lia|].
  destruct n as [|n]; [repeat split; lia|].
  destruct (bool_decide (s !! S n = Some SLASH)) eqn:E.
  - destruct IH as (? & ? & ?); [lia|]. repeat split; [lia|lia|done].
  - apply bool_decide_eq_false in E. repeat split; [lia|lia|]. intros _ H. apply E.
    rewrite last_lookup, length_take, Nat.min_l in H by lia.
    simpl pred in H. by rewrite lookup_take_lt in H by lia.
Qed.

Lemma canonical_root_length (r : cstr) :
  length (canonical_root r) = trim_root_len r (length r).
Proof.
  unfold canonical_root. rewrite length_take. destruct (trim_root_len_spec r (length r)); lia.
Qed.

Lemma root_is_slash (r : cstr) :
  (trim_root_len r (length r) =? 1)%nat && bool_decide (r !! 0%nat = Some SLASH) =
  bool_decide (canonical_root r = [SLASH]).
Proof.
  apply eq_true_iff_eq. rewrite andb_true_iff, Nat.eqb_eq, !bool_decide_eq_true.
  rewrite <-canonical_root_length. split.
  - intros [Hl H0]. unfold canonical_root in *. destruct r as [|c r]; [done|].
    simpl in H0. injection H0 as ->.
    destruct (trim_root_len _ _) as [|n]; [done|]. simpl in *.
    by destruct (take n r).
  - intros H. rewrite H. split; [done|]. unfold canonical_root in H.
    destruct r as [|c r]; [by destruct (trim_root_len _ _)|].
    destruct (trim_root_len _ _); [done|]. by injection H as -> _.
Qed.

Lemma below_root (r rel : cstr) :
  bool_decide (take (length r) rel = r) = true ->
  rel = r ++ drop (length r) rel /\ (rel !! length r) = head (drop (length r) rel).
Proof.
  intros H. to_prop. pose proof (take_eq_app _ _ H) as Heq. split; [done|].
  rewrite Heq at 1. rewrite lookup_app_r, Nat.sub_diag by done. by destruct (drop _ _).
Qed.

Lemma under_mount_root_cases (mount_root rel_path : option cstr) (inside : cstr) :
  cgroup_path_under_mount_root mount_root rel_path = Some inside <->
  let r := canonical_root (or_root mount_root) in
  let rel := or_root rel_path in
  (r = [SLASH] /\ inside = rel) \/
  (r <> [SLASH] /\ ((rel = r /\ inside = [SLASH]) \/
                    exists s, rel = r ++ SLASH :: s /\ inside = SLASH :: s)).
Proof.
  unfold cgroup_path_under_mount_root. rewrite root_is_slash. simpl.
  set (rel := or_root rel_path). set (m := or_root mount_root). unfold strneq.
  fold (canonical_root m). rewrite <-(canonical_root_length m).
  generalize (canonical_root m) as r. clear m. intros r.
  destruct (bool_decide (r = [SLASH])) eqn:Er; to_prop; [split; [intros [= <-]; by left|]|].
  { intros [[_ ->]|[? _]]; done. }
  destruct (bool_decide (take (length r) rel = r)) eqn:Ep; simpl.
  - destruct (below_root r rel Ep) as [Heq ->].
    destruct (drop (length r) rel) as [|c d] eqn:Ed; simpl.
    + rewrite app_nil_r in Heq. split.
      * intros [= <-]. right. split; [done|]. by left.
      * intros [[? _]|[_ [[_ ->]|(s & Hs & _)]]]; [done|done|].
        rewrite Hs in Heq. by apply (f_equal length) in Heq; rewrite length_app in Heq; simpl in Heq; lia.
    + destruct (char_eqb c SLASH) eqn:Ec.
      * apply char_eqb_spec in Ec as ->. split.
        -- intros [= <-]. right. split; [done|]. right. by exists d.
        -- intros [[? _]|[_ [[Hr _]|(s & Hs & ->)]]]; [done| |].
           ++ rewrite Hr in Heq. apply (f_equal length) in Heq. rewrite length_app in Heq. simpl in Heq. lia.
           ++ rewrite Heq in Hs. by apply app_inv_head in Hs as <-.
      * apply char_eqb_neq in Ec. split; [done|].
        intros [[? _]|[_ [[Hr _]|(s & Hs & ->)]]]; [done| |].
        -- rewrite Hr in Heq. apply (f_equal length) in Heq. rewrite length_app in Heq. simpl in Heq. lia.
        -- rewrite Heq in Hs. apply app_inv_head in Hs. congruence.
  - to_prop. split; [done|].
    intros [[? _]|[_ [[Hr _]|(s & Hs & _)]]]; [done| |]; exfalso; apply Ep.
    + by rewrite Hr, firstn_all.
    + by rewrite Hs, take_length_app.
Qed.

Lemma cgroup_path_unfold (getenv : cstr -> option cstr) (buf0 : cstr) (buflen : nat)
    (mount_point : cstr) (mount_root rel_path file : option cstr) (inside p : cstr) :
  Z.of_nat buflen <= INT_MAX ->
  cgroup_path_under_mount_root mount_root rel_path = Some inside ->
  p = join_segment (join_segment (cgroup_base getenv mount_point) inside) (default [] file) ->
  if (length p <? buflen)%nat
  then rps_cgroup_path getenv buf0 buflen mount_point mount_root rel_path file = (0, p)
  else (rps_cgroup_path getenv buf0 buflen mount_point mount_root rel_path file).1 = -1.
Proof.
  intros Hb Hin ->. unfold rps_cgroup_path, cgroup_base. rewrite Hin.
  destruct (cgroup_root_parts getenv mount_point) as [root seg].
  destruct (snprintf buflen root) as [written buf] eqn:E.
  rewrite (snprintf_check buflen root written buf) by done.
  pose proof (join_segment_length root seg) as H1.
  pose proof (join_segment_length (join_segment root seg) inside) as H2.
  pose proof (join_segment_length (join_segment (join_segment root seg) inside) (default [] file)) as H3.
  destruct (Nat.ltb_spec (length root) buflen) as [Hr|Hr]; simpl.
  2: { by rewrite (proj2 (Nat.ltb_ge _ _)) by lia. }
  rewrite snprintf_fits in E by done. injection E as <- <-. rewrite Nat2Z.id.
  destruct (Nat.ltb_spec (length (join_segment root seg)) buflen) as [Hj1|Hj1].
  2: { rewrite (proj2 (Nat.ltb_ge _ _)) by lia.
       pose proof (append_segment_fail buflen (Some seg) root Hb Hr Hj1) as Hf.
       destruct (append_segment _ _ _). simpl in *. by subst. }
  rewrite append_segment_ok by done. simpl.
  destruct (Nat.ltb_spec (length (join_segment (join_segment root seg) inside)) buflen) as [Hj2|Hj2].
  2: { rewrite (proj2 (Nat.ltb_ge _ _)) by lia.
       pose proof (append_segment_fail buflen (Some inside) _ Hb Hj1 Hj2) as Hf.
       destruct (append_segment _ _ _). simpl in *. by subst. }
  rewrite append_segment_ok by done. simpl.
  destruct (Nat.ltb_spec (length (join_segment (join_segment (join_segment root seg) inside)
    (default [] file))) buflen) as [Hj3|Hj3].
  2: { pose proof (append_segment_fail buflen file _ Hb Hj2 Hj3) as Hf.
       destruct (append_segment _ _ _). simpl in *. by subst. }
  by rewrite append_segment_ok by done.
Qed.

(** ** Properties *)



