(* ===== verification/Cgroup.v ===== *)
(** Cgroup memory discovery ([cgroup/cgroup.c]): the mount table and the
    process's cgroup membership are read from procfs, each membership line
    names candidate control files, and the candidate with the smallest finite
    limit wins.

    [getenv] is the environment and [fopen] the files as they can be opened
    for reading (NULL, or the stream the file gives). *)

From S2P Require Import Prelude CString Paths.

#[local] Open Scope Z_scope.

Definition RPS_CGROUP_UNLIMITED_SENTINEL : Z := 9223372036854771712. (* 0x7ffffffffffff000 *)

(** ** Token files *)

Definition trim_token (buf : cstr) : cstr :=
  take_while (fun c => negb (is_space c)) (drop_while is_space buf).

(** [uint64_t] conversion of a token (never NULL, nor is [out]). *)
Definition parse_u64_token (token : cstr) : option Z :=
  match token with
  | [] => None
  | _ => parse_digits UINT64_MAX u64 0 token
  end.

Definition COMMA : ascii := ","%char.
Definition COLON : ascii := ":"%char.

Fixpoint controllers_loop (fuel : nat) (part needle : cstr) : bool :=
  match fuel with
  | O => false
  | S n =>
      match part with
      | [] => false
      | _ =>
          let comma := strchr part COMMA in
          let len := match comma with
                     | None => length part
                     | Some r => (length part - length r)%nat
                     end in
          if (len =? length needle)%nat && strneq part needle (length needle) then true
          else match comma with
               | None => false
               | Some r => controllers_loop n (tail r) needle
               end
      end
  end.
Definition controllers_include (controllers needle : cstr) : bool :=
  controllers_loop (S (length controllers)) controllers needle.

(** ** Mounts *)

Record rps_cgroup_mounts := Mounts {
  has_v2 : bool;
  has_v1_memory : bool;
  v2_root : cstr;
  v2_mount : cstr;
  v1_memory_root : cstr;
  v1_memory_mount : cstr
}.
Definition mounts_zero : rps_cgroup_mounts := Mounts false false [] [] [] [].

Definition set_v2_root (m : rps_cgroup_mounts) (r : cstr) : rps_cgroup_mounts :=
  Mounts (has_v2 m) (has_v1_memory m) r (v2_mount m) (v1_memory_root m) (v1_memory_mount m).
Definition set_v2_mount (m : rps_cgroup_mounts) (p : cstr) : rps_cgroup_mounts :=
  Mounts (has_v2 m) (has_v1_memory m) (v2_root m) p (v1_memory_root m) (v1_memory_mount m).
Definition set_has_v2 (m : rps_cgroup_mounts) : rps_cgroup_mounts :=
  Mounts true (has_v1_memory m) (v2_root m) (v2_mount m) (v1_memory_root m) (v1_memory_mount m).
Definition set_v1_root (m : rps_cgroup_mounts) (r : cstr) : rps_cgroup_mounts :=
  Mounts (has_v2 m) (has_v1_memory m) (v2_root m) (v2_mount m) r (v1_memory_mount m).
Definition set_v1_mount (m : rps_cgroup_mounts) (p : cstr) : rps_cgroup_mounts :=
  Mounts (has_v2 m) (has_v1_memory m) (v2_root m) (v2_mount m) (v1_memory_root m) p.
Definition set_has_v1 (m : rps_cgroup_mounts) : rps_cgroup_mounts :=
  Mounts (has_v2 m) true (v2_root m) (v2_mount m) (v1_memory_root m) (v1_memory_mount m).

Definition copy_mount (buflen : nat) (mount_point : cstr) : bool * cstr :=
  let '(written, buf) := snprintf buflen mount_point in
  (written <? i32 (Z.of_nat buflen), buf).

(** The pointers [parse_mountinfo_line] fills while it walks the tokens. *)
Record mountinfo_fields := Fields {
  mi_root : option cstr;
  mi_point : option cstr;
  mi_options : option cstr;
  mi_fstype : option cstr;
  mi_super : option cstr
}.
Definition fields_none : mountinfo_fields := Fields None None None None None.

(** The [strtok_r] loop (lines 139-156); [toks] are the tokens still to come. *)
Fixpoint mountinfo_scan (field : Z) (acc : mountinfo_fields) (toks : list cstr)
    : mountinfo_fields :=
  match toks with
  | [] => acc
  | token :: rest =>
      let field := field + 1 in
      let acc :=
        if field =? 4 then Fields (Some token) (mi_point acc) (mi_options acc) (mi_fstype acc) (mi_super acc)
        else if field =? 5 then Fields (mi_root acc) (Some token) (mi_options acc) (mi_fstype acc) (mi_super acc)
        else if field =? 6 then Fields (mi_root acc) (mi_point acc) (Some token) (mi_fstype acc) (mi_super acc)
        else acc in
      if streq token (cs "-") then
        Fields (mi_root acc) (mi_point acc) (mi_options acc) (rest !! 0%nat) (rest !! 2%nat)
      else mountinfo_scan field acc rest
  end.

(** Lines 161-165. *)
Definition record_v2 (mount_root mount_point fstype : cstr) (mounts : rps_cgroup_mounts)
    : rps_cgroup_mounts :=
  if negb (has_v2 mounts) && streq fstype (cs "cgroup2") then
    let '(ok, buf) := copy_mount 512 mount_root in
    let mounts := set_v2_root mounts buf in
    if ok then
      let '(ok, buf) := copy_mount 512 mount_point in
      let mounts := set_v2_mount mounts buf in
      if ok then set_has_v2 mounts else mounts
    else mounts
  else mounts.

(** Lines 166-172. *)
Definition record_v1 (mount_root mount_point fstype : cstr) (mount_options super_options : option cstr)
    (mounts : rps_cgroup_mounts) : rps_cgroup_mounts :=
  if negb (has_v1_memory mounts) && streq fstype (cs "cgroup") &&
     (controllers_include (default [] mount_options) (cs "memory") ||
      controllers_include (default [] super_options) (cs "memory")) then
    let '(ok, buf) := copy_mount 512 mount_root in
    let mounts := set_v1_root mounts buf in
    if ok then
      let '(ok, buf) := copy_mount 512 mount_point in
      let mounts := set_v1_mount mounts buf in
      if ok then set_has_v1 mounts else mounts
    else mounts
  else mounts.

Definition parse_mountinfo_line (mounts : rps_cgroup_mounts) (line : cstr) : rps_cgroup_mounts :=
  let f := mountinfo_scan 0 fields_none (tokens SP line) in
  match mi_root f, mi_point f, mi_fstype f with
  | Some mount_root, Some mount_point, Some fstype =>
      record_v1 mount_root mount_point fstype (mi_options f) (mi_super f)
        (record_v2 mount_root mount_point fstype mounts)
  | _, _, _ => mounts
  end.

(** ** Detection *)

Record rps_cgroup_memory := CgroupMemory {
  cg_version : Z;
  limit_bytes : Z;
  current_bytes : Z;
  limit_path : cstr;
  current_path : cstr
}.
Definition cgroup_memory_zero : rps_cgroup_memory := CgroupMemory 0 0 0 [] [].

(** The line a loop [while (fgets(line, 1024, fp))] works on: the C string in
    the buffer, cut at the end of the line. *)
Definition line_of (buf : list ascii) : cstr := chomp (cstr_of buf).

(** Lines 254-270: split "hierarchy:controllers:path" at its first two colons. *)
Definition parse_cgroup_line (line : cstr) : option (cstr * cstr * cstr) :=
  match strchr line COLON with
  | None => None
  | Some first =>
      let hierarchy := before line COLON in
      match strchr (tail first) COLON with
      | None => None
      | Some second =>
          let controllers := before (tail first) COLON in
          let rel_path := match tail second with [] => [SLASH] | p => p end in
          Some (hierarchy, controllers, rel_path)
      end
  end.

Section cgroup.
Variable getenv : cstr -> option cstr.
Variable fopen : cstr -> option stream.

Definition read_token_file (path : cstr) (buflen : nat) : option cstr :=
  match fopen path with
  | None => None
  | Some fp =>
      match fgets buflen fp with
      | None => None
      | Some (buf, _) =>
          match trim_token (cstr_of buf) with [] => None | token => Some token end
      end
  end.

Definition read_limit_file (path : cstr) : option Z :=
  match read_token_file path 64 with
  | None => None
  | Some token =>
      if streq token (cs "max") then None
      else match parse_u64_token token with
           | None => None
           | Some value =>
               if (value =? 0) || (RPS_CGROUP_UNLIMITED_SENTINEL <=? value) then None
               else Some value
           end
  end.

Definition read_counter_file (path : cstr) : option Z :=
  match read_token_file path 64 with
  | None => None
  | Some token => parse_u64_token token
  end.

Definition detect_mounts : option rps_cgroup_mounts :=
  let '(rc, mountinfo_path) := rps_proc_path getenv 512 (cs "/proc/self/mountinfo") in
  if negb (rc =? 0) then None
  else match fopen mountinfo_path with
       | None => None
       | Some fp =>
           let mounts := foldl (fun m buf => parse_mountinfo_line m (line_of buf))
                               mounts_zero (fgets_all 1024 fp) in
           if has_v2 mounts || has_v1_memory mounts then Some mounts else None
       end.

Definition consider_candidate (version : Z) (mount_point mount_root rel_path : cstr)
    (limit_file current_file : cstr) (best_found : rps_cgroup_memory * bool)
    : rps_cgroup_memory * bool :=
  let '(best, found) := best_found in
  let '(rc1, lpath) := rps_cgroup_path getenv [] 512 mount_point (Some mount_root) (Some rel_path) (Some limit_file) in
  if negb (rc1 =? 0) then (best, found)
  else
    let '(rc2, cpath) := rps_cgroup_path getenv [] 512 mount_point (Some mount_root) (Some rel_path) (Some current_file) in
    if negb (rc2 =? 0) then (best, found)
    else match read_limit_file lpath with
         | None => (best, found)
         | Some limit =>
             match read_counter_file cpath with
             | None => (best, found)
             | Some current =>
                 if negb found || (limit <? limit_bytes best)
                 then (CgroupMemory version limit current lpath cpath, true)
                 else (best, found)
             end
         end.

(** The body of the loop over /proc/self/cgroup (lines 253-284). *)
Definition detect_line (mounts : rps_cgroup_mounts) (best_found : rps_cgroup_memory * bool)
    (line : cstr) : rps_cgroup_memory * bool :=
  match parse_cgroup_line line with
  | None => best_found
  | Some (hierarchy, controllers, rel_path) =>
      let best_found :=
        if streq hierarchy (cs "0") && streq controllers [] && has_v2 mounts
        then consider_candidate 2 (v2_mount mounts) (v2_root mounts) rel_path
               (cs "memory.max") (cs "memory.current") best_found
        else best_found in
      if controllers_include controllers (cs "memory") && has_v1_memory mounts
      then consider_candidate 1 (v1_memory_mount mounts) (v1_memory_root mounts) rel_path
             (cs "memory.limit_in_bytes") (cs "memory.usage_in_bytes") best_found
      else best_found
  end.

(** The result and [*out] ([out] is not NULL). *)
Definition rps_cgroup_memory_detect : bool * rps_cgroup_memory :=
  match detect_mounts with
  | None => (false, cgroup_memory_zero)
  | Some mounts =>
      let '(rc, cgroup_path) := rps_proc_path getenv 512 (cs "/proc/self/cgroup") in
      if negb (rc =? 0) then (false, cgroup_memory_zero)
      else match fopen cgroup_path with
           | None => (false, cgroup_memory_zero)
           | Some fp =>
               let '(best, found) := foldl (fun b buf => detect_line mounts b (line_of buf))
                                           (cgroup_memory_zero, false) (fgets_all 1024 fp) in
               if negb found then (false, cgroup_memory_zero) else (true, best)
           end
  end.

Definition rps_cgroup_memory_refresh (mem : rps_cgroup_memory) : bool * rps_cgroup_memory :=
  match current_path mem with
  | [] => (false, mem)
  | _ =>
      match read_counter_file (current_path mem) with
      | None => (false, mem)
      | Some current =>
          (true, CgroupMemory (cg_version mem) (limit_bytes mem) current
                              (limit_path mem) (current_path mem))
      end
  end.

End cgroup.

(** ** Specification *)

(** The candidate a pair of control files gives: both paths fit, the limit is
    finite and the usage counter is readable. *)
Definition candidate (getenv : cstr -> option cstr) (fopen : cstr -> option stream)
    (version : Z) (mount_point mount_root rel_path limit_file current_file : cstr)
    : option rps_cgroup_memory :=
  let path file := rps_cgroup_path getenv [] 512 mount_point (Some mount_root) (Some rel_path) (Some file) in
  if (path limit_file).1 =? 0 then
    if (path current_file).1 =? 0 then
      limit ← read_limit_file fopen (path limit_file).2;
      current ← read_counter_file fopen (path current_file).2;
      Some (CgroupMemory version limit current (path limit_file).2 (path current_file).2)
    else None
  else None.

(** The candidates a line of /proc/self/cgroup names, version 2 first. *)
Definition line_candidates (getenv : cstr -> option cstr) (fopen : cstr -> option stream)
    (mounts : rps_cgroup_mounts) (line : cstr) : list rps_cgroup_memory :=
  match parse_cgroup_line line with
  | None => []
  | Some (hierarchy, controllers, rel_path) =>
      (if streq hierarchy (cs "0") && streq controllers [] && has_v2 mounts
       then option_list (candidate getenv fopen 2 (v2_mount mounts) (v2_root mounts) rel_path
                           (cs "memory.max") (cs "memory.current")) else []) ++
      (if controllers_include controllers (cs "memory") && has_v1_memory mounts
       then option_list (candidate getenv fopen 1 (v1_memory_mount mounts) (v1_memory_root mounts)
                           rel_path (cs "memory.limit_in_bytes") (cs "memory.usage_in_bytes")) else [])
  end.

(** All candidates, in the order the files name them. *)
Definition cgroup_candidates (getenv : cstr -> option cstr) (fopen : cstr -> option stream)
    : list rps_cgroup_memory :=
  default [] (
    mounts ← detect_mounts getenv fopen;
    let '(rc, cgroup_path) := rps_proc_path getenv 512 (cs "/proc/self/cgroup") in
    if negb (rc =? 0) then None
    else fp ← fopen cgroup_path;
         Some (concat (map (fun buf => line_candidates getenv fopen mounts (line_of buf))
                           (fgets_all 1024 fp)))).

(** Keep the better of the best so far and a new candidate. *)
Definition better (bf : rps_cgroup_memory * bool) (c : rps_cgroup_memory) : rps_cgroup_memory * bool :=
  if negb bf.2 || (limit_bytes c <? limit_bytes bf.1) then (c, true) else bf.

(** The mount a line describes, when its paths fit their buffers. *)
Definition line_mount (pred : mountinfo_fields -> bool) (line : cstr) : option (cstr * cstr) :=
  let f := mountinfo_scan 0 fields_none (tokens SP line) in
  match mi_root f, mi_point f, mi_fstype f with
  | Some r, Some p, Some _ =>
      if pred f && (length r <? 512)%nat && (length p <? 512)%nat then Some (r, p) else None
  | _, _, _ => None
  end.

Definition is_v2 (f : mountinfo_fields) : bool :=
  bool_decide (mi_fstype f = Some (cs "cgroup2")).
Definition is_v1_memory (f : mountinfo_fields) : bool :=
  bool_decide (mi_fstype f = Some (cs "cgroup")) &&
  (controllers_include (default [] (mi_options f)) (cs "memory") ||
   controllers_include (default [] (mi_super f)) (cs "memory")).

(** First match of a partial function over a list. *)
Definition first_some {A B} (f : A -> option B) (l : list A) : option B := head (omap f l).

#[global] Arguments consider_candidate : simpl never.
#[global] Arguments candidate : simpl never.
#[global] Arguments rps_cgroup_path : simpl never.
#[global] Arguments rps_proc_path : simpl never.
#[global] Arguments controllers_include : simpl never.
#[global] Arguments tokens : simpl never.
#[global] Arguments copy_mount : simpl never.

(** ** Lemmas *)

Lemma consider_candidate_eq getenv fopen version mp mr rel lf cf (bf : rps_cgroup_memory * bool) :
  consider_candidate getenv fopen version mp mr rel lf cf bf =
  foldl better bf (option_list (candidate getenv fopen version mp mr rel lf cf)).
Proof.
  unfold consider_candidate, candidate. destruct bf as [best found].
  destruct (rps_cgroup_path getenv [] 512 mp (Some mr) (Some rel) (Some lf)) as [rc1 lp].
  destruct (rps_cgroup_path getenv [] 512 mp (Some mr) (Some rel) (Some cf)) as [rc2 cp].
  simpl. destruct (rc1 =? 0); simpl; [|done]. destruct (rc2 =? 0); simpl; [|done].
  destruct (read_limit_file fopen lp); simpl; [|done].
  by destruct (read_counter_file fopen cp).
Qed.

Lemma detect_line_eq getenv fopen mounts (bf : rps_cgroup_memory * bool) (line : cstr) :
  detect_line getenv fopen mounts bf line =
  foldl better bf (line_candidates getenv fopen mounts line).
Proof.
  unfold detect_line, line_candidates.
  destruct (parse_cgroup_line line) as [[[h c] p]|]; [|done].
  rewrite foldl_app.
  destruct (streq h (cs "0") && streq c [] && has_v2 mounts);
    destruct (controllers_include c (cs "memory") && has_v1_memory mounts);
    by rewrite ?consider_candidate_eq.
Qed.

Lemma foldl_concat_map {A B C} (f : C -> B -> C) (g : A -> list B) (l : list A) (c : C) :
  foldl (fun b x => foldl f b (g x)) c l = foldl f c (concat (map g l)).
Proof. revert c. induction l as [|x l IH]; intros c; simpl; [done|]. by rewrite foldl_app, IH. Qed.

Lemma detect_eq getenv fopen :
  rps_cgroup_memory_detect getenv fopen =
  let '(best, found) := foldl better (cgroup_memory_zero, false) (cgroup_candidates getenv fopen) in
  if found then (true, best) else (false, cgroup_memory_zero).
Proof.
  unfold rps_cgroup_memory_detect, cgroup_candidates.
  destruct (detect_mounts getenv fopen) as [mounts|]; simpl; [|done].
  destruct (rps_proc_path getenv 512 _) as [rc p].
  destruct (negb (rc =? 0)); simpl; [done|]. destruct (fopen p) as [fp|]; simpl; [|done].
  rewrite <-foldl_concat_map.
  assert (forall l bf, foldl (fun b buf => detect_line getenv fopen mounts b (line_of buf)) bf l =
    foldl (fun b buf => foldl better b (line_candidates getenv fopen mounts (line_of buf))) bf l) as H.
  { intros l. induction l as [|x l IH]; intros bf; simpl; [done|]. by rewrite IH, detect_line_eq. }
  rewrite H. destruct (foldl _ _ _) as [best found]. by destruct found.
Qed.

(** Folding [better] keeps a minimum of what it has seen. *)
Lemma foldl_better_found (l : list rps_cgroup_memory) (c : rps_cgroup_memory) :
  let '(best, found) := foldl better (c, true) l in
  found = true /\ best ∈ c :: l /\ Forall (fun c' => limit_bytes best <= limit_bytes c') (c :: l).
Proof.
  revert c. induction l as [|x l IH]; intros c; simpl.
  { repeat constructor. lia. }
  unfold better at 2. simpl. destruct (Z.ltb_spec (limit_bytes x) (limit_bytes c)) as [H|H].
  - specialize (IH x). destruct (foldl better (x, true) l) as [best found].
    destruct IH as (-> & Hin & Hall). split; [done|]. split; [by right|].
    apply Forall_cons in Hall as [Hx Hall]. repeat constructor; [lia|done|done].
  - specialize (IH c). destruct (foldl better (c, true) l) as [best found].
    destruct IH as (-> & Hin & Hall). split; [done|].
    apply Forall_cons in Hall as [Hc Hall]. split; [|repeat constructor; [done|lia|done]].
    apply elem_of_cons in Hin as [->|Hin]; [by left|by right; right].
Qed.

Lemma detect_cases getenv fopen :
  match cgroup_candidates getenv fopen with
  | [] => rps_cgroup_memory_detect getenv fopen = (false, cgroup_memory_zero)
  | l => exists best, rps_cgroup_memory_detect getenv fopen = (true, best) /\ best ∈ l /\
           Forall (fun c => limit_bytes best <= limit_bytes c) l
  end.
Proof.
  rewrite detect_eq. destruct (cgroup_candidates getenv fopen) as [|c l]; [done|].
  simpl. unfold better at 2. simpl.
  pose proof (foldl_better_found l c) as H. destruct (foldl better (c, true) l) as [best found].
  destruct H as (-> & Hin & Hall). by exists best.
Qed.

Lemma parse_u64_spec (token : cstr) (v : Z) :
  parse_u64_token token = Some v <->
  token <> [] /\ all_digits token = true /\ v = dec token /\ v <= UINT64_MAX.
Proof.
  unfold parse_u64_token. destruct token as [|c s]; [naive_solver|].
  rewrite (parse_digits_spec UINT64_MAX u64 (c :: s) 0) by (apply u64_small || (unfold UINT64_MAX; lia)).
  fold (dec (c :: s)). destruct (all_digits (c :: s)); simpl; [|naive_solver].
  destruct (Z.leb_spec (dec (c :: s)) UINT64_MAX); naive_solver lia.
Qed.

Lemma dec_nonneg (s : cstr) : all_digits s = true -> 0 <= dec s.
Proof. intros H. by apply (dec_from_ge s 0). Qed.

Lemma read_limit_range fopen (path : cstr) (v : Z) :
  read_limit_file fopen path = Some v -> 0 < v < RPS_CGROUP_UNLIMITED_SENTINEL.
Proof.
  unfold read_limit_file. destruct (read_token_file fopen path 64) as [tok|]; [|done].
  destruct (streq tok _); [done|]. destruct (parse_u64_token tok) as [w|] eqn:E; [|done].
  apply parse_u64_spec in E as (_ & Hd & -> & _). pose proof (dec_nonneg tok Hd).
  destruct ((dec tok =? 0) || _) eqn:Hb; [done|]. intros [= <-]. to_prop. lia.
Qed.

Lemma read_counter_range fopen (path : cstr) (v : Z) :
  read_counter_file fopen path = Some v -> 0 <= v <= UINT64_MAX.
Proof.
  unfold read_counter_file. destruct (read_token_file fopen path 64) as [tok|]; [|done].
  intros E. apply parse_u64_spec in E as (_ & Hd & -> & ?). by pose proof (dec_nonneg tok Hd).
Qed.

(** What a candidate guarantees: the values are what its files say now, the
    limit is finite and positive, the counter fits, and the paths fit. *)
Record candidate_sound (fopen : cstr -> option stream) (c : rps_cgroup_memory) : Prop := {
  cs_limit : read_limit_file fopen (limit_path c) = Some (limit_bytes c);
  cs_current : read_counter_file fopen (current_path c) = Some (current_bytes c);
  cs_limit_range : 0 < limit_bytes c < RPS_CGROUP_UNLIMITED_SENTINEL;
  cs_current_range : 0 <= current_bytes c <= UINT64_MAX;
  cs_paths : (length (limit_path c) < 512)%nat /\ (length (current_path c) < 512)%nat
}.

Lemma candidate_ok getenv fopen version mp mr rel lf cf (c : rps_cgroup_memory) :
  candidate getenv fopen version mp mr rel lf cf = Some c -> candidate_sound fopen c.
Proof.
  assert (Z.of_nat 512 <= INT_MAX) as Hb by (unfold INT_MAX; lia).
  assert (forall f rc p, rps_cgroup_path getenv [] 512 mp (Some mr) (Some rel) f = (rc, p) ->
    (rc =? 0) = true -> (length p < 512)%nat) as Hlen.
  { intros f rc p E Hrc. apply Z.eqb_eq in Hrc as ->.
    destruct (cgroup_path_under_mount_root (Some mr) (Some rel)) as [inside|] eqn:Hin.
    - pose proof (cgroup_path_unfold getenv [] 512 mp (Some mr) (Some rel) f inside _ Hb Hin eq_refl) as H.
      rewrite E in H. destruct (Nat.ltb_spec (length (join_segment (join_segment
        (cgroup_base getenv mp) inside) (default [] f))) 512) as [Hl|Hl]; [|done].
      by injection H as ->.
    - unfold rps_cgroup_path in E. by rewrite Hin in E. }
  unfold candidate.
  destruct (rps_cgroup_path getenv [] 512 mp (Some mr) (Some rel) (Some lf)) as [rc1 lp] eqn:E1.
  destruct (rps_cgroup_path getenv [] 512 mp (Some mr) (Some rel) (Some cf)) as [rc2 cp] eqn:E2.
  simpl. destruct (rc1 =? 0) eqn:H1; [|done]. destruct (rc2 =? 0) eqn:H2; [|done].
  destruct (read_limit_file fopen lp) as [l|] eqn:Hl; simpl; [|done].
  destruct (read_counter_file fopen cp) as [u|] eqn:Hu; simpl; [|done].
  intros [= <-]. split; simpl; eauto using read_limit_range, read_counter_range.
Qed.

Lemma candidates_sound getenv fopen : Forall (candidate_sound fopen) (cgroup_candidates getenv fopen).
Proof.
  unfold cgroup_candidates. destruct (detect_mounts getenv fopen) as [mounts|]; simpl; [|constructor].
  destruct (rps_proc_path getenv 512 _) as [rc p].
  destruct (negb (rc =? 0)); simpl; [constructor|]. destruct (fopen p) as [fp|]; simpl; [|constructor].
  apply Forall_concat, Forall_forall. intros l Hl. apply list_elem_of_In, in_map_iff in Hl as (buf & <- & _).
  unfold line_candidates. destruct (parse_cgroup_line (line_of buf)) as [[[h c] rel]|]; [|constructor].
  assert (forall o : option rps_cgroup_memory, (forall c, o = Some c -> candidate_sound fopen c) ->
    Forall (candidate_sound fopen) (option_list o)) as Ho.
  { intros [o|] H; simpl; [apply Forall_singleton; auto|constructor]. }
  apply Forall_app. split; case_goal; try constructor; apply Ho; intros ?; apply candidate_ok.
Qed.

(** ** Lemmas on the mount table *)

Lemma copy_mount_spec (s : cstr) :
  Z.of_nat (length s) <= INT_MAX ->
  (copy_mount 512 s).1 = (length s <? 512)%nat /\
  ((length s < 512)%nat -> (copy_mount 512 s).2 = s).
Proof.
  intros H. unfold copy_mount, snprintf. destruct (Z.leb_spec (Z.of_nat (length s)) INT_MAX); [|lia].
  simpl fst. simpl snd. split; [|intros; by rewrite take_ge by lia].
  rewrite i32_small by (unfold INT_MAX; lia).
  destruct (Nat.ltb_spec (length s) 512); [apply Z.ltb_lt|apply Z.ltb_ge]; lia.
Qed.

Lemma mountinfo_scan_Forall (P : cstr -> Prop) (field : Z) (acc : mountinfo_fields) (toks : list cstr) :
  Forall P toks ->
  (forall r, mi_root acc = Some r -> P r) -> (forall p, mi_point acc = Some p -> P p) ->
  let f := mountinfo_scan field acc toks in
  (forall r, mi_root f = Some r -> P r) /\ (forall p, mi_point f = Some p -> P p).
Proof.
  intros HP. revert field acc. induction HP as [|tok toks Htok _ IH]; intros field acc Hr Hp; simpl; [done|].
  repeat (case_goal; simpl; try (split; naive_solver)); apply IH; naive_solver.
Qed.

Lemma strtok_r_length (d : ascii) (s tok rest : cstr) :
  strtok_r d s = Some (tok, rest) -> (length tok <= length s /\ length rest < length s)%nat.
Proof.
  unfold strtok_r. pose proof (length_drop_while (fun x => char_eqb x d) s) as Hd.
  destruct (drop_while _ s) as [|c s'] eqn:E; [done|]. intros [= <- <-].
  pose proof (length_take_while (fun x => negb (char_eqb x d)) (c :: s')).
  pose proof (take_drop_while (fun x => negb (char_eqb x d)) (c :: s')) as Hsp.
  apply drop_while_head in E. simpl in *. rewrite E in *. simpl in *.
  split; [unfold before; simpl; rewrite E; simpl; lia|].
  pose proof (length_drop_while (fun x => negb (char_eqb x d)) s').
  destruct (drop_while _ s'); simpl in *; lia.
Qed.

Lemma tokens_length (d : ascii) (s : cstr) : Forall (fun t => (length t <= length s)%nat) (tokens d s).
Proof.
  unfold tokens. generalize (S (length s)) as fuel. intros fuel.
  assert (forall n, (length s <= n)%nat -> Forall (fun t : cstr => (length t <= n)%nat) (tokens_fuel fuel d s)) as H.
  { revert s. induction fuel as [|fuel IH]; intros s n Hn; simpl; [constructor|].
    destruct (strtok_r d s) as [[tok rest]|] eqn:E; [|constructor].
    apply strtok_r_length in E. constructor; [lia|]. apply IH. lia. }
  by apply H.
Qed.

Lemma line_fields_length (line : cstr) :
  let f := mountinfo_scan 0 fields_none (tokens SP line) in
  (forall r, mi_root f = Some r -> (length r <= length line)%nat) /\
  (forall p, mi_point f = Some p -> (length p <= length line)%nat).
Proof. apply mountinfo_scan_Forall; [apply tokens_length|done|done]. Qed.

Lemma record_v2_spec (r p fs : cstr) (m : rps_cgroup_mounts) :
  Z.of_nat (length r) <= INT_MAX -> Z.of_nat (length p) <= INT_MAX ->
  let m' := record_v2 r p fs m in
  has_v1_memory m' = has_v1_memory m /\ v1_memory_root m' = v1_memory_root m /\
  v1_memory_mount m' = v1_memory_mount m /\
  if has_v2 m then m' = m
  else if bool_decide (fs = cs "cgroup2") && (length r <? 512)%nat && (length p <? 512)%nat
  then has_v2 m' = true /\ v2_root m' = r /\ v2_mount m' = p else has_v2 m' = false.
Proof.
  intros Hr Hp. unfold record_v2, streq.
  destruct (copy_mount_spec r Hr) as [Hr1 Hr2], (copy_mount_spec p Hp) as [Hp1 Hp2].
  destruct (copy_mount 512 r) as [okr bufr], (copy_mount 512 p) as [okp bufp].
  simpl in *. subst okr okp.
  destruct (has_v2 m) eqn:Hv; [done|]. simpl.
  destruct (bool_decide (fs = cs "cgroup2")); [|done]. simpl.
  destruct (Nat.ltb_spec (length r) 512); [|done]. simpl.
  destruct (Nat.ltb_spec (length p) 512); simpl; auto 10.
Qed.

Lemma record_v1_spec (r p fs : cstr) (opts sup : option cstr) (m : rps_cgroup_mounts) :
  Z.of_nat (length r) <= INT_MAX -> Z.of_nat (length p) <= INT_MAX ->
  let m' := record_v1 r p fs opts sup m in
  has_v2 m' = has_v2 m /\ v2_root m' = v2_root m /\ v2_mount m' = v2_mount m /\
  if has_v1_memory m then m' = m
  else if bool_decide (fs = cs "cgroup") &&
          (controllers_include (default [] opts) (cs "memory") ||
           controllers_include (default [] sup) (cs "memory")) &&
          (length r <? 512)%nat && (length p <? 512)%nat
  then has_v1_memory m' = true /\ v1_memory_root m' = r /\ v1_memory_mount m' = p
  else has_v1_memory m' = false.
Proof.
  intros Hr Hp. unfold record_v1, streq.
  destruct (copy_mount_spec r Hr) as [Hr1 Hr2], (copy_mount_spec p Hp) as [Hp1 Hp2].
  destruct (copy_mount 512 r) as [okr bufr], (copy_mount 512 p) as [okp bufp].
  simpl in *. subst okr okp.
  destruct (has_v1_memory m) eqn:Hv; [done|]. simpl.
  destruct (bool_decide (fs = cs "cgroup") && _); [|done]. simpl.
  destruct (Nat.ltb_spec (length r) 512); [|done]. simpl.
  destruct (Nat.ltb_spec (length p) 512); simpl; auto 10.
Qed.

Lemma parse_mountinfo_step (m : rps_cgroup_mounts) (line : cstr) :
  Z.of_nat (length line) <= INT_MAX ->
  let m' := parse_mountinfo_line m line in
  (if has_v2 m then has_v2 m' = true /\ v2_root m' = v2_root m /\ v2_mount m' = v2_mount m
   else match line_mount is_v2 line with
        | Some (r, p) => has_v2 m' = true /\ v2_root m' = r /\ v2_mount m' = p
        | None => has_v2 m' = false
        end) /\
  (if has_v1_memory m then has_v1_memory m' = true /\
     v1_memory_root m' = v1_memory_root m /\ v1_memory_mount m' = v1_memory_mount m
   else match line_mount is_v1_memory line with
        | Some (r, p) => has_v1_memory m' = true /\ v1_memory_root m' = r /\ v1_memory_mount m' = p
        | None => has_v1_memory m' = false
        end).
Proof.
  intros Hlen. unfold parse_mountinfo_line, line_mount.
  destruct (line_fields_length line) as [Hr Hp].
  destruct (mountinfo_scan 0 fields_none (tokens SP line)) as [[r|] [p|] opts [fs|] sup];
    simpl in *; try (by destruct (has_v2 m), (has_v1_memory m)).
  specialize (Hr r eq_refl). specialize (Hp p eq_refl).
  destruct (record_v2_spec r p fs m ltac:(lia) ltac:(lia)) as (H1 & H2 & H3 & H4).
  set (m1 := record_v2 r p fs m) in *. clearbody m1.
  destruct (record_v1_spec r p fs opts sup m1 ltac:(lia) ltac:(lia)) as (G1 & G2 & G3 & G4).
  set (m2 := record_v1 r p fs opts sup m1) in *. clearbody m2.
  unfold is_v2, is_v1_memory. simpl.
  rewrite (bool_decide_ext (Some fs = Some (cs "cgroup2")) (fs = cs "cgroup2")) by naive_solver.
  rewrite (bool_decide_ext (Some fs = Some (cs "cgroup")) (fs = cs "cgroup")) by naive_solver.
  rewrite G1, G2, G3. rewrite H1 in G4. split.
  - destruct (has_v2 m) eqn:?; [by subst m1|].
    by destruct (bool_decide (fs = cs "cgroup2") && (length r <? 512)%nat && (length p <? 512)%nat).
  - destruct (has_v1_memory m) eqn:?; [subst m2; by rewrite H1, H2, H3|].
    by destruct (bool_decide (fs = cs "cgroup") && _ && (length r <? 512)%nat && (length p <? 512)%nat).
Qed.

(** The whole table: for each hierarchy, the first line that fits wins. *)
Lemma parse_mountinfo_fold (lines : list cstr) (m : rps_cgroup_mounts) :
  Forall (fun l => Z.of_nat (length l) <= INT_MAX) lines ->
  has_v2 m = false -> has_v1_memory m = false ->
  let m' := foldl parse_mountinfo_line m lines in
  match first_some (line_mount is_v2) lines with
  | Some (r, p) => has_v2 m' = true /\ v2_root m' = r /\ v2_mount m' = p
  | None => has_v2 m' = false
  end /\
  match first_some (line_mount is_v1_memory) lines with
  | Some (r, p) => has_v1_memory m' = true /\ v1_memory_root m' = r /\ v1_memory_mount m' = p
  | None => has_v1_memory m' = false
  end.
Proof.
  intros Hlen H2 H1.
  assert (forall lines m0, Forall (fun l => Z.of_nat (length l) <= INT_MAX) lines ->
    let m' := foldl parse_mountinfo_line m0 lines in
    (if has_v2 m0 then has_v2 m' = true /\ v2_root m' = v2_root m0 /\ v2_mount m' = v2_mount m0
     else match first_some (line_mount is_v2) lines with
          | Some (r, p) => has_v2 m' = true /\ v2_root m' = r /\ v2_mount m' = p
          | None => has_v2 m' = false end) /\
    (if has_v1_memory m0 then has_v1_memory m' = true /\
       v1_memory_root m' = v1_memory_root m0 /\ v1_memory_mount m' = v1_memory_mount m0
     else match first_some (line_mount is_v1_memory) lines with
          | Some (r, p) => has_v1_memory m' = true /\ v1_memory_root m' = r /\ v1_memory_mount m' = p
          | None => has_v1_memory m' = false end)) as H.
  { clear. intros lines. induction lines as [|l lines IH]; intros m0 Hall; simpl.
    { by destruct (has_v2 m0), (has_v1_memory m0). }
    apply Forall_cons in Hall as [Hl Hall]. destruct (parse_mountinfo_step m0 l Hl) as [S2 S1].
    destruct (IH (parse_mountinfo_line m0 l) Hall) as [I2 I1]. unfold first_some in *. simpl.
    split; [clear S1 I1|clear S2 I2].
    - destruct (has_v2 m0).
      + destruct S2 as (Sa & Sb & Sc). by rewrite Sa, Sb, Sc in I2.
      + destruct (line_mount is_v2 l) as [[r p]|]; [|by rewrite S2 in I2].
        destruct S2 as (Sa & Sb & Sc). by rewrite Sa, Sb, Sc in I2.
    - destruct (has_v1_memory m0).
      + destruct S1 as (Sa & Sb & Sc). by rewrite Sa, Sb, Sc in I1.
      + destruct (line_mount is_v1_memory l) as [[r p]|]; [|by rewrite S1 in I1].
        destruct S1 as (Sa & Sb & Sc). by rewrite Sa, Sb, Sc in I1. }
  specialize (H lines m Hlen). rewrite H2, H1 in H. exact H.
Qed.

(** ** Lemmas on lists of controllers *)

Lemma controllers_loop_spec (fuel : nat) (part needle : cstr) :
  needle <> [] -> (length part < fuel)%nat ->
  controllers_loop fuel part needle = true <-> needle ∈ split_on COMMA part.
Proof.
  intros Hn. revert part. induction fuel as [|n IH]; intros part Hf; [lia|].
  rewrite split_on_step. simpl. destruct part as [|c s] eqn:Hp.
  { simpl. split; [done|]. intros [->|H]%elem_of_cons; [done|by apply elem_of_nil in H]. }
  rewrite <-Hp in *. clear c s Hp.
  pose proof (take_drop_while (fun x => negb (char_eqb x COMMA)) part) as Hsplit.
  fold (before part COMMA) in Hsplit.
  assert (match strchr part COMMA with None => length part
          | Some r => (length part - length r)%nat end = length (before part COMMA)) as ->.
  { pose proof (f_equal length Hsplit) as Hlen. rewrite length_app in Hlen. unfold strchr.
    destruct (drop_while _ part) as [|x l]; cbn [length] in *; lia. }
  assert ((length (before part COMMA) =? length needle)%nat && strneq part needle (length needle)
          = bool_decide (needle = before part COMMA)) as ->.
  { apply eq_true_iff_eq. unfold strneq. rewrite andb_true_iff, Nat.eqb_eq, !bool_decide_eq_true.
    rewrite firstn_all. split.
    - intros [Hl Ht]. rewrite <-Ht, <-Hl. rewrite <-Hsplit at 2. apply take_length_app.
    - intros ->. split; [done|]. rewrite <-Hsplit at 2. apply take_length_app. }
  destruct (bool_decide (needle = before part COMMA)) eqn:E; to_prop.
  { subst needle. split; [intros _; by left|done]. }
  rewrite elem_of_cons. destruct (strchr part COMMA) as [r|] eqn:Hr.
  - rewrite IH; [naive_solver|]. apply strchr_Some in Hr as [Hpr [r' ->]].
    rewrite Hpr in Hf. rewrite length_app in Hf. simpl in *. lia.
  - split; [done|]. intros [->|H]; [done|by apply elem_of_nil in H].
Qed.

Lemma controllers_include_spec (controllers needle : cstr) :
  needle <> [] ->
  controllers_include controllers needle = true <-> needle ∈ split_on COMMA controllers.
Proof. intros H. apply controllers_loop_spec; [done|lia]. Qed.

Lemma mountinfo_scan_optional (optional rest : list cstr) (field : Z) (acc : mountinfo_fields) :
  6 <= field -> Forall (fun t => t <> cs "-") optional ->
  mountinfo_scan field acc (optional ++ cs "-" :: rest) =
  Fields (mi_root acc) (mi_point acc) (mi_options acc) (rest !! 0%nat) (rest !! 2%nat).
Proof.
  intros Hf Hall. revert field Hf. induction Hall as [|t ts Ht _ IH]; intros field Hf; simpl.
  - rewrite !(proj2 (Z.eqb_neq _ _)) by lia. by rewrite ?streq_refl.
  - rewrite !(proj2 (Z.eqb_neq _ _)) by lia. rewrite (proj2 (streq_neq _ _)) by done.
    apply IH. lia.
Qed.

Lemma mountinfo_scan_fields (id parent dev root point opts : cstr) (optional rest : list cstr) :
  Forall (fun t => t <> cs "-") ([id; parent; dev; root; point; opts] ++ optional) ->
  mountinfo_scan 0 fields_none
    ([id; parent; dev; root; point; opts] ++ optional ++ cs "-" :: rest) =
  Fields (Some root) (Some point) (Some opts) (rest !! 0%nat) (rest !! 2%nat).
Proof.
  rewrite Forall_app, !Forall_cons. intros [(? & ? & ? & ? & ? & ? & _) Ho]. simpl.
  rewrite !(proj2 (streq_neq _ _)) by done.
  by rewrite mountinfo_scan_optional by (done || lia).
Qed.

(** ** Properties *)

(** C10: detection picks the most restrictive finite limit.  When no membership
    line yields a usable candidate the result is "not found" with a zeroed
    structure; otherwise it is one of the candidates, none of the others has a
    smaller limit, and its values are those its control files hold: a positive
    limit below the kernel's "unlimited" sentinel and a readable counter. *)
Theorem detect_smallest_limit (getenv : cstr -> option cstr) (fopen : cstr -> option stream) :
  match cgroup_candidates getenv fopen with
  | [] => rps_cgroup_memory_detect getenv fopen = (false, cgroup_memory_zero)
  | candidates =>
      exists best, rps_cgroup_memory_detect getenv fopen = (true, best) /\
        best ∈ candidates /\
        Forall (fun c => limit_bytes best <= limit_bytes c) candidates /\
        candidate_sound fopen best
  end.
Proof.
  pose proof (detect_cases getenv fopen) as H. pose proof (candidates_sound getenv fopen) as Hs.
  destruct (cgroup_candidates getenv fopen) as [|c l]; [done|].
  destruct H as (best & Hd & Hin & Hall). exists best. rewrite Forall_forall in Hs. auto.
Qed.

(** C38: [parse_u64_token] accepts exactly the non-empty all-digit tokens whose
    value fits 64 bits, and returns that value: the overflow guard neither
    wraps around nor refuses a representable number. *)
Theorem parse_u64_exact (token : cstr) (v : Z) :
  parse_u64_token token = Some v <->
  token <> [] /\ all_digits token = true /\ v = dec token /\ v <= UINT64_MAX.
Proof. apply parse_u64_spec. Qed.

(** [controllers_include] is membership in the comma-separated list: a
    controller whose name only starts with, or contains, the needle does not
    count. *)
Theorem controllers_include_member (controllers needle : cstr) :
  needle <> [] ->
  controllers_include controllers needle = true <-> needle ∈ split_on COMMA controllers.
Proof. apply controllers_include_spec. Qed.

Lemma controllers_include_member_witness :
  cs "memory" ∈ split_on COMMA (cs "cpu,memory,pids").
Proof.
  apply (controllers_include_member (cs "cpu,memory,pids") (cs "memory")); [done|].
  vm_compute. reflexivity.
Defined.

(** A mountinfo line is read back.  From the space-separated line the
    kernel writes (six fields, any number of optional fields, a "-", then type,
    source and super options, each without spaces and the fields in front
    different from "-"), the scan recovers root, mount point, options, type
    and super options. *)
Theorem mountinfo_line_fields (id parent dev root point opts : cstr) (optional : list cstr)
    (fstype source super : cstr) :
  let front := [id; parent; dev; root; point; opts] ++ optional in
  Forall (is_token SP) (front ++ [cs "-"; fstype; source; super]) ->
  Forall (fun t => t <> cs "-") front ->
  mountinfo_scan 0 fields_none
    (tokens SP (join_with SP (front ++ [cs "-"; fstype; source; super]))) =
  Fields (Some root) (Some point) (Some opts) (Some fstype) (Some super).
Proof.
  intros front Htok Hne. rewrite tokens_join by done. unfold front. rewrite <-app_assoc.
  by rewrite (mountinfo_scan_fields id parent dev root point opts optional).
Qed.

Lemma mountinfo_line_fields_witness :
  mountinfo_scan 0 fields_none
    (tokens SP (cs "30 23 0:26 / /sys/fs/cgroup rw,nosuid shared:4 - cgroup2 cgroup rw,memory")) =
  Fields (Some (cs "/")) (Some (cs "/sys/fs/cgroup")) (Some (cs "rw,nosuid"))
         (Some (cs "cgroup2")) (Some (cs "rw,memory")).
Proof.
  refine (eq_trans _ (mountinfo_line_fields (cs "30") (cs "23") (cs "0:26") (cs "/")
    (cs "/sys/fs/cgroup") (cs "rw,nosuid") [cs "shared:4"] (cs "cgroup2") (cs "cgroup")
    (cs "rw,memory") _ _)).
  - vm_compute. reflexivity.
  - repeat constructor; (discriminate || (vm_compute; intros H; repeat (apply elem_of_cons in H as [H|H]; [discriminate|]); by apply elem_of_nil in H)).
  - repeat constructor; discriminate.
Defined.

(** C37: for each hierarchy the first matching mount wins.  Over the lines of a
    mount table, the version 2 mount recorded is the one of the first cgroup2
    line whose root and mount point fit their buffers, the version 1 mount the
    one of the first such memory-controller line, and a flag is set exactly
    when there is one; a line whose paths do not fit leaves no half-filled
    record behind the flag. *)
Theorem mounts_first_match (bufs : list (list ascii)) :
  Forall (fun buf => Z.of_nat (length buf) <= INT_MAX) bufs ->
  let m := foldl (fun m buf => parse_mountinfo_line m (line_of buf)) mounts_zero bufs in
  match first_some (line_mount is_v2) (map line_of bufs) with
  | Some (r, p) => has_v2 m = true /\ v2_root m = r /\ v2_mount m = p
  | None => has_v2 m = false
  end /\
  match first_some (line_mount is_v1_memory) (map line_of bufs) with
  | Some (r, p) => has_v1_memory m = true /\ v1_memory_root m = r /\ v1_memory_mount m = p
  | None => has_v1_memory m = false
  end.
Proof.
  intros Hall. simpl.
  replace (foldl (fun m buf => parse_mountinfo_line m (line_of buf)) mounts_zero bufs)
    with (foldl parse_mountinfo_line mounts_zero (map line_of bufs)).
  2: { generalize mounts_zero. clear. induction bufs as [|b l IH]; intros m; simpl; [done|]. apply IH. }
  apply parse_mountinfo_fold; [|done|done].
  apply Forall_forall. intros l Hl. apply list_elem_of_In, in_map_iff in Hl as (b & <- & Hb).
  rewrite Forall_forall in Hall. apply list_elem_of_In, Hall in Hb.
  unfold line_of, chomp, cstr_of, before.
  pose proof (length_take_while (fun x => negb (char_eqb x NUL)) b).
  pose proof (length_take_while (fun c => negb (char_eqb c CR || char_eqb c NL))
    (take_while (fun x => negb (char_eqb x NUL)) b)). lia.
Qed.

Lemma mounts_first_match_witness :
  let bufs := [cs "24 1 0:21 / /sys rw - sysfs sysfs rw"; cs "30 24 0:26 /a /sys/fs/cgroup rw - cgroup2 c rw";
               cs "31 24 0:27 / /mnt rw - cgroup2 c rw"] in
  let m := foldl (fun m buf => parse_mountinfo_line m (line_of buf)) mounts_zero bufs in
  (has_v2 m = true /\ v2_root m = cs "/a" /\ v2_mount m = cs "/sys/fs/cgroup") /\
  has_v1_memory m = false.
Proof.
  apply (mounts_first_match [cs "24 1 0:21 / /sys rw - sysfs sysfs rw";
    cs "30 24 0:26 /a /sys/fs/cgroup rw - cgroup2 c rw"; cs "31 24 0:27 / /mnt rw - cgroup2 c rw"]).
  repeat constructor; vm_compute; discriminate.
Defined.
