(* ===== verification/Memory.v ===== *)
(** The memory view ([memory/memory.c], [memory/proc_meminfo.c]): the snapshot
    derived from the cgroup, and the rewritten /proc/meminfo.

    [rps_trace] calls only write to stderr when tracing is on and are left
    out. *)

From S2P Require Import Prelude CString Paths Cgroup.

#[local] Open Scope Z_scope.

(** ** [memory/memory.c] *)

Record rps_memory_snapshot_t := Snapshot { snap_total : Z; snap_available : Z }.

(** The function's statics [cgmem] and [detected]. *)
Record mem_static := MemStatic { ms_cgmem : rps_cgroup_memory; ms_detected : bool }.
Definition mem_static_start : mem_static := MemStatic cgroup_memory_zero false.

Section memory.
Variable getenv : cstr -> option cstr.
Variable fopen : cstr -> option stream.

(** [None] is the result false, with [*out] not written; [out] is not NULL. *)
Definition rps_memory_snapshot (lock_ok : bool) : M mem_static (option rps_memory_snapshot_t) :=
  fun st =>
    if negb lock_ok then (None, st)
    else
      let '(ok, st) :=
        if negb (ms_detected st) then
          let '(found, cgmem) := rps_cgroup_memory_detect getenv fopen in
          if negb found then (false, MemStatic cgmem false) else (true, MemStatic cgmem true)
        else (true, st) in
      if negb ok then (None, st)
      else
        let '(refreshed, cgmem) := rps_cgroup_memory_refresh fopen (ms_cgmem st) in
        let st := MemStatic cgmem (ms_detected st) in
        if negb refreshed then (None, st)
        else
          let available :=
            if current_bytes cgmem <? limit_bytes cgmem
            then u64 (limit_bytes cgmem - current_bytes cgmem) else 0 in
          (Some (Snapshot (limit_bytes cgmem) available), st).

(** ** [memory/proc_meminfo.c] *)

(** The output buffer is its written prefix and the count [used]. *)
Definition append_bytes (buflen : nat) (data : list ascii) (len : nat) (st : list ascii * nat)
    : option (list ascii * nat) :=
  let '(buf, used) := st in
  if (buflen <? len)%nat || (buflen - len <? used)%nat then None
  else Some (take used buf ++ take len data, (used + len)%nat).

(** ["%16llu"] *)
Definition print_u64_16 (n : Z) : cstr :=
  let s := print_u64 n in replicate (16 - length s) SP ++ s.

Definition append_rewritten_line (buflen : nat) (key : cstr) (value_kb : Z) (newline : bool)
    (st : list ascii * nat) : option (list ascii * nat) :=
  let '(written, line) :=
    snprintf 128 (key ++ print_u64_16 value_kb ++ cs " kB" ++ (if newline then [NL] else [])) in
  if (written <? 0) || (128 <=? written) then None
  else append_bytes buflen line (Z.to_nat written) st.

Definition open_meminfo : option stream :=
  let '(rc, path) := rps_proc_path getenv 512 (cs "/proc/meminfo") in
  if negb (rc =? 0) then None
  else match fopen path with
       | Some fp => Some fp
       | None =>
           if negb (streq path (cs "/proc/meminfo")) then
             let '(rc, path) := rps_proc_path getenv 512 (cs "/proc/self/meminfo") in
             if rc =? 0 then fopen path else None
           else None
       end.

(** The body of the loop: [line] is the C string in the 1024-byte buffer. *)
Definition meminfo_line (buflen : nat) (total_kb available_kb : Z) (line : cstr)
    (st : list ascii * nat) : option (list ascii * nat) :=
  let newline := match strchr line NL with Some _ => true | None => false end in
  if has_prefix (cs "MemTotal:") line then
    append_rewritten_line buflen (cs "MemTotal:") total_kb newline st
  else if has_prefix (cs "MemAvailable:") line then
    append_rewritten_line buflen (cs "MemAvailable:") available_kb newline st
  else if has_prefix (cs "MemFree:") line then
    append_rewritten_line buflen (cs "MemFree:") available_kb newline st
  else append_bytes buflen line (length line) st.

(** [None] is the result false; [buf] and [out_len] are not NULL.  The value is
    the buffer's content and [*out_len]. *)
Definition rps_proc_meminfo_build (lock_ok : bool) (buflen : nat)
    : M mem_static (option (list ascii * nat)) :=
  snapshot ← rps_memory_snapshot lock_ok;
  mret match snapshot with
       | None => None
       | Some s =>
           match open_meminfo with
           | None => None
           | Some fp =>
               let total_kb := snap_total s / 1024 in
               let available_kb := snap_available s / 1024 in
               let loop := foldl (fun st buf => st ≫= meminfo_line buflen total_kb available_kb (cstr_of buf))
                                 (Some ([], 0%nat)) (fgets_all 1024 fp) in
               match loop with
               | None => None
               | Some out => if st_err fp (* ferror(fp) *) then None else Some out
               end
           end
       end.

End memory.

(** ** Specification of the rewritten file *)

(** What a line of the real file becomes. *)
Definition rewrite_line (total_kb available_kb : Z) (line : cstr) : cstr :=
  let ending := cs " kB" ++ (if bool_decide (NL ∈ line) then [NL] else []) in
  if has_prefix (cs "MemTotal:") line then cs "MemTotal:" ++ print_u64_16 total_kb ++ ending
  else if has_prefix (cs "MemAvailable:") line then cs "MemAvailable:" ++ print_u64_16 available_kb ++ ending
  else if has_prefix (cs "MemFree:") line then cs "MemFree:" ++ print_u64_16 available_kb ++ ending
  else line.

Definition rewrite_meminfo (total_kb available_kb : Z) (fp : stream) : cstr :=
  concat (map (fun buf => rewrite_line total_kb available_kb (cstr_of buf)) (fgets_all 1024 fp)).

#[global] Arguments rps_cgroup_memory_detect : simpl never.
#[global] Arguments rps_cgroup_memory_refresh : simpl never.
#[global] Arguments print_u64_16 : simpl never.

(** ** Lemmas: decimal output *)

Lemma print_u64_16_length (n : Z) :
  0 <= n <= UINT64_MAX -> (16 <= length (print_u64_16 n) <= 20)%nat.
Proof.
  intros H. destruct (print_u64_spec n H) as (_ & _ & Hl). unfold print_u64_16.
  rewrite length_app, length_replicate. lia.
Qed.

(** ** Lemmas: building the file *)

Lemma append_bytes_spec (buflen : nat) (data buf : list ascii) :
  (length buf <= buflen)%nat ->
  append_bytes buflen data (length data) (buf, length buf) =
  if (length (buf ++ data) <=? buflen)%nat then Some (buf ++ data, length (buf ++ data)) else None.
Proof.
  intros Hb. unfold append_bytes. rewrite !firstn_all, length_app.
  destruct (Nat.ltb_spec buflen (length data)); simpl.
  { by rewrite (proj2 (Nat.leb_gt _ _)) by lia. }
  destruct (Nat.ltb_spec (buflen - length data) (length buf)).
  - by rewrite (proj2 (Nat.leb_gt _ _)) by lia.
  - by rewrite (proj2 (Nat.leb_le _ _)) by lia.
Qed.

Lemma append_rewritten_spec (buflen : nat) (key : cstr) (kb : Z) (newline : bool) (buf : list ascii) :
  (length buf <= buflen)%nat -> (length key <= 13)%nat -> 0 <= kb <= UINT64_MAX ->
  let line := key ++ print_u64_16 kb ++ cs " kB" ++ (if newline then [NL] else []) in
  append_rewritten_line buflen key kb newline (buf, length buf) =
  if (length (buf ++ line) <=? buflen)%nat then Some (buf ++ line, length (buf ++ line)) else None.
Proof.
  intros Hb Hk Hkb. simpl. unfold append_rewritten_line.
  set (line := key ++ print_u64_16 kb ++ cs " kB" ++ _).
  assert (length line < 128)%nat as Hl.
  { unfold line. rewrite !length_app. pose proof (print_u64_16_length kb Hkb).
    change (length (cs " kB")) with 3%nat. destruct newline; simpl; lia. }
  rewrite snprintf_fits by (unfold INT_MAX; lia).
  destruct (Z.ltb_spec (Z.of_nat (length line)) 0); [lia|]. simpl.
  destruct (Z.leb_spec 128 (Z.of_nat (length line))); [lia|].
  rewrite Nat2Z.id. by apply append_bytes_spec.
Qed.

Lemma strchr_newline (line : cstr) :
  match strchr line NL with Some _ => true | None => false end = bool_decide (NL ∈ line).
Proof.
  pose proof (strchr_None NL line) as H. destruct (strchr line NL); symmetry.
  - apply bool_decide_eq_true. destruct (decide (NL ∈ line)); [done|]. by apply H in n.
  - apply bool_decide_eq_false. by apply H.
Qed.

Lemma meminfo_line_spec (buflen : nat) (total_kb available_kb : Z) (line buf : cstr) :
  (length buf <= buflen)%nat -> 0 <= total_kb <= UINT64_MAX -> 0 <= available_kb <= UINT64_MAX ->
  let out := buf ++ rewrite_line total_kb available_kb line in
  meminfo_line buflen total_kb available_kb line (buf, length buf) =
  if (length out <=? buflen)%nat then Some (out, length out) else None.
Proof.
  intros Hb Ht Ha. simpl. unfold meminfo_line, rewrite_line. rewrite strchr_newline.
  destruct (has_prefix (cs "MemTotal:") line); [by apply append_rewritten_spec; [|simpl; lia|]|].
  destruct (has_prefix (cs "MemAvailable:") line); [by apply append_rewritten_spec; [|simpl; lia|]|].
  destruct (has_prefix (cs "MemFree:") line); [by apply append_rewritten_spec; [|simpl; lia|]|].
  by apply append_bytes_spec.
Qed.

Lemma meminfo_fold_spec (buflen : nat) (total_kb available_kb : Z) (lines : list cstr) (buf : cstr) :
  (length buf <= buflen)%nat -> 0 <= total_kb <= UINT64_MAX -> 0 <= available_kb <= UINT64_MAX ->
  let out := buf ++ concat (map (fun b => rewrite_line total_kb available_kb (cstr_of b)) lines) in
  foldl (fun st b => st ≫= meminfo_line buflen total_kb available_kb (cstr_of b))
    (Some (buf, length buf)) lines =
  if (length out <=? buflen)%nat then Some (out, length out) else None.
Proof.
  intros Hb Ht Ha. simpl. revert buf Hb. induction lines as [|l lines IH]; intros buf Hb; simpl.
  { rewrite app_nil_r. by rewrite (proj2 (Nat.leb_le _ _)). }
  rewrite meminfo_line_spec by done.
  destruct (Nat.leb_spec (length (buf ++ rewrite_line total_kb available_kb (cstr_of l))) buflen) as [H|H].
  - rewrite IH by done. by rewrite <-app_assoc.
  - assert (forall ls, foldl (fun st b => st ≫= meminfo_line buflen total_kb available_kb (cstr_of b))
      None ls = None) as -> by (intros ls; by induction ls).
    rewrite (proj2 (Nat.leb_gt _ _)); [done|]. rewrite app_assoc, length_app. lia.
Qed.

(** ** Lemmas: the snapshot *)

(** What a detected limit guarantees for the rest of the process's life. *)
Definition mem_static_wf (st : mem_static) : Prop :=
  ms_detected st = true ->
  0 < limit_bytes (ms_cgmem st) < RPS_CGROUP_UNLIMITED_SENTINEL /\
  0 <= current_bytes (ms_cgmem st) <= UINT64_MAX.

Lemma refresh_spec fopen (mem mem' : rps_cgroup_memory) (ok : bool) :
  rps_cgroup_memory_refresh fopen mem = (ok, mem') ->
  limit_bytes mem' = limit_bytes mem /\ current_path mem' = current_path mem /\
  if ok then read_counter_file fopen (current_path mem) = Some (current_bytes mem')
  else mem' = mem.
Proof.
  unfold rps_cgroup_memory_refresh. destruct (current_path mem) eqn:E.
  - intros [= <- <-]. auto.
  - rewrite <-E. destruct (read_counter_file _ _) as [c|] eqn:Ec; intros [= <- <-]; auto.
Qed.

Lemma detect_sound getenv fopen (c : rps_cgroup_memory) :
  rps_cgroup_memory_detect getenv fopen = (true, c) -> candidate_sound fopen c.
Proof.
  intros H. pose proof (detect_cases getenv fopen) as Hc. pose proof (candidates_sound getenv fopen) as Hs.
  destruct (cgroup_candidates getenv fopen) as [|x l]; [congruence|].
  destruct Hc as (best & Hd & Hin & _). rewrite Hd in H. injection H as <-.
  rewrite Forall_forall in Hs. auto.
Qed.

(** The snapshot a well-formed record gives. *)
Definition snapshot_of (mem : rps_cgroup_memory) : rps_memory_snapshot_t :=
  Snapshot (limit_bytes mem) (Z.max 0 (limit_bytes mem - current_bytes mem)).

Lemma snapshot_spec getenv fopen (lock_ok : bool) (st st' : mem_static) (r : option rps_memory_snapshot_t) :
  mem_static_wf st -> rps_memory_snapshot getenv fopen lock_ok st = (r, st') ->
  mem_static_wf st' /\
  (ms_detected st = true ->
     ms_detected st' = true /\ limit_bytes (ms_cgmem st') = limit_bytes (ms_cgmem st)) /\
  match r with
  | Some s => ms_detected st' = true /\ s = snapshot_of (ms_cgmem st') /\
      read_counter_file fopen (current_path (ms_cgmem st')) = Some (current_bytes (ms_cgmem st'))
  | None => True
  end.
Proof.
  intros Hwf. unfold rps_memory_snapshot. destruct lock_ok; simpl; [|intros [= <- <-]; auto].
  assert (exists ok st1, (if negb (ms_detected st) then
      let '(found, cgmem) := rps_cgroup_memory_detect getenv fopen in
      if negb found then (false, MemStatic cgmem false) else (true, MemStatic cgmem true)
    else (true, st)) = (ok, st1) /\ mem_static_wf st1 /\ ms_detected st1 = ok /\
    (ms_detected st = true -> st1 = st)) as (ok & st1 & -> & Hwf1 & Hok & Hsame).
  { destruct (ms_detected st) eqn:Hd; simpl; [by exists true, st|].
    destruct (rps_cgroup_memory_detect getenv fopen) as [found cg] eqn:E. destruct found; simpl.
    - apply detect_sound in E as [_ _ H1 H2 _]. exists true, (MemStatic cg true). by split_and!.
    - exists false, (MemStatic cg false). by split_and!. }
  destruct ok; simpl.
  2: { intros [= <- <-]. split; [done|]. split; [|done]. intros H. rewrite (Hsame H) in Hok. congruence. }
  destruct (rps_cgroup_memory_refresh fopen (ms_cgmem st1)) as [rf cg] eqn:E.
  apply refresh_spec in E as (Hl & Hp & Hr). specialize (Hwf1 Hok) as [Hlim Hcur].
  destruct rf; simpl.
  - intros [= <- <-]. simpl. pose proof (read_counter_range _ _ _ Hr) as Hc.
    rewrite Hok. split; [intros _; simpl; by rewrite Hl|]. split.
    { intros H. split; [done|]. rewrite Hl. by rewrite (Hsame H). }
    split; [done|]. rewrite Hp. split; [|done]. unfold snapshot_of. f_equal.
    destruct (Z.ltb_spec (current_bytes cg) (limit_bytes cg)); [|lia].
    rewrite u64_small; [lia|]. unfold RPS_CGROUP_UNLIMITED_SENTINEL, UINT64_MAX in *. lia.
  - intros [= <- <-]. subst cg. rewrite Hok. split; [intros _; simpl; done|].
    split; [|done]. intros H. by rewrite (Hsame H).
Qed.

Lemma snapshot_range (mem : rps_cgroup_memory) :
  0 < limit_bytes mem < RPS_CGROUP_UNLIMITED_SENTINEL -> 0 <= current_bytes mem ->
  0 < snap_total (snapshot_of mem) < RPS_CGROUP_UNLIMITED_SENTINEL /\
  0 <= snap_available (snapshot_of mem) <= snap_total (snapshot_of mem).
Proof. simpl. lia. Qed.

Lemma mem_static_start_wf : mem_static_wf mem_static_start.
Proof. done. Qed.

Lemma meminfo_build_spec getenv fopen (lock_ok : bool) (buflen : nat) (st : mem_static) :
  mem_static_wf st ->
  let '(r, st') := rps_memory_snapshot getenv fopen lock_ok st in
  rps_proc_meminfo_build getenv fopen lock_ok buflen st =
  (match r, open_meminfo getenv fopen with
   | Some s, Some fp =>
       let out := rewrite_meminfo (snap_total s / 1024) (snap_available s / 1024) fp in
       if (length out <=? buflen)%nat && negb (st_err fp) then Some (out, length out) else None
   | _, _ => None
   end, st').
Proof.
  intros Hwf. unfold rps_proc_meminfo_build. unfold mbind, M_bind.
  destruct (rps_memory_snapshot getenv fopen lock_ok st) as [r st'] eqn:E.
  unfold mret, M_ret. f_equal. destruct r as [s|]; [|done].
  destruct (open_meminfo getenv fopen) as [fp|]; [|done].
  destruct (snapshot_spec _ _ _ _ _ _ Hwf E) as (Hwf' & _ & Hd & -> & _).
  destruct (Hwf' Hd) as [Hlim Hcur]. destruct (snapshot_range _ Hlim (proj1 Hcur)) as [Ht Ha].
  unfold RPS_CGROUP_UNLIMITED_SENTINEL in *.
  rewrite meminfo_fold_spec; [|simpl; lia|unfold UINT64_MAX; zlia..].
  unfold rewrite_meminfo. simpl app. destruct (_ <=? buflen)%nat; [|done]. by destruct (st_err fp).
Qed.

(** One call of [rps_memory_snapshot]: the environment and files it sees, and
    whether it gets the lock. *)
Record snapshot_call := SnapshotCall {
  sc_getenv : cstr -> option cstr;
  sc_fopen : cstr -> option stream;
  sc_lock_ok : bool
}.

Fixpoint snapshots (calls : list snapshot_call) (st : mem_static) : list rps_memory_snapshot_t :=
  match calls with
  | [] => []
  | c :: calls' =>
      let '(r, st') := rps_memory_snapshot (sc_getenv c) (sc_fopen c) (sc_lock_ok c) st in
      option_list r ++ snapshots calls' st'
  end.

Definition snapshot_ok (total : Z) (s : rps_memory_snapshot_t) : Prop :=
  snap_total s = total /\ 0 < total < RPS_CGROUP_UNLIMITED_SENTINEL /\
  0 <= snap_available s <= total.

Lemma snapshots_detected (calls : list snapshot_call) (st : mem_static) :
  mem_static_wf st -> ms_detected st = true ->
  Forall (snapshot_ok (limit_bytes (ms_cgmem st))) (snapshots calls st).
Proof.
  revert st. induction calls as [|c calls IH]; intros st Hwf Hd; simpl; [constructor|].
  destruct (rps_memory_snapshot _ _ _ st) as [r st'] eqn:E.
  destruct (snapshot_spec _ _ _ _ _ _ Hwf E) as (Hwf' & Hkeep & Hr).
  destruct (Hkeep Hd) as [Hd' Hl]. apply Forall_app. split; [|rewrite <-Hl; by apply IH].
  destruct r as [s|]; simpl; [|constructor]. apply Forall_singleton.
  destruct Hr as (_ & -> & _). destruct (Hwf' Hd') as [Hlim Hcur]. rewrite <-Hl.
  unfold snapshot_ok. simpl. lia.
Qed.

Lemma snapshots_start (calls : list snapshot_call) (st : mem_static) :
  mem_static_wf st -> exists total, Forall (snapshot_ok total) (snapshots calls st).
Proof.
  revert st. induction calls as [|c calls IH]; intros st Hwf; simpl; [by exists 0; constructor|].
  destruct (rps_memory_snapshot _ _ _ st) as [r st'] eqn:E.
  destruct (snapshot_spec _ _ _ _ _ _ Hwf E) as (Hwf' & _ & Hr).
  destruct r as [s|]; simpl; [|by apply IH]. destruct Hr as (Hd & -> & _).
  exists (limit_bytes (ms_cgmem st')). constructor; [|by apply snapshots_detected].
  destruct (Hwf' Hd) as [Hlim Hcur]. unfold snapshot_ok. simpl. lia.
Qed.

Lemma trim_token_padded (n : Z) :
  0 <= n <= UINT64_MAX -> trim_token (print_u64_16 n) = print_u64 n.
Proof.
  intros H. destruct (print_u64_spec n H) as (Hd & _ & Hl).
  assert (Forall (fun c => is_space c = false) (print_u64 n)) as Hns.
  { apply Forall_forall. intros c Hc. unfold all_digits in Hd. rewrite forallb_forall in Hd.
    apply list_elem_of_In, Hd in Hc. unfold is_digit in Hc. to_prop. unfold is_space.
    rewrite !orb_false_iff, !andb_false_iff, !Z.leb_gt, Z.eqb_neq. lia. }
  unfold trim_token, print_u64_16.
  destruct (print_u64 n) as [|c s] eqn:E; [simpl in Hl; lia|].
  rewrite drop_while_app.
  - apply take_while_all. eapply Forall_impl; [exact Hns|]. by intros x ->.
  - by apply Forall_replicate.
  - by apply Forall_cons in Hns as [? _].
Qed.

(** ** Properties *)

(** C23: the memory view is consistent for the life of the process.  Whatever
    the environment, the files and the lock do from call to call, all
    snapshots that succeed report the same total; it is positive and below the
    "unlimited" sentinel, and the available amount lies between zero and it. *)
Theorem snapshots_consistent (calls : list snapshot_call) :
  exists total, Forall (snapshot_ok total) (snapshots calls mem_static_start).
Proof. apply snapshots_start, mem_static_start_wf. Qed.

(** A successful snapshot reports the cgroup.  The total is the detected
    limit (found by this call when none was recorded before), the counter file
    has just been read again, and the available amount is the limit minus the
    usage, or zero when the usage exceeds the limit. *)
Theorem snapshot_reports_cgroup (getenv : cstr -> option cstr) (fopen : cstr -> option stream)
    (lock_ok : bool) (st st' : mem_static) (s : rps_memory_snapshot_t) :
  mem_static_wf st -> rps_memory_snapshot getenv fopen lock_ok st = (Some s, st') ->
  exists limit usage,
    s = Snapshot limit (Z.max 0 (limit - usage)) /\
    read_counter_file fopen (current_path (ms_cgmem st')) = Some usage /\
    limit = limit_bytes (ms_cgmem st') /\
    (ms_detected st = true -> limit = limit_bytes (ms_cgmem st)).
Proof.
  intros Hwf E. destruct (snapshot_spec _ _ _ _ _ _ Hwf E) as (_ & Hkeep & _ & -> & Hr).
  exists (limit_bytes (ms_cgmem st')), (current_bytes (ms_cgmem st')).
  split_and!; [done|done|done|]. intros Hd. by destruct (Hkeep Hd).
Qed.

(** The files of a container with a 1 GiB limit, used below. *)
Definition sample_line (s : string) : list ascii := cs s ++ [NL].
Definition sample_files (p : cstr) : option stream :=
  let file l := Some (Stream l false) in
  if streq p (cs "/proc/self/mountinfo") then
    file (sample_line "30 23 0:26 / /sys/fs/cgroup rw,nosuid shared:4 - cgroup2 cgroup2 rw")
  else if streq p (cs "/proc/self/cgroup") then file (sample_line "0::/pod/a")
  else if streq p (cs "/sys/fs/cgroup/pod/a/memory.max") then file (sample_line "1073741824")
  else if streq p (cs "/sys/fs/cgroup/pod/a/memory.current") then file (sample_line "4194304")
  else if streq p (cs "/proc/meminfo") then
    file (sample_line "MemTotal:       263843440 kB" ++ sample_line "Buffers:           12 kB"
          ++ sample_line "MemFree:         1000000 kB")
  else None.

Definition sample_cgroup : rps_cgroup_memory :=
  CgroupMemory 2 1073741824 4194304 (cs "/sys/fs/cgroup/pod/a/memory.max")
    (cs "/sys/fs/cgroup/pod/a/memory.current").

Lemma snapshot_reports_cgroup_witness :
  exists limit usage,
    Snapshot 1073741824 1069547520 = Snapshot limit (Z.max 0 (limit - usage)) /\
    read_counter_file sample_files (current_path sample_cgroup) = Some usage /\
    limit = limit_bytes sample_cgroup /\
    (ms_detected mem_static_start = true -> limit = limit_bytes (ms_cgmem mem_static_start)).
Proof.
  apply (snapshot_reports_cgroup (fun _ => None) sample_files true mem_static_start
    (MemStatic sample_cgroup true) (Snapshot 1073741824 1069547520)).
  - apply mem_static_start_wf.
  - vm_compute. reflexivity.
Defined.

(** C21: the meminfo that is built is the real file with the three totals
    rewritten.  Given a snapshot and a readable file, building succeeds exactly
    when the rewritten file fits the buffer and no read error occurred, and
    then the buffer holds it: MemTotal carries the limit, MemAvailable and
    MemFree the available amount in kB, every other line is kept, in order. *)
Theorem meminfo_build_exact (getenv : cstr -> option cstr) (fopen : cstr -> option stream)
    (lock_ok : bool) (buflen : nat) (st st' : mem_static) (s : rps_memory_snapshot_t) (fp : stream) :
  mem_static_wf st -> rps_memory_snapshot getenv fopen lock_ok st = (Some s, st') ->
  open_meminfo getenv fopen = Some fp ->
  let out := rewrite_meminfo (snap_total s / 1024) (snap_available s / 1024) fp in
  rps_proc_meminfo_build getenv fopen lock_ok buflen st =
  (if (length out <=? buflen)%nat && negb (st_err fp) then Some (out, length out) else None, st').
Proof.
  intros Hwf Hs Ho. pose proof (meminfo_build_spec getenv fopen lock_ok buflen st Hwf) as H.
  rewrite Hs, Ho in H. exact H.
Qed.

Lemma meminfo_build_exact_witness :
  rps_proc_meminfo_build (fun _ => None) sample_files true (64 * 1024) mem_static_start =
  (Some (sample_line "MemTotal:         1048576 kB" ++ sample_line "Buffers:           12 kB"
         ++ sample_line "MemFree:         1044480 kB", 82%nat), MemStatic sample_cgroup true).
Proof.
  refine (eq_trans (meminfo_build_exact (fun _ => None) sample_files true (64 * 1024) mem_static_start
    (MemStatic sample_cgroup true) (Snapshot 1073741824 1069547520)
    (default (Stream [] false) (sample_files (cs "/proc/meminfo"))) _ _ _) _).
  - apply mem_static_start_wf.
  - vm_compute. reflexivity.
  - vm_compute. reflexivity.
  - vm_compute. reflexivity.
Defined.

(** A file none of whose lines is one of the three is rewritten to itself. *)
Lemma rewrite_kept (total_kb available_kb : Z) (fp : stream) :
  st_err fp = false -> no_nul (st_data fp) ->
  Forall (fun buf => has_prefix (cs "MemTotal:") buf = false /\
                     has_prefix (cs "MemAvailable:") buf = false /\
                     has_prefix (cs "MemFree:") buf = false) (fgets_all 1024 fp) ->
  rewrite_meminfo total_kb available_kb fp = st_data fp.
Proof.
  intros He Hn Hall. pose proof (fgets_all_concat 1024 fp ltac:(lia) He) as Hc.
  rewrite <-Hc in Hn. rewrite <-Hc. unfold rewrite_meminfo. clear Hc.
  induction Hall as [|b bufs (H1 & H2 & H3) _ IH]; simpl; [done|].
  simpl in Hn. apply Forall_app in Hn as [Hb Hn]. rewrite IH by done.
  rewrite cstr_of_no_nul by done. unfold rewrite_line. by rewrite H1, H2, H3.
Qed.

(** A file without the three lines is served unchanged: when a snapshot
    is available, no buffer of the real file starts with one of the keys, the
    file holds no NUL and reads without error, what is built is byte for byte
    the real file (or nothing, when it does not fit the buffer). *)
Theorem meminfo_other_lines_kept (getenv : cstr -> option cstr) (fopen : cstr -> option stream)
    (lock_ok : bool) (buflen : nat) (st st' : mem_static) (s : rps_memory_snapshot_t) (fp : stream) :
  mem_static_wf st -> rps_memory_snapshot getenv fopen lock_ok st = (Some s, st') ->
  open_meminfo getenv fopen = Some fp ->
  st_err fp = false -> no_nul (st_data fp) ->
  Forall (fun buf => has_prefix (cs "MemTotal:") buf = false /\
                     has_prefix (cs "MemAvailable:") buf = false /\
                     has_prefix (cs "MemFree:") buf = false) (fgets_all 1024 fp) ->
  rps_proc_meminfo_build getenv fopen lock_ok buflen st =
  (if (length (st_data fp) <=? buflen)%nat then Some (st_data fp, length (st_data fp)) else None, st').
Proof.
  intros Hwf Hs Ho He Hn Hall.
  pose proof (meminfo_build_spec getenv fopen lock_ok buflen st Hwf) as H.
  rewrite Hs, Ho in H. simpl in H. rewrite H, rewrite_kept, He, andb_true_r by done. done.
Qed.

Lemma meminfo_other_lines_kept_witness :
  let swap := sample_line "SwapTotal: 0 kB" ++ sample_line "SwapFree: 0 kB" in
  let files p := if streq p (cs "/proc/meminfo") then Some (Stream swap false) else sample_files p in
  rps_proc_meminfo_build (fun _ => None) files true 64 mem_static_start =
  (Some (swap, 31%nat), MemStatic sample_cgroup true).
Proof.
  intros swap files.
  refine (eq_trans (meminfo_other_lines_kept (fun _ => None) files true 64 mem_static_start
    (MemStatic sample_cgroup true) (Snapshot 1073741824 1069547520) (Stream swap false) _ _ _ _ _ _) _).
  - apply mem_static_start_wf.
  - vm_compute. reflexivity.
  - reflexivity.
  - reflexivity.
  - repeat constructor; discriminate.
  - vm_compute. repeat constructor.
  - vm_compute. reflexivity.
Defined.

(** What is printed can be read back: a value written with the "%16llu"
    field of a rewritten line is parsed back exactly by the shim's own token
    reader, over the whole 64-bit range. *)
Theorem meminfo_value_roundtrip (n : Z) :
  0 <= n <= UINT64_MAX -> parse_u64_token (trim_token (print_u64_16 n)) = Some n.
Proof.
  intros H. rewrite trim_token_padded by done. destruct (print_u64_spec n H) as (Hd & Hv & Hl).
  apply parse_u64_spec. split; [by intros E; rewrite E in Hl; simpl in Hl; lia|].
  split; [done|]. split; [done|]. lia.
Qed.

Lemma meminfo_value_roundtrip_witness :
  parse_u64_token (trim_token (print_u64_16 UINT64_MAX)) = Some UINT64_MAX.
Proof. apply meminfo_value_roundtrip. unfold UINT64_MAX. lia. Defined.
