(* ===== verification/Segments.v ===== *)
(** Lexical path resolution: the segment loop [rps_gpu_proc_normalize_path]
    ([gpu/proc_filter.c]) shares with the relative-path resolution of
    [preload.c], and the emission of the resolved path into a buffer. *)

From S2P Require Import Prelude CString.

#[local] Open Scope Z_scope.

(** Both functions keep their segments in an array of 64. *)
Definition SEGMENTS_MAX : nat := 64.

Definition is_slash (c : ascii) : bool := char_eqb c SLASH.

(** The loop over the path.  [pop] is what ".." does to the segments
    collected so far ([None]: the function returns failure). *)
Fixpoint segment_loop (fuel : nat) (pop : list cstr -> option (list cstr))
    (rest : cstr) (segments : list cstr) : option (list cstr) :=
  match fuel with
  | O => None
  | S n =>
      match rest with
      | [] => Some segments
      | _ =>
          match drop_while is_slash rest with
          | [] => Some segments
          | rest =>
              let segment := before rest SLASH in
              let rest' := drop_while (fun c => negb (char_eqb c SLASH)) rest in
              if streq segment (cs ".") then segment_loop n pop rest' segments
              else if streq segment (cs "..") then
                match pop segments with
                | None => None
                | Some segments => segment_loop n pop rest' segments
                end
              else if (SEGMENTS_MAX <=? length segments)%nat then None
              else segment_loop n pop rest' (segments ++ [segment])
          end
      end
  end.

(** The final loop: each segment behind a slash, refusing to fill the buffer. *)
Fixpoint emit_segments (out_size : nat) (segments : list cstr) (out : cstr) : option cstr :=
  match segments with
  | [] => Some out
  | s :: segments' =>
      if (out_size <=? length out + 1 + length s)%nat then None
      else emit_segments out_size segments' (out ++ SLASH :: s)
  end.

(** [if (count > 0) count--;] *)
Definition pop_segment (segments : list cstr) : option (list cstr) :=
  Some (if (0 <? length segments)%nat then take (length segments - 1) segments else segments).

Definition rps_gpu_proc_normalize_path (path : option cstr) (out_size : nat) : option cstr :=
  match path with
  | None => None
  | Some path =>
      if (out_size <? 2)%nat || negb (bool_decide (head path = Some SLASH)) then None
      else match segment_loop (S (length path)) pop_segment path [] with
           | None => None
           | Some [] => Some [SLASH]
           | Some segments => emit_segments out_size segments []
           end
  end.

(** ** Specification *)

(** Resolution over the list of the path's segments. *)
Fixpoint resolve (pop : list cstr -> option (list cstr)) (acc segs : list cstr) : option (list cstr) :=
  match segs with
  | [] => Some acc
  | s :: segs' =>
      if streq s (cs ".") then resolve pop acc segs'
      else if streq s (cs "..") then acc ← pop acc; resolve pop acc segs'
      else if (SEGMENTS_MAX <=? length acc)%nat then None
      else resolve pop (acc ++ [s]) segs'
  end.

(** What ".." means lexically: the directory in front, and the root above the
    root. *)
Definition parent (segs : list cstr) : option (list cstr) := Some (removelast segs).

Definition render (segs : list cstr) : cstr := concat (map (cons SLASH) segs).

(** A segment that resolution keeps. *)
Definition plain_segment (s : cstr) : Prop :=
  is_token SLASH s /\ s <> cs "." /\ s <> cs "..".

(** ** Lemmas *)

Lemma tokens_fuel_enough (d : ascii) (s : cstr) (n m : nat) :
  (length s < n)%nat -> (length s < m)%nat -> tokens_fuel n d s = tokens_fuel m d s.
Proof.
  revert s m. induction n as [|n IH]; intros s m Hn Hm; [lia|]. destruct m as [|m]; [lia|].
  simpl. destruct (strtok_r d s) as [[tok rest]|] eqn:E; [|done].
  assert (length rest < length s)%nat.
  { unfold strtok_r in E. pose proof (length_drop_while (fun x => char_eqb x d) s) as Hd.
    destruct (drop_while _ s) as [|c s'] eqn:Es; [done|]. injection E as <- <-.
    apply drop_while_head in Es. simpl in *. rewrite Es. simpl.
    pose proof (length_drop_while (fun x => negb (char_eqb x d)) s').
    destruct (drop_while _ s'); simpl in *; lia. }
  f_equal. apply IH; lia.
Qed.

Lemma tokens_step (d : ascii) (s : cstr) :
  tokens d s =
  match drop_while (fun x => char_eqb x d) s with
  | [] => []
  | s' => before s' d :: tokens d (drop_while (fun x => negb (char_eqb x d)) s')
  end.
Proof.
  unfold tokens at 1. cbn [tokens_fuel]. unfold strtok_r.
  pose proof (length_drop_while (fun x => char_eqb x d) s) as Hd.
  destruct (drop_while (fun x => char_eqb x d) s) as [|c s'] eqn:E; [done|].
  f_equal. apply drop_while_head in E.
  pose proof (length_drop_while (fun x => negb (char_eqb x d)) (c :: s')) as Hl.
  destruct (drop_while (fun x => negb (char_eqb x d)) (c :: s')) as [|x r] eqn:E2.
  - simpl. destruct (length s); [|done]. by simpl in Hd; lia.
  - simpl tail. apply drop_while_head, negb_false_iff in E2.
    unfold tokens. simpl in Hd, Hl. cbn [tokens_fuel]. unfold strtok_r at 1. cbn [drop_while]. rewrite E2.
    fold (strtok_r d r).
    destruct (length s) as [|m] eqn:Hs; [lia|].
    rewrite (tokens_fuel_enough d r (S m) (S (length (x :: r)))) by (simpl; lia).
    done.
Qed.

Lemma segment_loop_resolve (fuel : nat) (pop : list cstr -> option (list cstr)) (rest : cstr)
    (acc : list cstr) :
  (length rest < fuel)%nat -> segment_loop fuel pop rest acc = resolve pop acc (tokens SLASH rest).
Proof.
  revert rest acc. induction fuel as [|n IH]; intros rest acc Hf; [lia|].
  rewrite tokens_step. cbn [segment_loop]. destruct rest as [|c0 rest0] eqn:Hr; [done|].
  rewrite <-Hr in *. clear c0 rest0 Hr. unfold is_slash.
  pose proof (length_drop_while (fun x => char_eqb x SLASH) rest) as Hd.
  destruct (drop_while (fun x => char_eqb x SLASH) rest) as [|c s] eqn:E; [done|].
  cbn [resolve].
  assert (length (drop_while (fun x => negb (char_eqb x SLASH)) (c :: s)) < length (c :: s))%nat as Hl.
  { apply drop_while_head in E. simpl. rewrite E. simpl.
    pose proof (length_drop_while (fun x => negb (char_eqb x SLASH)) s). lia. }
  destruct (streq _ (cs ".")); [apply IH; lia|].
  destruct (streq _ (cs "..")).
  { destruct (pop acc) as [a|]; [|done]. apply (IH _ a). lia. }
  destruct (SEGMENTS_MAX <=? length acc)%nat; [done|]. apply IH. lia.
Qed.

Lemma render_cons (s : cstr) (segs : list cstr) : render (s :: segs) = SLASH :: s ++ render segs.
Proof. done. Qed.

Lemma emit_segments_spec (out_size : nat) (segs : list cstr) (out : cstr) :
  (length out < out_size)%nat ->
  emit_segments out_size segs out =
  if (length (out ++ render segs) <? out_size)%nat then Some (out ++ render segs) else None.
Proof.
  revert out. induction segs as [|s segs IH]; intros out Hout; cbn [emit_segments].
  { unfold render. simpl. rewrite app_nil_r. by rewrite (proj2 (Nat.ltb_lt _ _)). }
  rewrite render_cons. destruct (Nat.leb_spec out_size (length out + 1 + length s)) as [H|H].
  - rewrite (proj2 (Nat.ltb_ge _ _)); [done|]. rewrite length_app. simpl. rewrite length_app. lia.
  - rewrite IH by (rewrite length_app; simpl; lia). by rewrite <-app_assoc.
Qed.

Lemma tokens_skip (d : ascii) (s : cstr) : tokens d (d :: s) = tokens d s.
Proof. rewrite (tokens_step d (d :: s)), (tokens_step d s). cbn [drop_while]. by rewrite char_eqb_refl. Qed.

Lemma tokens_at (d : ascii) (t rest : cstr) :
  is_token d t -> tokens d (t ++ d :: rest) = t :: tokens d rest.
Proof.
  intros [Hne Hd]. destruct t as [|c t]; [done|]. rewrite tokens_step.
  assert (drop_while (fun x => char_eqb x d) ((c :: t) ++ d :: rest) = (c :: t) ++ d :: rest) as ->.
  { cbn [app drop_while]. rewrite (proj2 (char_eqb_neq c d)); [done|]. intros ->. apply Hd. by left. }
  destruct ((c :: t) ++ d :: rest) as [|x l] eqn:E; [done|].
  rewrite <-E. cbv zeta. rewrite before_app by done. f_equal.
  rewrite (drop_while_app _ (c :: t) d) by (apply not_char_Forall || rewrite char_eqb_refl; done).
  apply tokens_skip.
Qed.

Lemma tokens_last (d : ascii) (t : cstr) : is_token d t -> tokens d t = [t].
Proof.
  intros Ht. change t with (join_with d [t]) at 1. apply tokens_join. by apply Forall_singleton.
Qed.

Lemma tokens_render (segs : list cstr) :
  Forall (is_token SLASH) segs -> tokens SLASH (render segs) = segs.
Proof.
  intros Hall. induction Hall as [|s segs Hs _ IH]; [done|].
  rewrite render_cons, tokens_skip. destruct segs as [|s2 segs].
  - unfold render. simpl. rewrite app_nil_r. by apply tokens_last.
  - rewrite render_cons in *. rewrite tokens_at by done. f_equal.
    by rewrite tokens_skip in IH.
Qed.

Lemma resolve_plain (pop : list cstr -> option (list cstr)) (acc segs : list cstr) :
  Forall plain_segment segs -> (length acc + length segs <= SEGMENTS_MAX)%nat ->
  resolve pop acc segs = Some (acc ++ segs).
Proof.
  intros Hall. revert acc. induction Hall as [|s segs (_ & H1 & H2) _ IH]; intros acc Hl; cbn [resolve].
  { by rewrite app_nil_r. }
  rewrite !(proj2 (streq_neq _ _)) by done. simpl in Hl.
  rewrite (proj2 (Nat.leb_gt _ _)) by lia.
  rewrite IH by (rewrite length_app; simpl; lia). by rewrite <-app_assoc.
Qed.

Lemma tokens_are_tokens (d : ascii) (s : cstr) : Forall (is_token d) (tokens d s).
Proof.
  remember (length s) as n eqn:Hn. revert s Hn.
  induction n as [n IH] using lt_wf_ind. intros s ->. rewrite tokens_step.
  pose proof (length_drop_while (fun x => char_eqb x d) s) as Hd.
  destruct (drop_while (fun x => char_eqb x d) s) as [|c s'] eqn:E; [constructor|].
  apply drop_while_head in E. constructor.
  - split; [|apply before_not_in]. unfold before. simpl. by rewrite E.
  - pose proof (length_drop_while (fun x => negb (char_eqb x d)) s').
    eapply IH; [|reflexivity]. simpl in *. rewrite E. simpl. lia.
Qed.

(** What resolution keeps, for a [pop] that only drops segments. *)
Lemma resolve_Forall (P : list cstr -> Prop) (pop : list cstr -> option (list cstr))
    (acc segs out : list cstr) :
  (forall a b, P a -> pop a = Some b -> P b) ->
  (forall a s, P a -> plain_segment s -> (length a < SEGMENTS_MAX)%nat -> P (a ++ [s])) ->
  Forall (is_token SLASH) segs -> P acc -> resolve pop acc segs = Some out -> P out.
Proof.
  intros Hpop Happ Hall. revert acc. induction Hall as [|s segs Hs _ IH]; intros acc Hacc; cbn [resolve].
  { by intros [= <-]. }
  destruct (streq s (cs ".")) eqn:E1; [by apply IH|].
  destruct (streq s (cs "..")) eqn:E2.
  { destruct (pop acc) as [acc'|] eqn:Ep; simpl; [|done]. apply IH. by eapply Hpop. }
  destruct (Nat.leb_spec SEGMENTS_MAX (length acc)) as [|Hl]; [done|].
  apply IH, Happ; [done| |done]. apply streq_neq in E1, E2. by split.
Qed.

(** ** Normalisation *)

(** Counting down the array is dropping the last segment. *)
Lemma pop_segment_parent (segs : list cstr) : pop_segment segs = parent segs.
Proof.
  unfold pop_segment, parent. f_equal. destruct segs as [|s segs] using rev_ind; [done|].
  rewrite removelast_last, length_app. cbn [length]. rewrite (proj2 (Nat.ltb_lt 0 _)) by lia.
  by rewrite Nat.add_sub, take_length_app.
Qed.

Lemma resolve_ext (pop pop' : list cstr -> option (list cstr)) (acc segs : list cstr) :
  (forall a, pop a = pop' a) -> resolve pop acc segs = resolve pop' acc segs.
Proof.
  intros Hpop. revert acc. induction segs as [|s segs IH]; intros acc; cbn [resolve]; [done|].
  rewrite Hpop. repeat case_goal; rewrite ?IH; try done. destruct (pop' acc); [apply IH|done].
Qed.

(** The path of a list of segments; the root when there are none. *)
Definition render_root (segs : list cstr) : cstr :=
  match segs with [] => [SLASH] | _ => render segs end.

Definition canonical_segments (segs : list cstr) : Prop :=
  Forall plain_segment segs /\ (length segs <= SEGMENTS_MAX)%nat.

#[global] Arguments rps_gpu_proc_normalize_path : simpl never.
#[global] Arguments render : simpl never.

Lemma emit_render_root (out_size : nat) (segs : list cstr) :
  (2 <= out_size)%nat ->
  match segs with [] => Some [SLASH] | _ => emit_segments out_size segs [] end =
  if (length (render_root segs) <? out_size)%nat then Some (render_root segs) else None.
Proof.
  intros Hs. destruct segs as [|s segs].
  - simpl. by rewrite (proj2 (Nat.ltb_lt _ _)) by lia.
  - by rewrite emit_segments_spec by (simpl; lia).
Qed.

Lemma normalize_eq (path : cstr) (out_size : nat) :
  (2 <= out_size)%nat ->
  rps_gpu_proc_normalize_path (Some path) out_size =
  if bool_decide (head path = Some SLASH) then
    match resolve parent [] (tokens SLASH path) with
    | None => None
    | Some segs => if (length (render_root segs) <? out_size)%nat then Some (render_root segs) else None
    end
  else None.
Proof.
  intros Hs. unfold rps_gpu_proc_normalize_path. rewrite (proj2 (Nat.ltb_ge _ _)) by done.
  rewrite segment_loop_resolve, (resolve_ext _ parent) by (lia || apply pop_segment_parent). cbn [orb].
  destruct (bool_decide (head path = Some SLASH)); cbn [negb]; [|done].
  destruct (resolve parent [] (tokens SLASH path)) as [segs|]; [|done].
  by apply emit_render_root.
Qed.

Lemma canonical_pop (a b : list cstr) :
  canonical_segments a -> parent a = Some b -> canonical_segments b.
Proof.
  intros [Hp Hl] [= <-]. destruct a as [|s a] using rev_ind; [done|]. rewrite removelast_last.
  apply Forall_app in Hp as [Hp _]. rewrite length_app in Hl. split; [done|lia].
Qed.

Lemma canonical_snoc (a : list cstr) (s : cstr) :
  canonical_segments a -> plain_segment s -> (length a < SEGMENTS_MAX)%nat ->
  canonical_segments (a ++ [s]).
Proof.
  intros [Hp _] Hs Hl. split; [by apply Forall_app; repeat constructor; try apply Hs|].
  rewrite length_app. simpl. lia.
Qed.

Lemma normalize_canonical (path : option cstr) (out_size : nat) (q : cstr) :
  rps_gpu_proc_normalize_path path out_size = Some q ->
  exists segs, canonical_segments segs /\ q = render_root segs /\ (length q < out_size)%nat.
Proof.
  intros H. destruct path as [p|]; [|done].
  assert (2 <= out_size)%nat as Hs.
  { unfold rps_gpu_proc_normalize_path in H. destruct (Nat.ltb_spec out_size 2); [done|lia]. }
  rewrite normalize_eq in H by done. destruct (bool_decide _); [|done].
  destruct (resolve parent [] (tokens SLASH p)) as [segs|] eqn:E; [|done].
  exists segs. destruct (Nat.ltb_spec (length (render_root segs)) out_size); [|done].
  injection H as <-. split; [|done].
  refine (resolve_Forall canonical_segments parent [] _ segs canonical_pop canonical_snoc
    (tokens_are_tokens SLASH p) _ E).
  split; [constructor|simpl; lia].
Qed.

Lemma render_root_head (segs : list cstr) : head (render_root segs) = Some SLASH.
Proof. by destruct segs. Qed.

Lemma tokens_render_root (segs : list cstr) :
  Forall plain_segment segs -> tokens SLASH (render_root segs) = segs.
Proof.
  intros H. destruct segs as [|s segs]; [done|]. apply tokens_render.
  eapply Forall_impl; [exact H|]. by intros x [? _].
Qed.

Lemma normalize_fixpoint (segs : list cstr) (out_size : nat) :
  canonical_segments segs -> (2 <= out_size)%nat -> (length (render_root segs) < out_size)%nat ->
  rps_gpu_proc_normalize_path (Some (render_root segs)) out_size = Some (render_root segs).
Proof.
  intros [Hp Hl] Hs Hlen. rewrite normalize_eq by done. rewrite render_root_head.
  rewrite bool_decide_eq_true_2 by done.
  rewrite tokens_render_root, resolve_plain by done. simpl app.
  by rewrite (proj2 (Nat.ltb_lt _ _)).
Qed.

Lemma normalize_idempotent_gen (path : option cstr) (out_size : nat) (q : cstr) :
  rps_gpu_proc_normalize_path path out_size = Some q ->
  rps_gpu_proc_normalize_path (Some q) out_size = Some q.
Proof.
  intros H. destruct (normalize_canonical _ _ _ H) as (segs & Hc & -> & Hl).
  apply normalize_fixpoint; [done| |done].
  unfold rps_gpu_proc_normalize_path in H. destruct path; [|done].
  destruct (Nat.ltb_spec out_size 2); [done|lia].
Qed.

(** ** Properties *)

(** C33: normalisation is lexical resolution.  An absolute path becomes the
    path of its resolved segments ("." dropped, ".." dropping the segment in
    front, at the root nothing), and the call fails exactly when the path is
    not absolute, when more than 64 segments are open at once, or when the
    result with its NUL does not fit the buffer. *)
Theorem normalize_lexical (path : cstr) (out_size : nat) :
  (2 <= out_size)%nat ->
  rps_gpu_proc_normalize_path (Some path) out_size =
  if bool_decide (head path = Some SLASH) then
    match resolve parent [] (tokens SLASH path) with
    | None => None
    | Some segs => if (length (render_root segs) <? out_size)%nat then Some (render_root segs) else None
    end
  else None.
Proof. apply normalize_eq. Qed.

Lemma normalize_lexical_witness :
  rps_gpu_proc_normalize_path (Some (cs "/../x/../../proc//driver/./y/../nvidia/gpus/")) 256 =
  Some (cs "/proc/driver/nvidia/gpus").
Proof.
  refine (eq_trans (normalize_lexical (cs "/../x/../../proc//driver/./y/../nvidia/gpus/") 256 _) _).
  - lia.
  - vm_compute. reflexivity.
Defined.

(** The result is canonical and normalising again changes nothing: it is
    the root, or non-empty segments other than "." and ".." (at most 64) each
    behind one slash, it fits the buffer, and it is its own normal form. *)
Theorem normalize_idempotent (path : option cstr) (out_size : nat) (q : cstr) :
  rps_gpu_proc_normalize_path path out_size = Some q ->
  (exists segs, canonical_segments segs /\ q = render_root segs /\ (length q < out_size)%nat) /\
  rps_gpu_proc_normalize_path (Some q) out_size = Some q.
Proof.
  intros H. split; [by apply (normalize_canonical path)|by apply (normalize_idempotent_gen path)].
Qed.

Lemma normalize_idempotent_witness :
  rps_gpu_proc_normalize_path (Some (cs "/a/c")) 16 = Some (cs "/a/c").
Proof.
  apply (normalize_idempotent (Some (cs "/a/./b/../c/")) 16 (cs "/a/c")).
  vm_compute. reflexivity.
Defined.
