(* ===== verification/ProcFilter.v ===== *)
(** GPU procfs filtering ([gpu/proc_filter.c]): which GPUs the container may
    see, read from the "information" text of each GPU and the mounted device
    minors, and the decision on a procfs path.

    Fixed-size character arrays are modelled by the string they hold; a text
    slice (pointer and length) is the list of its characters. *)

From S2P Require Import Prelude CString Segments.

#[local] Open Scope Z_scope.

Definition RPS_GPU_MAX_GPUS : nat := 32.
Definition RPS_GPU_PROC_PATH_MAX : nat := 256.
Definition RPS_GPU_PROC_BUS_ID_MAX : nat := 32.
Definition RPS_GPU_PROC_UUID_MAX : nat := 96.

Record rps_gpu_info := GpuInfo {
  gi_present : bool;
  gi_device_minor : Z;
  gi_bus_id : cstr;
  gi_uuid : cstr
}.

(** [al_gpus] is the used prefix of the array of 32. *)
Record rps_gpu_allowed_gpus := AllowedGpus {
  al_valid : bool;
  al_count : nat;
  al_gpus : list rps_gpu_info
}.
Definition allowed_zero : rps_gpu_allowed_gpus := AllowedGpus false 0 [].

Inductive rps_gpu_proc_decision := RPS_GPU_PROC_IGNORE | RPS_GPU_PROC_ALLOW | RPS_GPU_PROC_DENY.

(** ** Parsing *)

(** The digit suffix of a device name: at least one digit, nothing else. *)
Definition parse_minor_suffix (cursor : cstr) : option Z :=
  match cursor with
  | [] => None
  | c :: _ => if is_digit c then parse_digits INT_MAX i32 0 cursor else None
  end.

Definition rps_gpu_name_is_nvidia_minor (name : option cstr) : option Z :=
  match name with
  | None => None
  | Some name =>
      let prefix := cs "nvidia" in
      if negb (has_prefix prefix name) then None
      else parse_minor_suffix (drop (length prefix) name)
  end.

Definition rps_gpu_zero_info : rps_gpu_info := GpuInfo false (-1) [] [].

Definition is_blank (c : ascii) : bool :=
  char_eqb c SP || char_eqb c TAB || char_eqb c CR || char_eqb c NL.

Definition rps_gpu_trim_slice (s : cstr) : cstr :=
  rev (drop_while is_blank (rev (drop_while is_blank s))).

(** [dst_size] bytes of room; [None] leaves [dst] as it was. *)
Definition rps_gpu_copy_slice_exact (dst_size : nat) (src : cstr) (len : nat) : option cstr :=
  if (dst_size =? 0)%nat || (dst_size <=? len)%nat then None else Some (take len src).

Definition rps_gpu_parse_nonnegative_int (src : cstr) : option Z :=
  match src with
  | [] => None
  | _ => parse_digits INT_MAX i32 0 src
  end.

Definition rps_gpu_value_after_key (line key : cstr) : option cstr :=
  if (length line <? length key)%nat || negb (strneq line key (length key)) then None
  else Some (rps_gpu_trim_slice (drop (length key) line)).

(** What [rps_gpu_extract_proc_bus_kind] returns and writes; [bk_bus] is the
    bus id written to the caller's buffer, if any, even by a failing call. *)
Record bus_kind := BusKind {
  bk_result : bool;
  bk_bus : option cstr;
  bk_is_bus_dir : bool;
  bk_is_information : bool
}.
Definition bus_kind_fail : bus_kind := BusKind false None false false.

Definition gpus_base : cstr := cs "/proc/driver/nvidia/gpus".
Definition info_name : cstr := cs "information".

(** [rest], [slash] and [bus_len] of a normalized path below the base
    directory (lines 260-268; [fd_tracker.c] has the same computation). *)
Definition gpus_rest (normalized : cstr) : option (cstr * option cstr * nat) :=
  let base_len := length gpus_base in
  if negb (has_prefix gpus_base normalized) ||
     negb (bool_decide (normalized !! base_len = Some SLASH)) then None
  else
    let rest := drop (S base_len) normalized in
    let slash := strchr rest SLASH in
    let bus_len := match slash with
                   | None => length rest
                   | Some r => (length rest - length r)%nat
                   end in
    Some (rest, slash, bus_len).

Definition rps_gpu_extract_proc_bus_kind (path : option cstr) (bus_id_size : nat) : bus_kind :=
  match rps_gpu_proc_normalize_path path RPS_GPU_PROC_PATH_MAX with
  | None => bus_kind_fail
  | Some normalized =>
      match gpus_rest normalized with
      | None => bus_kind_fail
      | Some (rest, slash, bus_len) =>
          if (bus_len =? 0)%nat || (bus_id_size <=? bus_len)%nat then bus_kind_fail
          else match rps_gpu_copy_slice_exact bus_id_size rest bus_len with
               | None => bus_kind_fail
               | Some bus =>
                   match slash with
                   | None => BusKind true (Some bus) true false
                   | Some r =>
                       if streq (tail r) info_name then BusKind true (Some bus) false true
                       else BusKind false (Some bus) false false
                   end
               end
      end
  end.

(** Result and bus id written. *)
Definition rps_gpu_extract_proc_bus (path : option cstr) (bus_id_size : nat) : bool * option cstr :=
  let k := rps_gpu_extract_proc_bus_kind path bus_id_size in
  (bk_result k && bk_is_information k, bk_bus k).

(** The lines of a text, cut at newlines (the loop's [offset] and [next]). *)
Fixpoint text_lines_fuel (fuel : nat) (text : cstr) : list cstr :=
  match fuel with
  | O => []
  | S n =>
      match text with
      | [] => []
      | _ => before text NL ::
             match strchr text NL with None => [] | Some r => text_lines_fuel n (tail r) end
      end
  end.
Definition text_lines (text : cstr) : list cstr := text_lines_fuel (S (length text)) text.

(** [if (line_len > 0 && line[line_len - 1] == '\r') line_len--;] *)
Definition strip_cr (line : cstr) : cstr :=
  if bool_decide (last line = Some CR) then take (length line - 1) line else line.

Definition set_uuid (i : rps_gpu_info) (u : cstr) : rps_gpu_info :=
  GpuInfo (gi_present i) (gi_device_minor i) (gi_bus_id i) u.
Definition set_bus_id (i : rps_gpu_info) (b : cstr) : rps_gpu_info :=
  GpuInfo (gi_present i) (gi_device_minor i) b (gi_uuid i).
Definition set_minor (i : rps_gpu_info) (m : Z) : rps_gpu_info :=
  GpuInfo (gi_present i) m (gi_bus_id i) (gi_uuid i).
Definition set_present (i : rps_gpu_info) (p : bool) : rps_gpu_info :=
  GpuInfo p (gi_device_minor i) (gi_bus_id i) (gi_uuid i).

(** The loop body (lines 336-353) on [info] and [ok]. *)
Definition information_line (st : rps_gpu_info * bool) (raw : cstr) : rps_gpu_info * bool :=
  let '(info, ok) := st in
  let line := strip_cr raw in
  match rps_gpu_value_after_key line (cs "GPU UUID:") with
  | Some value =>
      match rps_gpu_copy_slice_exact RPS_GPU_PROC_UUID_MAX value (length value) with
      | None => (info, false)
      | Some u => (set_uuid info u, ok)
      end
  | None =>
      match rps_gpu_value_after_key line (cs "Bus Location:") with
      | Some value =>
          if (length value =? 0)%nat then (info, false)
          else match rps_gpu_copy_slice_exact RPS_GPU_PROC_BUS_ID_MAX value (length value) with
               | None => (info, false)
               | Some b => (set_bus_id info b, ok)
               end
      | None =>
          match rps_gpu_value_after_key line (cs "Device Minor:") with
          | Some value =>
              match rps_gpu_parse_nonnegative_int value with
              | None => (info, false)
              | Some m => (set_minor info m, ok)
              end
          | None => (info, ok)
          end
      end
  end.

(** Result and [*info] ([info] is not NULL). *)
Definition rps_gpu_parse_gpu_information (path text : option cstr) : bool * rps_gpu_info :=
  match text with
  | None => (false, rps_gpu_zero_info)
  | Some text =>
      let '(info, ok) := foldl information_line (rps_gpu_zero_info, true) (text_lines text) in
      let '(info, ok) :=
        if ok && bool_decide (gi_bus_id info = []) then
          let '(found, bus) := rps_gpu_extract_proc_bus path RPS_GPU_PROC_BUS_ID_MAX in
          (set_bus_id info (default (gi_bus_id info) bus), found)
        else (info, ok) in
      let present := ok && (0 <=? gi_device_minor info) && negb (bool_decide (gi_bus_id info = [])) in
      (ok && present, set_present info present)
  end.

(** ** The allowed set *)

Definition rps_gpu_minor_is_mounted (minor : Z) (mounted_minors : list Z) : bool :=
  existsb (fun m => m =? minor) mounted_minors.

(** The tests of the loop that skip an entry. *)
Definition gpu_is_allowed (mounted_minors : list Z) (explicit_uuid : option cstr)
    (info : rps_gpu_info) : bool :=
  if negb (gi_present info) then false
  else if negb (rps_gpu_minor_is_mounted (gi_device_minor info) mounted_minors) then false
  else match explicit_uuid with
       | None | Some [] => true
       | Some uuid => streq (gi_uuid info) uuid
       end.

(** The loop over [infos] stops when 32 GPUs are allowed. *)
Fixpoint build_loop (mounted_minors : list Z) (explicit_uuid : option cstr)
    (infos : list rps_gpu_info) (gpus : list rps_gpu_info) : list rps_gpu_info :=
  match infos with
  | [] => gpus
  | info :: infos' =>
      if (RPS_GPU_MAX_GPUS <=? length gpus)%nat then gpus
      else build_loop mounted_minors explicit_uuid infos'
             (if gpu_is_allowed mounted_minors explicit_uuid info then gpus ++ [info] else gpus)
  end.

Definition rps_gpu_build_allowed_gpus (infos : list rps_gpu_info) (mounted_minors : list Z)
    (explicit_uuid : option cstr) : bool * rps_gpu_allowed_gpus :=
  match infos, mounted_minors with
  | [], _ | _, [] => (false, allowed_zero)
  | _, _ =>
      let gpus := build_loop mounted_minors explicit_uuid infos [] in
      let valid := (0 <? length gpus)%nat in
      (valid, AllowedGpus valid (length gpus) gpus)
  end.

(** A NULL [allowed] or [bus_id] is [None]. *)
Definition rps_gpu_allowed_contains_bus (allowed : option rps_gpu_allowed_gpus)
    (bus_id : option cstr) : bool :=
  match allowed, bus_id with
  | Some allowed, Some bus_id =>
      if negb (al_valid allowed) || bool_decide (bus_id = []) then false
      else existsb (fun g => streq (gi_bus_id g) bus_id) (take (al_count allowed) (al_gpus allowed))
  | _, _ => false
  end.

Definition rps_gpu_proc_path_allowed (allowed : option rps_gpu_allowed_gpus) (path : option cstr)
    : rps_gpu_proc_decision :=
  match rps_gpu_proc_normalize_path path RPS_GPU_PROC_PATH_MAX with
  | None => RPS_GPU_PROC_IGNORE
  | Some normalized =>
      if streq normalized gpus_base then RPS_GPU_PROC_ALLOW
      else
        let k := rps_gpu_extract_proc_bus_kind (Some normalized) RPS_GPU_PROC_BUS_ID_MAX in
        if negb (bk_result k) || (negb (bk_is_bus_dir k) && negb (bk_is_information k))
        then RPS_GPU_PROC_IGNORE
        else match allowed with
             | None => RPS_GPU_PROC_ALLOW
             | Some a =>
                 if negb (al_valid a) then RPS_GPU_PROC_ALLOW
                 else if rps_gpu_allowed_contains_bus allowed (bk_bus k) then RPS_GPU_PROC_ALLOW
                 else RPS_GPU_PROC_DENY
             end
  end.

#[global] Arguments rps_gpu_extract_proc_bus_kind : simpl never.
#[global] Arguments gpus_rest : simpl never.
#[global] Arguments rps_gpu_allowed_contains_bus : simpl never.
#[global] Arguments rps_gpu_value_after_key : simpl never.

(** ** Specification of paths by segments *)

Definition base_segs : list cstr := [cs "proc"; cs "driver"; cs "nvidia"; cs "gpus"].

Fixpoint strip_prefix (p l : list cstr) : option (list cstr) :=
  match p, l with
  | [], _ => Some l
  | x :: p', y :: l' => if streq x y then strip_prefix p' l' else None
  | _, [] => None
  end.

(** The segments of an absolute path, resolved, if it normalizes. *)
Definition path_segments (path : cstr) : option (list cstr) :=
  if bool_decide (head path = Some SLASH) then
    segs ← resolve parent [] (tokens SLASH path);
    if (length (render_root segs) <? RPS_GPU_PROC_PATH_MAX)%nat then Some segs else None
  else None.

(** The GPU a path is about: its directory or its "information" file. *)
Definition gpu_path_bus (segs : list cstr) : option cstr :=
  match strip_prefix base_segs segs with
  | Some [bus] => if (length bus <? RPS_GPU_PROC_BUS_ID_MAX)%nat then Some bus else None
  | Some [bus; file] =>
      if streq file info_name && (length bus <? RPS_GPU_PROC_BUS_ID_MAX)%nat then Some bus else None
  | _ => None
  end.

(** ** Lemmas on paths *)

Lemma strip_prefix_Some (p l r : list cstr) : strip_prefix p l = Some r <-> l = p ++ r.
Proof.
  revert l. induction p as [|x p IH]; intros l; simpl; [naive_solver|].
  destruct l as [|y l]; [done|]. destruct (streq x y) eqn:E.
  - apply streq_spec in E as ->. rewrite IH. naive_solver.
  - apply streq_neq in E. naive_solver.
Qed.

Lemma base_segs_plain : Forall plain_segment base_segs.
Proof.
  repeat (apply Forall_cons; split); [..|constructor];
    (split; [split; [done|]|done]); by apply (bool_decide_unpack _).
Qed.

Lemma gpus_base_render : gpus_base = render base_segs.
Proof. reflexivity. Qed.

Lemma tokens_render_app (l : list cstr) (r : cstr) :
  Forall (is_token SLASH) l -> tokens SLASH (render l ++ SLASH :: r) = l ++ tokens SLASH r.
Proof.
  intros Hall. induction Hall as [|s l Hs _ IH]; [apply tokens_skip|].
  rewrite render_cons. simpl app. rewrite tokens_skip. destruct l as [|s2 l].
  - unfold render. simpl. rewrite app_nil_r. by apply tokens_at.
  - rewrite render_cons in *. rewrite <-app_assoc. simpl app in *. rewrite tokens_at by done.
    by rewrite tokens_skip in IH; rewrite IH.
Qed.

Lemma plain_tokens (segs : list cstr) : Forall plain_segment segs -> Forall (is_token SLASH) segs.
Proof. intros H. eapply Forall_impl; [exact H|]. by intros x [? _]. Qed.

Lemma gpus_rest_spec (segs : list cstr) :
  canonical_segments segs ->
  gpus_rest (render_root segs) =
  match strip_prefix base_segs segs with
  | Some (bus :: more) =>
      Some (bus ++ render more, match more with [] => None | _ => Some (render more) end, length bus)
  | _ => None
  end.
Proof.
  intros [Hplain _]. pose proof (plain_tokens _ Hplain) as Htok. unfold gpus_rest.
  destruct (strip_prefix base_segs segs) as [more|] eqn:E.
  - apply strip_prefix_Some in E as ->. rewrite Forall_app in Htok. destruct Htok as [_ Htok].
    assert (render_root (base_segs ++ more) = gpus_base ++ render more) as -> by done.
    rewrite has_prefix_app. cbn [negb orb].
    rewrite lookup_app_r, Nat.sub_diag by done.
    destruct more as [|bus more]; [done|]. rewrite render_cons.
    rewrite bool_decide_eq_true_2 by done. cbn [negb].
    assert (drop (S (length gpus_base)) (gpus_base ++ SLASH :: bus ++ render more) = bus ++ render more) as ->.
    { replace (S (length gpus_base)) with (length gpus_base + 1)%nat by lia.
      by rewrite <-drop_drop, drop_app_length. }
    apply Forall_cons in Htok as [[Hne Hbus] _]. destruct more as [|m more].
    + unfold render. simpl. rewrite app_nil_r. by rewrite (proj2 (strchr_None SLASH bus)).
    + rewrite render_cons, strchr_app by done. repeat f_equal. rewrite length_app. lia.
  - destruct (has_prefix gpus_base (render_root segs)) eqn:Hp; [|done]. cbn [negb orb].
    apply has_prefix_spec in Hp as [r Hr]. rewrite Hr, lookup_app_r, Nat.sub_diag by done.
    destruct r as [|c r]; [done|]. simpl.
    destruct (bool_decide (Some c = Some SLASH)) eqn:Hc; [|done]. to_prop. injection Hc as ->.
    exfalso. rewrite <-(tokens_render_root segs Hplain), Hr, gpus_base_render in E.
    rewrite tokens_render_app in E by apply plain_tokens, base_segs_plain.
    assert (strip_prefix base_segs (base_segs ++ tokens SLASH r) = Some (tokens SLASH r)) as E2
      by by apply strip_prefix_Some.
    congruence.
Qed.

Lemma path_segments_normalize (path : cstr) :
  rps_gpu_proc_normalize_path (Some path) RPS_GPU_PROC_PATH_MAX = render_root <$> path_segments path.
Proof.
  rewrite normalize_eq by (unfold RPS_GPU_PROC_PATH_MAX; lia). unfold path_segments.
  destruct (bool_decide _); [|done].
  destruct (resolve parent [] (tokens SLASH path)) as [segs|]; [|done].
  cbn [mbind option_bind].
  by destruct (length (render_root segs) <? RPS_GPU_PROC_PATH_MAX)%nat.
Qed.

Lemma path_segments_canonical (path : cstr) (segs : list cstr) :
  path_segments path = Some segs ->
  canonical_segments segs /\ (length (render_root segs) < RPS_GPU_PROC_PATH_MAX)%nat.
Proof.
  unfold path_segments. destruct (bool_decide _); [|done].
  destruct (resolve parent [] (tokens SLASH path)) as [l|] eqn:E; [|done].
  cbn [mbind option_bind].
  destruct (Nat.ltb_spec (length (render_root l)) RPS_GPU_PROC_PATH_MAX); [|done].
  intros [= <-]. split; [|done].
  refine (resolve_Forall canonical_segments parent [] _ _ canonical_pop canonical_snoc
    (tokens_are_tokens SLASH path) _ E).
  split; [constructor|simpl; lia].
Qed.

Lemma tail_render_info (m : cstr) (more : list cstr) :
  Forall (is_token SLASH) (m :: more) ->
  streq (tail (render (m :: more))) info_name = bool_decide (m :: more = [info_name]).
Proof.
  intros Htok. apply eq_true_iff_eq. rewrite streq_spec, bool_decide_eq_true.
  rewrite render_cons. cbn [tail]. split.
  - intros H. assert (render (m :: more) = render [info_name]) as Hr.
    { rewrite !render_cons, H. reflexivity. }
    rewrite <-(tokens_render (m :: more) Htok), Hr. reflexivity.
  - intros [= -> ->]. reflexivity.
Qed.

Lemma copy_slice_all (size : nat) (s r : cstr) :
  (length s < size)%nat -> rps_gpu_copy_slice_exact size (s ++ r) (length s) = Some s.
Proof.
  intros H. unfold rps_gpu_copy_slice_exact. rewrite (proj2 (Nat.leb_gt _ _)) by done.
  rewrite orb_false_r. destruct (Nat.eqb_spec size 0); [lia|]. by rewrite take_length_app.
Qed.

Lemma extract_segments (segs : list cstr) (size : nat) :
  canonical_segments segs -> (length (render_root segs) < RPS_GPU_PROC_PATH_MAX)%nat ->
  rps_gpu_extract_proc_bus_kind (Some (render_root segs)) size =
  match strip_prefix base_segs segs with
  | Some (bus :: more) =>
      if (size <=? length bus)%nat then bus_kind_fail
      else match more with
           | [] => BusKind true (Some bus) true false
           | _ => if bool_decide (more = [info_name]) then BusKind true (Some bus) false true
                  else BusKind false (Some bus) false false
           end
  | _ => bus_kind_fail
  end.
Proof.
  intros Hc Hl. unfold rps_gpu_extract_proc_bus_kind.
  rewrite normalize_fixpoint by (done || (unfold RPS_GPU_PROC_PATH_MAX; lia)).
  rewrite gpus_rest_spec by done. destruct (strip_prefix base_segs segs) as [[|bus more]|] eqn:E; [done| |done].
  apply strip_prefix_Some in E as ->. destruct Hc as [Hp _]. apply plain_tokens in Hp.
  apply Forall_app in Hp as [_ Hp]. apply Forall_cons in Hp as [[Hne _] Hmore].
  destruct (Nat.eqb_spec (length bus) 0) as [H0|H0]; [by apply nil_length_inv in H0|]. cbn [orb].
  destruct (Nat.leb_spec size (length bus)) as [|Hs]; [done|].
  rewrite copy_slice_all by done. destruct more as [|m more]; [done|].
  by rewrite tail_render_info.
Qed.

Lemma path_allowed_eq (allowed : option rps_gpu_allowed_gpus) (path : cstr) :
  rps_gpu_proc_path_allowed allowed (Some path) =
  match path_segments path with
  | None => RPS_GPU_PROC_IGNORE
  | Some segs =>
      if bool_decide (segs = base_segs) then RPS_GPU_PROC_ALLOW
      else match gpu_path_bus segs with
           | None => RPS_GPU_PROC_IGNORE
           | Some bus =>
               match allowed with
               | None => RPS_GPU_PROC_ALLOW
               | Some a => if al_valid a && negb (rps_gpu_allowed_contains_bus allowed (Some bus))
                           then RPS_GPU_PROC_DENY else RPS_GPU_PROC_ALLOW
               end
           end
  end.
Proof.
  unfold rps_gpu_proc_path_allowed. rewrite path_segments_normalize.
  destruct (path_segments path) as [segs|] eqn:E; [|done]. cbn [fmap option_fmap option_map].
  apply path_segments_canonical in E as [Hc Hl].
  assert (streq (render_root segs) gpus_base = bool_decide (segs = base_segs)) as ->.
  { apply eq_true_iff_eq. rewrite streq_spec, bool_decide_eq_true. split; [|by intros ->].
    intros H. rewrite <-(tokens_render_root segs) by apply Hc. by rewrite H. }
  destruct (bool_decide (segs = base_segs)) eqn:Hb; [done|]. to_prop.
  rewrite extract_segments by done. unfold gpu_path_bus.
  destruct (strip_prefix base_segs segs) as [[|bus more]|] eqn:Es; [done| |done].
  destruct (Nat.leb_spec RPS_GPU_PROC_BUS_ID_MAX (length bus)) as [Hs|Hs].
  - rewrite (proj2 (Nat.ltb_ge (length bus) RPS_GPU_PROC_BUS_ID_MAX)) by done.
    destruct more as [|m [|]]; [done| |done]. by rewrite andb_false_r.
  - rewrite (proj2 (Nat.ltb_lt (length bus) RPS_GPU_PROC_BUS_ID_MAX)) by done.
    destruct more as [|m [|m2 more]]; simpl.
    + destruct allowed as [a|]; [|done]. destruct (al_valid a); [|done]. simpl.
      by destruct (rps_gpu_allowed_contains_bus _ _).
    + rewrite andb_true_r. unfold streq.
      rewrite (bool_decide_ext ([m] = [info_name]) (m = info_name)) by naive_solver.
      destruct (bool_decide (m = info_name)); simpl; [|done].
      destruct allowed as [a|]; [|done]. destruct (al_valid a); [|done]. simpl.
      by destruct (rps_gpu_allowed_contains_bus _ _).
    + rewrite bool_decide_eq_false_2 by done. done.
Qed.

(** ** Lemmas on the allowed set *)

Lemma build_loop_eq (mounted : list Z) (uuid : option cstr) (infos gpus : list rps_gpu_info) :
  (length gpus <= RPS_GPU_MAX_GPUS)%nat ->
  build_loop mounted uuid infos gpus =
  take RPS_GPU_MAX_GPUS (gpus ++ List.filter (gpu_is_allowed mounted uuid) infos).
Proof.
  revert gpus. induction infos as [|i infos IH]; intros gpus Hl; cbn [build_loop List.filter].
  { rewrite app_nil_r. by rewrite take_ge. }
  destruct (Nat.leb_spec RPS_GPU_MAX_GPUS (length gpus)) as [H|H].
  - rewrite take_app_le, take_ge by lia. done.
  - destruct (gpu_is_allowed mounted uuid i).
    + rewrite IH by (rewrite length_app; simpl; lia). by rewrite <-app_assoc.
    + by apply IH; lia.
Qed.

Lemma build_allowed_eq (infos : list rps_gpu_info) (mounted : list Z) (uuid : option cstr) :
  let gpus := take RPS_GPU_MAX_GPUS (List.filter (gpu_is_allowed mounted uuid) infos) in
  rps_gpu_build_allowed_gpus infos mounted uuid =
  ((0 <? length gpus)%nat, AllowedGpus (0 <? length gpus)%nat (length gpus) gpus).
Proof.
  simpl. unfold rps_gpu_build_allowed_gpus. destruct infos as [|i infos]; [done|].
  destruct mounted as [|m mounted].
  - assert (List.filter (gpu_is_allowed [] uuid) (i :: infos) = []) as ->; [|done].
    assert (forall l, List.filter (gpu_is_allowed [] uuid) l = []) as H; [|apply H].
    intros l. induction l as [|x l IH]; simpl; [done|].
    unfold gpu_is_allowed at 1. by destruct (gi_present x).
  - rewrite build_loop_eq by (simpl; lia). done.
Qed.

(** A GPU the container has: present, mounted, and the requested one when a
    uuid is requested (an empty uuid requests nothing). *)
Definition gpu_wanted (mounted : list Z) (uuid : option cstr) (g : rps_gpu_info) : Prop :=
  gi_present g = true /\ gi_device_minor g ∈ mounted /\
  (uuid = None \/ uuid = Some [] \/ uuid = Some (gi_uuid g)).

#[export] Instance gpu_wanted_dec mounted uuid g : Decision (gpu_wanted mounted uuid g).
Proof. unfold gpu_wanted. apply _. Defined.

Lemma minor_mounted_spec (minor : Z) (mounted : list Z) :
  rps_gpu_minor_is_mounted minor mounted = true <-> minor ∈ mounted.
Proof.
  unfold rps_gpu_minor_is_mounted. rewrite existsb_elem. setoid_rewrite Z.eqb_eq. naive_solver.
Qed.

Lemma gpu_is_allowed_wanted (mounted : list Z) (uuid : option cstr) (g : rps_gpu_info) :
  gpu_is_allowed mounted uuid g = bool_decide (gpu_wanted mounted uuid g).
Proof.
  apply eq_true_iff_eq. rewrite bool_decide_eq_true. unfold gpu_is_allowed, gpu_wanted.
  destruct (gi_present g); cbn [negb]; [|by split; [|intros (? & _)]].
  destruct (rps_gpu_minor_is_mounted (gi_device_minor g) mounted) eqn:Hm; cbn [negb].
  - apply minor_mounted_spec in Hm. destruct uuid as [[|c u]|]; [by split; auto| |by split; auto].
    rewrite streq_spec. split; [intros <-; auto|]. by intros (_ & _ & [?|[?|[= ?]]]).
  - split; [done|]. intros (_ & Hin & _). apply minor_mounted_spec in Hin. congruence.
Qed.

Lemma filter_wanted (mounted : list Z) (uuid : option cstr) (infos : list rps_gpu_info) :
  List.filter (gpu_is_allowed mounted uuid) infos = filter (gpu_wanted mounted uuid) infos.
Proof.
  induction infos as [|g infos IH]; [done|]. rewrite filter_cons. cbn [List.filter].
  rewrite gpu_is_allowed_wanted, IH.
  by destruct (decide (gpu_wanted mounted uuid g)) as [Hg|Hg];
    [rewrite bool_decide_eq_true_2|rewrite bool_decide_eq_false_2].
Qed.

Lemma contains_bus_spec (a : rps_gpu_allowed_gpus) (bus : cstr) :
  al_count a = length (al_gpus a) ->
  rps_gpu_allowed_contains_bus (Some a) (Some bus) = true <->
  al_valid a = true /\ bus <> [] /\ exists g, g ∈ al_gpus a /\ gi_bus_id g = bus.
Proof.
  intros Hc. unfold rps_gpu_allowed_contains_bus. rewrite Hc, firstn_all.
  destruct (al_valid a); simpl; [|naive_solver].
  destruct (bool_decide (bus = [])) eqn:Hb; to_prop; [naive_solver|].
  rewrite existsb_elem. setoid_rewrite streq_spec. naive_solver.
Qed.

(** ** Lemmas on the information text *)

Lemma text_lines_fuel_enough (text : cstr) (n m : nat) :
  (length text < n)%nat -> (length text < m)%nat -> text_lines_fuel n text = text_lines_fuel m text.
Proof.
  revert text m. induction n as [|n IH]; intros text m Hn Hm; [lia|]. destruct m as [|m]; [lia|].
  simpl. destruct text as [|c t] eqn:E; [done|]. rewrite <-E in *.
  destruct (strchr text NL) as [r|] eqn:Er; [|done]. f_equal.
  apply strchr_Some in Er as [Ht [r' ->]]. rewrite Ht in Hn, Hm. rewrite length_app in Hn, Hm.
  simpl in *. apply IH; lia.
Qed.

(** Lines, each ended by a newline. *)
Definition text_of (lines : list cstr) : cstr := concat (map (fun l => l ++ [NL]) lines).

Lemma text_lines_of (lines : list cstr) :
  Forall (fun l => NL ∉ l) lines -> text_lines (text_of lines) = lines.
Proof.
  intros Hall. unfold text_lines. induction Hall as [|l lines Hl _ IH]; [done|].
  unfold text_of in *. cbn [map concat]. rewrite <-app_assoc. simpl app.
  cbn [text_lines_fuel]. destruct (l ++ NL :: _) as [|c t] eqn:E; [by destruct l|]. rewrite <-E.
  rewrite before_app, strchr_app by done. cbn [tail]. f_equal.
  etransitivity; [|exact IH]. apply text_lines_fuel_enough; [|lia].
  rewrite length_app. simpl. lia.
Qed.

Lemma value_after_key_eq (line key : cstr) :
  rps_gpu_value_after_key line key =
  if has_prefix key line then Some (rps_gpu_trim_slice (drop (length key) line)) else None.
Proof.
  unfold rps_gpu_value_after_key. fold (has_prefix key line).
  destruct (Nat.ltb_spec (length line) (length key)) as [H|H]; cbn [orb].
  - destruct (has_prefix key line) eqn:E; [|done].
    apply has_prefix_spec in E as [r ->]. rewrite length_app in H. lia.
  - by destruct (has_prefix key line).
Qed.

(** A non-empty value without blanks at its ends. *)
Definition trimmed (v : cstr) : Prop :=
  exists c l d, v = c :: l /\ last v = Some d /\ is_blank c = false /\ is_blank d = false.

Lemma trim_slice_padded (pad v : cstr) :
  Forall (fun c => is_blank c = true) pad -> trimmed v -> rps_gpu_trim_slice (pad ++ v) = v.
Proof.
  intros Hp (c & l & d & -> & Hd & Hc & Hbd). unfold rps_gpu_trim_slice.
  rewrite drop_while_app by done. apply last_Some in Hd as [l' ->].
  rewrite rev_app_distr. cbn [rev app drop_while]. rewrite Hbd. simpl.
  by rewrite rev_involutive.
Qed.

Lemma strip_cr_trimmed (s v : cstr) : trimmed v -> strip_cr (s ++ v) = s ++ v.
Proof.
  intros (c & l & d & -> & Hd & _ & Hb). unfold strip_cr.
  rewrite last_app, Hd. rewrite bool_decide_eq_false_2; [done|].
  intros [= ->]. discriminate.
Qed.

Lemma value_of_key (key pad v : cstr) :
  Forall (fun c => is_blank c = true) pad -> trimmed v ->
  rps_gpu_value_after_key (strip_cr (key ++ pad ++ v)) key = Some v.
Proof.
  intros Hp Hv. rewrite app_assoc, strip_cr_trimmed, <-app_assoc by done.
  rewrite value_after_key_eq, has_prefix_app, drop_app_length. f_equal. by apply trim_slice_padded.
Qed.

Lemma key_mismatch (key line : cstr) (c : ascii) :
  head line = Some c -> head key <> Some c -> key <> [] -> has_prefix key line = false.
Proof.
  intros Hl Hk Hne. destruct (has_prefix key line) eqn:E; [|done].
  apply has_prefix_spec in E as [r ->]. destruct key; [done|]. simpl in *. congruence.
Qed.

(** A line of the text that is about something else. *)
Definition other_line (raw : cstr) : Prop :=
  has_prefix (cs "GPU UUID:") (strip_cr raw) = false /\
  has_prefix (cs "Bus Location:") (strip_cr raw) = false /\
  has_prefix (cs "Device Minor:") (strip_cr raw) = false.

Lemma other_lines_fold (lines : list cstr) (st : rps_gpu_info * bool) :
  Forall other_line lines -> foldl information_line st lines = st.
Proof.
  intros Hall. revert st. induction Hall as [|l lines (H1 & H2 & H3) _ IH]; intros st; [done|].
  cbn [foldl]. rewrite <-(IH st) at 2. f_equal. destruct st as [info ok].
  unfold information_line. by rewrite !value_after_key_eq, H1, H2, H3.
Qed.

Lemma copy_slice_whole (size : nat) (s : cstr) :
  (length s < size)%nat -> rps_gpu_copy_slice_exact size s (length s) = Some s.
Proof. intros H. pose proof (copy_slice_all size s [] H) as E. by rewrite app_nil_r in E. Qed.

Lemma uuid_line (pad v : cstr) (info : rps_gpu_info) (ok : bool) :
  Forall (fun c => is_blank c = true) pad -> trimmed v -> (length v < RPS_GPU_PROC_UUID_MAX)%nat ->
  information_line (info, ok) (cs "GPU UUID:" ++ pad ++ v) = (set_uuid info v, ok).
Proof.
  intros Hp Hv Hl. unfold information_line. rewrite value_of_key by done.
  by rewrite copy_slice_whole.
Qed.

Lemma not_key (key key' pad v : cstr) :
  trimmed v -> key <> [] -> head key <> head key' -> key' <> [] ->
  rps_gpu_value_after_key (strip_cr (key' ++ pad ++ v)) key = None.
Proof.
  intros Hv Hk Hd Hk'. rewrite app_assoc, strip_cr_trimmed, <-app_assoc by done.
  rewrite value_after_key_eq. destruct key' as [|c k']; [done|].
  by rewrite (key_mismatch key _ c).
Qed.

Lemma bus_line (pad v : cstr) (info : rps_gpu_info) (ok : bool) :
  Forall (fun c => is_blank c = true) pad -> trimmed v -> (length v < RPS_GPU_PROC_BUS_ID_MAX)%nat ->
  information_line (info, ok) (cs "Bus Location:" ++ pad ++ v) = (set_bus_id info v, ok).
Proof.
  intros Hp Hv Hl. unfold information_line. rewrite not_key by done. rewrite value_of_key by done.
  destruct (Nat.eqb_spec (length v) 0) as [H0|H0].
  { destruct Hv as (? & ? & ? & -> & _). done. }
  by rewrite copy_slice_whole.
Qed.

Lemma parse_int_spec (s : cstr) (v : Z) :
  s <> [] -> all_digits s = true -> dec s = v -> v <= INT_MAX ->
  parse_digits INT_MAX i32 0 s = Some v.
Proof.
  intros Hne Hd Hv Hm.
  rewrite parse_digits_spec by (apply i32_small || (unfold INT_MAX; lia)).
  fold (dec s). rewrite Hd, Hv. cbn [andb]. by rewrite (proj2 (Z.leb_le _ _)).
Qed.

Lemma digits_trimmed (s : cstr) : s <> [] -> all_digits s = true -> trimmed s.
Proof.
  intros Hne Hd. unfold all_digits in Hd. rewrite forallb_forall in Hd.
  assert (forall c, c ∈ s -> is_blank c = false) as Hb.
  { intros c Hc. apply list_elem_of_In, Hd in Hc. unfold is_blank.
    rewrite !orb_false_iff, !char_eqb_neq. repeat split; intros ->; discriminate. }
  destruct s as [|c l]; [done|]. destruct (last (c :: l)) as [d|] eqn:El; [|by apply last_None in El].
  exists c, l, d. repeat split; try done; apply Hb; [by left|]. by apply last_Some_elem_of in El.
Qed.

Lemma minor_line (pad : cstr) (m : Z) (info : rps_gpu_info) (ok : bool) :
  Forall (fun c => is_blank c = true) pad -> 0 <= m <= INT_MAX ->
  information_line (info, ok) (cs "Device Minor:" ++ pad ++ print_u64 m) = (set_minor info m, ok).
Proof.
  intros Hp Hm. destruct (print_u64_spec m) as (Hd & Hv & Hl); [unfold INT_MAX, UINT64_MAX in *; lia|].
  assert (print_u64 m <> []) as Hne by (intros E; rewrite E in Hl; simpl in Hl; lia).
  pose proof (digits_trimmed _ Hne Hd) as Ht.
  unfold information_line. rewrite !not_key by done. rewrite value_of_key by done.
  unfold rps_gpu_parse_nonnegative_int. rewrite (parse_int_spec (print_u64 m) m) by (done || lia).
  by destruct (print_u64 m).
Qed.

(** Bounds of an entry under construction. *)
Definition info_bounds (i : rps_gpu_info) : Prop :=
  -1 <= gi_device_minor i <= INT_MAX /\
  (length (gi_bus_id i) < RPS_GPU_PROC_BUS_ID_MAX)%nat /\
  (length (gi_uuid i) < RPS_GPU_PROC_UUID_MAX)%nat.

Lemma parse_digits_range (s : cstr) (v : Z) :
  parse_digits INT_MAX i32 0 s = Some v -> 0 <= v <= INT_MAX.
Proof.
  rewrite parse_digits_spec by (apply i32_small || (unfold INT_MAX; lia)).
  destruct (all_digits s) eqn:Hd; [|done]. cbn [andb].
  destruct (Z.leb_spec (dec_from 0 s) INT_MAX); [|done]. intros [= <-].
  split; [|done]. by apply dec_from_ge.
Qed.

Lemma copy_slice_length (size len : nat) (s d : cstr) :
  rps_gpu_copy_slice_exact size s len = Some d -> (length d < size)%nat.
Proof.
  unfold rps_gpu_copy_slice_exact. destruct (size =? 0)%nat; [done|]. cbn [orb].
  destruct (Nat.leb_spec size len); [done|]. intros [= <-]. rewrite length_take. lia.
Qed.

Lemma information_line_bounds (st : rps_gpu_info * bool) (raw : cstr) :
  info_bounds st.1 -> info_bounds (information_line st raw).1.
Proof.
  destruct st as [info ok]. unfold information_line, info_bounds. intros H. simpl in H.
  destruct (rps_gpu_value_after_key _ (cs "GPU UUID:")) as [v|].
  { destruct (rps_gpu_copy_slice_exact _ v _) eqn:E; [|done].
    apply copy_slice_length in E. simpl. lia. }
  destruct (rps_gpu_value_after_key _ (cs "Bus Location:")) as [v|].
  { destruct (length v =? 0)%nat; [done|].
    destruct (rps_gpu_copy_slice_exact _ v _) eqn:E; [|done].
    apply copy_slice_length in E. simpl. lia. }
  destruct (rps_gpu_value_after_key _ (cs "Device Minor:")) as [v|]; [|done].
  destruct (rps_gpu_parse_nonnegative_int v) eqn:E; [|done].
  unfold rps_gpu_parse_nonnegative_int in E. destruct v; [done|].
  apply parse_digits_range in E. simpl. lia.
Qed.

Lemma information_fold_bounds (lines : list cstr) (st : rps_gpu_info * bool) :
  info_bounds st.1 -> info_bounds (foldl information_line st lines).1.
Proof.
  revert st. induction lines as [|l lines IH]; intros st H; [done|]. simpl. apply IH.
  by apply information_line_bounds.
Qed.

Lemma extract_bus_length (path : option cstr) (size : nat) (b : cstr) :
  (rps_gpu_extract_proc_bus path size).2 = Some b -> (length b < size)%nat.
Proof.
  unfold rps_gpu_extract_proc_bus, rps_gpu_extract_proc_bus_kind. simpl.
  destruct (rps_gpu_proc_normalize_path path _) as [n|]; [|done].
  destruct (gpus_rest n) as [[[rest slash] len]|]; [|done].
  destruct ((len =? 0)%nat || _); [done|].
  destruct (rps_gpu_copy_slice_exact size rest len) as [bus|] eqn:E; [|done].
  apply copy_slice_length in E. destruct slash as [r|]; [destruct (streq _ _)|]; by intros [= <-].
Qed.

(** A device name: a prefix and a minor number. *)
Lemma minor_name_spec (prefix name : cstr) (minor : Z) :
  (if negb (has_prefix prefix name) then None
   else parse_minor_suffix (drop (length prefix) name)) = Some minor <->
  exists digits, name = prefix ++ digits /\ digits <> [] /\ all_digits digits = true /\
    minor = dec digits /\ minor <= INT_MAX.
Proof.
  destruct (has_prefix prefix name) eqn:E; cbn [negb].
  - apply has_prefix_spec in E as [r ->]. rewrite drop_app_length. unfold parse_minor_suffix.
    destruct r as [|c r]; [split; [done|]; intros (d & Hd & Hne & _); apply app_inv_head in Hd; by subst d|].
    rewrite parse_digits_spec by (apply i32_small || (unfold INT_MAX; lia)). fold (dec (c :: r)).
    destruct (is_digit c) eqn:Hc.
    + split.
      * destruct (all_digits (c :: r)) eqn:Ha; [|done]. cbn [andb].
        destruct (Z.leb_spec (dec (c :: r)) INT_MAX); [|done]. intros [= <-]. by exists (c :: r).
      * intros (d & Hd & Hne & Ha & -> & Hm). apply app_inv_head in Hd as <-. rewrite Ha.
        cbn [andb]. by rewrite (proj2 (Z.leb_le _ _)).
    + split; [done|]. intros (d & Hd & _ & Ha & _). apply app_inv_head in Hd as <-.
      unfold all_digits in Ha. simpl in Ha. by rewrite Hc in Ha.
  - split; [done|]. intros (d & -> & _). by rewrite has_prefix_app in E.
Qed.

(** ** Properties *)

(** C5: the decision on a procfs path.  A path is denied exactly when it
    resolves to the directory of a GPU, or to its "information" file, and a
    valid allowed set does not contain that bus id; the base directory is
    always allowed, and every other path (not absolute, too long or too deep,
    another file of a GPU directory, an over-long bus id) is left alone. *)
Theorem path_decision_exact (allowed : option rps_gpu_allowed_gpus) (path : cstr) :
  rps_gpu_proc_path_allowed allowed (Some path) =
  match path_segments path with
  | None => RPS_GPU_PROC_IGNORE
  | Some segs =>
      if bool_decide (segs = base_segs) then RPS_GPU_PROC_ALLOW
      else match gpu_path_bus segs with
           | None => RPS_GPU_PROC_IGNORE
           | Some bus =>
               match allowed with
               | None => RPS_GPU_PROC_ALLOW
               | Some a => if al_valid a && negb (rps_gpu_allowed_contains_bus allowed (Some bus))
                           then RPS_GPU_PROC_DENY else RPS_GPU_PROC_ALLOW
               end
           end
  end.
Proof. apply path_allowed_eq. Qed.

(** C22: the allowed set is exactly the mounted GPUs.  It holds, in order, the
    first 32 of the GPUs found that are present, whose device minor is mounted
    and whose uuid is the requested one (when a non-empty one is requested); it
    is valid exactly when it is not empty, and then a bus id is allowed exactly
    when one of those GPUs has it. *)
Theorem allowed_set_exact (infos : list rps_gpu_info) (mounted : list Z) (uuid : option cstr)
    (bus : cstr) :
  let kept := take RPS_GPU_MAX_GPUS (filter (gpu_wanted mounted uuid) infos) in
  let '(ok, a) := rps_gpu_build_allowed_gpus infos mounted uuid in
  al_gpus a = kept /\ al_count a = length kept /\ al_valid a = ok /\ ok = negb (bool_decide (kept = [])) /\
  (rps_gpu_allowed_contains_bus (Some a) (Some bus) = true <->
   bus <> [] /\ exists g, g ∈ kept /\ gi_bus_id g = bus).
Proof.
  intros kept. rewrite build_allowed_eq, filter_wanted. fold kept. split_and!; try done.
  - simpl. by destruct kept.
  - rewrite contains_bus_spec by done. simpl. split; [by intros (_ & ? & ?)|].
    intros [Hb (g & Hg & He)]. split_and!; [|done|eauto].
    destruct kept; [by apply elem_of_nil in Hg|done].
Qed.

(** Three GPUs found, two of them mounted, one of these requested by uuid. *)
Lemma allowed_set_exact_witness :
  let g0 := GpuInfo true 0 (cs "b0") (cs "GPU-a") in
  let g1 := GpuInfo true 1 (cs "b1") (cs "GPU-b") in
  let g2 := GpuInfo true 2 (cs "b2") (cs "GPU-b") in
  al_gpus (rps_gpu_build_allowed_gpus [g0; g1; g2] [1; 0] (Some (cs "GPU-b"))).2 = [g1] /\
  al_gpus (rps_gpu_build_allowed_gpus [g0; g1; g2] [1; 0] (Some [])).2 = [g0; g1].
Proof.
  intros g0 g1 g2.
  pose proof (allowed_set_exact [g0; g1; g2] [1; 0] (Some (cs "GPU-b")) []) as H1.
  pose proof (allowed_set_exact [g0; g1; g2] [1; 0] (Some []) []) as H2.
  destruct (rps_gpu_build_allowed_gpus [g0; g1; g2] [1; 0] (Some (cs "GPU-b"))) as [ok1 a1].
  destruct (rps_gpu_build_allowed_gpus [g0; g1; g2] [1; 0] (Some [])) as [ok2 a2].
  cbn [snd]. destruct H1 as [-> _], H2 as [-> _]. split; vm_compute; reflexivity.
Defined.

(** C34: the information text is read back.  From lines that give a uuid, a bus
    location and a device minor (each value padded with blanks behind its key,
    other lines anywhere around them), parsing succeeds and returns exactly
    those values, whatever path was passed. *)
Theorem information_roundtrip (path : option cstr) (l0 l1 l2 l3 : list cstr)
    (p1 p2 p3 uuid bus : cstr) (minor : Z) :
  let lines := l0 ++ (cs "GPU UUID:" ++ p1 ++ uuid) :: l1 ++ (cs "Bus Location:" ++ p2 ++ bus) ::
               l2 ++ (cs "Device Minor:" ++ p3 ++ print_u64 minor) :: l3 in
  Forall (fun l => NL ∉ l) lines -> Forall other_line (l0 ++ l1 ++ l2 ++ l3) ->
  Forall (Forall (fun c => is_blank c = true)) [p1; p2; p3] ->
  trimmed uuid -> (length uuid < RPS_GPU_PROC_UUID_MAX)%nat ->
  trimmed bus -> (length bus < RPS_GPU_PROC_BUS_ID_MAX)%nat -> 0 <= minor <= INT_MAX ->
  rps_gpu_parse_gpu_information path (Some (text_of lines)) = (true, GpuInfo true minor bus uuid).
Proof.
  intros lines Hnl Hother Hpads Hu Hul Hb Hbl Hm. unfold rps_gpu_parse_gpu_information.
  rewrite text_lines_of by done. unfold lines.
  rewrite !Forall_app in Hother. destruct Hother as (H0 & H1 & H2 & H3).
  rewrite !Forall_cons in Hpads. destruct Hpads as (Hp1 & Hp2 & Hp3 & _).
  rewrite foldl_app, (other_lines_fold l0) by done. cbn [foldl]. rewrite uuid_line by done.
  rewrite foldl_app, (other_lines_fold l1) by done. cbn [foldl]. rewrite bus_line by done.
  rewrite foldl_app, (other_lines_fold l2) by done. cbn [foldl]. rewrite minor_line by done.
  rewrite (other_lines_fold l3) by done.
  destruct Hb as (c & l & d & -> & _). simpl.
  rewrite (proj2 (Z.leb_le 0 minor)) by lia. done.
Qed.

Lemma information_roundtrip_witness :
  rps_gpu_parse_gpu_information None (Some (text_of
    [cs "Model: A100"; cs "GPU UUID:   GPU-7f"; cs "Bus Type: PCIe"; cs "Bus Location:  0000:c1:00.0";
     cs "Device Minor:   3"])) = (true, GpuInfo true 3 (cs "0000:c1:00.0") (cs "GPU-7f")).
Proof.
  apply (information_roundtrip None [cs "Model: A100"] [cs "Bus Type: PCIe"] [] [] (cs "   ") (cs "  ")
    (cs "   ") (cs "GPU-7f") (cs "0000:c1:00.0") 3).
  - apply (bool_decide_unpack _). vm_compute. exact I.
  - repeat constructor; vm_compute; reflexivity.
  - repeat constructor.
  - eexists _, _, _. split_and!; vm_compute; reflexivity.
  - vm_compute. lia.
  - eexists _, _, _. split_and!; vm_compute; reflexivity.
  - vm_compute. lia.
  - unfold INT_MAX. lia.
Defined.

(** Every entry that parses stays inside its fields: whatever the text and
    the path, an accepted entry is present, has a minor between 0 and INT_MAX,
    a non-empty bus id shorter than its 32-byte array and a uuid shorter than
    its 96-byte array; a rejected one is not marked present. *)
Theorem information_bounds (path text : option cstr) :
  let '(ok, info) := rps_gpu_parse_gpu_information path text in
  info_bounds info /\ gi_present info = ok /\
  (ok = true -> 0 <= gi_device_minor info /\ gi_bus_id info <> []).
Proof.
  unfold rps_gpu_parse_gpu_information.
  assert (info_bounds rps_gpu_zero_info) as H0.
  { unfold info_bounds, INT_MAX, RPS_GPU_PROC_BUS_ID_MAX, RPS_GPU_PROC_UUID_MAX. simpl. lia. }
  destruct text as [t|]; [|done].
  pose proof (information_fold_bounds (text_lines t) (rps_gpu_zero_info, true) H0) as Hb.
  destruct (foldl information_line _ _) as [info ok]. simpl in Hb.
  assert (exists info' ok', (if ok && bool_decide (gi_bus_id info = []) then
      let '(found, bus) := rps_gpu_extract_proc_bus path RPS_GPU_PROC_BUS_ID_MAX in
      (set_bus_id info (default (gi_bus_id info) bus), found) else (info, ok)) = (info', ok') /\
    info_bounds info') as (info' & ok' & -> & Hb').
  { destruct (ok && _); [|by exists info, ok].
    destruct (rps_gpu_extract_proc_bus path _) as [found bus] eqn:E.
    eexists _, _. split; [done|]. destruct bus as [b|]; simpl; [|by destruct info].
    assert (length b < RPS_GPU_PROC_BUS_ID_MAX)%nat by (apply (extract_bus_length path); by rewrite E).
    unfold info_bounds in *. simpl. lia. }
  split; [by destruct info'|]. destruct ok'; simpl; [|done].
  destruct (Z.leb_spec 0 (gi_device_minor info')); simpl; [|done].
  destruct (bool_decide (gi_bus_id info' = [])) eqn:E; simpl; [done|]. by to_prop.
Qed.

(** Device names.  [rps_gpu_name_is_nvidia_minor] accepts exactly "nvidia"
    followed by a non-empty digit string whose value fits an int, and returns
    that value: names such as nvidiactl, nvidia-uvm or an overflowing number
    are no devices. *)
Theorem nvidia_minor_exact (name : cstr) (minor : Z) :
  rps_gpu_name_is_nvidia_minor (Some name) = Some minor <->
  exists digits, name = cs "nvidia" ++ digits /\ digits <> [] /\ all_digits digits = true /\
    minor = dec digits /\ minor <= INT_MAX.
Proof. apply minor_name_spec. Qed.
