(* ===== verification/Dirent.v ===== *)
(** Directory records ([gpu/proc_filter.c]): the [linux_dirent64] layout, the
    two scans of raw getdents64 buffers at start-up, the file reader and the
    start-up detection of the allowed GPUs, and the in-place filter of a
    getdents64 result. *)

From S2P Require Import Prelude CString Segments ProcFilter.

#[local] Open Scope Z_scope.

(** ** Layout of [struct linux_dirent64] in a byte buffer

    [d_ino] at 0 (8 bytes), [d_off] at 8 (8 bytes), [d_reclen] at 16 (2 bytes,
    little endian), [d_type] at 18, [d_name] at 19. *)

Definition header_size : nat := 19.

Definition byte_at (buffer : list ascii) (i : nat) : Z := code (default NUL (buffer !! i)).

Definition d_reclen (buffer : list ascii) (offset : nat) : nat :=
  Z.to_nat (byte_at buffer (offset + 16) + 256 * byte_at buffer (offset + 17)).

Definition d_name (buffer : list ascii) (offset : nat) : cstr :=
  cstr_of (drop (offset + header_size) buffer).

(** ** Scanning directories at start-up *)

(** One getdents64 call: the count it returned and the whole 4096-byte buffer
    afterwards.  A list of them is what the calls return; the loop ends at a
    call that returns 0, and at the end of the list (an error). *)
Definition dents := (nat * list ascii)%type.

(** The loop over one buffer.  [visit] is the body for an entry name; the flag
    says that a malformed record made the function return at once. *)
Fixpoint walk_buffer {A : Type} (fuel : nat) (visit : A -> cstr -> A)
    (nread : nat) (buffer : list ascii) (offset : nat) (acc : A) : bool * A :=
  match fuel with
  | O => (true, acc)
  | S n =>
      if (offset <? nread)%nat then
        let reclen := d_reclen buffer offset in
        if (reclen =? 0)%nat || (nread <? offset + reclen)%nat then (true, acc)
        else walk_buffer n visit nread buffer (offset + reclen) (visit acc (d_name buffer offset))
      else (false, acc)
  end.

Fixpoint walk_dents {A : Type} (visit : A -> cstr -> A) (reads : list dents) (acc : A) : A :=
  match reads with
  | [] => acc
  | (O, _) :: _ => acc
  | (nread, buffer) :: reads' =>
      let '(stop, acc) := walk_buffer (S nread) visit nread buffer 0 acc in
      if stop then acc else walk_dents visit reads' acc
  end.

(** The loop body of [rps_gpu_collect_mounted_minors]. *)
Definition visit_minor (mounted_capacity : nat) (minors : list Z) (name : cstr) : list Z :=
  if (length minors <? mounted_capacity)%nat then
    match rps_gpu_name_is_nvidia_minor (Some name) with
    | Some minor => minors ++ [minor]
    | None => minors
    end
  else minors.

Section kernel.
(** The kernel, as these functions call it: opening a directory gives the
    results of the getdents64 calls on it, opening a file gives a stream, and
    [sys_read n] reads at most [n] bytes ([None] is an error). *)
Variable open_dir : cstr -> option (list dents).
Variable open_file : cstr -> option stream.
Variable sys_read : nat -> stream -> option (list ascii * stream).

Definition rps_gpu_collect_mounted_minors (mounted_capacity : nat) : list Z :=
  if (mounted_capacity =? 0)%nat then []
  else match open_dir (cs "/dev") with
       | None => []
       | Some reads => walk_dents (visit_minor mounted_capacity) reads []
       end.

(** The read loop; [None] is a read error. *)
Fixpoint read_loop (fuel buffer_size : nat) (fp : stream) (buffer : list ascii) : option (list ascii) :=
  match fuel with
  | O => Some buffer
  | S n =>
      if (length buffer + 1 <? buffer_size)%nat then
        match sys_read (buffer_size - length buffer - 1) fp with
        | None => None
        | Some ([], _) => Some buffer
        | Some (got, fp) => read_loop n buffer_size fp (buffer ++ got)
        end
      else Some buffer
  end.

(** The text read (the bytes in front of the NUL stored behind them). *)
Definition rps_gpu_read_file_to_buffer (path : cstr) (buffer_size : nat) : option (list ascii) :=
  if (buffer_size =? 0)%nat then None
  else match open_file path with
       | None => None
       | Some fp =>
           match read_loop buffer_size buffer_size fp [] with
           | None => None
           | Some [] => None
           | Some text => Some text
           end
       end.

(** The loop body of [rps_gpu_collect_gpu_infos]. *)
Definition visit_info (info_capacity : nat) (infos : list rps_gpu_info) (name : cstr)
    : list rps_gpu_info :=
  if negb (streq name (cs ".")) && negb (streq name (cs "..")) && (length infos <? info_capacity)%nat then
    let '(written, path) :=
      snprintf 4096 (cs "/proc/driver/nvidia/gpus/" ++ name ++ cs "/information") in
    if (0 <? written) && (written <? 4096) then
      match rps_gpu_read_file_to_buffer path (Z.to_nat 8192) with
      | None => infos
      | Some text =>
          let '(ok, info) := rps_gpu_parse_gpu_information (Some path) (Some (cstr_of text)) in
          if ok then infos ++ [info] else infos
      end
    else infos
  else infos.

Definition rps_gpu_collect_gpu_infos (info_capacity : nat) : list rps_gpu_info :=
  if (info_capacity =? 0)%nat then []
  else match open_dir (cs "/proc/driver/nvidia/gpus") with
       | None => []
       | Some reads => walk_dents (visit_info info_capacity) reads []
       end.

Definition rps_gpu_proc_filter_runtime_init (explicit_uuid : option cstr)
    : bool * rps_gpu_allowed_gpus :=
  let mounted_minors := rps_gpu_collect_mounted_minors RPS_GPU_MAX_GPUS in
  let infos := rps_gpu_collect_gpu_infos RPS_GPU_MAX_GPUS in
  rps_gpu_build_allowed_gpus infos mounted_minors explicit_uuid.

End kernel.

(** ** Filtering a getdents64 result in place *)

Definition rps_gpu_dirent_name_is_valid (buffer : list ascii) (offset remaining : nat) : bool :=
  let reclen := d_reclen buffer offset in
  if (reclen <? header_size)%nat || (remaining <? reclen)%nat then false
  else bool_decide (NUL ∈ take (reclen - header_size) (drop (offset + header_size) buffer)).

(** [memmove(buffer + dst, buffer + src, n)] *)
Definition memmove (buffer : list ascii) (dst src n : nat) : list ascii :=
  take dst buffer ++ take n (drop src buffer) ++ drop (dst + n) buffer.

Definition keep_name (allowed : option rps_gpu_allowed_gpus) (name : cstr) : bool :=
  streq name (cs ".") || streq name (cs "..") || rps_gpu_allowed_contains_bus allowed (Some name).

(** [None] is fuel running out, which [filter_loop_total] excludes.  The
    record length is read from the buffer again behind the [memmove], which
    may have overwritten it. *)
Fixpoint filter_loop (fuel : nat) (len : nat) (allowed : option rps_gpu_allowed_gpus)
    (buffer : list ascii) (read_offset write_offset : nat) : option (nat * list ascii) :=
  match fuel with
  | O => None
  | S n =>
      if (read_offset <? len)%nat then
        if (len - read_offset <? header_size)%nat then Some (len, buffer)
        else if negb (rps_gpu_dirent_name_is_valid buffer read_offset (len - read_offset))
        then Some (len, buffer)
        else if keep_name allowed (d_name buffer read_offset) then
          let buffer := if negb (write_offset =? read_offset)%nat
                        then memmove buffer write_offset read_offset (d_reclen buffer read_offset)
                        else buffer in
          filter_loop n len allowed buffer (read_offset + d_reclen buffer read_offset)
            (write_offset + d_reclen buffer read_offset)
        else filter_loop n len allowed buffer (read_offset + d_reclen buffer read_offset) write_offset
      else Some (write_offset, buffer)
  end.

(** The returned length and the buffer afterwards. *)
Definition rps_gpu_filter_dirent64_buffer (buffer : list ascii) (len : Z)
    (allowed : option rps_gpu_allowed_gpus) : option (Z * list ascii) :=
  match allowed with
  | None => Some (len, buffer)
  | Some a =>
      if (len <=? 0) || negb (al_valid a) then Some (len, buffer)
      else '(r, b) ← filter_loop (S (S (Z.to_nat len))) (Z.to_nat len) allowed buffer 0 0;
           Some (Z.of_nat r, b)
  end.

(** ** Well-formed records *)

Record dirent := Dirent {
  de_head : list ascii;   (* inode number and offset, 16 bytes *)
  de_type : ascii;
  de_name : cstr;
  de_pad : list ascii     (* alignment bytes behind the name's NUL *)
}.

Definition dirent_size (e : dirent) : nat := header_size + length (de_name e) + 1 + length (de_pad e).

Definition dirent_wf (e : dirent) : Prop :=
  length (de_head e) = 16%nat /\ (NUL ∉ de_name e) /\ Z.of_nat (dirent_size e) < 65536.

Definition encode_dirent (e : dirent) : list ascii :=
  de_head e ++
  [ascii_of_N (Z.to_N (Z.of_nat (dirent_size e) mod 256));
   ascii_of_N (Z.to_N (Z.of_nat (dirent_size e) / 256))] ++
  [de_type e] ++ de_name e ++ [NUL] ++ de_pad e.

Definition encode_dirents (es : list dirent) : list ascii := concat (map encode_dirent es).

(** No record is more than 16 bytes longer than another one. *)
Definition sizes_close (es : list dirent) : Prop :=
  forall e1 e2, e1 ∈ es -> e2 ∈ es -> (dirent_size e2 <= dirent_size e1 + 16)%nat.

#[global] Arguments d_reclen : simpl never.
#[global] Arguments d_name : simpl never.
#[global] Arguments memmove : simpl never.
#[global] Arguments rps_gpu_dirent_name_is_valid : simpl never.
#[global] Arguments keep_name : simpl never.

(** ** Lemmas: the layout *)

Lemma code_ascii_of_N (z : Z) : 0 <= z < 256 -> code (ascii_of_N (Z.to_N z)) = z.
Proof. intros H. unfold code. rewrite N_ascii_embedding by lia. lia. Qed.

Lemma byte_at_app (pre l : list ascii) (i : nat) :
  byte_at (pre ++ l) (length pre + i) = byte_at l i.
Proof. unfold byte_at. rewrite lookup_app_r by lia. do 3 f_equal. lia. Qed.

Lemma d_reclen_app (pre l : list ascii) : d_reclen (pre ++ l) (length pre) = d_reclen l 0.
Proof. unfold d_reclen. by rewrite !byte_at_app. Qed.

Lemma d_name_app (pre l : list ascii) : d_name (pre ++ l) (length pre) = d_name l 0.
Proof. unfold d_name. rewrite <-drop_drop. by rewrite drop_app_length. Qed.

Lemma length_encode (e : dirent) :
  dirent_wf e -> length (encode_dirent e) = dirent_size e.
Proof.
  intros (Hh & _ & _). unfold encode_dirent, dirent_size, header_size.
  rewrite !length_app, Hh. simpl. lia.
Qed.

(** A two-byte little-endian field holds any size below 65536. *)
Lemma le16_roundtrip (n : nat) :
  Z.of_nat n < 65536 ->
  Z.to_nat (code (ascii_of_N (Z.to_N (Z.of_nat n mod 256))) +
            256 * code (ascii_of_N (Z.to_N (Z.of_nat n / 256)))) = n.
Proof.
  intros Hn. pose proof (Z.mod_pos_bound (Z.of_nat n) 256 eq_refl).
  assert (0 <= Z.of_nat n / 256 < 256) by (split; [apply Z.div_pos|apply Z.div_lt_upper_bound]; lia).
  rewrite !code_ascii_of_N by lia. pose proof (Z.div_mod (Z.of_nat n) 256). lia.
Qed.

Lemma encode_reclen (e : dirent) (post : list ascii) :
  dirent_wf e -> d_reclen (encode_dirent e ++ post) 0 = dirent_size e.
Proof.
  intros (Hh & _ & Hs). unfold d_reclen, byte_at, encode_dirent.
  rewrite <-!app_assoc. cbn [Nat.add].
  rewrite !(lookup_app_r (de_head e)) by (rewrite Hh; lia). rewrite Hh.
  exact (le16_roundtrip (dirent_size e) Hs).
Qed.

Lemma encode_drop_header (e : dirent) (post : list ascii) :
  dirent_wf e -> drop header_size (encode_dirent e ++ post) = de_name e ++ NUL :: de_pad e ++ post.
Proof.
  intros (Hh & _). unfold encode_dirent, header_size.
  change 19%nat with (16 + 3)%nat. rewrite <-drop_drop, <-Hh, <-!app_assoc, drop_app_length.
  reflexivity.
Qed.

Lemma encode_name (e : dirent) (post : list ascii) :
  dirent_wf e -> d_name (encode_dirent e ++ post) 0 = de_name e.
Proof.
  intros Hwf. unfold d_name. rewrite Nat.add_0_l, encode_drop_header by done.
  destruct Hwf as (_ & Hn & _). by apply before_app.
Qed.

Lemma encode_valid (pre post : list ascii) (e : dirent) (remaining : nat) :
  dirent_wf e -> (dirent_size e <= remaining)%nat ->
  rps_gpu_dirent_name_is_valid (pre ++ encode_dirent e ++ post) (length pre) remaining = true.
Proof.
  intros Hwf Hr. unfold rps_gpu_dirent_name_is_valid.
  rewrite d_reclen_app, encode_reclen, <-drop_drop, drop_app_length, encode_drop_header by done.
  unfold dirent_size, header_size in *.
  rewrite (proj2 (Nat.ltb_ge (19 + length (de_name e) + 1 + length (de_pad e)) 19)) by lia.
  rewrite (proj2 (Nat.ltb_ge remaining _)) by lia. cbn [orb].
  apply bool_decide_eq_true.
  rewrite take_app_ge by lia. apply elem_of_app. right.
  replace (_ - _ - _)%nat with (S (length (de_pad e))) by lia. simpl. by left.
Qed.

Lemma memmove_down (w g x post : list ascii) :
  memmove (w ++ g ++ x ++ post) (length w) (length w + length g) (length x) =
  w ++ x ++ drop (length x) (g ++ x) ++ post.
Proof.
  unfold memmove. rewrite take_app_length. f_equal.
  rewrite <-(drop_drop _ (length g) (length w)), drop_app_length, drop_app_length, take_app_length.
  f_equal. rewrite <-drop_drop, drop_app_length.
  rewrite (app_assoc g x post), drop_app_le by (rewrite length_app; lia). done.
Qed.

(** The record length survives the move of its record when the gap behind it
    covers all but the first 16 bytes. *)
Lemma reclen_after_move (w g x post : list ascii) :
  (18 <= length x)%nat -> (length x <= length g + 16)%nat ->
  d_reclen (w ++ x ++ drop (length x) (g ++ x) ++ post) (length w + length g) = d_reclen (x ++ post) 0.
Proof.
  intros Hx Hg.
  assert (forall i, (16 <= i < length x)%nat ->
    (w ++ x ++ drop (length x) (g ++ x) ++ post) !! (length w + length g + i)%nat = (x ++ post) !! i) as H.
  { intros i Hi. rewrite lookup_app_r by lia. rewrite lookup_app_r by lia.
    rewrite lookup_app_l by (rewrite length_drop, length_app; lia).
    rewrite lookup_drop, lookup_app_r by lia. rewrite lookup_app_l by lia. f_equal. lia. }
  unfold d_reclen, byte_at. rewrite !H by lia. reflexivity.
Qed.

(** ** Lemmas: the filter *)

(** The entries the filter keeps. *)
Definition kept (allowed : option rps_gpu_allowed_gpus) (es : list dirent) : list dirent :=
  List.filter (fun e => keep_name allowed (de_name e)) es.

(** Every record still to come can be moved over the gap [g]. *)
Definition gap_ok (g : list ascii) (es : list dirent) : Prop :=
  g = [] \/ forall e, e ∈ es -> (dirent_size e <= length g + 16)%nat.

Lemma sizes_close_tail (e : dirent) (es : list dirent) : sizes_close (e :: es) -> sizes_close es.
Proof. intros H e1 e2 H1 H2. apply H; by right. Qed.

Lemma sizes_close_check (es : list dirent) :
  forallb (fun e1 => forallb (fun e2 => (dirent_size e2 <=? dirent_size e1 + 16)%nat) es) es = true ->
  sizes_close es.
Proof.
  intros H e1 e2 H1 H2. apply list_elem_of_In in H1, H2.
  rewrite forallb_forall in H. specialize (H e1 H1). rewrite forallb_forall in H. by apply Nat.leb_le, H.
Qed.

Lemma encode_dirents_cons (e : dirent) (es : list dirent) :
  encode_dirents (e :: es) = encode_dirent e ++ encode_dirents es.
Proof. reflexivity. Qed.

Lemma dirent_size_min (e : dirent) : (20 <= dirent_size e)%nat.
Proof. unfold dirent_size, header_size. lia. Qed.

Lemma filter_loop_spec (allowed : option rps_gpu_allowed_gpus) (es : list dirent) :
  Forall dirent_wf es -> sizes_close es ->
  forall (w g tail : list ascii) (fuel : nat),
  gap_ok g es -> (length es < fuel)%nat ->
  exists g', filter_loop fuel (length w + length g + length (encode_dirents es)) allowed
    (w ++ g ++ encode_dirents es ++ tail) (length w + length g) (length w) =
  Some ((length w + length (encode_dirents (kept allowed es)))%nat,
        w ++ encode_dirents (kept allowed es) ++ g' ++ tail).
Proof.
  induction 1 as [|e es He Hes IH]; intros Hclose w g tail fuel Hg Hf;
    (destruct fuel as [|n]; [by apply Nat.nlt_0_r in Hf|]); cbn [filter_loop].
  { exists g. unfold encode_dirents. cbn [kept List.filter map concat length app].
    rewrite !Nat.add_0_r, Nat.ltb_irrefl. reflexivity. }
  specialize (IH (sizes_close_tail _ _ Hclose)). simpl in Hf.
  rewrite encode_dirents_cons, length_app, length_encode, <-!app_assoc by done.
  pose proof (dirent_size_min e) as Hmin.
  set (x := encode_dirent e). set (l := encode_dirents es).
  assert (length x = dirent_size e) as Hx by by apply length_encode.
  assert (d_reclen (w ++ g ++ x ++ l ++ tail) (length w + length g) = dirent_size e) as Hrec.
  { rewrite (app_assoc w g), <-length_app, d_reclen_app. by apply encode_reclen. }
  assert (d_name (w ++ g ++ x ++ l ++ tail) (length w + length g) = de_name e) as Hname.
  { rewrite (app_assoc w g), <-length_app, d_name_app. by apply encode_name. }
  assert (forall r, (dirent_size e <= r)%nat ->
    rps_gpu_dirent_name_is_valid (w ++ g ++ x ++ l ++ tail) (length w + length g) r = true) as Hvalid.
  { intros r Hr. rewrite (app_assoc w g), <-length_app. by apply encode_valid. }
  rewrite (proj2 (Nat.ltb_lt (length w + length g) _)) by lia.
  rewrite (proj2 (Nat.ltb_ge _ header_size)) by (unfold header_size; lia).
  rewrite Hvalid by lia. cbn [negb]. rewrite Hname, Hrec. unfold kept. cbn [List.filter]. fold (kept allowed es).
  destruct (keep_name allowed (de_name e)).
  - rewrite encode_dirents_cons. fold x. rewrite (length_app x), Hx.
    destruct (Nat.eqb_spec (length w) (length w + length g)) as [Hg0|Hg0]; cbn [negb].
    + assert (g = []) as -> by (apply nil_length_inv; lia). rewrite Hrec.
      destruct (IH (w ++ x) [] tail n) as [g' Hg']; [by left|lia|]. exists g'.
      rewrite !length_app, Hx in Hg'. cbn [length app] in *. rewrite <-!app_assoc in *.
      rewrite !Nat.add_0_r in *. rewrite !Nat.add_assoc. exact Hg'.
    + assert (dirent_size e <= length g + 16)%nat as Hge.
      { destruct Hg as [->|Hg]; [simpl in Hg0; lia|]. apply Hg. by left. }
      pose proof (memmove_down w g x (l ++ tail)) as Hmove. rewrite Hx in Hmove. rewrite Hmove.
      assert (d_reclen (w ++ x ++ drop (dirent_size e) (g ++ x) ++ l ++ tail) (length w + length g)
              = dirent_size e) as ->.
      { rewrite <-Hx at 1. rewrite reclen_after_move by lia. by apply encode_reclen. }
      destruct (IH (w ++ x) (drop (dirent_size e) (g ++ x)) tail n) as [g' Hg'].
      * right. intros e' He'. rewrite length_drop, length_app.
        destruct Hg as [->|Hg]; [simpl in Hg0; lia|].
        specialize (Hg e' ltac:(by right)). lia.
      * lia.
      * exists g'. rewrite !length_app, length_drop, length_app, Hx in Hg'.
        rewrite <-!app_assoc in *. fold l in Hg'.
        replace (length w + length g + dirent_size e)%nat
          with (length w + dirent_size e + (length g + dirent_size e - dirent_size e))%nat by lia.
        replace (length w + length g + (dirent_size e + length l))%nat
          with (length w + dirent_size e + (length g + dirent_size e - dirent_size e) + length l)%nat by lia.
        rewrite !Nat.add_assoc in *. exact Hg'.
  - destruct (IH w (g ++ x) tail n) as [g' Hg'].
    + right. intros e' He'. rewrite length_app, Hx.
      specialize (Hclose e e' ltac:(by left) ltac:(by right)). lia.
    + lia.
    + exists g'. rewrite length_app, Hx, <-!app_assoc in Hg'. rewrite !Nat.add_assoc in *. exact Hg'.
Qed.

(** ** Lemmas: arbitrary buffers *)

Lemma code_range (c : ascii) : 0 <= code c < 256.
Proof. unfold code. pose proof (N_ascii_bounded c). lia. Qed.

Lemma d_reclen_bound (buffer : list ascii) (o : nat) : Z.of_nat (d_reclen buffer o) < 65536.
Proof.
  unfold d_reclen, byte_at.
  pose proof (code_range (default NUL (buffer !! (o + 16)%nat))).
  pose proof (code_range (default NUL (buffer !! (o + 17)%nat))). lia.
Qed.

Lemma memmove_bounds (buffer : list ascii) (dst src n len : nat) :
  (dst <= src)%nat -> (src + n <= len)%nat -> (len <= length buffer)%nat ->
  length (memmove buffer dst src n) = length buffer /\
  drop len (memmove buffer dst src n) = drop len buffer.
Proof.
  intros Hd Hs Hl. unfold memmove.
  assert (length (take dst buffer) = dst) as H1 by (rewrite length_take; lia).
  assert (length (take n (drop src buffer)) = n) as H2 by (rewrite length_take, length_drop; lia).
  split; [rewrite !length_app, H1, H2, length_drop; lia|].
  rewrite app_assoc, drop_app_ge by (rewrite length_app; lia).
  rewrite length_app, H1, H2, drop_drop. f_equal. lia.
Qed.

Lemma valid_reclen (buffer : list ascii) (o remaining : nat) :
  rps_gpu_dirent_name_is_valid buffer o remaining = true ->
  (header_size <= d_reclen buffer o <= remaining)%nat.
Proof.
  unfold rps_gpu_dirent_name_is_valid. destruct (_ || _) eqn:E; [done|]. to_prop. lia.
Qed.

(** A record that claims to be shorter than its header ends the loop. *)
Lemma filter_loop_short (n len : nat) (allowed : option rps_gpu_allowed_gpus)
    (buffer : list ascii) (r w : nat) :
  (d_reclen buffer r < header_size)%nat ->
  filter_loop (S n) len allowed buffer r w = Some (if (r <? len)%nat then len else w, buffer).
Proof.
  intros H. cbn [filter_loop]. destruct (r <? len)%nat; [|done].
  destruct (len - r <? header_size)%nat; [done|].
  unfold rps_gpu_dirent_name_is_valid. rewrite (proj2 (Nat.ltb_lt _ _) H). done.
Qed.

Definition filter_result_ok (len : nat) (buffer : list ascii) (res : nat * list ascii) : Prop :=
  Z.of_nat res.1 < Z.of_nat len + 65536 /\ length res.2 = length buffer /\ drop len res.2 = drop len buffer.

Lemma filter_loop_total (n len : nat) (allowed : option rps_gpu_allowed_gpus)
    (buffer : list ascii) (r w : nat) :
  (len <= length buffer)%nat -> (w <= r)%nat -> (Z.of_nat r < Z.of_nat len + 65536) ->
  (len - r + 1 < n)%nat ->
  exists res, filter_loop n len allowed buffer r w = Some res /\ filter_result_ok len buffer res.
Proof.
  unfold filter_result_ok.
  revert buffer r w. induction n as [|n IH]; intros buffer r w Hl Hw Hr Hn; [lia|]. cbn [filter_loop].
  destruct (Nat.ltb_spec r len) as [Hlt|Hge]; [|exists (w, buffer); simpl; split_and!; done || lia].
  destruct (len - r <? header_size)%nat; [exists (len, buffer); simpl; split_and!; done || lia|].
  destruct (rps_gpu_dirent_name_is_valid buffer r (len - r)) eqn:Hv; cbn [negb];
    [|exists (len, buffer); simpl; split_and!; done || lia].
  apply valid_reclen in Hv. unfold header_size in Hv.
  destruct (keep_name allowed (d_name buffer r)); [|apply IH; lia].
  set (b := if negb (w =? r)%nat then memmove buffer w r (d_reclen buffer r) else buffer).
  assert (length b = length buffer /\ drop len b = drop len buffer) as [Hb1 Hb2].
  { unfold b. destruct (w =? r)%nat; cbn [negb]; [done|]. apply memmove_bounds; lia. }
  rewrite <-Hb1, <-Hb2. pose proof (d_reclen_bound b r) as Hbound.
  destruct (decide (d_reclen b r = 0%nat)) as [H0|H0].
  - rewrite H0, !Nat.add_0_r. destruct n as [|n]; [lia|].
    rewrite filter_loop_short by (rewrite H0; unfold header_size; lia).
    eexists. split; [done|]. destruct (r <? len)%nat; simpl; split_and!; done || lia.
  - apply IH; lia.
Qed.

(** ** Lemmas: the start-up scans *)

(** A getdents64 result that holds the well-formed records [es]. *)
Definition dents_of (d : dents) (es : list dirent) : Prop :=
  exists tail, d.2 = encode_dirents es ++ tail /\ d.1 = length (encode_dirents es) /\
    Forall dirent_wf es.

(** The directory lists these names, over any number of calls, until a call
    returns nothing. *)
Definition dir_names (reads : list dents) (names : list cstr) : Prop :=
  exists ess listing rest, reads = listing ++ rest /\ Forall2 dents_of listing ess /\
    Forall (fun es => es <> []) ess /\ (rest = [] \/ exists b more, rest = (O, b) :: more) /\
    names = map de_name (concat ess).

Lemma walk_buffer_spec {A : Type} (visit : A -> cstr -> A) (es : list dirent) :
  Forall dirent_wf es -> forall (fuel : nat) (pre tail : list ascii) (acc : A),
  (length es < fuel)%nat ->
  walk_buffer fuel visit (length pre + length (encode_dirents es)) (pre ++ encode_dirents es ++ tail)
    (length pre) acc = (false, foldl visit acc (map de_name es)).
Proof.
  induction 1 as [|e es He _ IH]; intros fuel pre tail acc Hf;
    (destruct fuel as [|n]; [by apply Nat.nlt_0_r in Hf|]); cbn [walk_buffer].
  { unfold encode_dirents. cbn [map concat length]. by rewrite Nat.add_0_r, Nat.ltb_irrefl. }
  simpl in Hf. pose proof (dirent_size_min e) as Hmin. pose proof (length_encode e He) as Hl.
  rewrite encode_dirents_cons, length_app, <-!app_assoc.
  rewrite (proj2 (Nat.ltb_lt (length pre) _)) by lia.
  rewrite d_reclen_app, d_name_app, encode_reclen, encode_name by done.
  rewrite (proj2 (Nat.eqb_neq (dirent_size e) 0)) by lia.
  rewrite (proj2 (Nat.ltb_ge _ (length pre + dirent_size e))) by lia. cbn [orb map foldl].
  rewrite (app_assoc pre), Nat.add_assoc, <-Hl, <-length_app. apply IH. lia.
Qed.

Lemma encode_dirents_count (es : list dirent) :
  Forall dirent_wf es -> (length es <= length (encode_dirents es))%nat.
Proof.
  induction 1 as [|e es He _ IH]; [done|].
  rewrite encode_dirents_cons, length_app, length_encode by done.
  pose proof (dirent_size_min e). simpl. lia.
Qed.

Lemma walk_dents_spec {A : Type} (visit : A -> cstr -> A) (reads : list dents) (names : list cstr)
    (acc : A) :
  dir_names reads names -> walk_dents visit reads acc = foldl visit acc names.
Proof.
  intros (ess & listing & rest & -> & Hess & Hne & Hrest & ->). revert Hne acc.
  induction Hess as [|[n buf] es reads ess (tail & Hb & Hn & Hwf) _ IH]; intros Hne acc.
  { by destruct Hrest as [->|(b & more & ->)]. }
  apply Forall_cons in Hne as [He Hne].
  simpl in Hb, Hn. subst n buf. cbn [walk_dents concat app].
  destruct (length (encode_dirents es)) as [|k] eqn:Ek.
  { pose proof (encode_dirents_count es Hwf). destruct es; [done|simpl in *; lia]. }
  rewrite <-Ek. pose proof (walk_buffer_spec visit es Hwf (S (length (encode_dirents es))) [] tail acc) as H.
  cbn [length app Nat.add] in H. rewrite H by (pose proof (encode_dirents_count es Hwf); lia).
  by rewrite map_app, foldl_app, IH.
Qed.

Lemma dir_names_short (reads : list dents) (names : list cstr) (name : cstr) :
  dir_names reads names -> name ∈ names -> Z.of_nat (length name) <= INT_MAX - 64.
Proof.
  intros (ess & listing & rest & _ & Hess & _ & _ & ->) Hin. apply list_elem_of_fmap in Hin as (e & -> & He).
  apply list_elem_of_In, in_concat in He as (es & Hes & He). apply list_elem_of_In in Hes, He.
  apply list_elem_of_lookup in Hes as [i Hi].
  destruct (Forall2_lookup_r _ _ _ _ _ Hess Hi) as (d & _ & _ & _ & _ & Hwf).
  rewrite Forall_forall in Hwf. destruct (Hwf e He) as (_ & _ & Hs).
  unfold dirent_size, header_size in Hs. unfold INT_MAX. lia.
Qed.

(** Collecting results up to a capacity keeps the first ones. *)
Lemma foldl_collect {A B : Type} (cap : nat) (f : A -> option B) (visit : list B -> A -> list B)
    (l : list A) (acc : list B) :
  (forall acc x, x ∈ l -> visit acc x = match (if (length acc <? cap)%nat then f x else None) with
                               | Some y => acc ++ [y] | None => acc end) ->
  (length acc <= cap)%nat -> foldl visit acc l = take cap (acc ++ omap f l).
Proof.
  intros Hv. revert acc. induction l as [|x l IH]; intros acc Ha; simpl.
  { by rewrite app_nil_r, take_ge. }
  specialize (IH (fun a y Hy => Hv a y ltac:(by right))). rewrite Hv by (by left).
  destruct (Nat.ltb_spec (length acc) cap) as [Hlt|Hge].
  - destruct (f x) as [y|]; [|by apply IH].
    rewrite IH by (rewrite length_app; simpl; lia). by rewrite <-app_assoc.
  - rewrite IH by done. by rewrite !take_app_le by lia.
Qed.

(** What the kernel's read call guarantees: it delivers the next bytes of the
    file, at most as many as asked for, and none only at the end. *)
Definition reads_ok (sys_read : nat -> stream -> option (list ascii * stream)) : Prop :=
  forall n fp, exists got fp', sys_read n fp = Some (got, fp') /\
    st_data fp = got ++ st_data fp' /\ (length got <= n)%nat /\
    (got = [] -> n = 0%nat \/ st_data fp = []).

(** The GPU the entry [name] of the procfs directory reports. *)
Definition gpu_report (open_file : cstr -> option stream) (name : cstr) : option rps_gpu_info :=
  if streq name (cs ".") || streq name (cs "..") then None
  else
    let path := cs "/proc/driver/nvidia/gpus/" ++ name ++ cs "/information" in
    if (length path <? Z.to_nat 4096)%nat then
      fp ← open_file path;
      let text := take (Z.to_nat 8191) (st_data fp) in
      if bool_decide (text = []) then None
      else let '(ok, info) := rps_gpu_parse_gpu_information (Some path) (Some (cstr_of text)) in
           if ok then Some info else None
    else None.

Section scans.
Context (open_dir : cstr -> option (list dents)) (open_file : cstr -> option stream).
Context (sys_read : nat -> stream -> option (list ascii * stream)) (Hread : reads_ok sys_read).

Lemma read_loop_spec (fuel size : nat) (fp : stream) (buffer : list ascii) :
  (0 < size)%nat -> (length buffer < size)%nat -> (size - length buffer <= fuel)%nat ->
  read_loop sys_read fuel size fp buffer = Some (take (size - 1) (buffer ++ st_data fp)).
Proof.
  intros Hs. revert fp buffer. induction fuel as [|n IH]; intros fp buffer Hb Hf; [lia|].
  cbn [read_loop]. destruct (Nat.ltb_spec (length buffer + 1) size) as [Hlt|Hge].
  - destruct (Hread (size - length buffer - 1)%nat fp) as (got & fp' & -> & Hd & Hg & Hend).
    destruct got as [|c got].
    + destruct (Hend eq_refl) as [H0|H0]; [lia|]. rewrite H0, app_nil_r, take_ge by lia. done.
    + rewrite IH by (rewrite length_app; simpl in *; lia). by rewrite Hd, <-app_assoc.
  - by rewrite take_app_le, take_ge by lia.
Qed.

Lemma read_file_spec (path : cstr) (size : nat) :
  (0 < size)%nat ->
  rps_gpu_read_file_to_buffer open_file sys_read path size =
  fp ← open_file path;
  let text := take (size - 1) (st_data fp) in if bool_decide (text = []) then None else Some text.
Proof.
  intros Hs. unfold rps_gpu_read_file_to_buffer. rewrite (proj2 (Nat.eqb_neq size 0)) by lia.
  destruct (open_file path) as [fp|]; [|done]. rewrite read_loop_spec by (simpl; lia).
  simpl. by destruct (take (size - 1) (st_data fp)).
Qed.

Lemma visit_info_spec (cap : nat) (infos : list rps_gpu_info) (name : cstr) :
  Z.of_nat (length name) <= INT_MAX - 64 ->
  visit_info open_file sys_read cap infos name =
  match (if (length infos <? cap)%nat then gpu_report open_file name else None) with
  | Some info => infos ++ [info] | None => infos end.
Proof.
  intros Hn. unfold visit_info, gpu_report.
  destruct (streq name (cs ".")); [by destruct (length infos <? cap)%nat|].
  destruct (streq name (cs "..")); [by destruct (length infos <? cap)%nat|].
  cbn [negb andb orb]. destruct (length infos <? cap)%nat; [|done].
  set (path := cs "/proc/driver/nvidia/gpus/" ++ name ++ cs "/information").
  assert (length path = 37 + length name)%nat as Hp.
  { unfold path. rewrite !length_app. change (length (cs "/proc/driver/nvidia/gpus/")) with 25%nat.
    change (length (cs "/information")) with 12%nat. lia. }
  unfold snprintf. rewrite (proj2 (Z.leb_le (Z.of_nat (length path)) INT_MAX)) by lia.
  rewrite (proj2 (Z.ltb_lt 0 (Z.of_nat (length path)))) by lia. cbn [andb].
  destruct (Z.ltb_spec (Z.of_nat (length path)) 4096) as [Hl|Hl].
  - rewrite (proj2 (Nat.ltb_lt (length path) (Z.to_nat 4096))) by lia.
    rewrite take_ge by lia. rewrite read_file_spec by lia.
    replace (Z.to_nat 8192 - 1)%nat with (Z.to_nat 8191) by lia.
    destruct (open_file path) as [fp|]; [|done]. cbn [mbind option_bind].
    destruct (bool_decide _); [done|].
    by destruct (rps_gpu_parse_gpu_information _ _) as [[] ?].
  - by rewrite (proj2 (Nat.ltb_ge (length path) (Z.to_nat 4096))) by lia.
Qed.

Lemma collect_infos_spec (reads : list dents) (names : list cstr) :
  open_dir (cs "/proc/driver/nvidia/gpus") = Some reads -> dir_names reads names ->
  rps_gpu_collect_gpu_infos open_dir open_file sys_read RPS_GPU_MAX_GPUS =
  take RPS_GPU_MAX_GPUS (omap (gpu_report open_file) names).
Proof.
  intros Ho Hn. unfold rps_gpu_collect_gpu_infos. simpl (_ =? _)%nat. rewrite Ho.
  rewrite (walk_dents_spec _ _ _ _ Hn), (foldl_collect RPS_GPU_MAX_GPUS (gpu_report open_file)); [done| |simpl; lia].
  intros infos name Hin. apply visit_info_spec. by eapply dir_names_short.
Qed.

Lemma collect_minors_spec (reads : list dents) (names : list cstr) :
  open_dir (cs "/dev") = Some reads -> dir_names reads names ->
  rps_gpu_collect_mounted_minors open_dir RPS_GPU_MAX_GPUS =
  take RPS_GPU_MAX_GPUS (omap (fun name => rps_gpu_name_is_nvidia_minor (Some name)) names).
Proof.
  intros Ho Hn. unfold rps_gpu_collect_mounted_minors. simpl (_ =? _)%nat. rewrite Ho.
  rewrite (walk_dents_spec _ _ _ _ Hn).
  rewrite (foldl_collect RPS_GPU_MAX_GPUS (fun name => rps_gpu_name_is_nvidia_minor (Some name)));
    [done| |simpl; lia].
  intros minors name _. unfold visit_minor. by destruct (length minors <? RPS_GPU_MAX_GPUS)%nat.
Qed.

End scans.

Lemma gpu_report_present (open_file : cstr -> option stream) (name : cstr) (g : rps_gpu_info) :
  gpu_report open_file name = Some g -> gi_present g = true /\ gi_bus_id g <> [].
Proof.
  unfold gpu_report. destruct (_ || _); [done|]. set (path := _ ++ _).
  destruct (length path <? Z.to_nat 4096)%nat; [|done].
  destruct (open_file path) as [fp|]; [|done]. cbn [mbind option_bind].
  destruct (bool_decide _); [done|]. unfold rps_gpu_parse_gpu_information.
  destruct (foldl _ _ _) as [info ok].
  destruct (if ok && _ then _ else _) as [info' ok'].
  destruct ok'; [|done]. cbn [andb]. destruct (0 <=? gi_device_minor info'); [|done]. cbn [andb].
  destruct (bool_decide (gi_bus_id info' = [])) eqn:E; [done|]. to_prop. by intros [= <-].
Qed.

(** Filtering a well-formed listing in place. *)
Lemma filter_buffer_spec (a : rps_gpu_allowed_gpus) (es : list dirent) (tail : list ascii) :
  al_valid a = true -> Forall dirent_wf es -> sizes_close es ->
  let listing := encode_dirents es in
  let filtered := encode_dirents (kept (Some a) es) in
  exists gap, length gap = (length listing - length filtered)%nat /\
  rps_gpu_filter_dirent64_buffer (listing ++ tail) (Z.of_nat (length listing)) (Some a) =
  Some (Z.of_nat (length filtered), filtered ++ gap ++ tail).
Proof.
  intros Ha Hes Hclose listing filtered.
  assert (length es <= length listing)%nat as Hlen.
  { unfold listing. clear Hclose filtered listing. induction Hes as [|e es He _ IH]; [done|].
    rewrite encode_dirents_cons, length_app, length_encode by done.
    pose proof (dirent_size_min e). simpl. lia. }
  destruct (filter_loop_spec (Some a) es Hes Hclose [] [] tail (S (S (length listing))))
    as [gap Hgap]; [by left|lia|].
  cbn [length app Nat.add] in Hgap. fold listing in Hgap.
  fold filtered in Hgap. clearbody filtered.
  exists gap. destruct (filter_loop_total (S (S (length listing))) (length listing) (Some a)
    (listing ++ tail) 0 0) as (res & Hres & _ & Hsame & _); [rewrite length_app; lia|lia|lia|lia|].
  rewrite Hgap in Hres. injection Hres as <-. simpl in Hsame. rewrite !length_app in Hsame.
  split; [lia|].
  unfold rps_gpu_filter_dirent64_buffer. rewrite Ha. cbn [negb]. rewrite orb_false_r, Nat2Z.id.
  destruct (Z.leb_spec (Z.of_nat (length listing)) 0) as [H0|H0].
  - assert (listing = []) as Hnil by (apply nil_length_inv; lia).
    assert (filtered = []) as -> by (apply nil_length_inv; lia).
    assert (gap = []) as -> by (apply nil_length_inv; rewrite Hnil in Hsame; simpl in Hsame; lia).
    by rewrite Hnil.
  - rewrite Hgap. reflexivity.
Qed.

Lemma kept_elem (allowed : option rps_gpu_allowed_gpus) (es : list dirent) (e : dirent) :
  e ∈ kept allowed es <-> e ∈ es /\ keep_name allowed (de_name e) = true.
Proof. unfold kept. by rewrite !list_elem_of_In, List.filter_In. Qed.

Lemma kept_sublist (allowed : option rps_gpu_allowed_gpus) (es : list dirent) :
  kept allowed es `sublist_of` es.
Proof.
  induction es as [|e es IH]; [done|]. unfold kept. cbn [List.filter].
  destruct (keep_name _ _); [by apply sublist_skip|by apply sublist_cons].
Qed.

(** ** Properties: the filter *)

(** Filtering a listing in place is exact.  On a buffer of well-formed
    directory records (none of which is more than 16 bytes longer than
    another), followed by anything, the returned length and the bytes up to it
    are those of the listing with only ".", ".." and the allowed GPUs, in
    their order, each record copied whole; the bytes behind the original
    listing are not touched. *)
Theorem dirent_filter_exact (a : rps_gpu_allowed_gpus) (es : list dirent) (tail : list ascii) :
  al_valid a = true -> Forall dirent_wf es -> sizes_close es ->
  let listing := encode_dirents es in
  let filtered := encode_dirents (List.filter (fun e =>
    streq (de_name e) (cs ".") || streq (de_name e) (cs "..") ||
    rps_gpu_allowed_contains_bus (Some a) (Some (de_name e))) es) in
  exists gap, length gap = (length listing - length filtered)%nat /\
  rps_gpu_filter_dirent64_buffer (listing ++ tail) (Z.of_nat (length listing)) (Some a) =
  Some (Z.of_nat (length filtered), filtered ++ gap ++ tail).
Proof. apply filter_buffer_spec. Qed.

(** Sample entries: names padded to a multiple of eight bytes. *)
Definition sample_dirent (name : string) : dirent :=
  let n := (header_size + length (cs name) + 1)%nat in
  Dirent (replicate 16 NUL) (ascii_of_nat 4) (cs name) (replicate ((8 - n mod 8) mod 8) NUL).

Definition sample_allowed (bus : string) : rps_gpu_allowed_gpus :=
  AllowedGpus true 1 [GpuInfo true 0 (cs bus) []].

Lemma dirent_filter_exact_witness :
  exists gap, length gap = 32%nat /\
  rps_gpu_filter_dirent64_buffer
    (encode_dirents (map sample_dirent ["."; "0000:01:00.0"; "0000:02:00.0"]%string)) 88
    (Some (sample_allowed "0000:02:00.0")) =
  Some (56, encode_dirents (map sample_dirent ["."; "0000:02:00.0"]%string) ++ gap).
Proof.
  destruct (dirent_filter_exact (sample_allowed "0000:02:00.0")
    (map sample_dirent ["."; "0000:01:00.0"; "0000:02:00.0"]%string) []) as (gap & Hl & H).
  - reflexivity.
  - unfold dirent_wf.
    repeat (apply Forall_cons; split; [split_and!; [reflexivity|by apply (bool_decide_unpack _)|vm_compute; reflexivity]|]). constructor.
  - apply sizes_close_check. vm_compute. reflexivity.
  - rewrite !app_nil_r in H. exists gap. split; [exact Hl|exact H].
Defined.

(** C32: the filter terminates and stays in its buffer on any bytes: whatever a
    buffer of at least [len] bytes holds, the loop ends, writes no byte at or
    behind [len], and returns less than [len] + 65536 (the largest record
    length).  That the result can exceed [len] is shown below. *)
Theorem dirent_filter_total (buffer : list ascii) (len : Z) (allowed : option rps_gpu_allowed_gpus) :
  0 <= len <= Z.of_nat (length buffer) ->
  exists r b, rps_gpu_filter_dirent64_buffer buffer len allowed = Some (r, b) /\
  0 <= r < len + 65536 /\ length b = length buffer /\ drop (Z.to_nat len) b = drop (Z.to_nat len) buffer.
Proof.
  intros Hl. unfold rps_gpu_filter_dirent64_buffer.
  destruct allowed as [a|]; [|exists len, buffer; split_and!; done || lia].
  destruct ((len <=? 0) || negb (al_valid a)); [exists len, buffer; split_and!; done || lia|].
  destruct (filter_loop_total (S (S (Z.to_nat len))) (Z.to_nat len) (Some a) buffer 0 0)
    as ([r b] & -> & H1 & H2 & H3); [lia..|].
  exists (Z.of_nat r), b. simpl in *. split_and!; done || lia.
Qed.

Lemma dirent_filter_total_witness :
  exists r b, rps_gpu_filter_dirent64_buffer (cs "0123456789abcdefXY!") 19 (Some (sample_allowed "b")) =
    Some (r, b) /\
  0 <= r < 19 + 65536 /\ length b = 19%nat /\ drop 19 b = [].
Proof. apply (dirent_filter_total (cs "0123456789abcdefXY!") 19 (Some (sample_allowed "b"))). vm_compute. split; discriminate. Defined.

(** The record length is read again after the [memmove] that may have
    overwritten it: a short hidden entry followed by an allowed one that is
    more than 16 bytes longer makes the filter return more than it was given. *)
Example dirent_filter_overrun :
  let listing := encode_dirents (map sample_dirent ["a"; "zzzzzzzzzzzzzzzzzzzzzzzzzzzzzzz"]%string) in
  length listing = 80%nat /\
  fst <$> rps_gpu_filter_dirent64_buffer listing 80 (Some (sample_allowed "zzzzzzzzzzzzzzzzzzzzzzzzzzzzzzz"))
  = Some 31354.
Proof. vm_compute. split; reflexivity. Qed.

(** A malformed record makes the filter return the original length although
    entries in front of it have been moved: the listing then shows the allowed
    entry twice. *)
Example dirent_filter_malformed :
  let listing := encode_dirents (map sample_dirent ["0000:01:00.0"; "0000:02:00.0"]%string) ++
                 replicate 24 NUL in
  rps_gpu_filter_dirent64_buffer listing 88 (Some (sample_allowed "0000:02:00.0")) =
  Some (88, encode_dirents (map sample_dirent ["0000:02:00.0"; "0000:02:00.0"]%string) ++ replicate 24 NUL).
Proof. vm_compute. reflexivity. Qed.

(** ** Properties: detection at start-up *)

(** C11: the GPUs allowed at start-up are the mounted ones.  With "/dev" and
    the procfs directory listing the given names (over any number of
    getdents64 calls) and information files read in pieces of any size, a bus
    id is allowed exactly when one of the first 32 GPUs whose "information"
    file parses has that bus id and a device minor among the first 32
    nvidia<minor> names of "/dev". *)
Theorem runtime_init_exact (open_dir : cstr -> option (list dents)) (open_file : cstr -> option stream)
    (sys_read : nat -> stream -> option (list ascii * stream))
    (dev_reads gpu_reads : list dents) (dev gpus : list cstr) (bus : cstr) :
  reads_ok sys_read ->
  open_dir (cs "/dev") = Some dev_reads -> dir_names dev_reads dev ->
  open_dir (cs "/proc/driver/nvidia/gpus") = Some gpu_reads -> dir_names gpu_reads gpus ->
  let minors := take RPS_GPU_MAX_GPUS (omap (fun n => rps_gpu_name_is_nvidia_minor (Some n)) dev) in
  let infos := take RPS_GPU_MAX_GPUS (omap (gpu_report open_file) gpus) in
  let '(ok, a) := rps_gpu_proc_filter_runtime_init open_dir open_file sys_read None in
  al_valid a = ok /\
  (rps_gpu_allowed_contains_bus (Some a) (Some bus) = true <->
   exists g, g ∈ infos /\ gi_bus_id g = bus /\ gi_device_minor g ∈ minors).
Proof.
  intros Hread Hdev Hdn Hgpu Hgn minors infos. unfold rps_gpu_proc_filter_runtime_init.
  rewrite (collect_minors_spec open_dir _ _ Hdev Hdn), (collect_infos_spec _ _ _ Hread _ _ Hgpu Hgn).
  fold minors infos. rewrite build_allowed_eq. split; [done|].
  rewrite contains_bus_spec by done. cbn [al_valid al_gpus].
  assert (length (List.filter (gpu_is_allowed minors None) infos) <= RPS_GPU_MAX_GPUS)%nat as Hlen.
  { etrans; [apply List.filter_length_le|]. unfold infos. rewrite length_take. lia. }
  rewrite (take_ge (List.filter _ _)) by done.
  assert (forall g, g ∈ infos -> gi_present g = true /\ gi_bus_id g <> []) as Hpres.
  { intros g Hg. apply elem_of_take in Hg as (i & Hi & _).
    apply list_elem_of_lookup_2, list_elem_of_omap in Hi as (n & _ & Hn). by eapply gpu_report_present. }
  assert (forall g, g ∈ List.filter (gpu_is_allowed minors None) infos <->
                    g ∈ infos /\ gi_device_minor g ∈ minors) as Hfil.
  { intros g. rewrite !list_elem_of_In, List.filter_In, <-!list_elem_of_In. unfold gpu_is_allowed.
    split; (intros [Hg H]; split; [done|]); rewrite (proj1 (Hpres g Hg)) in *; cbn [negb] in *.
    - destruct (rps_gpu_minor_is_mounted _ minors) eqn:E; [|done].
      apply existsb_elem in E as (m & Hm & He). apply Z.eqb_eq in He. by subst m.
    - assert (rps_gpu_minor_is_mounted (gi_device_minor g) minors = true) as ->; [|done].
      apply existsb_elem. exists (gi_device_minor g). split; [done|apply Z.eqb_refl]. }
  split.
  - intros (_ & _ & g & Hg & He). apply Hfil in Hg as [? ?]. by exists g.
  - intros (g & Hg & He & Hm). assert (g ∈ List.filter (gpu_is_allowed minors None) infos) as Hin by by apply Hfil.
    split_and!; [|subst bus; by apply Hpres|by exists g].
    destruct (List.filter _ _); [by apply elem_of_nil in Hin|done].
Qed.

(** A container with two GPUs in procfs and one of them mounted; the kernel
    delivers one byte per read call. *)
Definition sample_dir (p : cstr) : option (list dents) :=
  let listing l := let b := encode_dirents (map sample_dirent l) in Some [(length b, b)] in
  if streq p (cs "/dev") then listing ["."; "null"; "nvidiactl"; "nvidia1"]%string
  else if streq p (cs "/proc/driver/nvidia/gpus") then listing ["."; ".."; "b0"; "b1"]%string
  else None.
Definition sample_open (p : cstr) : option stream :=
  if streq p (cs "/proc/driver/nvidia/gpus/b0/information") then
    Some (Stream (cs "Device Minor: 0") false)
  else if streq p (cs "/proc/driver/nvidia/gpus/b1/information") then
    Some (Stream (cs "Device Minor: 1") false)
  else None.
Definition sample_read (n : nat) (fp : stream) : option (list ascii * stream) :=
  Some (take (min n 1) (st_data fp), Stream (drop (min n 1) (st_data fp)) (st_err fp)).

Lemma sample_dir_names (l : list string) :
  forallb (fun s => (length (cs s) <? 256)%nat && bool_decide (NUL ∉ cs s)) l = true ->
  let b := encode_dirents (map sample_dirent l) in dir_names [(length b, b)] (map cs l).
Proof.
  intros H b. assert (l = [] \/ map sample_dirent l <> []) as [->|Hl] by (destruct l; auto).
  { exists [], [], [(O, [])]. split_and!; [done|constructor|constructor| |done]. right. by exists [], []. }
  exists [map sample_dirent l], [(length b, b)], [].
  split_and!; [done| |by repeat constructor|by left|].
  - constructor; [|constructor]. exists []. simpl. rewrite app_nil_r. split_and!; [done|done|].
    apply Forall_fmap, Forall_forall. intros s Hs. apply list_elem_of_In in Hs.
    rewrite forallb_forall in H. specialize (H s Hs). to_prop. unfold dirent_wf, dirent_size, compose.
    cbn [de_head de_name de_pad sample_dirent]. rewrite !length_replicate. split_and!; [done|done|].
    pose proof (Nat.mod_upper_bound (8 - (header_size + length (cs s) + 1) mod 8) 8 ltac:(lia)).
    unfold header_size in *. lia.
  - simpl. by rewrite app_nil_r, map_map.
Qed.

Lemma runtime_init_exact_witness :
  let '(ok, a) := rps_gpu_proc_filter_runtime_init sample_dir sample_open sample_read None in
  al_valid a = ok /\
  (rps_gpu_allowed_contains_bus (Some a) (Some (cs "b1")) = true <->
   exists g, g ∈ [GpuInfo true 0 (cs "b0") []; GpuInfo true 1 (cs "b1") []] /\ gi_bus_id g = cs "b1" /\
     gi_device_minor g ∈ [1]).
Proof.
  apply (runtime_init_exact sample_dir sample_open sample_read
    (default [] (sample_dir (cs "/dev"))) (default [] (sample_dir (cs "/proc/driver/nvidia/gpus")))
    (map cs ["."; "null"; "nvidiactl"; "nvidia1"]%string) (map cs ["."; ".."; "b0"; "b1"]%string) (cs "b1")).
  - intros n fp. eexists _, _. split; [reflexivity|]. simpl. rewrite take_drop, length_take.
    split_and!; [done|lia|]. destruct n as [|n]; [by left|]. right.
    destruct (st_data fp); [done|]. by rewrite Nat.min_r in H by lia.
  - reflexivity.
  - by apply sample_dir_names.
  - reflexivity.
  - by apply sample_dir_names.
Defined.
