(* ===== verification/FdTracker.v ===== *)
(** GPU descriptors ([gpu/fd_tracker.c]): the classification of the paths a
    process opens, and the linked list that remembers it per descriptor. *)

From S2P Require Import Prelude CString Segments ProcFilter FdTable.

#[local] Open Scope Z_scope.

Definition RPS_GPU_PATH_MAX : nat := 256.
Definition RPS_GPU_BUS_ID_MAX : nat := 32.

Inductive rps_gpu_fd_kind :=
| RPS_GPU_FD_OTHER
| RPS_GPU_FD_NVIDIA_CTL
| RPS_GPU_FD_NVIDIA_DEVICE
| RPS_GPU_FD_NVIDIA_UVM
| RPS_GPU_FD_PROC_GPUS_DIR
| RPS_GPU_FD_PROC_GPU_BUS_DIR
| RPS_GPU_FD_PROC_GPU_INFO.

#[export] Instance rps_gpu_fd_kind_eq_dec : EqDecision rps_gpu_fd_kind.
Proof. solve_decision. Defined.

Record rps_gpu_fd_record := FdRecord {
  fr_kind : rps_gpu_fd_kind;
  fr_device_minor : Z;
  fr_path : cstr;
  fr_bus_id : cstr
}.

(** ** Classification *)

(** [dst] holds at most [dst_size - 1] characters ([dst_size] is not 0). *)
Definition rps_gpu_copy_string (dst_size : nat) (src : option cstr) : cstr :=
  match src with
  | None => []
  | Some src =>
      let copy_len := length src in
      let copy_len := if (dst_size <=? copy_len)%nat then (dst_size - 1)%nat else copy_len in
      take copy_len src
  end.

Definition rps_gpu_copy_slice (dst_size : nat) (src : option cstr) (len : nat) : cstr :=
  match src with
  | None => []
  | Some src =>
      let copy_len := if (dst_size <=? len)%nat then (dst_size - 1)%nat else len in
      take copy_len src
  end.

Definition rps_gpu_parse_nvidia_minor (path : cstr) : option Z :=
  let prefix := cs "/dev/nvidia" in
  if negb (has_prefix prefix path) then None
  else parse_minor_suffix (drop (length prefix) path).

(** The result and [*record] afterwards. *)
Definition rps_gpu_classify_proc_gpu_path (path : cstr) (record : rps_gpu_fd_record)
    : bool * rps_gpu_fd_record :=
  match rps_gpu_proc_normalize_path (Some path) RPS_GPU_PROC_PATH_MAX with
  | None => (false, record)
  | Some normalized =>
      let copy := rps_gpu_copy_string RPS_GPU_PATH_MAX (Some normalized) in
      if streq normalized gpus_base then
        (true, FdRecord RPS_GPU_FD_PROC_GPUS_DIR (fr_device_minor record) copy (fr_bus_id record))
      else match gpus_rest normalized with
           | None => (false, record)
           | Some (rest, slash, bus_len) =>
               if (bus_len =? 0)%nat || (RPS_GPU_BUS_ID_MAX <=? bus_len)%nat then (false, record)
               else
                 let bus := rps_gpu_copy_slice RPS_GPU_BUS_ID_MAX (Some rest) bus_len in
                 match slash with
                 | None => (true, FdRecord RPS_GPU_FD_PROC_GPU_BUS_DIR (fr_device_minor record) copy bus)
                 | Some r =>
                     if streq (tail r) info_name then
                       (true, FdRecord RPS_GPU_FD_PROC_GPU_INFO (fr_device_minor record) copy bus)
                     else (false, record)
                 end
           end
  end.

(** [record] is not NULL. *)
Definition rps_gpu_classify_path (path : option cstr) : bool * rps_gpu_fd_record :=
  let copy := rps_gpu_copy_string RPS_GPU_PATH_MAX path in
  let record := FdRecord RPS_GPU_FD_OTHER (-1) copy [] in
  match path with
  | None => (false, record)
  | Some path =>
      if streq path (cs "/dev/nvidiactl") then
        (true, FdRecord RPS_GPU_FD_NVIDIA_CTL (-1) copy [])
      else if streq path (cs "/dev/nvidia-uvm") then
        (true, FdRecord RPS_GPU_FD_NVIDIA_UVM (-1) copy [])
      else match rps_gpu_parse_nvidia_minor path with
           | Some minor => (true, FdRecord RPS_GPU_FD_NVIDIA_DEVICE minor copy [])
           | None => rps_gpu_classify_proc_gpu_path path record
           end
  end.

(** ** The list of descriptors *)

(** The nodes from [g_fd_map_head] on.  The calls of [pthread_mutex_lock] are
    not checked by the source; [malloc_ok] says whether [malloc] succeeds. *)
Abbreviation gpu_nodes := (list (Z * rps_gpu_fd_record)).

Definition node_is (fd : Z) (node : Z * rps_gpu_fd_record) : bool := node.1 =? fd.

Definition rps_gpu_fd_map_clear (nodes : gpu_nodes) : gpu_nodes := [].

Definition rps_gpu_fd_map_set (malloc_ok : bool) (fd : Z) (record : option rps_gpu_fd_record)
    (nodes : gpu_nodes) : gpu_nodes :=
  match record with
  | None => nodes
  | Some record =>
      if fd <? 0 then nodes
      else match find_index (node_is fd) nodes with
           | Some i => <[i := (fd, record)]> nodes
           | None => if malloc_ok then (fd, record) :: nodes else nodes
           end
  end.

(** [None] is the result 0; [record] is not NULL. *)
Definition rps_gpu_fd_map_get (fd : Z) (nodes : gpu_nodes) : option rps_gpu_fd_record :=
  if fd <? 0 then None
  else i ← find_index (node_is fd) nodes; snd <$> nodes !! i.

Definition rps_gpu_fd_map_remove (fd : Z) (nodes : gpu_nodes) : gpu_nodes :=
  if fd <? 0 then nodes
  else match find_index (node_is fd) nodes with
       | Some i => delete i nodes
       | None => nodes
       end.

(** The scan of [rps_gpu_fd_map_copy] does not stop at the first match. *)
Fixpoint last_index (fd : Z) (nodes : gpu_nodes) : option nat :=
  match nodes with
  | [] => None
  | node :: nodes' =>
      match last_index fd nodes' with
      | Some i => Some (S i)
      | None => if node_is fd node then Some 0%nat else None
      end
  end.

Definition rps_gpu_fd_map_copy (malloc_ok : bool) (oldfd newfd : Z) (nodes : gpu_nodes) : gpu_nodes :=
  if (oldfd <? 0) || (newfd <? 0) then nodes
  else
    let new_node := last_index newfd nodes in
    match (i ← last_index oldfd nodes; nodes !! i) with
    | Some (_, record) =>
        match new_node with
        | None => if malloc_ok then (newfd, record) :: nodes else nodes
        | Some j => <[j := (newfd, record)]> nodes
        end
    | None =>
        match new_node with
        | None => nodes
        | Some j => delete j nodes
        end
    end.

(** ** Invariant, abstraction and specification *)

Record nodes_wf (nodes : gpu_nodes) : Prop := {
  nwf_nodup : NoDup nodes.*1;
  nwf_range : Forall (fun fd => 0 <= fd) nodes.*1
}.

Definition gpu_view (nodes : gpu_nodes) : gmap Z rps_gpu_fd_record := list_to_map nodes.

(** Storing a new descriptor needs memory; replacing one does not. *)
Definition spec_set (malloc_ok : bool) (fd : Z) (record : rps_gpu_fd_record)
    (m : gmap Z rps_gpu_fd_record) : gmap Z rps_gpu_fd_record :=
  if malloc_ok || bool_decide (is_Some (m !! fd)) then <[fd := record]> m else m.

Definition spec_copy (malloc_ok : bool) (oldfd newfd : Z) (m : gmap Z rps_gpu_fd_record)
    : gmap Z rps_gpu_fd_record :=
  match m !! oldfd with
  | Some record => spec_set malloc_ok newfd record m
  | None => delete newfd m
  end.

(** ** Lemmas: the list as a map *)

Lemma node_is_spec (fd : Z) (node : Z * rps_gpu_fd_record) : node_is fd node = true <-> node.1 = fd.
Proof. apply Z.eqb_eq. Qed.

Lemma gpu_view_split (l1 l2 : gpu_nodes) (fd : Z) (r : rps_gpu_fd_record) :
  NoDup (l1 ++ (fd, r) :: l2).*1 ->
  gpu_view (l1 ++ (fd, r) :: l2) = <[fd := r]> (gpu_view (l1 ++ l2)) /\ gpu_view (l1 ++ l2) !! fd = None.
Proof.
  intros Hnd. rewrite fmap_app, fmap_cons, <-Permutation_middle in Hnd.
  apply NoDup_cons in Hnd as [Hni Hnd]. rewrite <-fmap_app in *. unfold gpu_view. split.
  - change (<[fd:=r]> (list_to_map (l1 ++ l2))) with
      (list_to_map ((fd, r) :: l1 ++ l2) : gmap Z rps_gpu_fd_record).
    apply list_to_map_proper; [|by rewrite Permutation_middle].
    rewrite fmap_app, fmap_cons, <-Permutation_middle. apply NoDup_cons. by rewrite <-fmap_app.
  - by apply not_elem_of_list_to_map_1.
Qed.

Lemma node_found (nodes : gpu_nodes) (fd : Z) (i : nat) :
  nodes_wf nodes -> find_index (node_is fd) nodes = Some i ->
  exists l1 r l2, nodes = l1 ++ (fd, r) :: l2 /\ length l1 = i /\
    gpu_view nodes = <[fd := r]> (gpu_view (l1 ++ l2)) /\ gpu_view (l1 ++ l2) !! fd = None /\
    nodes_wf (l1 ++ l2).
Proof.
  intros [Hnd Hr] Hi. apply find_index_split in Hi as (l1 & [fd' r] & l2 & -> & Hl & He & _).
  apply node_is_spec in He. simpl in He. subst fd'. exists l1, r, l2.
  destruct (gpu_view_split l1 l2 fd r Hnd) as [Hv Hn]. split_and!; try done.
  rewrite fmap_app, fmap_cons in *. split.
  - rewrite <-Permutation_middle in Hnd. apply NoDup_cons in Hnd as [_ ?]. by rewrite fmap_app.
  - rewrite fmap_app. rewrite Forall_app, Forall_cons in *. naive_solver.
Qed.

Lemma node_not_found (nodes : gpu_nodes) (fd : Z) :
  find_index (node_is fd) nodes = None -> (fd ∉ nodes.*1) /\ gpu_view nodes !! fd = None.
Proof.
  intros Hi. assert (fd ∉ nodes.*1) as Hni.
  { intros Hin. apply list_elem_of_fmap in Hin as ([fd' r] & -> & Hin).
    apply (find_index_None _ _ _ Hi) in Hin. unfold node_is in Hin. by rewrite Z.eqb_refl in Hin. }
  split; [done|]. by apply not_elem_of_list_to_map_1.
Qed.

Lemma last_index_find (fd : Z) (nodes : gpu_nodes) :
  NoDup nodes.*1 -> last_index fd nodes = find_index (node_is fd) nodes.
Proof.
  induction nodes as [|[fd' r] nodes IH]; [done|]. rewrite fmap_cons. intros Hnd.
  apply NoDup_cons in Hnd as [Hni Hnd]. cbn [last_index find_index]. rewrite (IH Hnd).
  destruct (node_is fd (fd', r)) eqn:E; [|by destruct (find_index _ nodes)].
  apply node_is_spec in E. simpl in E, Hni. subst fd'.
  destruct (find_index (node_is fd) nodes) as [i|] eqn:Ei; [|done]. exfalso. apply Hni.
  apply find_index_Some in Ei as (n & Hn & En). apply node_is_spec in En. subst fd.
  apply list_elem_of_fmap. exists n. split; [done|]. by eapply list_elem_of_lookup_2.
Qed.

Lemma delete_middle {A : Type} (l1 l2 : list A) (x : A) (i : nat) :
  length l1 = i -> delete i (l1 ++ x :: l2) = l1 ++ l2.
Proof. intros <-. apply delete_middle. Qed.

Lemma nodes_wf_cons (fd : Z) (r : rps_gpu_fd_record) (nodes : gpu_nodes) :
  nodes_wf nodes -> 0 <= fd -> fd ∉ nodes.*1 -> nodes_wf ((fd, r) :: nodes).
Proof. intros [Hnd Hr] Hfd Hni. split; rewrite fmap_cons; by constructor. Qed.

Lemma nodes_wf_middle (l1 l2 : gpu_nodes) (fd : Z) (r r' : rps_gpu_fd_record) :
  nodes_wf (l1 ++ (fd, r) :: l2) -> nodes_wf (l1 ++ (fd, r') :: l2).
Proof. intros [Hnd Hr]. split; rewrite fmap_app, fmap_cons in *; done. Qed.

(** Writing [record] at [fd]: in place when it is there, at the head otherwise. *)
Lemma store_refines (malloc_ok : bool) (fd : Z) (record : rps_gpu_fd_record) (nodes : gpu_nodes) :
  nodes_wf nodes -> 0 <= fd ->
  let nodes' := match find_index (node_is fd) nodes with
                | Some i => <[i := (fd, record)]> nodes
                | None => if malloc_ok then (fd, record) :: nodes else nodes
                end in
  nodes_wf nodes' /\ gpu_view nodes' = spec_set malloc_ok fd record (gpu_view nodes).
Proof.
  intros Hwf Hfd. simpl. unfold spec_set. destruct (find_index (node_is fd) nodes) as [i|] eqn:E.
  - destruct (node_found nodes fd i Hwf E) as (l1 & r & l2 & -> & Hi & Hv & Hn & _).
    rewrite insert_middle by done. pose proof (nodes_wf_middle _ _ _ _ record Hwf) as Hwf'.
    split; [done|]. destruct (gpu_view_split l1 l2 fd record (nwf_nodup _ Hwf')) as [-> _].
    rewrite Hv, lookup_insert_eq, bool_decide_eq_true_2, orb_true_r by eauto.
    by rewrite insert_insert_eq.
  - apply node_not_found in E as [Hni Hn].
    rewrite Hn, (bool_decide_eq_false_2 (is_Some None)), orb_false_r by by intros [? ?].
    destruct malloc_ok; [|done]. split; [by apply nodes_wf_cons|done].
Qed.

Lemma unlink_refines (fd : Z) (nodes : gpu_nodes) :
  nodes_wf nodes ->
  let nodes' := match find_index (node_is fd) nodes with
                | Some i => delete i nodes
                | None => nodes
                end in
  nodes_wf nodes' /\ gpu_view nodes' = delete fd (gpu_view nodes).
Proof.
  intros Hwf. simpl. destruct (find_index (node_is fd) nodes) as [i|] eqn:E.
  - destruct (node_found nodes fd i Hwf E) as (l1 & r & l2 & -> & Hi & Hv & Hn & Hwf').
    rewrite delete_middle by done. split; [done|]. by rewrite Hv, delete_insert_id.
  - apply node_not_found in E as [_ Hn]. by rewrite delete_id.
Qed.

Lemma negative_untracked (fd : Z) (nodes : gpu_nodes) :
  nodes_wf nodes -> fd < 0 -> gpu_view nodes !! fd = None.
Proof.
  intros [_ Hr] Hfd. apply not_elem_of_list_to_map_1. intros Hin.
  rewrite Forall_forall in Hr. specialize (Hr fd Hin). simpl in Hr. lia.
Qed.

(** ** Lemmas: each operation against its specification *)

Lemma gpu_set_refines (malloc_ok : bool) (fd : Z) (record : rps_gpu_fd_record) (nodes : gpu_nodes) :
  nodes_wf nodes ->
  nodes_wf (rps_gpu_fd_map_set malloc_ok fd (Some record) nodes) /\
  gpu_view (rps_gpu_fd_map_set malloc_ok fd (Some record) nodes) =
  if fd <? 0 then gpu_view nodes else spec_set malloc_ok fd record (gpu_view nodes).
Proof.
  intros Hwf. unfold rps_gpu_fd_map_set. destruct (Z.ltb_spec fd 0); [done|]. by apply store_refines.
Qed.

Lemma gpu_get_refines (fd : Z) (nodes : gpu_nodes) :
  nodes_wf nodes -> rps_gpu_fd_map_get fd nodes = gpu_view nodes !! fd.
Proof.
  intros Hwf. unfold rps_gpu_fd_map_get.
  destruct (Z.ltb_spec fd 0); [by rewrite negative_untracked|].
  destruct (find_index (node_is fd) nodes) as [i|] eqn:E; cbn [mbind option_bind].
  - destruct (node_found nodes fd i Hwf E) as (l1 & r & l2 & -> & Hi & -> & _).
    by rewrite lookup_middle, lookup_insert_eq by done.
  - by apply node_not_found in E as [_ ->].
Qed.

Lemma gpu_remove_refines (fd : Z) (nodes : gpu_nodes) :
  nodes_wf nodes ->
  nodes_wf (rps_gpu_fd_map_remove fd nodes) /\
  gpu_view (rps_gpu_fd_map_remove fd nodes) = delete fd (gpu_view nodes).
Proof.
  intros Hwf. unfold rps_gpu_fd_map_remove.
  destruct (Z.ltb_spec fd 0); [|by apply unlink_refines].
  split; [done|]. by rewrite delete_id by by apply negative_untracked.
Qed.

Lemma gpu_copy_refines (malloc_ok : bool) (oldfd newfd : Z) (nodes : gpu_nodes) :
  nodes_wf nodes ->
  nodes_wf (rps_gpu_fd_map_copy malloc_ok oldfd newfd nodes) /\
  gpu_view (rps_gpu_fd_map_copy malloc_ok oldfd newfd nodes) =
  if (oldfd <? 0) || (newfd <? 0) then gpu_view nodes
  else spec_copy malloc_ok oldfd newfd (gpu_view nodes).
Proof.
  intros Hwf. unfold rps_gpu_fd_map_copy.
  destruct (Z.ltb_spec oldfd 0); [done|]. destruct (Z.ltb_spec newfd 0); [done|]. cbn [orb].
  rewrite !last_index_find by apply Hwf. unfold spec_copy.
  destruct (find_index (node_is oldfd) nodes) as [i|] eqn:E; cbn [mbind option_bind].
  - destruct (node_found nodes oldfd i Hwf E) as (l1 & r & l2 & -> & Hi & Hv & _).
    rewrite lookup_middle, Hv, lookup_insert_eq, <-Hv by done.
    pose proof (store_refines malloc_ok newfd r (l1 ++ (oldfd, r) :: l2) Hwf) as Hs. simpl in Hs.
    by destruct (find_index (node_is newfd) _); apply Hs.
  - destruct (node_not_found nodes oldfd E) as [_ ->]. by apply unlink_refines.
Qed.

Lemma nodes_wf_nil : nodes_wf [].
Proof. split; constructor. Qed.

#[export] Instance gpu_fd_table : FdTable gpu_nodes rps_gpu_fd_record := {|
  ft_wf := nodes_wf;
  ft_view := gpu_view;
  ft_remove := rps_gpu_fd_map_remove;
  ft_remove_wf fd t Hwf := proj1 (gpu_remove_refines fd t Hwf);
  ft_remove_view fd t Hwf := proj2 (gpu_remove_refines fd t Hwf)
|}.

(** ** Traces *)

Inductive gpu_op :=
| GpuClear
| GpuSet (malloc_ok : bool) (fd : Z) (record : rps_gpu_fd_record)
| GpuGet (fd : Z)
| GpuRemove (fd : Z)
| GpuCopy (malloc_ok : bool) (oldfd newfd : Z).

(** The result is that of a get. *)
Definition gpu_exec (op : gpu_op) (nodes : gpu_nodes) : option rps_gpu_fd_record * gpu_nodes :=
  match op with
  | GpuClear => (None, rps_gpu_fd_map_clear nodes)
  | GpuSet ok fd r => (None, rps_gpu_fd_map_set ok fd (Some r) nodes)
  | GpuGet fd => (rps_gpu_fd_map_get fd nodes, nodes)
  | GpuRemove fd => (None, rps_gpu_fd_map_remove fd nodes)
  | GpuCopy ok o n => (None, rps_gpu_fd_map_copy ok o n nodes)
  end.

Definition gpu_spec_exec (op : gpu_op) (m : gmap Z rps_gpu_fd_record)
    : option rps_gpu_fd_record * gmap Z rps_gpu_fd_record :=
  match op with
  | GpuClear => (None, ∅)
  | GpuSet ok fd r => (None, if fd <? 0 then m else spec_set ok fd r m)
  | GpuGet fd => (m !! fd, m)
  | GpuRemove fd => (None, delete fd m)
  | GpuCopy ok o n => (None, if (o <? 0) || (n <? 0) then m else spec_copy ok o n m)
  end.

Fixpoint gpu_run {S R : Type} (step : gpu_op -> S -> R * S) (ops : list gpu_op) (s : S) : list R * S :=
  match ops with
  | [] => ([], s)
  | op :: ops' => let '(r, s1) := step op s in let '(rs, s2) := gpu_run step ops' s1 in (r :: rs, s2)
  end.

Lemma gpu_exec_refines (op : gpu_op) (nodes : gpu_nodes) :
  nodes_wf nodes ->
  nodes_wf (gpu_exec op nodes).2 /\
  gpu_spec_exec op (gpu_view nodes) = ((gpu_exec op nodes).1, gpu_view (gpu_exec op nodes).2).
Proof.
  intros Hwf. destruct op as [|ok fd r|fd|fd|ok o n]; cbn [gpu_exec gpu_spec_exec fst snd].
  - split; [apply nodes_wf_nil|done].
  - destruct (gpu_set_refines ok fd r nodes Hwf) as [? ->]. done.
  - by rewrite gpu_get_refines.
  - destruct (gpu_remove_refines fd nodes Hwf) as [? ->]. done.
  - destruct (gpu_copy_refines ok o n nodes Hwf) as [? ->]. done.
Qed.

(** ** Lemmas: classification *)

(** What a procfs path denotes, by its resolved segments: the base directory,
    the directory of a GPU or its "information" file. *)
Definition gpu_segments_kind (segs : list cstr) : option (rps_gpu_fd_kind * cstr) :=
  match strip_prefix base_segs segs with
  | Some [] => Some (RPS_GPU_FD_PROC_GPUS_DIR, [])
  | Some [bus] =>
      if (length bus <? RPS_GPU_BUS_ID_MAX)%nat then Some (RPS_GPU_FD_PROC_GPU_BUS_DIR, bus) else None
  | Some [bus; file] =>
      if streq file info_name && (length bus <? RPS_GPU_BUS_ID_MAX)%nat
      then Some (RPS_GPU_FD_PROC_GPU_INFO, bus) else None
  | _ => None
  end.

Lemma copy_string_take (size : nat) (s : cstr) :
  rps_gpu_copy_string size (Some s) = take (size - 1) s.
Proof.
  unfold rps_gpu_copy_string. destruct (Nat.leb_spec size (length s)); [done|].
  by rewrite !take_ge by lia.
Qed.

Lemma copy_string_fits (size : nat) (s : cstr) :
  (length s < size)%nat -> rps_gpu_copy_string size (Some s) = s.
Proof.
  intros H. unfold rps_gpu_copy_string. rewrite (proj2 (Nat.leb_gt size (length s))) by done.
  apply firstn_all.
Qed.

Lemma copy_slice_fits (size : nat) (s r : cstr) :
  (length s < size)%nat -> rps_gpu_copy_slice size (Some (s ++ r)) (length s) = s.
Proof.
  intros H. unfold rps_gpu_copy_slice. rewrite (proj2 (Nat.leb_gt size (length s))) by done.
  apply take_length_app.
Qed.

Lemma streq_base (segs : list cstr) :
  canonical_segments segs -> streq (render_root segs) gpus_base = bool_decide (segs = base_segs).
Proof.
  intros Hc. apply eq_true_iff_eq. rewrite streq_spec, bool_decide_eq_true. split; [|by intros ->].
  intros H. rewrite <-(tokens_render_root segs) by apply Hc. by rewrite H.
Qed.

Lemma classify_proc_eq (path : cstr) (record : rps_gpu_fd_record) :
  rps_gpu_classify_proc_gpu_path path record =
  match (segs ← path_segments path; k ← gpu_segments_kind segs; Some (segs, k)) with
  | Some (segs, (kind, bus)) =>
      (true, FdRecord kind (fr_device_minor record) (render_root segs)
               (if decide (kind = RPS_GPU_FD_PROC_GPUS_DIR) then fr_bus_id record else bus))
  | None => (false, record)
  end.
Proof.
  unfold rps_gpu_classify_proc_gpu_path. rewrite path_segments_normalize.
  destruct (path_segments path) as [segs|] eqn:E; [|done]. cbn [fmap option_fmap option_map mbind option_bind].
  apply path_segments_canonical in E as [Hc Hl]. rewrite copy_string_fits, streq_base by done.
  pose proof Hc as [Hplain _]. unfold gpu_segments_kind.
  destruct (bool_decide (segs = base_segs)) eqn:Hb; to_prop.
  { subst segs. reflexivity. }
  rewrite gpus_rest_spec by done.
  destruct (strip_prefix base_segs segs) as [[|bus more]|] eqn:Es; [|..|done].
  { apply strip_prefix_Some in Es. by rewrite app_nil_r in Es. }
  apply strip_prefix_Some in Es as ->.
  apply Forall_app in Hplain as [_ Hplain]. pose proof (plain_tokens _ Hplain) as Htok.
  apply Forall_cons in Htok as [[Hne _] Htok].
  assert (length bus <> 0)%nat as Hlen by by destruct bus.
  rewrite (proj2 (Nat.eqb_neq (length bus) 0)) by done. cbn [orb].
  destruct (Nat.leb_spec RPS_GPU_BUS_ID_MAX (length bus)) as [Hs|Hs].
  - rewrite (proj2 (Nat.ltb_ge (length bus) RPS_GPU_BUS_ID_MAX)) by done.
    destruct more as [|m [|]]; [done| |done]. by rewrite andb_false_r.
  - rewrite (proj2 (Nat.ltb_lt (length bus) RPS_GPU_BUS_ID_MAX)) by done.
    rewrite copy_slice_fits by done. destruct more as [|m more]; [done|].
    rewrite tail_render_info by done. destruct more as [|m2 more].
    + rewrite andb_true_r. unfold streq.
      rewrite (bool_decide_ext ([m] = [info_name]) (m = info_name)) by naive_solver.
      by destruct (bool_decide (m = info_name)).
    + by rewrite bool_decide_eq_false_2.
Qed.

(** A device path resolves to two segments below "/dev". *)
Lemma dev_path_segments (name : cstr) (segs : list cstr) :
  is_token SLASH name -> name <> cs "." -> name <> cs ".." ->
  path_segments (cs "/dev/" ++ name) = Some segs -> segs = [cs "dev"; name].
Proof.
  intros Ht H1 H2. assert (cs "/dev/" ++ name = render [cs "dev"; name]) as ->.
  { rewrite !render_cons. unfold render. simpl. by rewrite app_nil_r. }
  assert (Forall plain_segment [cs "dev"; name]) as Hp.
  { apply Forall_cons. split; [|by apply Forall_singleton].
    split; [split; [done|by apply (bool_decide_unpack _)]|done]. }
  unfold path_segments. rewrite tokens_render by by apply plain_tokens.
  rewrite resolve_plain by (done || (simpl; unfold SEGMENTS_MAX; lia)).
  destruct (bool_decide _); [|done]. cbn [mbind option_bind app].
  destruct (_ <? _)%nat; [|done]. by intros [= <-].
Qed.

Lemma dev_path_not_gpu (name : cstr) (segs : list cstr) :
  (SLASH ∉ name) -> path_segments (cs "/dev/nvidia" ++ name) = Some segs -> gpu_path_bus segs = None.
Proof.
  intros Hn H. change (cs "/dev/nvidia" ++ name) with (cs "/dev/" ++ (cs "nvidia" ++ name)) in H.
  apply dev_path_segments in H as ->; [reflexivity| |done|done].
  split; [done|]. intros Hin. apply elem_of_app in Hin as [Hin|Hin]; [|done].
  revert Hin. by apply (bool_decide_unpack _).
Qed.

Lemma digits_no_slash (d : cstr) : all_digits d = true -> SLASH ∉ d.
Proof.
  intros Hd Hin. unfold all_digits in Hd. rewrite forallb_forall in Hd.
  apply list_elem_of_In in Hin. by specialize (Hd _ Hin).
Qed.

Lemma device_path_digits (path : cstr) (m : Z) :
  rps_gpu_parse_nvidia_minor path = Some m ->
  exists d, path = cs "/dev/nvidia" ++ d /\ (SLASH ∉ d) /\ m = dec d /\ m <= INT_MAX.
Proof.
  unfold rps_gpu_parse_nvidia_minor. rewrite minor_name_spec. intros (d & -> & _ & Hd & -> & Hm).
  exists d. split_and!; try done. by apply digits_no_slash.
Qed.

(** A GPU device: the prefix and a decimal minor number, at least one digit,
    that fits an int. *)
Definition device_path (path : cstr) (minor : Z) : Prop :=
  exists digits, path = cs "/dev/nvidia" ++ digits /\ digits <> [] /\ all_digits digits = true /\
    minor = dec digits /\ minor <= INT_MAX.

Lemma parse_nvidia_minor_spec (path : cstr) (minor : Z) :
  rps_gpu_parse_nvidia_minor path = Some minor <-> device_path path minor.
Proof. apply minor_name_spec. Qed.

(** The names of the control and UVM devices are no device paths. *)
Lemma device_path_named (path : cstr) (minor : Z) :
  device_path path minor -> path <> cs "/dev/nvidiactl" /\ path <> cs "/dev/nvidia-uvm".
Proof.
  intros (d & -> & _ & Hd & _). split; intros E.
  - change (cs "/dev/nvidiactl") with (cs "/dev/nvidia" ++ cs "ctl") in E. apply app_inv_head in E. by subst d.
  - change (cs "/dev/nvidia-uvm") with (cs "/dev/nvidia" ++ cs "-uvm") in E. apply app_inv_head in E. by subst d.
Qed.

Definition gpu_bus_kind (kind : rps_gpu_fd_kind) : bool :=
  bool_decide (kind = RPS_GPU_FD_PROC_GPU_BUS_DIR) || bool_decide (kind = RPS_GPU_FD_PROC_GPU_INFO).

Lemma gpu_path_bus_kind (segs : list cstr) (bus : cstr) :
  gpu_path_bus segs = Some bus <->
  exists kind, gpu_segments_kind segs = Some (kind, bus) /\ gpu_bus_kind kind = true.
Proof.
  unfold gpu_path_bus, gpu_segments_kind. change RPS_GPU_PROC_BUS_ID_MAX with RPS_GPU_BUS_ID_MAX.
  destruct (strip_prefix base_segs segs) as [[|b [|f [|]]]|];
    try (destruct (length b <? RPS_GPU_BUS_ID_MAX)%nat); try (destruct (streq f info_name)); cbn [andb];
    (split; [intros [= <-]; by eexists|by intros (k & [= <- <-] & ?)]) || (split; [done|naive_solver]).
Qed.

Lemma classify_bus_kind (path : cstr) (r : rps_gpu_fd_record) :
  rps_gpu_classify_path (Some path) = (true, r) -> gpu_bus_kind (fr_kind r) = true ->
  exists segs, path_segments path = Some segs /\ gpu_path_bus segs = Some (fr_bus_id r).
Proof.
  unfold rps_gpu_classify_path. destruct (streq path (cs "/dev/nvidiactl")); [by intros [= <-]|].
  destruct (streq path (cs "/dev/nvidia-uvm")); [by intros [= <-]|].
  destruct (rps_gpu_parse_nvidia_minor path); [by intros [= <-]|]. rewrite classify_proc_eq.
  destruct (path_segments path) as [segs|]; [|done]. cbn [mbind option_bind].
  destruct (gpu_segments_kind segs) as [[kind bus]|] eqn:Ek; [|done]. cbn [mbind option_bind].
  intros [= <-] Hk. cbn [fr_kind fr_bus_id] in *. exists segs. split; [done|].
  apply gpu_path_bus_kind. destruct (decide _) as [->|]; [done|]. by exists kind.
Qed.

Lemma bus_path_classified (path bus : cstr) (segs : list cstr) :
  path_segments path = Some segs -> gpu_path_bus segs = Some bus ->
  exists r, rps_gpu_classify_path (Some path) = (true, r) /\ gpu_bus_kind (fr_kind r) = true /\
    fr_bus_id r = bus.
Proof.
  intros Hs Hb. unfold rps_gpu_classify_path.
  destruct (streq path (cs "/dev/nvidiactl")) eqn:E1.
  { apply streq_spec in E1 as ->. change (cs "/dev/nvidiactl") with (cs "/dev/nvidia" ++ cs "ctl") in Hs.
    apply dev_path_not_gpu in Hs; [congruence|by apply (bool_decide_unpack _)]. }
  destruct (streq path (cs "/dev/nvidia-uvm")) eqn:E2.
  { apply streq_spec in E2 as ->. change (cs "/dev/nvidia-uvm") with (cs "/dev/nvidia" ++ cs "-uvm") in Hs.
    apply dev_path_not_gpu in Hs; [congruence|by apply (bool_decide_unpack _)]. }
  destruct (rps_gpu_parse_nvidia_minor path) as [m|] eqn:E3.
  { apply device_path_digits in E3 as (d & -> & Hd & _). apply dev_path_not_gpu in Hs; [congruence|done]. }
  rewrite classify_proc_eq, Hs. cbn [mbind option_bind].
  apply gpu_path_bus_kind in Hb as (kind & Hk & Hg). rewrite Hk. cbn [mbind option_bind].
  eexists. split; [done|]. cbn [fr_kind fr_bus_id]. split; [done|].
  destruct (decide _) as [->|]; [done|done].
Qed.

(** The base directory is recorded without a bus id. *)
Lemma base_kind_bus (segs : list cstr) (bus : cstr) :
  gpu_segments_kind segs = Some (RPS_GPU_FD_PROC_GPUS_DIR, bus) -> bus = [].
Proof.
  unfold gpu_segments_kind.
  destruct (strip_prefix base_segs segs) as [[|b [|f [|]]]|]; try done;
    [congruence|by destruct (_ <? _)%nat|by destruct (_ && _)].
Qed.

(** ** Properties *)

(** C12: the descriptor list refines a finite map.  From the empty list, every
    sequence of clear, set, get, remove and copy calls (allocations failing or
    not) gives the results the abstract map gives, ends in a list whose view
    is the abstract map, and keeps the list well formed: each descriptor in at
    most one node, none negative. *)
Theorem gpu_tracker_refines (ops : list gpu_op) :
  nodes_wf (gpu_run gpu_exec ops []).2 /\
  gpu_run gpu_spec_exec ops ∅ = ((gpu_run gpu_exec ops []).1, gpu_view (gpu_run gpu_exec ops []).2).
Proof.
  assert (forall nodes, nodes_wf nodes -> nodes_wf (gpu_run gpu_exec ops nodes).2 /\
    gpu_run gpu_spec_exec ops (gpu_view nodes) =
    ((gpu_run gpu_exec ops nodes).1, gpu_view (gpu_run gpu_exec ops nodes).2)) as H;
    [|apply (H []), nodes_wf_nil].
  induction ops as [|op ops IH]; intros nodes Hwf; [done|]. cbn [gpu_run].
  destruct (gpu_exec_refines op nodes Hwf) as [Hwf1 ->]. destruct (gpu_exec op nodes) as [r n1].
  cbn [fst snd] in *. destruct (IH n1 Hwf1) as [Hwf2 ->]. by destruct (gpu_run gpu_exec ops n1).
Qed.

(** C29: what an opened path is taken for.  The control and UVM devices are
    recognised by name, /dev/nvidia followed by one or more digits (a number
    that fits an int) is that GPU's device; a path that is none of these is
    classified by what it resolves to: the procfs base directory, the
    directory of a GPU or its "information" file, recorded with the normalized
    path and the bus id; everything else is not tracked. *)
Theorem classify_exact (path : cstr) :
  let raw := take 255 path in
  (path = cs "/dev/nvidiactl" ->
   rps_gpu_classify_path (Some path) = (true, FdRecord RPS_GPU_FD_NVIDIA_CTL (-1) raw [])) /\
  (path = cs "/dev/nvidia-uvm" ->
   rps_gpu_classify_path (Some path) = (true, FdRecord RPS_GPU_FD_NVIDIA_UVM (-1) raw [])) /\
  (forall minor, device_path path minor ->
   rps_gpu_classify_path (Some path) = (true, FdRecord RPS_GPU_FD_NVIDIA_DEVICE minor raw [])) /\
  (path <> cs "/dev/nvidiactl" -> path <> cs "/dev/nvidia-uvm" -> (forall minor, ~ device_path path minor) ->
   rps_gpu_classify_path (Some path) =
   match (segs ← path_segments path; k ← gpu_segments_kind segs; Some (segs, k)) with
   | Some (segs, (kind, bus)) => (true, FdRecord kind (-1) (render_root segs) bus)
   | None => (false, FdRecord RPS_GPU_FD_OTHER (-1) raw [])
   end).
Proof.
  intros raw. unfold rps_gpu_classify_path. rewrite copy_string_take.
  change (take (RPS_GPU_PATH_MAX - 1) path) with raw. split_and!.
  - by intros ->.
  - by intros ->.
  - intros minor Hd. destruct (device_path_named path minor Hd) as [Hc Hu].
    rewrite (proj2 (streq_neq path _) Hc), (proj2 (streq_neq path _) Hu).
    by rewrite (proj2 (parse_nvidia_minor_spec path minor) Hd).
  - intros Hc Hu Hd. rewrite (proj2 (streq_neq path _) Hc), (proj2 (streq_neq path _) Hu).
    destruct (rps_gpu_parse_nvidia_minor path) as [m|] eqn:E; [by apply parse_nvidia_minor_spec, Hd in E|].
    rewrite classify_proc_eq. destruct (path_segments path) as [segs|]; [|done]. cbn [mbind option_bind].
    destruct (gpu_segments_kind segs) as [[kind bus]|] eqn:E'; [|done]. cbn [mbind option_bind].
    cbn [fr_device_minor fr_bus_id]. destruct (decide _) as [->|]; [|done]. by rewrite (base_kind_bus segs bus E').
Qed.

(** A device, two names that are none (no digit; a digit and a letter), and
    the directory of a GPU. *)
Lemma classify_exact_witness :
  rps_gpu_classify_path (Some (cs "/dev/nvidia17")) =
    (true, FdRecord RPS_GPU_FD_NVIDIA_DEVICE 17 (cs "/dev/nvidia17") []) /\
  rps_gpu_classify_path (Some (cs "/dev/nvidia")) =
    (false, FdRecord RPS_GPU_FD_OTHER (-1) (cs "/dev/nvidia") []) /\
  rps_gpu_classify_path (Some (cs "/dev/nvidia1x")) =
    (false, FdRecord RPS_GPU_FD_OTHER (-1) (cs "/dev/nvidia1x") []) /\
  rps_gpu_classify_path (Some (cs "/proc//driver/nvidia/./gpus/b0")) =
    (true, FdRecord RPS_GPU_FD_PROC_GPU_BUS_DIR (-1) (cs "/proc/driver/nvidia/gpus/b0") (cs "b0")).
Proof.
  split_and!.
  - apply (classify_exact (cs "/dev/nvidia17")). exists (cs "17"). split_and!; [done|done|done|done|].
    vm_compute. discriminate.
  - apply (classify_exact (cs "/dev/nvidia")); [done|done|]. intros m (d & E & Hne & _).
    apply Hne. by apply (app_inv_head (cs "/dev/nvidia") d []).
  - apply (classify_exact (cs "/dev/nvidia1x")); [done|done|]. intros m (d & E & _ & Hd & _).
    assert (d = cs "1x") as -> by by apply (app_inv_head (cs "/dev/nvidia") d (cs "1x")).
    discriminate Hd.
  - apply (classify_exact (cs "/proc//driver/nvidia/./gpus/b0")); [done|done|]. by intros m (d & E & _).
Defined.

(** C30: the two readings of a path agree.  [proc_filter.c] denies a path
    exactly when [fd_tracker.c] would record it as the directory or the
    "information" file of a GPU whose bus id a valid allowed set lacks. *)
Theorem decision_matches_classification (a : rps_gpu_allowed_gpus) (path : cstr) :
  rps_gpu_proc_path_allowed (Some a) (Some path) = RPS_GPU_PROC_DENY <->
  al_valid a = true /\
  exists r, rps_gpu_classify_path (Some path) = (true, r) /\
    (fr_kind r = RPS_GPU_FD_PROC_GPU_BUS_DIR \/ fr_kind r = RPS_GPU_FD_PROC_GPU_INFO) /\
    rps_gpu_allowed_contains_bus (Some a) (Some (fr_bus_id r)) = false.
Proof.
  rewrite path_allowed_eq. setoid_rewrite <-(bool_decide_eq_true (_ = RPS_GPU_FD_PROC_GPU_BUS_DIR)).
  setoid_rewrite <-(bool_decide_eq_true (_ = RPS_GPU_FD_PROC_GPU_INFO)). setoid_rewrite <-orb_true_iff.
  split.
  - destruct (path_segments path) as [segs|] eqn:Es; [|done].
    destruct (bool_decide (segs = base_segs)); [done|].
    destruct (gpu_path_bus segs) as [bus|] eqn:Eb; [|done].
    destruct (al_valid a); [|done]. destruct (rps_gpu_allowed_contains_bus _ _) eqn:Ec; [done|].
    intros _. split; [done|]. destruct (bus_path_classified path bus segs Es Eb) as (r & Hr & Hk & Hb).
    exists r. split_and!; [done|exact Hk|]. by rewrite Hb.
  - intros [Hv (r & Hr & Hk & Hc)].
    destruct (classify_bus_kind path r Hr Hk) as (segs & -> & Hb).
    assert (bool_decide (segs = base_segs) = false) as ->.
    { apply bool_decide_eq_false. intros ->. by vm_compute in Hb. }
    by rewrite Hb, Hv, Hc.
Qed.
