(* ===== verification/IoctlFilter.v ===== *)
(** NVIDIA control-device ioctls ([gpu/ioctl_filter.c], [gpu/nvidia_rm.h]):
    the gpu ids learnt from the card-info reply, and the in-place filters of
    the replies that would show hidden GPUs.

    Replies are bytes in memory at the addresses the C structs give them
    (little endian), so the filters' reads and writes are those of the ABI
    layouts of [nvidia_rm.h]. *)

From S2P Require Import Prelude CString Config ProcFilter.

#[local] Open Scope Z_scope.

(** ** Memory *)

Abbreviation mem := (gmap Z ascii).

Definition load8 (m : mem) (a : Z) : Z := code (default NUL (m !! a)).
Definition store8 (a : Z) (v : Z) (m : mem) : mem := <[a := ascii_of_N (Z.to_N (v mod 256))]> m.

Definition load32 (m : mem) (a : Z) : Z :=
  load8 m a + 2 ^ 8 * load8 m (a + 1) + 2 ^ 16 * load8 m (a + 2) + 2 ^ 24 * load8 m (a + 3).
Definition load64 (m : mem) (a : Z) : Z := load32 m a + 2 ^ 32 * load32 m (a + 4).
Definition store32 (a : Z) (v : Z) (m : mem) : mem :=
  store8 (a + 3) (v / 2 ^ 24) (store8 (a + 2) (v / 2 ^ 16) (store8 (a + 1) (v / 2 ^ 8) (store8 a v m))).

(** An array of 32-bit words. *)
Fixpoint load32s (m : mem) (a : Z) (n : nat) : list Z :=
  match n with O => [] | S n' => load32 m a :: load32s m (a + 4) n' end.
Fixpoint store32s (a : Z) (ws : list Z) (m : mem) : mem :=
  match ws with [] => m | w :: ws' => store32s (a + 4) ws' (store32 a w m) end.

(** ** Layouts and request numbers ([nvidia_rm.h]) *)

Definition RPS_NV_MAX_DEVICES : nat := 32.
Definition RPS_NV0000_CTRL_CMD_GPU_GET_ATTACHED_IDS : Z := 0x201.
Definition RPS_NV0000_CTRL_CMD_GPU_GET_ACTIVE_DEVICE_IDS : Z := 0x288.
Definition RPS_NV0000_CTRL_GPU_MAX_ATTACHED_GPUS : nat := 32.
Definition RPS_NV0000_CTRL_GPU_MAX_ACTIVE_DEVICES : nat := 256.
Definition RPS_NV0000_CTRL_GPU_INVALID_ID : Z := 0xffffffff.

(** [struct rps_nvos54_parameters] (32 bytes) *)
Definition rm_cmd (m : mem) (rm : Z) : Z := load32 m (rm + 8).
Definition rm_params (m : mem) (rm : Z) : Z := load64 m (rm + 16).
Definition rm_paramsSize (m : mem) (rm : Z) : Z := load32 m (rm + 24).
Definition rm_status (m : mem) (rm : Z) : Z := load32 m (rm + 28).

(** [struct rps_nv_ioctl_card_info] (72 bytes) *)
Definition card_at (cards : Z) (i : nat) : Z := cards + 72 * Z.of_nat i.
Definition card_valid (m : mem) (card : Z) : Z := load8 m card.
Definition card_gpu_id (m : mem) (card : Z) : Z := load32 m (card + 16).
Definition card_minor_number (m : mem) (card : Z) : Z := load32 m (card + 56).

(** [_IOWR(type, nr, size)] *)
Definition IOWR (type nr size : Z) : Z :=
  Z.lor (Z.lor (Z.shiftl 3 30) (Z.shiftl size 16)) (Z.lor (Z.shiftl type 8) nr).
Definition RPS_IOCTL_RM_CONTROL_REQUEST : Z := IOWR 70 0x2A 32.
Definition RPS_IOCTL_CARD_INFO_REQUEST : Z := IOWR 70 200 (72 * 32).

Definition rps_request_is_rm_control (request : Z) : bool := request =? RPS_IOCTL_RM_CONTROL_REQUEST.
Definition rps_request_is_card_info (request : Z) : bool := request =? RPS_IOCTL_CARD_INFO_REQUEST.

(** ** The learnt ids *)

(** [ids] is the used prefix of [g_allowed_gpu_ids]. *)
Definition rps_gpu_allowed_contains_minor (allowed : option rps_gpu_allowed_gpus) (minor : Z) : bool :=
  match allowed with
  | None => false
  | Some a =>
      if negb (al_valid a) then false
      else existsb (fun g => gi_present g && (0 <=? gi_device_minor g) && (u32 (gi_device_minor g) =? minor))
                   (take (al_count a) (al_gpus a))
  end.

Definition rps_gpu_id_is_allowed_locked (ids : list Z) (gpu_id : Z) : bool :=
  existsb (fun id => id =? gpu_id) ids.

Definition rps_gpu_remember_allowed_gpu_id_locked (gpu_id : Z) (ids : list Z) : list Z :=
  if (gpu_id =? RPS_NV0000_CTRL_GPU_INVALID_ID) || rps_gpu_id_is_allowed_locked ids gpu_id ||
     (RPS_GPU_MAX_GPUS <=? length ids)%nat
  then ids else ids ++ [gpu_id].

(** A NULL [allowed] is [None], a NULL pointer the address 0. *)
Definition rps_gpu_record_card_info_gpu_ids (allowed : option rps_gpu_allowed_gpus) (m : mem)
    (cards : Z) (count : nat) (ids : list Z) : list Z :=
  match allowed with
  | None => ids
  | Some a =>
      if negb (al_valid a) || (cards =? 0) then ids
      else foldl (fun ids i =>
        let card := card_at cards i in
        if negb (card_valid m card =? 0) && rps_gpu_allowed_contains_minor allowed (card_minor_number m card)
        then rps_gpu_remember_allowed_gpu_id_locked (card_gpu_id m card) ids else ids) ids (seq 0 count)
  end.

Definition rps_gpu_filter_card_info (allowed : option rps_gpu_allowed_gpus) (cards : Z) (count : nat)
    (m : mem) : mem :=
  match allowed with
  | None => m
  | Some a =>
      if negb (al_valid a) || (cards =? 0) then m
      else foldl (fun m i =>
        let card := card_at cards i in
        if negb (card_valid m card =? 0) &&
           negb (rps_gpu_allowed_contains_minor allowed (card_minor_number m card))
        then store8 card 0 m else m) m (seq 0 count)
  end.

(** [cfg] is what [rps_config_get] returns. *)
Definition rps_gpu_ioctl_filter_enabled (cfg : rps_config) (allowed : option rps_gpu_allowed_gpus)
    (result : Z) (m : mem) (rm : Z) : bool :=
  cfg_gpu_video cfg && cfg_gpu_ioctl cfg &&
  match allowed with None => false | Some a => al_valid a end &&
  (result =? 0) && negb (rm =? 0) && (rm_status m rm =? 0) && negb (rm_params m rm =? 0).

(** The loop over the attached ids (lines 127-138). *)
Fixpoint keep_ids (ids : list Z) (gpu_ids : list Z) (kept : list Z) : list Z :=
  match gpu_ids with
  | [] => kept
  | gpu_id :: gpu_ids' =>
      if gpu_id =? RPS_NV0000_CTRL_GPU_INVALID_ID then kept
      else keep_ids ids gpu_ids'
             (if rps_gpu_id_is_allowed_locked ids gpu_id && (length kept <? RPS_GPU_MAX_GPUS)%nat
              then kept ++ [gpu_id] else kept)
  end.

(** [None] is the result 0 (memory unchanged); else memory and [*kept_out]. *)
Definition rps_gpu_filter_gpu_id_array (ids : list Z) (gpu_ids : Z) (count : nat) (m : mem)
    : option (mem * nat) :=
  if (gpu_ids =? 0) || (count =? 0)%nat then None
  else if (length ids =? 0)%nat then None
  else
    let kept := keep_ids ids (load32s m gpu_ids count) [] in
    let kept_count := length kept in
    let words := map (fun i => if (i <? kept_count)%nat then default 0 (kept !! i)
                               else RPS_NV0000_CTRL_GPU_INVALID_ID) (seq 0 count) in
    Some (store32s gpu_ids words m, kept_count).

(** [struct rps_nv0000_ctrl_gpu_active_device]: three words *)
Record active_device := ActiveDevice { gpuId : Z; gpuInstanceId : Z; computeInstanceId : Z }.
Definition device_words (d : active_device) : list Z := [gpuId d; gpuInstanceId d; computeInstanceId d].

(** [params->devices]: 12 bytes each behind the word [numDevices]. *)
Definition load_device (m : mem) (params : Z) (i : nat) : active_device :=
  let a := params + 4 + 12 * Z.of_nat i in
  ActiveDevice (load32 m a) (load32 m (a + 4)) (load32 m (a + 8)).
Definition numDevices (m : mem) (params : Z) : Z := load32 m params.

Definition rps_gpu_filter_active_devices (ids : list Z) (params : Z) (m : mem) : option (mem * nat) :=
  if params =? 0 then None
  else if (length ids =? 0)%nat then None
  else
    let count := numDevices m params in
    let count := if Z.of_nat RPS_NV0000_CTRL_GPU_MAX_ACTIVE_DEVICES <? count
                 then RPS_NV0000_CTRL_GPU_MAX_ACTIVE_DEVICES else Z.to_nat count in
    let kept := List.filter (fun d => rps_gpu_id_is_allowed_locked ids (gpuId d))
                            (map (load_device m params) (seq 0 count)) in
    let kept_count := length kept in
    let m := store32s (params + 4) (concat (map device_words kept)) m in   (* memcpy *)
    let m := store32s (params + 4 + 12 * Z.of_nat kept_count)               (* memset *)
               (replicate (3 * (RPS_NV0000_CTRL_GPU_MAX_ACTIVE_DEVICES - kept_count)) 0) m in
    Some (store32 params (Z.of_nat kept_count) m, kept_count).

Definition rps_gpu_filter_rm_control (cfg : rps_config) (allowed : option rps_gpu_allowed_gpus)
    (ids : list Z) (rm : Z) (result : Z) (m : mem) : mem :=
  if negb (rps_gpu_ioctl_filter_enabled cfg allowed result m rm) then m
  else if (rm_cmd m rm =? RPS_NV0000_CTRL_CMD_GPU_GET_ATTACHED_IDS) &&
          (4 * Z.of_nat RPS_NV0000_CTRL_GPU_MAX_ATTACHED_GPUS <=? rm_paramsSize m rm) then
    match rps_gpu_filter_gpu_id_array ids (rm_params m rm) RPS_NV0000_CTRL_GPU_MAX_ATTACHED_GPUS m with
    | Some (m', _) => m'
    | None => m
    end
  else if (rm_cmd m rm =? RPS_NV0000_CTRL_CMD_GPU_GET_ACTIVE_DEVICE_IDS) &&
          (4 + 12 * Z.of_nat RPS_NV0000_CTRL_GPU_MAX_ACTIVE_DEVICES <=? rm_paramsSize m rm) then
    match rps_gpu_filter_active_devices ids (rm_params m rm) m with
    | Some (m', _) => m'
    | None => m
    end
  else m.

(** The state is the learnt ids and the process memory. *)
Definition rps_gpu_ioctl_filter_after (cfg : rps_config) (allowed : option rps_gpu_allowed_gpus)
    (request arg result : Z) (st : list Z * mem) : list Z * mem :=
  let '(ids, m) := st in
  if negb (result =? 0) || (arg =? 0) then st
  else if rps_request_is_card_info request then
    let ids := rps_gpu_record_card_info_gpu_ids allowed m arg RPS_NV_MAX_DEVICES ids in
    let m := if cfg_gpu_video cfg && cfg_gpu_ioctl cfg
             then rps_gpu_filter_card_info allowed arg RPS_NV_MAX_DEVICES m else m in
    (ids, m)
  else if rps_request_is_rm_control request then
    (ids, rps_gpu_filter_rm_control cfg allowed ids arg result m)
  else st.

(** ** Lemmas: memory *)

Lemma load8_range (m : mem) (a : Z) : 0 <= load8 m a < 256.
Proof. unfold load8, code. pose proof (N_ascii_bounded (default NUL (m !! a))). lia. Qed.

Lemma load8_store8 (m : mem) (a b v : Z) :
  load8 (store8 a v m) b = if a =? b then v mod 256 else load8 m b.
Proof.
  unfold load8, store8. destruct (Z.eqb_spec a b) as [->|Hne].
  - rewrite lookup_insert_eq. simpl. unfold code. pose proof (Z.mod_pos_bound v 256 eq_refl).
    rewrite N_ascii_embedding by lia. lia.
  - by rewrite lookup_insert_ne.
Qed.

Lemma load8_store32_ne (m : mem) (a b v : Z) :
  b < a \/ a + 4 <= b -> load8 (store32 a v m) b = load8 m b.
Proof.
  intros H. unfold store32. rewrite !load8_store8.
  by rewrite !(proj2 (Z.eqb_neq _ b)) by lia.
Qed.

Lemma load32_ext (m1 m2 : mem) (b : Z) :
  (forall i, b <= i < b + 4 -> load8 m1 i = load8 m2 i) -> load32 m1 b = load32 m2 b.
Proof. intros H. unfold load32. by rewrite !H by lia. Qed.

Lemma load32_store32_ne (m : mem) (a b v : Z) :
  b + 4 <= a \/ a + 4 <= b -> load32 (store32 a v m) b = load32 m b.
Proof. intros H. apply load32_ext. intros i Hi. apply load8_store32_ne. lia. Qed.

Lemma load32_store32 (m : mem) (a v : Z) : 0 <= v < 2 ^ 32 -> load32 (store32 a v m) a = v.
Proof.
  intros Hv. unfold load32, store32. rewrite !load8_store8.
  repeat match goal with
  | |- context [Z.eqb ?x ?y] => rewrite (proj2 (Z.eqb_neq x y)) by lia
  | |- context [Z.eqb ?x ?y] => rewrite (proj2 (Z.eqb_eq x y)) by lia
  end.
  change (2 ^ 8) with 256. change (2 ^ 16) with 65536. change (2 ^ 24) with 16777216.
  change (2 ^ 32) with 4294967296 in Hv. zlia.
Qed.

Lemma load32_range (m : mem) (a : Z) : 0 <= load32 m a < 2 ^ 32.
Proof.
  unfold load32. pose proof (load8_range m a). pose proof (load8_range m (a + 1)).
  pose proof (load8_range m (a + 2)). pose proof (load8_range m (a + 3)). lia.
Qed.

Lemma load8_store32s_ne (ws : list Z) (m : mem) (a b : Z) :
  b < a \/ a + 4 * Z.of_nat (length ws) <= b -> load8 (store32s a ws m) b = load8 m b.
Proof.
  revert a m. induction ws as [|w ws IH]; intros a m H; [done|]. cbn [store32s length] in *.
  rewrite IH by lia. apply load8_store32_ne. lia.
Qed.

Lemma load32_store32s_ne (ws : list Z) (m : mem) (a b : Z) :
  b + 4 <= a \/ a + 4 * Z.of_nat (length ws) <= b -> load32 (store32s a ws m) b = load32 m b.
Proof. intros H. apply load32_ext. intros i Hi. apply load8_store32s_ne. lia. Qed.

Definition word_ok (w : Z) : Prop := 0 <= w < 2 ^ 32.

Lemma load32s_store32s (ws : list Z) (m : mem) (a : Z) :
  Forall word_ok ws -> load32s (store32s a ws m) a (length ws) = ws.
Proof.
  intros Hws. revert a m. induction Hws as [|w ws Hw _ IH]; intros a m; [done|].
  cbn [store32s length load32s]. rewrite IH. f_equal.
  rewrite load32_store32s_ne by lia. by apply load32_store32.
Qed.

Lemma length_load32s (m : mem) (a : Z) (n : nat) : length (load32s m a n) = n.
Proof. revert a. induction n as [|n IH]; intros a; simpl; [done|]. by rewrite IH. Qed.

Lemma load32s_ok (m : mem) (a : Z) (n : nat) : Forall word_ok (load32s m a n).
Proof. revert a. induction n as [|n IH]; intros a; constructor; [apply load32_range|apply IH]. Qed.

#[global] Arguments rps_gpu_allowed_contains_minor : simpl never.
#[global] Arguments card_at : simpl never.
#[global] Arguments load8 : simpl never.
#[global] Arguments store8 : simpl never.
#[global] Arguments load32 : simpl never.
#[global] Arguments store32 : simpl never.
#[global] Arguments load64 : simpl never.
#[export] Hint Resolve load8_range load32_range load32s_ok : shim.
#[export] Hint Rewrite length_load32s : shim_rw.

(** ** Specification *)

(** The ids the attached-ids reply keeps: those in front of the terminator
    that are known, in order. *)
Definition kept_ids (ids gpu_ids : list Z) : list Z :=
  List.filter (rps_gpu_id_is_allowed_locked ids)
    (take_while (fun id => negb (id =? RPS_NV0000_CTRL_GPU_INVALID_ID)) gpu_ids).

(** The devices the reply lists ([numDevices] clamped to the array). *)
Definition active_devices (m : mem) (params : Z) : list active_device :=
  map (load_device m params)
    (seq 0 (Z.to_nat (Z.min (numDevices m params) (Z.of_nat RPS_NV0000_CTRL_GPU_MAX_ACTIVE_DEVICES)))).

Definition no_device : active_device := ActiveDevice 0 0 0.

(** A card of a GPU that is not allowed, and one of a GPU that is. *)
Definition card_hidden (allowed : option rps_gpu_allowed_gpus) (m : mem) (card : Z) : bool :=
  negb (card_valid m card =? 0) && negb (rps_gpu_allowed_contains_minor allowed (card_minor_number m card)).
Definition card_shown (allowed : option rps_gpu_allowed_gpus) (m : mem) (card : Z) : bool :=
  negb (card_valid m card =? 0) && rps_gpu_allowed_contains_minor allowed (card_minor_number m card).

Record ids_ok (ids : list Z) : Prop := {
  ids_nodup : NoDup ids;
  ids_room : (length ids <= RPS_GPU_MAX_GPUS)%nat;
  ids_valid : RPS_NV0000_CTRL_GPU_INVALID_ID ∉ ids
}.

(** ** Lemmas: the attached ids *)

Lemma id_allowed_spec (ids : list Z) (id : Z) : rps_gpu_id_is_allowed_locked ids id = true <-> id ∈ ids.
Proof.
  unfold rps_gpu_id_is_allowed_locked. rewrite existsb_elem. setoid_rewrite Z.eqb_eq. naive_solver.
Qed.

Lemma keep_ids_spec (ids ws kept : list Z) :
  (length kept + length ws <= RPS_GPU_MAX_GPUS)%nat -> keep_ids ids ws kept = kept ++ kept_ids ids ws.
Proof.
  revert kept. induction ws as [|w ws IH]; intros kept Hl; unfold kept_ids; cbn [keep_ids take_while List.filter].
  { by rewrite app_nil_r. }
  simpl in Hl. destruct (w =? RPS_NV0000_CTRL_GPU_INVALID_ID); cbn [negb List.filter]; [by rewrite app_nil_r|].
  rewrite (proj2 (Nat.ltb_lt (length kept) RPS_GPU_MAX_GPUS)), andb_true_r by lia.
  fold (kept_ids ids ws). destruct (rps_gpu_id_is_allowed_locked ids w).
  - rewrite IH by (rewrite length_app; simpl; lia). by rewrite <-app_assoc.
  - apply IH. lia.
Qed.

Lemma kept_ids_length (ids ws : list Z) : (length (kept_ids ids ws) <= length ws)%nat.
Proof. unfold kept_ids. etrans; [apply List.filter_length_le|apply length_take_while]. Qed.

Lemma kept_ids_ok (ids ws : list Z) : Forall word_ok ws -> Forall word_ok (kept_ids ids ws).
Proof.
  intros H. rewrite Forall_forall in *. intros x Hx. apply H. unfold kept_ids in Hx.
  apply list_elem_of_In, List.filter_In in Hx as [Hx _]. apply list_elem_of_In in Hx.
  rewrite <-(take_drop_while (fun id => negb (id =? RPS_NV0000_CTRL_GPU_INVALID_ID)) ws).
  apply elem_of_app. by left.
Qed.

Lemma padded_words (kept : list Z) (x : Z) (n : nat) :
  (length kept <= n)%nat ->
  map (fun i => if (i <? length kept)%nat then default 0 (kept !! i) else x) (seq 0 n) =
  kept ++ replicate (n - length kept) x.
Proof.
  intros Hl. apply list_eq. intros i. change (map ?f ?l) with (f <$> l). rewrite list_lookup_fmap.
  destruct (decide (i < n)%nat) as [Hi|Hi].
  - rewrite lookup_seq_lt by done. simpl. destruct (Nat.ltb_spec i (length kept)) as [Hk|Hk].
    + rewrite lookup_app_l by done. destruct (lookup_lt_is_Some_2 kept i Hk) as [y ->]. done.
    + rewrite lookup_app_r by done. by rewrite lookup_replicate_2 by lia.
  - rewrite lookup_seq_ge by lia. simpl. symmetry. apply lookup_ge_None. rewrite length_app, length_replicate. lia.
Qed.

Lemma filter_id_array_spec (ids : list Z) (p : Z) (m : mem) :
  p <> 0 -> ids <> [] ->
  let words := load32s m p RPS_NV0000_CTRL_GPU_MAX_ATTACHED_GPUS in
  let kept := kept_ids ids words in
  rps_gpu_filter_gpu_id_array ids p RPS_NV0000_CTRL_GPU_MAX_ATTACHED_GPUS m =
  Some (store32s p (kept ++ replicate (RPS_NV0000_CTRL_GPU_MAX_ATTACHED_GPUS - length kept)
                              RPS_NV0000_CTRL_GPU_INVALID_ID) m, length kept).
Proof.
  intros Hp Hids words kept. unfold rps_gpu_filter_gpu_id_array.
  rewrite (proj2 (Z.eqb_neq p 0)) by done. change (RPS_NV0000_CTRL_GPU_MAX_ATTACHED_GPUS =? 0)%nat with false.
  cbn [orb]. rewrite (proj2 (Nat.eqb_neq (length ids) 0)) by by destruct ids. fold words.
  assert (length words = RPS_NV0000_CTRL_GPU_MAX_ATTACHED_GPUS) as Hl by apply length_load32s.
  rewrite keep_ids_spec by (rewrite Hl; unfold RPS_NV0000_CTRL_GPU_MAX_ATTACHED_GPUS, RPS_GPU_MAX_GPUS; cbn [length]; lia). cbn [app]. fold kept.
  rewrite padded_words; [done|]. rewrite <-Hl. apply kept_ids_length.
Qed.

(** ** Lemmas: the active devices *)

Lemma store32s_app (ws1 ws2 : list Z) (m : mem) (a : Z) :
  store32s (a + 4 * Z.of_nat (length ws1)) ws2 (store32s a ws1 m) = store32s a (ws1 ++ ws2) m.
Proof.
  revert a m. induction ws1 as [|w ws1 IH]; intros a m; cbn [length store32s app].
  - f_equal. lia.
  - rewrite <-IH. f_equal. lia.
Qed.

Definition device_ok (d : active_device) : Prop := Forall word_ok (device_words d).

Lemma load_devices_shift (m : mem) (p : Z) (k n : nat) :
  map (load_device m p) (seq k n) = map (load_device m (p + 12 * Z.of_nat k)) (seq 0 n).
Proof.
  revert p k. induction n as [|n IH]; intros p k; [done|]. cbn [seq map].
  f_equal.
  - unfold load_device. replace (p + 12 * Z.of_nat k + 4 + 12 * Z.of_nat 0) with (p + 4 + 12 * Z.of_nat k) by lia.
    done.
  - rewrite (IH p (S k)), (IH _ 1%nat).
    replace (p + 12 * Z.of_nat k + 12 * Z.of_nat 1) with (p + 12 * Z.of_nat (S k)) by lia. done.
Qed.

Lemma length_device_words (ds : list active_device) :
  length (concat (map device_words ds)) = (3 * length ds)%nat.
Proof. induction ds as [|d ds IH]; [done|]. cbn [map concat device_words app length]. rewrite IH. lia. Qed.

Lemma load_devices_store (ds : list active_device) (m : mem) (p : Z) :
  Forall device_ok ds ->
  map (load_device (store32s (p + 4) (concat (map device_words ds)) m) p) (seq 0 (length ds)) = ds.
Proof.
  intros Hds. revert p m. induction Hds as [|d ds Hd _ IH]; intros p m; [done|].
  cbn [length seq map concat device_words app store32s]. rewrite load_devices_shift.
  replace (p + 4 + 4 + 4 + 4) with (p + 12 * Z.of_nat 1 + 4) by lia. rewrite IH. f_equal.
  unfold load_device. rewrite Z.mul_0_r, Z.add_0_r, !load32_store32s_ne by lia.
  unfold device_ok, device_words in Hd. rewrite !Forall_cons in Hd. destruct Hd as (H1 & H2 & H3 & _).
  replace (p + 4 + 8) with (p + 4 + 4 + 4) by lia. rewrite load32_store32 by done.
  rewrite (load32_store32_ne _ (p + 4 + 4 + 4) (p + 4)), (load32_store32_ne _ (p + 4 + 4) (p + 4)),
    (load32_store32_ne _ (p + 4 + 4 + 4) (p + 4 + 4)), !load32_store32 by (done || lia).
  by destruct d.
Qed.

Lemma load_device_ok (m : mem) (p : Z) (i : nat) : device_ok (load_device m p i).
Proof. unfold device_ok, load_device, device_words. repeat constructor; apply load32_range. Qed.

Lemma load_device_ext (m1 m2 : mem) (p : Z) (i : nat) :
  (forall a, p + 4 <= a -> load8 m1 a = load8 m2 a) -> load_device m1 p i = load_device m2 p i.
Proof.
  intros H. unfold load_device. f_equal; apply load32_ext; intros j Hj; apply H; lia.
Qed.

Lemma filter_active_spec (ids : list Z) (p : Z) (m : mem) :
  p <> 0 -> ids <> [] ->
  let kept := List.filter (fun d => rps_gpu_id_is_allowed_locked ids (gpuId d)) (active_devices m p) in
  let rest := replicate (RPS_NV0000_CTRL_GPU_MAX_ACTIVE_DEVICES - length kept) no_device in
  (length kept <= RPS_NV0000_CTRL_GPU_MAX_ACTIVE_DEVICES)%nat /\
  rps_gpu_filter_active_devices ids p m =
  Some (store32 p (Z.of_nat (length kept))
          (store32s (p + 4) (concat (map device_words (kept ++ rest))) m), length kept).
Proof.
  intros Hp Hids kept rest. unfold rps_gpu_filter_active_devices.
  rewrite (proj2 (Z.eqb_neq p 0)) by done. rewrite (proj2 (Nat.eqb_neq (length ids) 0)) by by destruct ids.
  assert ((if Z.of_nat RPS_NV0000_CTRL_GPU_MAX_ACTIVE_DEVICES <? numDevices m p
           then RPS_NV0000_CTRL_GPU_MAX_ACTIVE_DEVICES else Z.to_nat (numDevices m p)) =
          Z.to_nat (Z.min (numDevices m p) (Z.of_nat RPS_NV0000_CTRL_GPU_MAX_ACTIVE_DEVICES))) as ->.
  { destruct (Z.ltb_spec (Z.of_nat RPS_NV0000_CTRL_GPU_MAX_ACTIVE_DEVICES) (numDevices m p)); lia. }
  fold (active_devices m p). fold kept.
  assert (length kept <= RPS_NV0000_CTRL_GPU_MAX_ACTIVE_DEVICES)%nat as Hk.
  { unfold kept, active_devices. etrans; [apply List.filter_length_le|].
    rewrite length_map, length_seq. lia. }
  split; [done|]. do 2 f_equal. f_equal. rewrite map_app, concat_app, <-store32s_app, length_device_words.
  replace (p + 4 + 4 * Z.of_nat (3 * length kept)) with (p + 4 + 12 * Z.of_nat (length kept)) by lia.
  f_equal. unfold rest. clear. generalize (RPS_NV0000_CTRL_GPU_MAX_ACTIVE_DEVICES - length kept)%nat. intros n.
  induction n as [|n IH]; [done|]. replace (3 * S n)%nat with (S (S (S (3 * n)))) by lia.
  cbn [replicate map concat]. by rewrite IH.
Qed.

Lemma active_kept_ok (f : active_device -> bool) (m : mem) (p : Z) (n : nat) :
  Forall device_ok (List.filter f (active_devices m p) ++ replicate n no_device).
Proof.
  apply Forall_app. split.
  - apply Forall_forall. intros d Hd. apply list_elem_of_In, List.filter_In in Hd as [Hd _].
    unfold active_devices in Hd. apply in_map_iff in Hd as (i & <- & _). apply load_device_ok.
  - assert (word_ok 0) by (unfold word_ok; lia). apply Forall_replicate. unfold device_ok, device_words.
    by rewrite !Forall_cons, Forall_nil.
Qed.

(** ** Lemmas: the card-info reply *)

Lemma filter_cards_spec (allowed : option rps_gpu_allowed_gpus) (a : rps_gpu_allowed_gpus) (cards : Z)
    (m : mem) (n : nat) :
  allowed = Some a -> al_valid a = true -> cards <> 0 ->
  forall b, load8 (rps_gpu_filter_card_info allowed cards n m) b =
    if existsb (fun i => (b =? card_at cards i) && card_hidden allowed m (card_at cards i)) (seq 0 n)
    then 0 else load8 m b.
Proof.
  intros Ha Hv Hc. unfold rps_gpu_filter_card_info. rewrite Ha, Hv, (proj2 (Z.eqb_neq cards 0)) by done.
  cbn [negb orb]. rewrite <-Ha. induction n as [|n IH]; intros b; [done|].
  rewrite seq_S, foldl_app, existsb_app. cbn [foldl Nat.add existsb]. rewrite orb_false_r.
  set (mn := foldl _ m (seq 0 n)) in *. set (card := card_at cards n).
  assert (forall i, card <= i < card + 72 -> load8 mn i = load8 m i) as Hsame.
  { intros i Hi. rewrite IH. destruct (existsb _ _) eqn:E; [|done].
    apply existsb_elem in E as (k & Hk & E). to_prop. apply elem_of_seq in Hk. unfold card, card_at in *. lia. }
  assert (card_hidden allowed mn card = card_hidden allowed m card) as <-.
  { unfold card_hidden, card_valid, card_minor_number. rewrite Hsame by lia. do 3 f_equal.
    apply load32_ext. intros i Hi. apply Hsame. lia. }
  unfold card_hidden. destruct (negb (card_valid mn card =? 0) && _).
  - rewrite load8_store8, andb_true_r, (Z.eqb_sym b). destruct (Z.eqb_spec card b) as [->|Hne].
    + by rewrite orb_true_r.
    + by rewrite orb_false_r.
  - rewrite andb_false_r, orb_false_r. apply IH.
Qed.

Lemma remember_ok (id : Z) (ids : list Z) :
  ids_ok ids -> ids_ok (rps_gpu_remember_allowed_gpu_id_locked id ids).
Proof.
  intros [Hn Hr Hi]. unfold rps_gpu_remember_allowed_gpu_id_locked.
  destruct (_ || _) eqn:E; [done|]. to_prop.
  assert (id ∉ ids) by by rewrite <-id_allowed_spec; intros ?; congruence. split.
  - apply NoDup_app. split_and!; [done|set_solver|apply NoDup_singleton].
  - rewrite length_app. simpl. lia.
  - rewrite elem_of_app, list_elem_of_singleton. intros [?|?]; [done|lia].
Qed.

Lemma remember_elem (id x : Z) (ids : list Z) :
  x ∈ rps_gpu_remember_allowed_gpu_id_locked id ids -> x ∈ ids \/ x = id.
Proof.
  unfold rps_gpu_remember_allowed_gpu_id_locked. destruct (_ || _); [by left|].
  rewrite elem_of_app, list_elem_of_singleton. done.
Qed.

Lemma remember_mono (id x : Z) (ids : list Z) :
  x ∈ ids -> x ∈ rps_gpu_remember_allowed_gpu_id_locked id ids.
Proof.
  unfold rps_gpu_remember_allowed_gpu_id_locked. destruct (_ || _); [done|].
  rewrite elem_of_app. by left.
Qed.

Lemma remember_learns (id : Z) (ids : list Z) :
  id <> RPS_NV0000_CTRL_GPU_INVALID_ID ->
  id ∈ rps_gpu_remember_allowed_gpu_id_locked id ids \/ (RPS_GPU_MAX_GPUS <= length ids)%nat.
Proof.
  intros Hid. unfold rps_gpu_remember_allowed_gpu_id_locked. rewrite (proj2 (Z.eqb_neq id _)) by done.
  cbn [orb]. destruct (rps_gpu_id_is_allowed_locked ids id) eqn:E; cbn [orb].
  { left. by apply id_allowed_spec. }
  destruct (Nat.leb_spec RPS_GPU_MAX_GPUS (length ids)); [by right|left].
  rewrite elem_of_app, list_elem_of_singleton. by right.
Qed.

Lemma remember_length (id : Z) (ids : list Z) :
  (length ids <= length (rps_gpu_remember_allowed_gpu_id_locked id ids))%nat.
Proof.
  unfold rps_gpu_remember_allowed_gpu_id_locked. destruct (_ || _); [done|]. rewrite length_app. lia.
Qed.

(** The ids after the loop over [n] cards. *)
Lemma record_cards_spec (allowed : option rps_gpu_allowed_gpus) (m : mem) (cards : Z) (n : nat)
    (ids : list Z) :
  let ids' := rps_gpu_record_card_info_gpu_ids allowed m cards n ids in
  (ids_ok ids -> ids_ok ids') /\ (length ids <= length ids')%nat /\
  (forall x, x ∈ ids -> x ∈ ids') /\
  (forall x, x ∈ ids' -> x ∈ ids \/ exists i, (i < n)%nat /\ x = card_gpu_id m (card_at cards i) /\
     card_shown allowed m (card_at cards i) = true).
Proof.
  unfold rps_gpu_record_card_info_gpu_ids.
  destruct allowed as [a|]; [|split_and!; auto]. destruct (negb (al_valid a) || _); [split_and!; auto|].
  simpl. induction n as [|n IH]; [split_and!; auto|]. rewrite seq_S, foldl_app. cbn [foldl Nat.add].
  set (idsn := foldl _ ids (seq 0 n)) in *. destruct IH as (Hok & Hlen & Hmono & Helem).
  destruct (negb (card_valid m (card_at cards n) =? 0) && _) eqn:E.
  - split_and!.
    + intros H. by apply remember_ok, Hok.
    + pose proof (remember_length (card_gpu_id m (card_at cards n)) idsn). lia.
    + intros x Hx. by apply remember_mono, Hmono.
    + intros x Hx. apply remember_elem in Hx as [Hx| ->].
      * apply Helem in Hx as [?|(i & ? & ?)]; [by left|right]. exists i. split; [lia|done].
      * right. exists n. split_and!; [lia|done|exact E].
  - split_and!; [done|done|done|]. intros x Hx.
    apply Helem in Hx as [?|(i & ? & ?)]; [by left|right]. exists i. split; [lia|done].
Qed.

Lemma record_cards_learns (a : rps_gpu_allowed_gpus) (m : mem) (cards : Z) (n i : nat) (ids : list Z) :
  al_valid a = true -> cards <> 0 -> (i < n)%nat -> card_shown (Some a) m (card_at cards i) = true ->
  card_gpu_id m (card_at cards i) <> RPS_NV0000_CTRL_GPU_INVALID_ID ->
  let ids' := rps_gpu_record_card_info_gpu_ids (Some a) m cards n ids in
  card_gpu_id m (card_at cards i) ∈ ids' \/ (RPS_GPU_MAX_GPUS <= length ids')%nat.
Proof.
  intros Hv Hc Hi Hs Hid. unfold rps_gpu_record_card_info_gpu_ids.
  rewrite Hv, (proj2 (Z.eqb_neq cards 0)) by done. cbn [negb orb]. simpl.
  induction n as [|n IH]; [lia|]. rewrite seq_S, foldl_app. cbn [foldl Nat.add].
  set (idsn := foldl _ ids (seq 0 n)) in *. destruct (decide (i = n)) as [->|Hne].
  - unfold card_shown in Hs. rewrite Hs. destruct (remember_learns _ idsn Hid); [by left|right].
    pose proof (remember_length (card_gpu_id m (card_at cards n)) idsn). lia.
  - specialize (IH ltac:(lia)). destruct (_ && _); [|done]. destruct IH as [IH|IH].
    + left. by apply remember_mono.
    + right. pose proof (remember_length (card_gpu_id m (card_at cards n)) idsn). lia.
Qed.

(** ** Lemmas: the whole hook *)

Lemma enabled_pointers (cfg : rps_config) (allowed : option rps_gpu_allowed_gpus) (r : Z) (m : mem) (rm : Z) :
  rps_gpu_ioctl_filter_enabled cfg allowed r m rm = true ->
  r = 0 /\ rm <> 0 /\ rm_params m rm <> 0.
Proof. unfold rps_gpu_ioctl_filter_enabled. intros H. to_prop. done. Qed.

Lemma after_rm_control (cfg : rps_config) (allowed : option rps_gpu_allowed_gpus) (rm : Z)
    (ids : list Z) (m : mem) :
  rm <> 0 ->
  rps_gpu_ioctl_filter_after cfg allowed RPS_IOCTL_RM_CONTROL_REQUEST rm 0 (ids, m) =
  (ids, rps_gpu_filter_rm_control cfg allowed ids rm 0 m).
Proof.
  intros H. unfold rps_gpu_ioctl_filter_after. rewrite (proj2 (Z.eqb_neq rm 0)) by done. reflexivity.
Qed.

Lemma attached_result (ids words : list Z) :
  Forall word_ok words -> length words = RPS_NV0000_CTRL_GPU_MAX_ATTACHED_GPUS ->
  let kept := kept_ids ids words in
  let ws := kept ++ replicate (RPS_NV0000_CTRL_GPU_MAX_ATTACHED_GPUS - length kept) RPS_NV0000_CTRL_GPU_INVALID_ID in
  Forall word_ok ws /\ length ws = RPS_NV0000_CTRL_GPU_MAX_ATTACHED_GPUS.
Proof.
  intros Hw Hl kept ws. split.
  - apply Forall_app. split; [by apply kept_ids_ok|]. apply Forall_replicate.
    unfold word_ok, RPS_NV0000_CTRL_GPU_INVALID_ID. lia.
  - unfold ws. rewrite length_app, length_replicate. pose proof (kept_ids_length ids words).
    unfold kept. lia.
Qed.

(** ** Properties *)

(** C24: the attached-ids reply.  When the hook is enabled for a GET_ATTACHED_IDS
    control whose parameter block is large enough and some id is known, the 32
    ids afterwards are the known ones of the reply (up to its terminator), in
    order, then terminators; the known set and every byte outside the 128
    bytes of the block are as before. *)
Theorem attached_ids_exact (cfg : rps_config) (allowed : option rps_gpu_allowed_gpus) (rm : Z)
    (ids : list Z) (m : mem) :
  rps_gpu_ioctl_filter_enabled cfg allowed 0 m rm = true ->
  rm_cmd m rm = RPS_NV0000_CTRL_CMD_GPU_GET_ATTACHED_IDS -> 128 <= rm_paramsSize m rm -> ids <> [] ->
  let p := rm_params m rm in
  let words := load32s m p 32 in
  let kept := List.filter (rps_gpu_id_is_allowed_locked ids)
                (take_while (fun id => negb (id =? RPS_NV0000_CTRL_GPU_INVALID_ID)) words) in
  exists m', rps_gpu_ioctl_filter_after cfg allowed RPS_IOCTL_RM_CONTROL_REQUEST rm 0 (ids, m) = (ids, m') /\
  load32s m' p 32 = kept ++ replicate (32 - length kept) RPS_NV0000_CTRL_GPU_INVALID_ID /\
  forall a, a < p \/ p + 128 <= a -> load8 m' a = load8 m a.
Proof.
  intros Hen Hcmd Hsize Hids p words kept. destruct (enabled_pointers _ _ _ _ _ Hen) as (_ & Hrm & Hp).
  rewrite after_rm_control by done. eexists. split; [done|].
  unfold rps_gpu_filter_rm_control. rewrite Hen, Hcmd, Z.eqb_refl. cbn [negb].
  change (4 * Z.of_nat RPS_NV0000_CTRL_GPU_MAX_ATTACHED_GPUS) with 128.
  rewrite (proj2 (Z.leb_le 128 _)) by done. cbn [andb].
  rewrite filter_id_array_spec by done. change RPS_NV0000_CTRL_GPU_MAX_ATTACHED_GPUS with 32%nat.
  fold p. fold words. change (kept_ids ids words) with kept.
  destruct (attached_result ids words) as [Hok Hl]; [apply load32s_ok|apply length_load32s|].
  change (kept_ids ids words) with kept in Hok, Hl.
  change RPS_NV0000_CTRL_GPU_MAX_ATTACHED_GPUS with 32%nat in Hok, Hl. split.
  - rewrite <-Hl at 2. by apply load32s_store32s.
  - intros a Ha. apply load8_store32s_ne. lia.
Qed.

(** A control block at address 1000 whose parameters are at 5000. *)
Definition sample_rm (cmd size : Z) (params : list Z) : mem :=
  store32s 5000 params (store32s 1000 [0; 0; cmd; 0; 5000; 0; size; 0] ∅).
Definition sample_cfg : rps_config := RpsConfig true true true false.
Definition sample_gpu0 : rps_gpu_allowed_gpus := AllowedGpus true 1 [GpuInfo true 0 (cs "b0") []].

Lemma attached_ids_exact_witness :
  let m := sample_rm 0x201 128 (0x100 :: 0x200 :: 0x300 :: replicate 29 0xffffffff) in
  exists m', rps_gpu_ioctl_filter_after sample_cfg (Some sample_gpu0) RPS_IOCTL_RM_CONTROL_REQUEST 1000 0
    ([0x200], m) = ([0x200], m') /\
  load32s m' 5000 32 = 0x200 :: replicate 31 0xffffffff /\
  forall a, a < 5000 \/ 5128 <= a -> load8 m' a = load8 m a.
Proof.
  intros m.
  destruct (attached_ids_exact sample_cfg (Some sample_gpu0) 1000 [0x200] m) as (m' & H1 & H2 & H3).
  - vm_compute. reflexivity.
  - vm_compute. reflexivity.
  - vm_compute. discriminate.
  - discriminate.
  - exists m'. split; [exact H1|]. split; [refine (eq_trans H2 _); vm_compute; reflexivity|exact H3].
Defined.

(** C25: the active-devices reply.  Likewise for GET_ACTIVE_DEVICE_IDS: the
    count and the 256 entries afterwards are the devices of the reply with a
    known id, in order, then zeroes (a count above 256 is clamped); the known
    set and every byte outside the 3076 bytes of the block are as before. *)
Theorem active_devices_exact (cfg : rps_config) (allowed : option rps_gpu_allowed_gpus) (rm : Z)
    (ids : list Z) (m : mem) :
  rps_gpu_ioctl_filter_enabled cfg allowed 0 m rm = true ->
  rm_cmd m rm = RPS_NV0000_CTRL_CMD_GPU_GET_ACTIVE_DEVICE_IDS -> 3076 <= rm_paramsSize m rm -> ids <> [] ->
  let p := rm_params m rm in
  let kept := List.filter (fun d => rps_gpu_id_is_allowed_locked ids (gpuId d)) (active_devices m p) in
  exists m', rps_gpu_ioctl_filter_after cfg allowed RPS_IOCTL_RM_CONTROL_REQUEST rm 0 (ids, m) = (ids, m') /\
  numDevices m' p = Z.of_nat (length kept) /\
  map (load_device m' p) (seq 0 256) = kept ++ replicate (256 - length kept) no_device /\
  forall a, a < p \/ p + 3076 <= a -> load8 m' a = load8 m a.
Proof.
  intros Hen Hcmd Hsize Hids p kept. destruct (enabled_pointers _ _ _ _ _ Hen) as (_ & Hrm & Hp).
  rewrite after_rm_control by done. eexists. split; [done|].
  unfold rps_gpu_filter_rm_control. rewrite Hen, Hcmd. cbn [negb].
  change (RPS_NV0000_CTRL_CMD_GPU_GET_ACTIVE_DEVICE_IDS =? RPS_NV0000_CTRL_CMD_GPU_GET_ATTACHED_IDS) with false.
  change (4 + 12 * Z.of_nat RPS_NV0000_CTRL_GPU_MAX_ACTIVE_DEVICES) with 3076.
  rewrite Z.eqb_refl, (proj2 (Z.leb_le 3076 _)) by done. cbn [andb].
  destruct (filter_active_spec ids p m Hp Hids) as [Hk Hspec]. fold p. rewrite Hspec. fold kept in Hk |- *.
  change RPS_NV0000_CTRL_GPU_MAX_ACTIVE_DEVICES with 256%nat in *.
  set (ds := kept ++ replicate (256 - length kept) no_device).
  assert (length ds = 256%nat) as Hl by (unfold ds; rewrite length_app, length_replicate; lia).
  assert (length (concat (map device_words ds)) = 768%nat) as Hw by (rewrite length_device_words; lia).
  split_and!.
  - apply load32_store32. lia.
  - transitivity (map (load_device (store32s (p + 4) (concat (map device_words ds)) m) p) (seq 0 256)).
    + apply map_ext. intros i. apply load_device_ext. intros a Ha. apply load8_store32_ne. lia.
    + rewrite <-Hl. apply load_devices_store, active_kept_ok.
  - intros a Ha. rewrite load8_store32_ne, load8_store32s_ne by lia. done.
Qed.

Lemma active_devices_exact_witness :
  let m := sample_rm 0x288 3076 [2; 0x100; 7; 0; 0x200; 8; 0] in
  exists m', rps_gpu_ioctl_filter_after sample_cfg (Some sample_gpu0) RPS_IOCTL_RM_CONTROL_REQUEST 1000 0
    ([0x200], m) = ([0x200], m') /\
  numDevices m' 5000 = 1 /\
  map (load_device m' 5000) (seq 0 256) = ActiveDevice 0x200 8 0 :: replicate 255 no_device /\
  forall a, a < 5000 \/ 8076 <= a -> load8 m' a = load8 m a.
Proof.
  intros m.
  destruct (active_devices_exact sample_cfg (Some sample_gpu0) 1000 [0x200] m) as (m' & H1 & H2 & H3 & H4).
  - vm_compute. reflexivity.
  - vm_compute. reflexivity.
  - vm_compute. discriminate.
  - discriminate.
  - exists m'. split; [exact H1|]. split; [exact H2|]. split; [|exact H4].
    refine (eq_trans H3 _). vm_compute. reflexivity.
Defined.

(** C26: the card-info reply.  With both modules on, the ids of the allowed
    cards are learnt (unless 32 are known already) and exactly the "valid"
    bytes of the cards whose minor is not allowed are zeroed: every other byte
    of memory is as before. *)
Theorem card_info_exact (cfg : rps_config) (a : rps_gpu_allowed_gpus) (cards : Z) (ids : list Z) (m : mem) :
  cfg_gpu_video cfg = true -> cfg_gpu_ioctl cfg = true -> al_valid a = true -> cards <> 0 ->
  let '(ids', m') := rps_gpu_ioctl_filter_after cfg (Some a) RPS_IOCTL_CARD_INFO_REQUEST cards 0 (ids, m) in
  (forall b, load8 m' b =
     if existsb (fun i => (b =? card_at cards i) && card_hidden (Some a) m (card_at cards i)) (seq 0 32)
     then 0 else load8 m b) /\
  (forall i, (i < 32)%nat -> card_shown (Some a) m (card_at cards i) = true ->
     card_gpu_id m (card_at cards i) <> RPS_NV0000_CTRL_GPU_INVALID_ID ->
     card_gpu_id m (card_at cards i) ∈ ids' \/ (RPS_GPU_MAX_GPUS <= length ids')%nat).
Proof.
  intros Hv Hi Ha Hc. unfold rps_gpu_ioctl_filter_after. rewrite (proj2 (Z.eqb_neq cards 0)) by done.
  change (rps_request_is_card_info RPS_IOCTL_CARD_INFO_REQUEST) with true. rewrite Hv, Hi. cbn [negb orb andb Z.eqb].
  split.
  - intros b. by rewrite (filter_cards_spec (Some a) a).
  - intros i Hlt Hs Hid. by apply record_cards_learns.
Qed.

(** Two cards at address 1000: minor 0 (id 0x100) and minor 1 (id 0x200). *)
Definition sample_cards : mem :=
  store8 1000 1 (store32 1016 0x100 (store32 1056 0
    (store8 1072 1 (store32 1088 0x200 (store32 1128 1 ∅))))).

Lemma card_info_exact_witness :
  let '(ids', m') := rps_gpu_ioctl_filter_after sample_cfg (Some sample_gpu0) RPS_IOCTL_CARD_INFO_REQUEST
    1000 0 ([], sample_cards) in
  (forall b, load8 m' b = if b =? 1072 then 0 else load8 sample_cards b) /\ 0x100 ∈ ids'.
Proof.
  pose proof (card_info_exact sample_cfg sample_gpu0 1000 [] sample_cards eq_refl eq_refl eq_refl
    ltac:(discriminate)) as H.
  assert (length (rps_gpu_ioctl_filter_after sample_cfg (Some sample_gpu0) RPS_IOCTL_CARD_INFO_REQUEST
    1000 0 ([], sample_cards)).1 = 1%nat) as El by (vm_compute; reflexivity).
  destruct (rps_gpu_ioctl_filter_after _ _ _ _ _ _) as [ids' m']. destruct H as [H1 H2]. split.
  - intros b. rewrite H1.
    assert (existsb (fun i => (b =? card_at 1000 i) && card_hidden (Some sample_gpu0) sample_cards (card_at 1000 i))
              (seq 0 32) = (b =? 1072)) as ->; [|done].
    assert (forall i, i ∈ seq 0 32 ->
      card_hidden (Some sample_gpu0) sample_cards (card_at 1000 i) = (i =? 1)%nat) as Hh.
    { intros i Hi. apply elem_of_seq in Hi.
      do 32 (destruct i as [|i]; [vm_compute; reflexivity|]). lia. }
    apply eq_true_iff_eq. rewrite existsb_elem, Z.eqb_eq. split.
    + intros (i & Hi & E). rewrite Hh in E by done. to_prop. subst. reflexivity.
    + intros ->. exists 1%nat. split; [apply elem_of_seq; lia|vm_compute; reflexivity].
  - destruct (H2 0%nat) as [H|H]; [lia|vm_compute; reflexivity|vm_compute; discriminate|exact H|].
    exfalso. cbn [fst] in El. unfold RPS_GPU_MAX_GPUS in H. lia.
Defined.

(** The calls of the hook a process makes, each with the memory the kernel
    left, and the ids learnt from them. *)
Record hook_call := HookCall {
  hc_cfg : rps_config;
  hc_allowed : option rps_gpu_allowed_gpus;
  hc_request : Z;
  hc_arg : Z;
  hc_result : Z;
  hc_mem : mem
}.
Definition learnt (calls : list hook_call) : list Z :=
  foldl (fun ids c =>
    (rps_gpu_ioctl_filter_after (hc_cfg c) (hc_allowed c) (hc_request c) (hc_arg c) (hc_result c)
       (ids, hc_mem c)).1) [] calls.

Lemma after_ids (c : hook_call) (ids : list Z) :
  let ids' := (rps_gpu_ioctl_filter_after (hc_cfg c) (hc_allowed c) (hc_request c) (hc_arg c)
                 (hc_result c) (ids, hc_mem c)).1 in
  ids' = ids \/
  hc_result c = 0 /\ hc_request c = RPS_IOCTL_CARD_INFO_REQUEST /\
  ids' = rps_gpu_record_card_info_gpu_ids (hc_allowed c) (hc_mem c) (hc_arg c) RPS_NV_MAX_DEVICES ids.
Proof.
  simpl. unfold rps_gpu_ioctl_filter_after. destruct (negb (hc_result c =? 0) || _) eqn:E; [by left|]. to_prop.
  unfold rps_request_is_card_info. destruct (Z.eqb_spec (hc_request c) RPS_IOCTL_CARD_INFO_REQUEST); [by right|].
  left. by destruct (rps_request_is_rm_control _).
Qed.

(** C27: no id of a hidden GPU is ever learnt.  Over any sequence of calls,
    whatever the kernel replies, the known ids are at most 32, pairwise
    distinct, none is the terminator, and each was reported by a successful
    card-info call as the id of a card whose minor was allowed then. *)
Theorem learnt_ids_sound (calls : list hook_call) :
  ids_ok (learnt calls) /\
  forall id, id ∈ learnt calls -> exists c i, c ∈ calls /\ (i < 32)%nat /\ hc_result c = 0 /\
    hc_request c = RPS_IOCTL_CARD_INFO_REQUEST /\
    card_shown (hc_allowed c) (hc_mem c) (card_at (hc_arg c) i) = true /\
    id = card_gpu_id (hc_mem c) (card_at (hc_arg c) i).
Proof.
  unfold learnt. induction calls as [|c calls [IHok IH]] using rev_ind.
  { split; [split; [apply NoDup_nil_2|simpl; lia|apply not_elem_of_nil]|].
    intros id Hid. by apply elem_of_nil in Hid. }
  rewrite foldl_app. cbn [foldl]. set (ids := foldl _ [] calls) in *.
  assert (forall id, id ∈ ids -> exists c0 i, c0 ∈ calls ++ [c] /\ (i < 32)%nat /\ hc_result c0 = 0 /\
    hc_request c0 = RPS_IOCTL_CARD_INFO_REQUEST /\
    card_shown (hc_allowed c0) (hc_mem c0) (card_at (hc_arg c0) i) = true /\
    id = card_gpu_id (hc_mem c0) (card_at (hc_arg c0) i)) as Hold.
  { intros id Hid. destruct (IH id Hid) as (c0 & i & Hc & Hrest). exists c0, i. split; [|done].
    apply elem_of_app. by left. }
  destruct (after_ids c ids) as [-> | (Hr & Hq & ->)]; [by split|].
  destruct (record_cards_spec (hc_allowed c) (hc_mem c) (hc_arg c) RPS_NV_MAX_DEVICES ids)
    as (Hok & _ & _ & Helem).
  split; [by apply Hok|]. intros id Hid. apply Helem in Hid as [Hid|(i & Hi & -> & Hs)]; [by apply Hold|].
  exists c, i. split_and!; try done. apply elem_of_app. right. by apply list_elem_of_singleton.
Qed.

(** The controls whose reply is rewritten: the module and its ioctl part are
    on, the allowed set is valid, ids are known, the control succeeded and has
    a parameter block, and it is one of the two requests with a block large
    enough. *)
Definition rm_filtered (cfg : rps_config) (allowed : option rps_gpu_allowed_gpus) (ids : list Z)
    (m : mem) (rm : Z) : Prop :=
  cfg_gpu_video cfg = true /\ cfg_gpu_ioctl cfg = true /\
  (exists a, allowed = Some a /\ al_valid a = true) /\ ids <> [] /\
  rm_status m rm = 0 /\ rm_params m rm <> 0 /\
  (rm_cmd m rm = RPS_NV0000_CTRL_CMD_GPU_GET_ATTACHED_IDS /\ 128 <= rm_paramsSize m rm \/
   rm_cmd m rm = RPS_NV0000_CTRL_CMD_GPU_GET_ACTIVE_DEVICE_IDS /\ 3076 <= rm_paramsSize m rm).

Lemma filter_rm_filtered (cfg : rps_config) (allowed : option rps_gpu_allowed_gpus) (ids : list Z)
    (m : mem) (rm : Z) :
  rps_gpu_filter_rm_control cfg allowed ids rm 0 m <> m -> rm_filtered cfg allowed ids m rm.
Proof.
  unfold rps_gpu_filter_rm_control, rps_gpu_ioctl_filter_enabled, rm_filtered. intros H.
  change (4 * Z.of_nat RPS_NV0000_CTRL_GPU_MAX_ATTACHED_GPUS) with 128 in H.
  change (4 + 12 * Z.of_nat RPS_NV0000_CTRL_GPU_MAX_ACTIVE_DEVICES) with 3076 in H.
  destruct (cfg_gpu_video cfg); [|done]. destruct (cfg_gpu_ioctl cfg); [|done].
  destruct allowed as [a|]; [|done]. destruct (al_valid a) eqn:Ha; [|done].
  destruct (Z.eqb_spec rm 0); [done|]. destruct (Z.eqb_spec (rm_status m rm) 0); [|done].
  destruct (Z.eqb_spec (rm_params m rm) 0); [done|]. cbn [negb andb Z.eqb] in H.
  assert (ids <> []) as Hids.
  { intros ->. unfold rps_gpu_filter_gpu_id_array, rps_gpu_filter_active_devices in H.
    change (RPS_NV0000_CTRL_GPU_MAX_ATTACHED_GPUS =? 0)%nat with false in H.
    revert H. by repeat case_goal. }
  split_and!; try done; [by exists a|].
  destruct (Z.eqb_spec (rm_cmd m rm) RPS_NV0000_CTRL_CMD_GPU_GET_ATTACHED_IDS) as [E1|E1];
    destruct (Z.leb_spec 128 (rm_paramsSize m rm)); cbn [andb] in H; try by left.
  all: destruct (Z.eqb_spec (rm_cmd m rm) RPS_NV0000_CTRL_CMD_GPU_GET_ACTIVE_DEVICE_IDS) as [E2|E2];
    destruct (Z.leb_spec 3076 (rm_paramsSize m rm)); cbn [andb] in H; try done; by right.
Qed.

(** C28: everything else is left alone.  A failed ioctl, a NULL argument, any
    other request, and a control that is not one of the two replies (or whose
    status is an error, whose parameter block is NULL or too small, for which
    no id is known yet, or with the module or its ioctl part off or no valid
    allowed set) leave the known ids and all of memory as they are. *)
Theorem ioctl_untouched (cfg : rps_config) (allowed : option rps_gpu_allowed_gpus)
    (request arg result : Z) (ids : list Z) (m : mem) :
  result <> 0 \/ arg = 0 \/
  (request <> RPS_IOCTL_CARD_INFO_REQUEST /\
   (request <> RPS_IOCTL_RM_CONTROL_REQUEST \/ ~ rm_filtered cfg allowed ids m arg)) ->
  rps_gpu_ioctl_filter_after cfg allowed request arg result (ids, m) = (ids, m).
Proof.
  intros H. unfold rps_gpu_ioctl_filter_after, rps_request_is_card_info, rps_request_is_rm_control.
  destruct (Z.eqb_spec result 0) as [->|]; [|done]. destruct (Z.eqb_spec arg 0) as [->|]; [done|].
  cbn [negb orb]. destruct (Z.eqb_spec request RPS_IOCTL_CARD_INFO_REQUEST); [naive_solver|].
  destruct (Z.eqb_spec request RPS_IOCTL_RM_CONTROL_REQUEST); [|done].
  assert (~ rm_filtered cfg allowed ids m arg) as Hf by naive_solver. f_equal.
  destruct (decide (rps_gpu_filter_rm_control cfg allowed ids arg 0 m = m)) as [|Hm]; [done|].
  by apply filter_rm_filtered in Hm.
Qed.

(** A control that succeeded, but with a block that is too small, and one that
    failed with the status 0x1f, its block filled all the same. *)
Lemma ioctl_untouched_witness :
  let small := sample_rm 0x201 64 (0x100 :: replicate 31 0xffffffff) in
  let failed := store32s 1028 [0x1f] (sample_rm 0x201 128 (0x100 :: replicate 31 0xffffffff)) in
  let after m := rps_gpu_ioctl_filter_after sample_cfg (Some sample_gpu0) RPS_IOCTL_RM_CONTROL_REQUEST
                   1000 0 ([0x200], m) in
  rm_status failed 1000 = 0x1f /\ after small = ([0x200], small) /\ after failed = ([0x200], failed).
Proof.
  intros small failed after. split_and!.
  - vm_compute. reflexivity.
  - apply ioctl_untouched. right. right. split; [vm_compute; discriminate|]. right.
    intros (_ & _ & _ & _ & _ & _ & [[_ H]|[_ H]]); vm_compute in H; by apply H.
  - apply ioctl_untouched. right. right. split; [vm_compute; discriminate|]. right.
    intros (_ & _ & _ & _ & H & _). vm_compute in H. discriminate H.
Defined.
