(* ===== verification/Preload.v ===== *)
(** The decisions of the interposed calls ([preload.c]): encoding memory sizes
    for [sysinfo], which opens are virtualised or denied, how a path relative
    to a tracked descriptor is resolved, which directory entries are shown.
    The interposed calls themselves are in [Hooks]. *)

From S2P Require Import Prelude CString Config Segments ProcFilter FdTable FdTracker.

#[local] Open Scope Z_scope.

(** ** [encode_sysinfo_memory] *)

(** The loop that doubles [scale]; the outer [None] is fuel running out, the
    inner one the result false.  [ULONG_MAX] is the platform's. *)
Fixpoint scale_loop (fuel : nat) (ULONG_MAX total available scale : Z) : option (option Z) :=
  match fuel with
  | O => None
  | S n =>
      if (ULONG_MAX <? total / scale) || (ULONG_MAX <? available / scale) then
        if UINT_MAX / 2 <? scale then Some None
        else scale_loop n ULONG_MAX total available (u64 (Z.shiftl scale 1))
      else Some (Some scale)
  end.

Record sysinfo_memory := SysinfoMemory { si_totalram : Z; si_freeram : Z; si_mem_unit : Z }.

(** [scale] never exceeds [2 ^ 31], so 33 rounds are enough. *)
Definition encode_sysinfo_memory (ULONG_MAX total available : Z) : option (option sysinfo_memory) :=
  r ← scale_loop 33 ULONG_MAX total available 1;
  Some match r with
       | None => None
       | Some scale =>
           if UINT_MAX <? scale then None
           else Some (SysinfoMemory (total / scale) (available / scale) (u32 scale))
       end.

(** ** Flags (the values of x86-64 Linux) *)

Definition O_ACCMODE : Z := 3.
Definition O_RDONLY : Z := 0.
Definition O_WRONLY : Z := 1.
Definition O_CREAT : Z := 0x40.
Definition O_PATH : Z := 0x200000.
Definition O_TMPFILE : Z := 0x410000.
Definition AT_FDCWD : Z := -100.
Definition F_DUPFD : Z := 0.
Definition F_DUPFD_CLOEXEC : Z := 1030.

Definition open_needs_mode (flags : Z) : bool :=
  if negb (Z.land flags O_CREAT =? 0) then true
  else if Z.land flags O_TMPFILE =? O_TMPFILE then true
  else false.

(** [cfg] is what [rps_config_get] returns. *)
Definition should_virtualize_meminfo (cfg : rps_config) (path : option cstr) (flags : Z) : bool :=
  match path with
  | None => false
  | Some p =>
      if negb (streq p (cs "/proc/meminfo")) then false
      else if negb (cfg_cgroup_memory cfg) then false
      else if Z.land flags O_ACCMODE =? O_WRONLY then false
      else if Z.land flags O_PATH =? O_PATH then false
      else true
  end.

Definition meminfo_mode_is_read_only (mode : option cstr) : bool :=
  match mode with
  | None => false
  | Some m => bool_decide (head m = Some "r"%char) &&
              match strchr m "+"%char with None => true | Some _ => false end
  end.

(** ** Paths *)

Definition path_is_absolute (path : option cstr) : bool :=
  match path with None => false | Some p => bool_decide (head p = Some SLASH) end.
Definition path_is_relative (path : option cstr) : bool :=
  match path with None => false | Some p => negb (bool_decide (head p = Some SLASH)) end.

(** The GPU side of the process state: the module switch, the result of the
    start-up detection and the tracked descriptors. *)
Record gpu_state := GpuState {
  gs_video : bool;
  gs_ready : bool;
  gs_allowed : rps_gpu_allowed_gpus;
  gs_nodes : gpu_nodes
}.

Definition gpu_proc_denied (g : gpu_state) (path : option cstr) : bool :=
  gs_video g && gs_ready g && path_is_absolute path &&
  match rps_gpu_proc_path_allowed (Some (gs_allowed g)) path with
  | RPS_GPU_PROC_DENY => true
  | _ => false
  end.

(** The descriptor part of the state after [gpu_trace_and_track_open]. *)
Definition gpu_trace_and_track_open (malloc_ok : bool) (g : gpu_state) (path : option cstr) (fd : Z)
    : gpu_nodes :=
  if negb (gs_video g) then gs_nodes g
  else
    let '(ok, record) := rps_gpu_classify_path path in
    if negb ok then
      if 0 <=? fd then rps_gpu_fd_map_remove fd (gs_nodes g) else gs_nodes g
    else
      if 0 <=? fd then rps_gpu_fd_map_set malloc_ok fd (Some record) (gs_nodes g) else gs_nodes g.

(** ".." below the base directory: [count <= min_count] is a failure. *)
Definition min_count : nat := 4.
Definition pop_above_base (segments : list cstr) : option (list cstr) :=
  if (length segments <=? min_count)%nat then None
  else Some (take (length segments - 1) segments).

(** The segments a tracked directory starts from. *)
Definition record_segments (record : rps_gpu_fd_record) : option (list cstr) :=
  match fr_kind record with
  | RPS_GPU_FD_PROC_GPU_BUS_DIR =>
      if (length (fr_bus_id record) =? 0)%nat then None else Some (base_segs ++ [fr_bus_id record])
  | RPS_GPU_FD_PROC_GPUS_DIR => Some base_segs
  | _ => None
  end.

(** The result and the string in [buffer]. *)
Definition gpu_resolve_relative_proc_path (record : rps_gpu_fd_record) (path : option cstr)
    (buffer_len : nat) : option cstr :=
  match path with
  | None => None
  | Some path =>
      if (buffer_len <? 2)%nat then None
      else
        start ← record_segments record;
        segments ← segment_loop (S (length path)) pop_above_base path start;
        if (length segments <? min_count)%nat then None
        else emit_segments buffer_len segments []
  end.

Inductive rps_gpu_effective_path_result :=
| RPS_GPU_EFFECTIVE_PASSTHROUGH
| RPS_GPU_EFFECTIVE_RESOLVED
| RPS_GPU_EFFECTIVE_DENY.

(** The result and [*out_path] ([buffer] and [out_path] are not NULL). *)
Definition gpu_effective_openat_path (nodes : gpu_nodes) (dirfd : Z) (path : option cstr)
    (buffer_len : nat) : rps_gpu_effective_path_result * option cstr :=
  if negb (path_is_relative path) || (buffer_len =? 0)%nat then (RPS_GPU_EFFECTIVE_PASSTHROUGH, path)
  else match rps_gpu_fd_map_get dirfd nodes with
       | None => (RPS_GPU_EFFECTIVE_PASSTHROUGH, path)
       | Some record =>
           if bool_decide (fr_kind record <> RPS_GPU_FD_PROC_GPUS_DIR) &&
              bool_decide (fr_kind record <> RPS_GPU_FD_PROC_GPU_BUS_DIR)
           then (RPS_GPU_EFFECTIVE_PASSTHROUGH, path)
           else match gpu_resolve_relative_proc_path record path buffer_len with
                | None => (RPS_GPU_EFFECTIVE_DENY, None)
                | Some buffer => (RPS_GPU_EFFECTIVE_RESOLVED, Some buffer)
                end
       end.

Definition gpu_readdir_entry_allowed (g : gpu_state) (dirfd : Z) (name : option cstr) : bool :=
  match name with
  | None => true
  | Some n =>
      if negb (gs_video g) || negb (gs_ready g) then true
      else match rps_gpu_fd_map_get dirfd (gs_nodes g) with
           | None => true
           | Some record =>
               if bool_decide (fr_kind record <> RPS_GPU_FD_PROC_GPUS_DIR) ||
                  streq n (cs ".") || streq n (cs "..") then true
               else rps_gpu_allowed_contains_bus (Some (gs_allowed g)) name
           end
  end.

(** ** [fcntl] commands (the values of x86-64 Linux) *)

Inductive fcntl_arg_kind_t := RPS_FCNTL_ARG_NONE | RPS_FCNTL_ARG_INT | RPS_FCNTL_ARG_PTR.

(** F_DUPFD, F_DUPFD_CLOEXEC, F_SETFD, F_SETFL, F_SETOWN, F_SETSIG,
    F_SETLEASE, F_NOTIFY, F_SETPIPE_SZ, F_ADD_SEALS *)
Definition fcntl_int_cmds : list Z := [0; 1030; 2; 4; 8; 10; 1024; 1026; 1031; 1033].
(** F_GETLK, F_SETLK, F_SETLKW, F_OFD_GETLK, F_OFD_SETLK, F_OFD_SETLKW,
    F_GETOWN_EX, F_SETOWN_EX, F_GET_RW_HINT, F_SET_RW_HINT,
    F_GET_FILE_RW_HINT, F_SET_FILE_RW_HINT *)
Definition fcntl_ptr_cmds : list Z := [5; 6; 7; 36; 37; 38; 16; 15; 1035; 1036; 1037; 1038].

Definition fcntl_arg_kind (cmd : Z) : fcntl_arg_kind_t :=
  if bool_decide (cmd ∈ fcntl_int_cmds) then RPS_FCNTL_ARG_INT
  else if bool_decide (cmd ∈ fcntl_ptr_cmds) then RPS_FCNTL_ARG_PTR
  else RPS_FCNTL_ARG_NONE.

Definition fcntl_duplicates_fd (cmd : Z) : bool :=
  if cmd =? F_DUPFD then true else if cmd =? F_DUPFD_CLOEXEC then true else false.

(** FIOCLEX, FIONCLEX, TIOCEXCL, TIOCNXCL, TIOCNOTTY *)
Definition ioctl_request_has_no_arg (request : Z) : bool :=
  bool_decide (request ∈ [0x5451; 0x5450; 0x540C; 0x540D; 0x5422]).

#[global] Arguments fcntl_arg_kind : simpl never.
#[global] Arguments ioctl_request_has_no_arg : simpl never.

(** ** Lemmas: the scale *)

(** Both sizes fit when counted in units of [scale]. *)
Definition fits (umax total available scale : Z) : bool :=
  (total / scale <=? umax) && (available / scale <=? umax).

Lemma fits_test (umax total available scale : Z) :
  (umax <? total / scale) || (umax <? available / scale) = negb (fits umax total available scale).
Proof.
  unfold fits. destruct (Z.ltb_spec umax (total / scale)), (Z.leb_spec (total / scale) umax),
    (Z.ltb_spec umax (available / scale)), (Z.leb_spec (available / scale) umax); try lia; done.
Qed.

(** Starting from a power of two, the loop stops at the first one that fits,
    or fails when none up to [2 ^ 31] does. *)
Lemma scale_loop_spec (umax total available : Z) (n k : nat) :
  (k <= 31)%nat -> (31 - k < n)%nat ->
  (exists j, (k <= j <= 31)%nat /\ scale_loop n umax total available (2 ^ Z.of_nat k) = Some (Some (2 ^ Z.of_nat j)) /\
     fits umax total available (2 ^ Z.of_nat j) = true /\
     forall i, (k <= i < j)%nat -> fits umax total available (2 ^ Z.of_nat i) = false) \/
  (scale_loop n umax total available (2 ^ Z.of_nat k) = Some None /\
   forall i, (k <= i <= 31)%nat -> fits umax total available (2 ^ Z.of_nat i) = false).
Proof.
  revert k. induction n as [|n IH]; intros k Hk Hn; [lia|]. cbn [scale_loop]. rewrite fits_test.
  destruct (fits umax total available (2 ^ Z.of_nat k)) eqn:E; cbn [negb].
  { left. exists k. split_and!; done || lia. }
  assert (2 ^ Z.of_nat k <= 2 ^ 31) as Hp by (apply Z.pow_le_mono_r; lia).
  assert (0 < 2 ^ Z.of_nat k) as Hp0 by (apply Z.pow_pos_nonneg; lia).
  change (UINT_MAX / 2) with (2 ^ 31 - 1). destruct (Z.ltb_spec (2 ^ 31 - 1) (2 ^ Z.of_nat k)) as [Hb|Hb].
  - right. split; [done|]. intros i Hi.
    assert (31 <= Z.of_nat k) by (apply (Z.pow_le_mono_r_iff 2); lia).
    assert (i = k) as -> by lia. done.
  - assert (k < 31)%nat as Hlt.
    { destruct (decide (k = 31)%nat) as [->|]; [|lia]. simpl in Hb. lia. }
    rewrite u64_small by (rewrite Z.shiftl_mul_pow2 by lia; unfold UINT64_MAX; lia).
    rewrite Z.shiftl_mul_pow2, <-Z.pow_add_r by lia. replace (Z.of_nat k + 1) with (Z.of_nat (S k)) by lia.
    assert (forall i, (k <= i)%nat -> i = k \/ (S k <= i)%nat) as Hsplit by lia.
    destruct (IH (S k)) as [(j & Hj & Hl & Hf & Hmin)|[Hl Hmin]]; [lia|lia| |].
    + left. exists j. split_and!; [lia|lia|done|done|]. intros i [Hi Hij].
      destruct (Hsplit i Hi) as [->|]; [done|]. apply Hmin. lia.
    + right. split; [done|]. intros i [Hi Hij]. destruct (Hsplit i Hi) as [->|]; [done|]. apply Hmin. lia.
Qed.

(** ** Lemmas: relative paths *)

Lemma resolve_above_base (acc segs out : list cstr) :
  resolve pop_above_base acc segs = Some out -> resolve parent acc segs = Some out.
Proof.
  revert acc. induction segs as [|s segs IH]; intros acc; [done|]. cbn [resolve].
  destruct (streq s (cs ".")); [apply IH|]. destruct (streq s (cs "..")).
  - rewrite <-pop_segment_parent. unfold pop_above_base, pop_segment.
    destruct (Nat.leb_spec (length acc) min_count) as [|H]; [done|].
    cbn [mbind option_bind]. unfold min_count in H.
    rewrite (proj2 (Nat.ltb_lt 0 (length acc))) by lia. apply IH.
  - destruct (SEGMENTS_MAX <=? length acc)%nat; [done|apply IH].
Qed.

(** Resolution below the base never leaves it. *)
Lemma resolve_stays (acc segs out : list cstr) :
  (exists more, acc = base_segs ++ more) -> resolve pop_above_base acc segs = Some out ->
  exists more, out = base_segs ++ more.
Proof.
  revert acc. induction segs as [|s segs IH]; intros acc [more ->] H; cbn [resolve] in H.
  { injection H as <-. by exists more. }
  destruct (streq s (cs ".")); [by eapply IH; [|exact H]; exists more|].
  destruct (streq s (cs "..")).
  - unfold pop_above_base in H. destruct (Nat.leb_spec (length (base_segs ++ more)) min_count) as [|Hl]; [done|].
    cbn [mbind option_bind] in H. eapply IH; [|exact H].
    rewrite length_app in *. change (length base_segs) with 4%nat in *. unfold min_count in Hl.
    exists (take (length more - 1) more). rewrite take_app_ge by (change (length base_segs) with 4%nat; lia).
    change (length base_segs) with 4%nat. reflexivity.
  - destruct (SEGMENTS_MAX <=? _)%nat; [done|]. eapply IH; [|exact H]. exists (more ++ [s]).
    by rewrite <-app_assoc.
Qed.

Lemma resolve_prefix (pop : list cstr -> option (list cstr)) (start segs acc : list cstr) :
  Forall plain_segment start -> (length acc + length start <= SEGMENTS_MAX)%nat ->
  resolve pop acc (start ++ segs) = resolve pop (acc ++ start) segs.
Proof.
  intros Hs. revert acc. induction Hs as [|s start (_ & H1 & H2) _ IH]; intros acc Hl; cbn [app].
  { by rewrite app_nil_r. }
  cbn [resolve]. rewrite !(proj2 (streq_neq _ _)) by done. simpl in Hl.
  rewrite (proj2 (Nat.leb_gt SEGMENTS_MAX (length acc))) by lia.
  rewrite IH by (rewrite length_app; simpl; lia). by rewrite <-app_assoc.
Qed.

(** What the tracker guarantees of a record: a GPU directory has a bus id that
    is one segment. *)
Definition record_plain (record : rps_gpu_fd_record) : Prop :=
  fr_kind record = RPS_GPU_FD_PROC_GPU_BUS_DIR -> plain_segment (fr_bus_id record).

Lemma record_segments_plain (record : rps_gpu_fd_record) (start : list cstr) :
  record_plain record -> record_segments record = Some start ->
  Forall plain_segment start /\ (4 <= length start <= 5)%nat /\ exists more, start = base_segs ++ more.
Proof.
  intros Hp H. unfold record_segments in H. pose proof base_segs_plain as Hb.
  destruct (fr_kind record) eqn:Ek; try done.
  - injection H as <-. split_and!; [done|simpl; lia|simpl; lia|]. exists []. by rewrite app_nil_r.
  - destruct (_ =? 0)%nat; [done|].
    assert (start = base_segs ++ [fr_bus_id record]) as -> by congruence. split_and!.
    + apply Forall_app. split; [done|]. apply Forall_singleton. by apply Hp.
    + rewrite length_app. simpl. lia.
    + rewrite length_app. simpl. lia.
    + by exists [fr_bus_id record].
Qed.

Lemma gpu_resolve_eq (record : rps_gpu_fd_record) (path : cstr) (buffer_len : nat) (out : cstr) :
  gpu_resolve_relative_proc_path record (Some path) buffer_len = Some out ->
  exists start segs, record_segments record = Some start /\
    resolve pop_above_base start (tokens SLASH path) = Some segs /\
    (min_count <= length segs)%nat /\ out = render segs /\ (length out < buffer_len)%nat.
Proof.
  unfold gpu_resolve_relative_proc_path. destruct (Nat.ltb_spec buffer_len 2); [done|].
  destruct (record_segments record) as [start|]; [|done]. cbn [mbind option_bind].
  rewrite segment_loop_resolve by lia.
  destruct (resolve pop_above_base start (tokens SLASH path)) as [segs|] eqn:E; [|done]. cbn [mbind option_bind].
  destruct (Nat.ltb_spec (length segs) min_count); [done|].
  rewrite emit_segments_spec by (simpl; lia). cbn [app].
  destruct (Nat.ltb_spec (length (render segs)) buffer_len); [|done]. intros [= <-].
  exists start, segs. done.
Qed.

Lemma classify_record_plain (path : option cstr) (r : rps_gpu_fd_record) :
  rps_gpu_classify_path path = (true, r) -> record_plain r.
Proof.
  destruct path as [path|]; [|done]. intros H Hk.
  destruct (classify_bus_kind path r H) as (segs & Hs & Hb).
  { unfold gpu_bus_kind. by rewrite bool_decide_eq_true_2. }
  apply path_segments_canonical in Hs as [[Hp _] _]. unfold gpu_path_bus in Hb.
  destruct (strip_prefix base_segs segs) as [more|] eqn:E; [|done]. apply strip_prefix_Some in E as ->.
  apply Forall_app in Hp as [_ Hp]. destruct more as [|b [|f [|]]]; try done;
    [destruct (_ <? _)%nat|destruct (_ && _)]; try done; injection Hb as <-; by apply Forall_cons in Hp as [? _].
Qed.

Lemma relative_normalized (opened : option cstr) (record : rps_gpu_fd_record) (start : list cstr)
    (path out : cstr) :
  rps_gpu_classify_path opened = (true, record) -> record_segments record = Some start ->
  gpu_resolve_relative_proc_path record (Some path) RPS_GPU_PATH_MAX = Some out ->
  rps_gpu_proc_normalize_path (Some (render start ++ SLASH :: path)) RPS_GPU_PROC_PATH_MAX = Some out /\
  exists more, out = render (base_segs ++ more).
Proof.
  intros Hc Hs H. apply classify_record_plain in Hc.
  destruct (gpu_resolve_eq _ _ _ _ H) as (start' & segs & Hs' & Hr & Hcount & Ho & Hl).
  assert (start' = start) as -> by congruence.
  destruct (record_segments_plain record start Hc Hs) as (Hp & Hlen & Hbase).
  destruct (resolve_stays start (tokens SLASH path) segs Hbase Hr) as [more ->].
  split; [|by exists more]. change RPS_GPU_PROC_PATH_MAX with RPS_GPU_PATH_MAX.
  rewrite normalize_eq by (unfold RPS_GPU_PATH_MAX; lia).
  assert (head (render start ++ SLASH :: path) = Some SLASH) as -> by by destruct start.
  rewrite bool_decide_eq_true_2 by done.
  rewrite tokens_render_app by by apply plain_tokens.
  rewrite resolve_prefix by (done || (simpl; unfold SEGMENTS_MAX; lia)). cbn [app].
  rewrite (resolve_above_base _ _ _ Hr).
  assert (render_root (base_segs ++ more) = out) as -> by by rewrite Ho.
  by rewrite (proj2 (Nat.ltb_lt (length out) RPS_GPU_PATH_MAX)).
Qed.

(** ** Properties *)

(** C39: the sizes [sysinfo] reports.  For any [unsigned long] of at least 32
    bits and 64-bit sizes, the loop ends; the unit is the smallest power of
    two for which both counts fit, the counts are the sizes rounded down to
    it, and only sizes of [2 ^ 63] bytes or more can make it fail: a cgroup
    limit the shim accepts is below that. *)
Theorem encode_sysinfo_exact (ULONG_MAX total available : Z) :
  UINT_MAX <= ULONG_MAX <= UINT64_MAX -> 0 <= available <= total -> total <= UINT64_MAX ->
  (exists k, (k <= 31)%nat /\
     encode_sysinfo_memory ULONG_MAX total available =
       Some (Some (SysinfoMemory (total / 2 ^ Z.of_nat k) (available / 2 ^ Z.of_nat k) (2 ^ Z.of_nat k))) /\
     total / 2 ^ Z.of_nat k <= ULONG_MAX /\
     forall i, (i < k)%nat -> ULONG_MAX < total / 2 ^ Z.of_nat i) \/
  (encode_sysinfo_memory ULONG_MAX total available = Some None /\ 2 ^ 63 <= total).
Proof.
  intros Hu Ha Ht. unfold encode_sysinfo_memory.
  assert (forall s, 0 < s -> fits ULONG_MAX total available s = (total / s <=? ULONG_MAX)) as Hfits.
  { intros s Hs. unfold fits. destruct (Z.leb_spec (total / s) ULONG_MAX) as [H|H]; [|done].
    apply Z.leb_le. transitivity (total / s); [apply Z.div_le_mono; lia|done]. }
  assert (forall i, 0 < 2 ^ Z.of_nat i) as Hpos by (intros i; apply Z.pow_pos_nonneg; lia).
  change 1 with (2 ^ Z.of_nat 0).
  destruct (scale_loop_spec ULONG_MAX total available 33 0) as [(k & Hk & Hl & Hf & Hmin)|[Hl Hmin]];
    [lia|lia|left|right]; rewrite Hl; cbn [mbind option_bind].
  - exists k. split; [lia|]. rewrite Hfits in Hf by done. apply Z.leb_le in Hf.
    assert (2 ^ Z.of_nat k <= 2 ^ 31) by (apply Z.pow_le_mono_r; lia). specialize (Hpos k).
    rewrite (proj2 (Z.ltb_ge UINT_MAX _)) by (unfold UINT_MAX; lia).
    rewrite u32_small by (unfold UINT_MAX; lia). split_and!; [done|done|].
    intros i Hi. apply Z.leb_gt. rewrite <-Hfits by (apply Z.pow_pos_nonneg; lia). apply Hmin. lia.
  - split; [done|]. specialize (Hmin 31%nat ltac:(lia)). rewrite Hfits in Hmin by done.
    apply Z.leb_gt in Hmin. change (2 ^ Z.of_nat 31) with 2147483648 in Hmin.
    unfold UINT_MAX in Hu. zlia.
Qed.

Lemma encode_sysinfo_exact_witness :
  (exists k, (k <= 31)%nat /\
     encode_sysinfo_memory 4294967295 17179869184 4294967296 =
       Some (Some (SysinfoMemory (17179869184 / 2 ^ Z.of_nat k) (4294967296 / 2 ^ Z.of_nat k) (2 ^ Z.of_nat k))) /\
     17179869184 / 2 ^ Z.of_nat k <= 4294967295 /\
     forall i, (i < k)%nat -> 4294967295 < 17179869184 / 2 ^ Z.of_nat i) \/
  (encode_sysinfo_memory 4294967295 17179869184 4294967296 = Some None /\ 2 ^ 63 <= 17179869184).
Proof. apply (encode_sysinfo_exact 4294967295 17179869184 4294967296); unfold UINT_MAX, UINT64_MAX; lia. Defined.

(** C31: a path relative to a tracked GPU directory is resolved inside it.
    When resolution succeeds, the result is the normalized form of the
    directory's path joined with the relative one (what the same path spelled
    absolutely resolves to), and it lies in the procfs directory of the GPUs:
    ".." cannot lead out of it. *)
Theorem relative_path_contained (opened : option cstr) (record : rps_gpu_fd_record) (start : list cstr)
    (path out : cstr) :
  rps_gpu_classify_path opened = (true, record) -> record_segments record = Some start ->
  gpu_resolve_relative_proc_path record (Some path) RPS_GPU_PATH_MAX = Some out ->
  rps_gpu_proc_normalize_path (Some (render start ++ SLASH :: path)) RPS_GPU_PROC_PATH_MAX = Some out /\
  exists more, out = render (base_segs ++ more).
Proof. apply relative_normalized. Qed.

Lemma relative_path_contained_witness :
  rps_gpu_proc_normalize_path (Some (cs "/proc/driver/nvidia/gpus/0000:01:00.0/../0000:02:00.0")) 256 =
    Some (cs "/proc/driver/nvidia/gpus/0000:02:00.0") /\
  exists more, cs "/proc/driver/nvidia/gpus/0000:02:00.0" = render (base_segs ++ more).
Proof.
  apply (relative_path_contained (Some (cs "/proc/driver/nvidia/gpus/0000:01:00.0"))
    (FdRecord RPS_GPU_FD_PROC_GPU_BUS_DIR (-1) (cs "/proc/driver/nvidia/gpus/0000:01:00.0") (cs "0000:01:00.0"))
    (base_segs ++ [cs "0000:01:00.0"]) (cs "../0000:02:00.0")).
  - vm_compute. reflexivity.
  - reflexivity.
  - vm_compute. reflexivity.
Defined.
