(* ===== verification/Libc.v ===== *)
(** The C library and kernel as the shim calls them: the interface [Libc] of
    the real functions [core/real.c] resolves and of the raw system calls,
    over an abstract type of worlds, with the documented behaviour the
    theorems rely on as laws.  A world holds everything outside the shim's own
    statics: the kernel's state, the process memory, [errno], the
    environment. *)

From S2P Require Import Prelude CString IoctlFilter Dirent Preload.

#[local] Open Scope Z_scope.

Definition ENOENT : Z := 2.
Definition EINTR : Z := 4.
Definition ENOSYS : Z := 38.
Definition EOVERFLOW : Z := 75.

(** The variadic argument of [fcntl]. *)
Inductive fcntl_arg := FcntlNone | FcntlInt (arg : Z) | FcntlPtr (arg : Z).

(** [FILE *] and [DIR *] are handles; a NULL [DIR *] and a NULL entry are
    [None], a NULL [FILE *] is 0.  A directory entry is given by its name, a
    buffer a call fills by its bytes. *)
Class Libc (W : Type) := {
  lc_errno : W -> Z;
  lc_set_errno : Z -> W -> W;
  lc_mem : W -> mem;
  lc_set_mem : mem -> W -> W;
  lc_getenv : W -> cstr -> option cstr;
  (** what opening a file for reading gives, for the shim's own [fopen] calls
      and raw system calls *)
  lc_contents : W -> cstr -> option stream;
  lc_list_dir : W -> cstr -> option (list dents);
  lc_sys_read : nat -> stream -> option (list ascii * stream);
  lc_malloc_ok : W -> bool;
  lc_lock_ok : W -> bool;
  lc_has_symbol : cstr -> bool;                      (* [dlsym(RTLD_NEXT, ...)] *)

  real_open : bool -> option cstr -> Z -> option Z -> M W Z;
  real_openat : bool -> Z -> option cstr -> Z -> option Z -> M W Z;
  real_fopen : bool -> option cstr -> option cstr -> M W Z;
  real_fdopen : Z -> cstr -> M W Z;
  real_close : Z -> M W Z;
  real_read : Z -> Z -> M W (Z * list ascii);
  real_dup : Z -> M W Z;
  real_dup2 : Z -> Z -> M W Z;
  real_dup3 : Z -> Z -> Z -> M W Z;
  real_fcntl : Z -> Z -> fcntl_arg -> M W Z;
  real_sysconf : Z -> M W Z;
  real_sysinfo : bool -> M W (Z * sysinfo_memory);
  real_stat : option cstr -> Z -> M W Z;
  real_fstat : Z -> Z -> M W Z;
  real_ioctl : Z -> Z -> option Z -> M W Z;
  real_opendir : bool -> option cstr -> M W (option Z);
  real_fdopendir : Z -> M W (option Z);
  real_readdir : bool -> Z -> M W (option cstr);
  real_closedir : Z -> M W Z;
  lc_dirfd : W -> Z -> Z;

  sys_newfstatat : Z -> option cstr -> Z -> Z -> M W Z;
  sys_getdents64 : Z -> Z -> M W (Z * list ascii);
  sys_memfd_create : cstr -> Z -> M W Z;
  sys_write : Z -> list ascii -> M W Z;
  sys_lseek : Z -> Z -> Z -> M W Z;

  (** how often a write can still be interrupted, how many entries a
      directory stream still has *)
  lc_interrupts : W -> nat;
  lc_dir_left : W -> Z -> nat;

  (** ** Laws *)
  lc_errno_set : forall e w, lc_errno (lc_set_errno e w) = e;
  (** a write accepts at most the bytes it is given *)
  sys_write_le : forall fd bytes w, (sys_write fd bytes w).1 <= Z.of_nat (length bytes);
  (** interrupted writes are finitely many, other writes do not add any *)
  sys_write_interrupts : forall fd bytes w,
    let '(r, w') := sys_write fd bytes w in
    (lc_interrupts w' <= lc_interrupts w)%nat /\
    (r < 0 -> lc_errno w' = EINTR -> (lc_interrupts w' < lc_interrupts w)%nat);
  (** a directory stream is finite *)
  real_readdir_left : forall b dir w,
    let '(e, w') := real_readdir b dir w in e <> None -> (lc_dir_left w' dir < lc_dir_left w dir)%nat
}.
