(* ===== verification/ToyLibc.v ===== *)
(** A small concrete C library and kernel, an instance of [Libc] on which the
    theorems about the interposed functions are exercised: descriptors are
    given out lowest first, files are fixed byte strings, a directory handle
    is its descriptor. *)

From S2P Require Import Prelude CString IoctlFilter Dirent Memory Preload Libc.

#[local] Open Scope Z_scope.

Record toy := Toy {
  t_errno : Z;
  t_mem : mem;
  t_env : cstr -> option cstr;
  t_files : cstr -> option stream;
  t_dirs : cstr -> option (list cstr);    (* names in a directory *)
  t_fds : list (Z * cstr);                (* open descriptors and their paths *)
  t_streams : list (Z * list cstr)        (* names a directory handle still has *)
}.

Definition toy_set_errno (e : Z) (w : toy) : toy :=
  Toy e (t_mem w) (t_env w) (t_files w) (t_dirs w) (t_fds w) (t_streams w).
Definition toy_set_mem (m : mem) (w : toy) : toy :=
  Toy (t_errno w) m (t_env w) (t_files w) (t_dirs w) (t_fds w) (t_streams w).
Definition toy_set_fds (l : list (Z * cstr)) (w : toy) : toy :=
  Toy (t_errno w) (t_mem w) (t_env w) (t_files w) (t_dirs w) l (t_streams w).
Definition toy_set_streams (l : list (Z * list cstr)) (w : toy) : toy :=
  Toy (t_errno w) (t_mem w) (t_env w) (t_files w) (t_dirs w) (t_fds w) l.

Definition toy_exists (w : toy) (p : cstr) : bool :=
  match t_files w p, t_dirs w p with None, None => false | _, _ => true end.

(** The lowest descriptor from [n] on that is not open. *)
Fixpoint toy_lowest (fuel : nat) (n : Z) (l : list (Z * cstr)) : Z :=
  match fuel with
  | O => n
  | S f => if existsb (fun e => e.1 =? n) l then toy_lowest f (n + 1) l else n
  end.

Definition toy_alloc (p : cstr) : M toy Z := fun w =>
  let fd := toy_lowest (S (length (t_fds w))) 3 (t_fds w) in (fd, toy_set_fds ((fd, p) :: t_fds w) w).

Definition toy_fail (e : Z) : M toy Z := fun w => (-1, toy_set_errno e w).

Definition toy_open (path : option cstr) : M toy Z := fun w =>
  match path with
  | Some p => if toy_exists w p then toy_alloc p w else toy_fail ENOENT w
  | None => toy_fail ENOENT w
  end.

Definition toy_path (fd : Z) (w : toy) : option cstr :=
  snd <$> List.find (fun e => e.1 =? fd) (t_fds w).

Definition toy_close (fd : Z) : M toy Z := fun w =>
  (0, toy_set_fds (List.filter (fun e => negb (e.1 =? fd)) (t_fds w)) w).

Definition toy_read (fd count : Z) : M toy (Z * list ascii) := fun w =>
  match (p ← toy_path fd w; t_files w p) with
  | Some fp => let got := take (Z.to_nat count) (st_data fp) in ((Z.of_nat (length got), got), w)
  | None => ((-1, []), w)
  end.

Definition toy_dup (fd : Z) : M toy Z := fun w =>
  match toy_path fd w with Some p => toy_alloc p w | None => toy_fail 9 w end.

Definition toy_dup2 (oldfd newfd : Z) : M toy Z := fun w =>
  match toy_path oldfd w with
  | Some p =>
      (newfd, toy_set_fds ((newfd, p) :: List.filter (fun e => negb (e.1 =? newfd)) (t_fds w)) w)
  | None => toy_fail 9 w
  end.

(** The duplicating commands; any other returns its argument, as a flag of the
    process would. *)
Definition toy_fcntl (fd cmd : Z) (arg : fcntl_arg) : M toy Z :=
  if (cmd =? 0) || (cmd =? 1030) then toy_dup fd
  else fun w => (match arg with FcntlNone => 0 | FcntlInt a | FcntlPtr a => a end, w).

Definition toy_opendir (path : option cstr) : M toy (option Z) := fun w =>
  match path with
  | Some p =>
      match t_dirs w p with
      | Some names =>
          let '(fd, w) := toy_alloc p w in (Some fd, toy_set_streams ((fd, names) :: t_streams w) w)
      | None => (None, toy_set_errno ENOENT w)
      end
  | None => (None, toy_set_errno ENOENT w)
  end.

Definition toy_left (w : toy) (dir : Z) : list cstr :=
  default [] (snd <$> List.find (fun e => e.1 =? dir) (t_streams w)).

Definition toy_readdir (dir : Z) : M toy (option cstr) := fun w =>
  match toy_left w dir with
  | [] => (None, w)
  | n :: names => (Some n, toy_set_streams ((dir, names) :: t_streams w) w)
  end.

(** One getdents64 call returns the whole listing, in records without
    padding. *)
Definition toy_dirent (name : cstr) : dirent := Dirent (replicate 16 NUL) (ascii_of_nat 4) name [].
Definition toy_getdents (fd : Z) : M toy (Z * list ascii) := fun w =>
  match (p ← toy_path fd w; t_dirs w p) with
  | Some names => let b := encode_dirents (map toy_dirent names) in ((Z.of_nat (length b), b), w)
  | None => ((-1, []), w)
  end.

Definition toy_openat (dirfd : Z) (path : option cstr) : M toy Z := fun w =>
  match path with
  | Some (c :: p) =>
      if char_eqb c SLASH then toy_open path w
      else toy_open ((fun d => d ++ SLASH :: c :: p) <$> toy_path dirfd w) w
  | _ => toy_fail ENOENT w
  end.

Lemma toy_write_le (fd : Z) (bytes : list ascii) (w : toy) : Z.of_nat (length bytes) <= Z.of_nat (length bytes).
Proof. apply Z.le_refl. Qed.

Lemma toy_write_interrupts (fd : Z) (bytes : list ascii) (w : toy) :
  (0 <= 0)%nat /\ (Z.of_nat (length bytes) < 0 -> t_errno w = EINTR -> (0 < 0)%nat).
Proof. split; lia. Qed.

Lemma toy_readdir_left (dir : Z) (w : toy) :
  let '(e, w') := toy_readdir dir w in
  e <> None -> (length (toy_left w' dir) < length (toy_left w dir))%nat.
Proof.
  unfold toy_readdir. destruct (toy_left w dir) as [|n names] eqn:E; [done|]. intros _.
  unfold toy_left at 1. simpl. rewrite Z.eqb_refl. simpl. lia.
Qed.

#[export] Instance toy_libc : Libc toy := {|
  lc_errno := t_errno;
  lc_set_errno := toy_set_errno;
  lc_mem := t_mem;
  lc_set_mem := toy_set_mem;
  lc_getenv := t_env;
  lc_contents := t_files;
  lc_list_dir w p := (fun names => let b := encode_dirents (map toy_dirent names) in [(length b, b)]) <$> t_dirs w p;
  lc_sys_read := sample_read;
  lc_malloc_ok w := true;
  lc_lock_ok w := true;
  lc_has_symbol _ := true;
  real_open _ path _ _ := toy_open path;
  real_openat _ dirfd path _ _ := toy_openat dirfd path;
  real_fopen _ path _ := toy_open path;
  real_fdopen fd _ := fun w => (fd + 1000, w);
  real_close := toy_close;
  real_read := toy_read;
  real_dup := toy_dup;
  real_dup2 := toy_dup2;
  real_dup3 oldfd newfd _ := toy_dup2 oldfd newfd;
  real_fcntl := toy_fcntl;
  real_sysconf name := fun w => (if name =? 30 then 4096 else 65536, w);
  real_sysinfo _ := fun w => ((0, SysinfoMemory 268435456 1048576 1), w);
  real_stat path _ := fun w => if from_option (toy_exists w) false path then (0, w) else toy_fail ENOENT w;
  real_fstat fd _ := fun w => if toy_path fd w is Some _ then (0, w) else toy_fail 9 w;
  real_ioctl _ _ _ := fun w => (0, w);
  real_opendir _ := toy_opendir;
  real_fdopendir fd := fun w => (Some fd, w);
  real_readdir _ := toy_readdir;
  real_closedir dir := toy_close dir;
  lc_dirfd _ dir := dir;
  sys_newfstatat dirfd path _ _ := fun w =>
    if from_option (toy_exists w) false path then (0, w) else toy_fail ENOENT w;
  sys_getdents64 fd _ := toy_getdents fd;
  sys_memfd_create _ _ := toy_alloc (cs "memfd");
  sys_write _ bytes := fun w => (Z.of_nat (length bytes), w);
  sys_lseek _ _ _ := fun w => (0, w);
  lc_interrupts _ := 0%nat;
  lc_dir_left w dir := length (toy_left w dir);
  lc_errno_set e w := eq_refl;
  sys_write_le := toy_write_le;
  sys_write_interrupts := toy_write_interrupts;
  real_readdir_left _ := toy_readdir_left
|}.

(** A container with two GPUs in procfs, one of them mounted, a cgroup of
    1 GiB, and the GPU base directory. *)
Definition toy_files (p : cstr) : option stream :=
  if streq p (cs "/proc/driver/nvidia/gpus/b0/information") then Some (Stream (cs "Device Minor: 0") false)
  else if streq p (cs "/proc/driver/nvidia/gpus/b1/information") then Some (Stream (cs "Device Minor: 1") false)
  else if streq p (cs "/etc/passwd") then Some (Stream (cs "root:x:0:0") false)
  else sample_files p.
Definition toy_dirs (p : cstr) : option (list cstr) :=
  if streq p (cs "/dev") then Some (map cs ["."; "null"; "nvidiactl"; "nvidia1"]%string)
  else if streq p (cs "/proc/driver/nvidia/gpus") then Some (map cs ["."; ".."; "b0"; "b1"]%string)
  else if streq p (cs "/proc/driver/nvidia/gpus/b0") then Some (map cs ["."; ".."; "information"]%string)
  else if streq p (cs "/proc/driver/nvidia/gpus/b1") then Some (map cs ["."; ".."; "information"]%string)
  else if streq p (cs "/etc") then Some (map cs ["passwd"]%string)
  else None.
Definition toy_world : toy := Toy 0 ∅ (fun _ => None) toy_files toy_dirs [] [].
(** The same with both modules switched off by the environment. *)
Definition toy_env_off (name : cstr) : option cstr :=
  if streq name (cs "RUNPOD_SHIM_GPU_VIDEO") || streq name (cs "RUNPOD_SHIM_CGROUP_MEMORY")
  then Some (cs "0") else None.
Definition toy_world_off : toy := Toy 0 ∅ toy_env_off toy_files toy_dirs [] [].

(** The container with no GPU mounted: the detection fails. *)
Definition toy_dirs_unmounted (p : cstr) : option (list cstr) :=
  if streq p (cs "/dev") then Some (map cs ["."; "null"]%string) else toy_dirs p.
Definition toy_world_unmounted : toy := Toy 0 ∅ (fun _ => None) toy_files toy_dirs_unmounted [] [].
