(* ===== verification/Hooks.v ===== *)
(** The interposed functions ([preload.c]): the process state the shim keeps,
    and each function on it, over the real functions of [Libc].

    [rps_trace] only writes to stderr when tracing is on and is left out, as
    are the values it prints.  The three mutexes are taken successfully or not
    as the world says ([lc_lock_ok]). *)

From S2P Require Import Prelude CString Config FdTable FdMap Paths Cgroup Memory Segments ProcFilter.
From S2P Require Import Dirent FdTracker IoctlFilter Preload Libc.

#[local] Open Scope Z_scope.

(** ** State *)

Record shim (W : Type) := Shim {
  sh_world : W;
  sh_config : config_state;
  sh_depth : Z;                  (* the thread's guard *)
  sh_files : list entry;         (* [core/fd_map.c] *)
  sh_nodes : gpu_nodes;          (* [gpu/fd_tracker.c] *)
  sh_ids : list Z;               (* [gpu/ioctl_filter.c] *)
  sh_mem : mem_static;           (* [memory/memory.c] *)
  sh_allowed : rps_gpu_allowed_gpus;
  sh_ready : bool
}.
#[global] Arguments Shim {W}.
#[global] Arguments sh_world {W}.
#[global] Arguments sh_config {W}.
#[global] Arguments sh_depth {W}.
#[global] Arguments sh_files {W}.
#[global] Arguments sh_nodes {W}.
#[global] Arguments sh_ids {W}.
#[global] Arguments sh_mem {W}.
#[global] Arguments sh_allowed {W}.
#[global] Arguments sh_ready {W}.

(** The state a process starts in. *)
Definition shim_start {W : Type} (w : W) : shim W :=
  Shim w config_start 0 entries_start [] [] mem_static_start allowed_zero false.

Definition RPS_MEMINFO_BUFFER_SIZE : nat := N.to_nat 65536.
Definition MFD_CLOEXEC : Z := 1.
Definition SC_PAGESIZE : Z := 30.
Definition SC_PHYS_PAGES : Z := 85.
Definition SC_AVPHYS_PAGES : Z := 86.
Definition ULONG_MAX : Z := UINT64_MAX.

Section hooks.
Context `{Libc W}.

Definition set_world (w : W) (s : shim W) : shim W :=
  Shim w (sh_config s) (sh_depth s) (sh_files s) (sh_nodes s) (sh_ids s) (sh_mem s) (sh_allowed s) (sh_ready s).
Definition set_config (c : config_state) (s : shim W) : shim W :=
  Shim (sh_world s) c (sh_depth s) (sh_files s) (sh_nodes s) (sh_ids s) (sh_mem s) (sh_allowed s) (sh_ready s).
Definition set_depth (d : Z) (s : shim W) : shim W :=
  Shim (sh_world s) (sh_config s) d (sh_files s) (sh_nodes s) (sh_ids s) (sh_mem s) (sh_allowed s) (sh_ready s).
Definition set_files (f : list entry) (s : shim W) : shim W :=
  Shim (sh_world s) (sh_config s) (sh_depth s) f (sh_nodes s) (sh_ids s) (sh_mem s) (sh_allowed s) (sh_ready s).
Definition set_nodes (n : gpu_nodes) (s : shim W) : shim W :=
  Shim (sh_world s) (sh_config s) (sh_depth s) (sh_files s) n (sh_ids s) (sh_mem s) (sh_allowed s) (sh_ready s).
Definition set_ids (i : list Z) (s : shim W) : shim W :=
  Shim (sh_world s) (sh_config s) (sh_depth s) (sh_files s) (sh_nodes s) i (sh_mem s) (sh_allowed s) (sh_ready s).
Definition set_mem (m : mem_static) (s : shim W) : shim W :=
  Shim (sh_world s) (sh_config s) (sh_depth s) (sh_files s) (sh_nodes s) (sh_ids s) m (sh_allowed s) (sh_ready s).
Definition set_gpus (a : rps_gpu_allowed_gpus) (r : bool) (s : shim W) : shim W :=
  Shim (sh_world s) (sh_config s) (sh_depth s) (sh_files s) (sh_nodes s) (sh_ids s) (sh_mem s) a r.

Abbreviation MS := (M (shim W)).

(** ** Calls to the other components *)

Definition real {A : Type} (f : M W A) : MS A := fun s =>
  let '(a, w) := f (sh_world s) in (a, set_world w s).
Definition set_errno (e : Z) : MS unit := fun s => (tt, set_world (lc_set_errno e (sh_world s)) s).

Definition config_get : MS rps_config := fun s =>
  let '(c, st) := rps_config_get (lc_getenv (sh_world s)) (sh_config s) in (c, set_config st s).
Definition gpu_video_enabled : MS bool := fun s =>
  let '(b, st) := rps_gpu_video_enabled (lc_getenv (sh_world s)) (sh_config s) in (b, set_config st s).
Definition gpu_ioctl_enabled : MS bool := fun s =>
  let '(b, st) := rps_gpu_ioctl_enabled (lc_getenv (sh_world s)) (sh_config s) in (b, set_config st s).

Definition guard_enter : MS bool := fun s =>
  let '(b, d) := rps_guard_enter (sh_depth s) in (b, set_depth d s).
Definition guard_leave : MS unit := fun s =>
  let '(_, d) := rps_guard_leave (sh_depth s) in (tt, set_depth d s).

(** The memory module reads its files through [fopen], which is the real one
    while the guard is held (see [HooksMem]). *)
Definition memory_snapshot : MS (option rps_memory_snapshot_t) := fun s =>
  let w := sh_world s in
  let '(r, st) := rps_memory_snapshot (lc_getenv w) (lc_contents w) (lc_lock_ok w) (sh_mem s) in
  (r, set_mem st s).
Definition proc_meminfo_build : MS (option (list ascii * nat)) := fun s =>
  let w := sh_world s in
  let '(r, st) := rps_proc_meminfo_build (lc_getenv w) (lc_contents w) (lc_lock_ok w)
                    RPS_MEMINFO_BUFFER_SIZE (sh_mem s) in
  (r, set_mem st s).

Definition fd_map_put (fd : Z) (data : list ascii) (len : nat) : MS unit := fun s =>
  let w := sh_world s in
  let '(_, t) := rps_fd_map_put (lc_lock_ok w) (lc_malloc_ok w) fd (Some data) (Z.of_nat len) (sh_files s) in
  (tt, set_files t s).
Definition fd_map_take_read (fd count : Z) : MS (option (Z * list ascii)) := fun s =>
  let '(r, t) := rps_fd_map_take_read (lc_lock_ok (sh_world s)) fd false count false (sh_files s) in
  (r, set_files t s).
Definition fd_map_remove (fd : Z) : MS unit := fun s =>
  (tt, set_files (rps_fd_map_remove (lc_lock_ok (sh_world s)) fd (sh_files s)) s).

Definition gpu_fd_map_remove (fd : Z) : MS unit := fun s =>
  (tt, set_nodes (rps_gpu_fd_map_remove fd (sh_nodes s)) s).
Definition gpu_fd_map_copy (oldfd newfd : Z) : MS unit := fun s =>
  (tt, set_nodes (rps_gpu_fd_map_copy (lc_malloc_ok (sh_world s)) oldfd newfd (sh_nodes s)) s).

(** The GPU side of the state, as the decisions of [Preload] take it. *)
Definition gpu_side (video : bool) (s : shim W) : gpu_state :=
  GpuState video (sh_ready s) (sh_allowed s) (sh_nodes s).
Definition proc_denied (path : option cstr) : MS bool :=
  video ← gpu_video_enabled; gets (fun s => gpu_proc_denied (gpu_side video s) path).
Definition trace_and_track_open (path : option cstr) (fd : Z) : MS unit :=
  video ← gpu_video_enabled;
  modify (fun s => set_nodes (gpu_trace_and_track_open (lc_malloc_ok (sh_world s)) (gpu_side video s) path fd) s).

(** ** Start-up *)

Definition runpod_shim_init : MS unit :=
  cfg ← config_get;
  if cfg_gpu_video cfg then
    modify (fun s =>
      let w := sh_world s in
      let '(ready, allowed) := rps_gpu_proc_filter_runtime_init (lc_list_dir w) (lc_contents w)
                                 lc_sys_read None in
      set_gpus allowed ready s)
  else mret tt.

(** ** Opening *)

Definition virtualize_meminfo (path : option cstr) (flags : Z) : MS bool :=
  if bool_decide (path = Some (cs "/proc/meminfo")) then
    cfg ← config_get; mret (should_virtualize_meminfo cfg path flags)
  else mret false.

Definition maybe_attach_meminfo (fd : Z) (path : option cstr) (flags : Z) : MS unit :=
  if fd <? 0 then mret tt
  else
    virtual ← virtualize_meminfo path flags;
    if negb virtual then mret tt
    else
      entered ← guard_enter;
      if negb entered then mret tt
      else
        built ← proc_meminfo_build;
        _ ← match built with
            | Some (meminfo, len) => fd_map_put fd meminfo len
            | None => mret tt
            end;
        guard_leave.

Definition gpu_open_denied_path : MS Z := _ ← set_errno ENOENT; mret (-1).

Definition open_common (path : option cstr) (flags mode : Z) (has_mode use_open64 : bool) : MS Z :=
  denied ← proc_denied path;
  if (denied : bool) then gpu_open_denied_path
  else
    fd ← real (real_open use_open64 path flags (if has_mode then Some mode else None));
    _ ← maybe_attach_meminfo fd path flags;
    _ ← trace_and_track_open path fd;
    mret fd.

Definition shim_open (path : option cstr) (flags mode : Z) : MS Z :=
  open_common path flags mode (open_needs_mode flags) false.
Definition shim_open64 (path : option cstr) (flags mode : Z) : MS Z :=
  open_common path flags mode (open_needs_mode flags) true.

(** [None] when there is no such symbol. *)
Definition openat64_via_next (dirfd : Z) (path : option cstr) (flags : Z) (mode : option Z) : MS (option Z) :=
  if lc_has_symbol (cs "openat64") then fd ← real (real_openat true dirfd path flags mode); mret (Some fd)
  else mret None.

Definition effective_openat_path (dirfd : Z) (path : option cstr)
    : MS (rps_gpu_effective_path_result * option cstr) :=
  gets (fun s => gpu_effective_openat_path (sh_nodes s) dirfd path RPS_GPU_PATH_MAX).

Definition openat_common (dirfd : Z) (path : option cstr) (flags mode : Z) (has_mode use_open64 : bool) : MS Z :=
  '(result, effective_path) ← effective_openat_path dirfd path;
  match result with
  | RPS_GPU_EFFECTIVE_DENY => _ ← set_errno ENOENT; mret (-1)
  | _ =>
      denied ← proc_denied effective_path;
      if (denied : bool) then gpu_open_denied_path
      else
        let mode := if has_mode then Some mode else None in
        fd ← (if use_open64 then
                r ← openat64_via_next dirfd path flags mode;
                match r with
                | Some fd => mret fd
                | None => real (real_openat false dirfd path flags mode)
                end
              else real (real_openat false dirfd path flags mode));
        _ ← (if dirfd =? AT_FDCWD then maybe_attach_meminfo fd path flags else mret tt);
        _ ← (if path_is_absolute effective_path || (dirfd =? AT_FDCWD)
             then trace_and_track_open effective_path fd else mret tt);
        mret fd
  end.

Definition shim_openat (dirfd : Z) (path : option cstr) (flags mode : Z) : MS Z :=
  openat_common dirfd path flags mode (open_needs_mode flags) false.
Definition shim_openat64 (dirfd : Z) (path : option cstr) (flags mode : Z) : MS Z :=
  openat_common dirfd path flags mode (open_needs_mode flags) true.

(** ** Streams *)

(** [None] is fuel running out, which the laws of [sys_write] exclude. *)
Fixpoint write_loop (fuel : nat) (fd : Z) (buf : list ascii) : M W (option bool) :=
  match fuel with
  | O => mret None
  | S n => fun w =>
      match buf with
      | [] => (Some true, w)
      | _ =>
          let '(out, w) := sys_write fd buf w in
          if out <? 0 then
            if lc_errno w =? EINTR then write_loop n fd buf w else (Some false, w)
          else if out =? 0 then (Some false, w)
          else write_loop n fd (drop (Z.to_nat out) buf) w
      end
  end.

Definition write_all_fd (fd : Z) (buf : list ascii) : M W (option bool) := fun w =>
  write_loop (S (lc_interrupts w + length buf)) fd buf w.

Definition fopen_common (path mode : option cstr) (use_fopen64 : bool) : MS Z :=
  if negb (meminfo_mode_is_read_only mode) then real (real_fopen use_fopen64 path mode)
  else
    virtual ← virtualize_meminfo path O_RDONLY;
    if negb virtual then real (real_fopen use_fopen64 path mode)
    else
      entered ← guard_enter;
      if negb entered then real (real_fopen use_fopen64 path mode)
      else
        built ← proc_meminfo_build;
        fp ← match built with
             | Some (meminfo, len) =>
                 fd ← real (sys_memfd_create (cs "runpod-shim-meminfo") MFD_CLOEXEC);
                 if 0 <=? fd then
                   written ← real (write_all_fd fd (take len meminfo));
                   fp ← (if default false written then
                           off ← real (sys_lseek fd 0 0);
                           if off =? 0 then real (real_fdopen fd (cs "r")) else mret 0
                         else mret 0);
                   _ ← (if fp =? 0 then _ ← real (real_close fd); mret tt else mret tt);
                   mret fp
                 else mret 0
             | None => mret 0
             end;
        _ ← guard_leave;
        if negb (fp =? 0) then mret fp else real (real_fopen use_fopen64 path mode).

Definition shim_fopen (path mode : option cstr) : MS Z := fopen_common path mode false.
Definition shim_fopen64 (path mode : option cstr) : MS Z := fopen_common path mode true.

(** ** Descriptors *)

(** [buf] is not NULL. *)
Definition shim_read (fd count : Z) : MS (Z * list ascii) :=
  entered ← guard_enter;
  if negb entered then real (real_read fd count)
  else
    got ← fd_map_take_read fd count;
    _ ← guard_leave;
    match got with
    | Some out => mret out
    | None => real (real_read fd count)
    end.

Definition shim_close (fd : Z) : MS Z :=
  _ ← fd_map_remove fd; _ ← gpu_fd_map_remove fd; real (real_close fd).

Definition shim_dup (oldfd : Z) : MS Z :=
  rc ← real (real_dup oldfd);
  _ ← (if 0 <=? rc then gpu_fd_map_copy oldfd rc else mret tt);
  mret rc.

Definition shim_dup2 (oldfd newfd : Z) : MS Z :=
  rc ← real (real_dup2 oldfd newfd);
  _ ← (if (0 <=? rc) && negb (oldfd =? newfd) then
         _ ← fd_map_remove newfd; gpu_fd_map_copy oldfd newfd else mret tt);
  mret rc.

Definition shim_dup3 (oldfd newfd flags : Z) : MS Z :=
  rc ← real (real_dup3 oldfd newfd flags);
  _ ← (if 0 <=? rc then _ ← fd_map_remove newfd; gpu_fd_map_copy oldfd newfd else mret tt);
  mret rc.

(** The variadic argument, as far as the command has one. *)
Definition shim_fcntl (fd cmd arg : Z) : MS Z :=
  let a := match fcntl_arg_kind cmd with
           | RPS_FCNTL_ARG_INT => FcntlInt (i32 arg)
           | RPS_FCNTL_ARG_PTR => FcntlPtr arg
           | RPS_FCNTL_ARG_NONE => FcntlNone
           end in
  rc ← real (real_fcntl fd cmd a);
  _ ← (if (0 <=? rc) && fcntl_duplicates_fd cmd then gpu_fd_map_copy fd rc else mret tt);
  mret rc.

(** ** Status *)

Definition shim_stat (path : option cstr) (statbuf : Z) : MS Z :=
  denied ← proc_denied path;
  if (denied : bool) then _ ← set_errno ENOENT; mret (-1) else real (real_stat path statbuf).

Definition shim_fstat (fd statbuf : Z) : MS Z := real (real_fstat fd statbuf).

Definition fstatat_common (dirfd : Z) (path : option cstr) (statbuf flags : Z) : MS Z :=
  '(result, effective_path) ← effective_openat_path dirfd path;
  match result with
  | RPS_GPU_EFFECTIVE_DENY => _ ← set_errno ENOENT; mret (-1)
  | _ =>
      denied ← proc_denied effective_path;
      if (denied : bool) then _ ← set_errno ENOENT; mret (-1)
      else real (sys_newfstatat dirfd path statbuf flags)
  end.

(** ** Directories *)

(** [None] when there is no such symbol. *)
Definition opendir64_via_next (path : option cstr) : MS (option (option Z)) :=
  if lc_has_symbol (cs "opendir64") then dir ← real (real_opendir true path); mret (Some dir)
  else mret None.

Definition opendir_common (path : option cstr) (use_opendir64 : bool) : MS (option Z) :=
  denied ← proc_denied path;
  if (denied : bool) then _ ← set_errno ENOENT; mret None
  else
    dir ← (if use_opendir64 then
             r ← opendir64_via_next path;
             match r with
             | Some dir => mret dir
             | None => real (real_opendir false path)
             end
           else real (real_opendir false path));
    match dir with
    | Some d => fd ← gets (fun s => lc_dirfd (sh_world s) d); _ ← trace_and_track_open path fd; mret dir
    | None => mret dir
    end.

Definition shim_fdopendir (fd : Z) : MS (option Z) :=
  if lc_has_symbol (cs "fdopendir") then real (real_fdopendir fd)
  else _ ← set_errno ENOSYS; mret None.

Definition shim_closedir (dirp : Z) : MS Z :=
  fd ← gets (fun s => lc_dirfd (sh_world s) dirp);
  rc ← real (real_closedir dirp);
  _ ← (if (rc =? 0) && (0 <=? fd) then gpu_fd_map_remove fd else mret tt);
  mret rc.

Definition readdir_entry_allowed (fd : Z) (name : cstr) : MS bool :=
  video ← gpu_video_enabled; gets (fun s => gpu_readdir_entry_allowed (gpu_side video s) fd (Some name)).

(** The loop; [entry] is the last entry read.  The outer [None] is fuel
    running out, which the law of [real_readdir] excludes. *)
Fixpoint readdir_loop (fuel : nat) (b64 : bool) (dirp fd : Z) (entry : cstr) : MS (option (option cstr)) :=
  match fuel with
  | O => mret None
  | S n =>
      allowed ← readdir_entry_allowed fd entry;
      if (allowed : bool) then mret (Some (Some entry))
      else
        e ← real (real_readdir b64 dirp);
        match e with
        | None => mret (Some None)
        | Some entry => readdir_loop n b64 dirp fd entry
        end
  end.

Definition readdir_common (b64 : bool) (dirp : Z) : MS (option (option cstr)) :=
  e ← real (real_readdir b64 dirp);
  match e with
  | None => mret (Some None)
  | Some entry =>
      fd ← gets (fun s => lc_dirfd (sh_world s) dirp);
      fuel ← gets (fun s => S (lc_dir_left (sh_world s) dirp));
      readdir_loop fuel b64 dirp fd entry
  end.

Definition shim_readdir (dirp : Z) : MS (option (option cstr)) := readdir_common false dirp.
Definition shim_readdir64 (dirp : Z) : MS (option (option cstr)) :=
  if lc_has_symbol (cs "readdir64") then readdir_common true dirp
  else _ ← set_errno ENOSYS; mret (Some None).

(** The result and the bytes in the caller's buffer. *)
Definition shim_getdents64 (fd count : Z) : MS (Z * list ascii) :=
  '(result, dirp) ← real (sys_getdents64 fd count);
  if 0 <? result then
    video ← gpu_video_enabled;
    gets (fun s =>
      if video && sh_ready s then
        match rps_gpu_fd_map_get fd (sh_nodes s) with
        | Some record =>
            if bool_decide (fr_kind record = RPS_GPU_FD_PROC_GPUS_DIR)
            then default (result, dirp) (rps_gpu_filter_dirent64_buffer dirp result (Some (sh_allowed s)))
            else (result, dirp)
        | None => (result, dirp)
        end
      else (result, dirp))
  else mret (result, dirp).

(** ** [ioctl] *)

Definition shim_ioctl (fd request arg : Z) : MS Z :=
  let no_arg := ioctl_request_has_no_arg request in
  let arg := if no_arg then 0 else arg in
  result ← real (real_ioctl fd request (if no_arg then None else Some arg));
  enabled ← gpu_ioctl_enabled;
  if (enabled : bool) then
    cfg ← config_get;
    modify (fun s =>
      match rps_gpu_fd_map_get fd (sh_nodes s) with
      | Some record =>
          if bool_decide (fr_kind record = RPS_GPU_FD_NVIDIA_CTL) then
            let '(ids, m) := rps_gpu_ioctl_filter_after cfg
              (if sh_ready s then Some (sh_allowed s) else None) request arg result
              (sh_ids s, lc_mem (sh_world s)) in
            set_ids ids (set_world (lc_set_mem m (sh_world s)) s)
          else s
      | None => s
      end);;
    mret result
  else mret result.

(** ** Memory sizes *)

(** The result and [*info], of which the three memory fields the source
    writes are modelled: totalram, freeram and mem_unit. *)
Definition shim_sysinfo (info_null : bool) : MS (Z * sysinfo_memory) :=
  '(rc, info) ← real (real_sysinfo info_null);
  if negb (rc =? 0) || info_null then mret (rc, info)
  else
    cfg ← config_get;
    if negb (cfg_cgroup_memory cfg) then mret (rc, info)
    else
      entered ← guard_enter;
      if negb entered then mret (rc, info)
      else
        snapshot ← memory_snapshot;
        let info := match snapshot with
                    | None => info
                    | Some s =>
                        match encode_sysinfo_memory ULONG_MAX (snap_total s) (snap_available s) with
                        | Some (Some m) => m
                        | _ => info
                        end
                    end in
        _ ← guard_leave;
        mret (rc, info).

Definition shim_sysconf (name : Z) : MS Z :=
  if negb (name =? SC_PHYS_PAGES) && negb (name =? SC_AVPHYS_PAGES) then real (real_sysconf name)
  else
    cfg ← config_get;
    if negb (cfg_cgroup_memory cfg) then real (real_sysconf name)
    else
      entered ← guard_enter;
      if negb entered then real (real_sysconf name)
      else
        page_size ← real (real_sysconf SC_PAGESIZE);
        snapshot ← (if page_size <=? 0 then mret None else memory_snapshot);
        match snapshot with
        | None => _ ← guard_leave; real (real_sysconf name)
        | Some s =>
            let bytes := if name =? SC_PHYS_PAGES then snap_total s else snap_available s in
            let pages := bytes / page_size in
            if LONG_MAX <? pages then _ ← guard_leave; _ ← set_errno EOVERFLOW; mret (-1)
            else _ ← guard_leave; mret pages
        end.

End hooks.
