(* ===== verification/HooksInv.v ===== *)
(** The invariant of the shim's process state: every interposed function,
    whatever the real functions do, keeps both descriptor tables, the learnt
    gpu ids and the cached cgroup well formed and gives the guard back. *)

From S2P Require Import Prelude CString Config FdTable FdMap Paths Cgroup Memory Segments ProcFilter.
From S2P Require Import Dirent FdTracker IoctlFilter Preload Libc ToyLibc Hooks.

#[local] Open Scope Z_scope.

(** ** The calls a process makes *)

Inductive call :=
| COpen (use64 : bool) (path : option cstr) (flags mode : Z)
| COpenat (use64 : bool) (dirfd : Z) (path : option cstr) (flags mode : Z)
| CFopen (use64 : bool) (path mode : option cstr)
| CRead (fd count : Z)
| CClose (fd : Z)
| CDup (oldfd : Z)
| CDup2 (oldfd newfd : Z)
| CDup3 (oldfd newfd flags : Z)
| CFcntl (fd cmd arg : Z)
| CStat (path : option cstr) (statbuf : Z)
| CFstat (fd statbuf : Z)
| CFstatat (dirfd : Z) (path : option cstr) (statbuf flags : Z)
| COpendir (use64 : bool) (path : option cstr)
| CFdopendir (fd : Z)
| CClosedir (dirp : Z)
| CReaddir (b64 : bool) (dirp : Z)
| CGetdents64 (fd count : Z)
| CIoctl (fd request arg : Z)
| CSysinfo (info_null : bool)
| CSysconf (name : Z).

Inductive result :=
| RInt (rc : Z)
| RBytes (out : Z * list ascii)
| RDir (dir : option Z)
| REntry (entry : option (option cstr))
| RSysinfo (out : Z * sysinfo_memory).

(** A byte count is a [size_t]. *)
Definition call_ok (c : call) : Prop :=
  match c with CRead _ count => 0 <= count <= UINT64_MAX | _ => True end.

(** Every record in the list is the classification of some path. *)
Definition classified (nodes : gpu_nodes) : Prop :=
  Forall (fun node => exists path, rps_gpu_classify_path path = (true, node.2)) nodes.

Lemma set_classified (malloc_ok : bool) (fd : Z) (path : option cstr) (r : rps_gpu_fd_record) (nodes : gpu_nodes) :
  rps_gpu_classify_path path = (true, r) -> classified nodes ->
  classified (rps_gpu_fd_map_set malloc_ok fd (Some r) nodes).
Proof.
  intros Hr Hn. unfold rps_gpu_fd_map_set. destruct (fd <? 0); [done|].
  destruct (find_index _ _); [apply Forall_insert; [done|by exists path]|].
  destruct malloc_ok; [|done]. constructor; [by exists path|done].
Qed.

Lemma remove_classified (fd : Z) (nodes : gpu_nodes) :
  classified nodes -> classified (rps_gpu_fd_map_remove fd nodes).
Proof.
  intros Hn. unfold rps_gpu_fd_map_remove. destruct (fd <? 0); [done|].
  destruct (find_index _ _); [by apply Forall_delete|done].
Qed.

Lemma copy_classified (malloc_ok : bool) (oldfd newfd : Z) (nodes : gpu_nodes) :
  classified nodes -> classified (rps_gpu_fd_map_copy malloc_ok oldfd newfd nodes).
Proof.
  intros Hn. unfold rps_gpu_fd_map_copy. destruct (_ || _); [done|]. cbv zeta.
  destruct (last_index oldfd nodes ≫= _) as [[o r]|] eqn:E.
  - assert (exists path, rps_gpu_classify_path path = (true, r)) as [path Hp].
    { apply bind_Some in E as (i & _ & Hi). unfold classified in Hn. rewrite Forall_lookup in Hn.
      by apply (Hn i (o, r)). }
    destruct (last_index newfd nodes); [apply Forall_insert; [done|by exists path]|].
    destruct malloc_ok; [|done]. constructor; [by exists path|done].
  - destruct (last_index newfd nodes); [by apply Forall_delete|done].
Qed.

(** The GPUs allowed after the detection at start-up. *)
Definition allowed_wf (ready : bool) (a : rps_gpu_allowed_gpus) : Prop :=
  al_valid a = ready /\ al_count a = length (al_gpus a).

Lemma init_allowed_wf open_dir open_file sys_read (explicit_uuid : option cstr) :
  let '(ok, a) := rps_gpu_proc_filter_runtime_init open_dir open_file sys_read explicit_uuid in allowed_wf ok a.
Proof.
  unfold rps_gpu_proc_filter_runtime_init, rps_gpu_build_allowed_gpus.
  destruct (rps_gpu_collect_gpu_infos _ _ _ _); [done|]. by destruct (rps_gpu_collect_mounted_minors _ _).
Qed.

Section calls.
Context `{Libc W}.

Definition hook (c : call) : M (shim W) result :=
  match c with
  | COpen b path flags mode => r ← (if b then shim_open64 path flags mode else shim_open path flags mode); mret (RInt r)
  | COpenat b dirfd path flags mode =>
      r ← (if b then shim_openat64 dirfd path flags mode else shim_openat dirfd path flags mode); mret (RInt r)
  | CFopen b path mode => r ← (if b then shim_fopen64 path mode else shim_fopen path mode); mret (RInt r)
  | CRead fd count => r ← shim_read fd count; mret (RBytes r)
  | CClose fd => r ← shim_close fd; mret (RInt r)
  | CDup oldfd => r ← shim_dup oldfd; mret (RInt r)
  | CDup2 oldfd newfd => r ← shim_dup2 oldfd newfd; mret (RInt r)
  | CDup3 oldfd newfd flags => r ← shim_dup3 oldfd newfd flags; mret (RInt r)
  | CFcntl fd cmd arg => r ← shim_fcntl fd cmd arg; mret (RInt r)
  | CStat path statbuf => r ← shim_stat path statbuf; mret (RInt r)
  | CFstat fd statbuf => r ← shim_fstat fd statbuf; mret (RInt r)
  | CFstatat dirfd path statbuf flags => r ← fstatat_common dirfd path statbuf flags; mret (RInt r)
  | COpendir b path => r ← opendir_common path b; mret (RDir r)
  | CFdopendir fd => r ← shim_fdopendir fd; mret (RDir r)
  | CClosedir dirp => r ← shim_closedir dirp; mret (RInt r)
  | CReaddir b dirp => r ← (if b then shim_readdir64 dirp else shim_readdir dirp); mret (REntry r)
  | CGetdents64 fd count => r ← shim_getdents64 fd count; mret (RBytes r)
  | CIoctl fd request arg => r ← shim_ioctl fd request arg; mret (RInt r)
  | CSysinfo null => r ← shim_sysinfo null; mret (RSysinfo r)
  | CSysconf name => r ← shim_sysconf name; mret (RInt r)
  end.

(** A process: start-up, calls, and anything the outside world does in
    between. *)
Inductive reachable : shim W -> Prop :=
| reach_init w : reachable (runpod_shim_init (shim_start w)).2
| reach_call s c r s' : reachable s -> call_ok c -> hook c s = (r, s') -> reachable s'
| reach_world s w : reachable s -> reachable (set_world w s).

(** ** The invariant *)

Record shim_inv (s : shim W) : Prop := {
  inv_files : table_wf (sh_files s);
  inv_nodes : nodes_wf (sh_nodes s);
  inv_ids : ids_ok (sh_ids s);
  inv_mem : mem_static_wf (sh_mem s);
  inv_config : cs_initialized (sh_config s) = true;
  inv_records : classified (sh_nodes s);
  inv_allowed : allowed_wf (sh_ready s) (sh_allowed s)
}.

(** The function keeps the invariant and the guard. *)
Definition keeps {A : Type} (m : M (shim W) A) : Prop :=
  forall s, shim_inv s -> shim_inv (m s).2 /\ sh_depth (m s).2 = sh_depth s.

(** The rest of a function that holds the guard: it gives it back. *)
Definition leaves {A : Type} (m : M (shim W) A) : Prop :=
  forall s, shim_inv s -> sh_depth s = 1 -> shim_inv (m s).2 /\ sh_depth (m s).2 = 0.

Lemma keeps_ret {A : Type} (a : A) : keeps (mret a).
Proof. intros s Hs. done. Qed.

Lemma keeps_bind {A B : Type} (m : M (shim W) A) (k : A -> M (shim W) B) :
  keeps m -> (forall a, keeps (k a)) -> keeps (m ≫= k).
Proof.
  intros Hm Hk s Hs. unfold mbind, M_bind. destruct (Hm s Hs) as [H1 H2].
  destruct (m s) as [a s1]. cbn [fst snd] in *. destruct (Hk a s1 H1) as [H3 H4]. split; [done|congruence].
Qed.

Lemma leaves_bind {A B : Type} (m : M (shim W) A) (k : A -> M (shim W) B) :
  keeps m -> (forall a, leaves (k a)) -> leaves (m ≫= k).
Proof.
  intros Hm Hk s Hs Hd. unfold mbind, M_bind. destruct (Hm s Hs) as [H1 H2].
  destruct (m s) as [a s1]. cbn [fst snd] in *. apply (Hk a s1 H1). congruence.
Qed.

Lemma leaves_guard : leaves guard_leave.
Proof. intros s Hs Hd. unfold guard_leave. rewrite Hd, guard_leave_one. split; [by destruct Hs; constructor|done]. Qed.

Lemma leaves_guard_bind {A : Type} (k : unit -> M (shim W) A) :
  (forall a, keeps (k a)) -> leaves (guard_leave ≫= k).
Proof.
  intros Hk s Hs Hd. unfold mbind, M_bind. destruct (leaves_guard s Hs Hd) as [H1 H2].
  destruct (guard_leave s) as [a s1]. cbn [fst snd] in *. destruct (Hk a s1 H1) as [H3 H4].
  split; [done|congruence].
Qed.

(** The shape of every guarded function. *)
Lemma keeps_guarded {A : Type} (no yes : M (shim W) A) :
  keeps no -> leaves yes -> keeps (entered ← guard_enter; if negb entered then no else yes).
Proof.
  intros Hno Hyes s Hs. unfold mbind, M_bind, guard_enter.
  destruct (decide (sh_depth s = 0)) as [H0|H0].
  - rewrite H0, guard_enter_free. cbn [negb].
    destruct (Hyes (set_depth 1 s)) as [H1 H2]; [by destruct Hs; constructor|done|]. done.
  - rewrite guard_enter_busy by done. cbn [negb].
    destruct (Hno (set_depth (sh_depth s) s)) as [H1 H2]; [by destruct Hs; constructor|]. done.
Qed.

(** ** The calls to the components *)

Lemma keeps_gets {A : Type} (f : shim W -> A) : keeps (gets f).
Proof. intros s Hs. done. Qed.

Lemma keeps_real {A : Type} (f : M W A) : keeps (real f).
Proof. intros s Hs. unfold real. destruct (f (sh_world s)). split; [by destruct Hs; constructor|done]. Qed.

Lemma keeps_set_errno (e : Z) : keeps (set_errno e).
Proof. intros s Hs. split; [by destruct Hs; constructor|done]. Qed.

(** The configuration is fixed from start-up on. *)
Lemma config_get_init (s : shim W) :
  cs_initialized (sh_config s) = true -> config_get s = (cs_config (sh_config s), s).
Proof.
  intros Hi. unfold config_get. rewrite config_get_initialized by done. by destruct s.
Qed.

Lemma config_video_eq (s : shim W) :
  cs_initialized (sh_config s) = true -> gpu_video_enabled s = (cfg_gpu_video (cs_config (sh_config s)), s).
Proof.
  intros Hi. unfold gpu_video_enabled, rps_gpu_video_enabled, mbind, M_bind.
  rewrite config_get_initialized by done. by destruct s.
Qed.

Lemma config_ioctl_eq (s : shim W) :
  cs_initialized (sh_config s) = true ->
  gpu_ioctl_enabled s = (cfg_gpu_video (cs_config (sh_config s)) && cfg_gpu_ioctl (cs_config (sh_config s)), s).
Proof.
  intros Hi. unfold gpu_ioctl_enabled, rps_gpu_ioctl_enabled, mbind, M_bind.
  rewrite config_get_initialized by done. by destruct s.
Qed.

Lemma keeps_config_get : keeps config_get.
Proof. intros s Hs. by rewrite config_get_init by apply Hs. Qed.

Lemma keeps_memory_snapshot : keeps memory_snapshot.
Proof.
  intros s Hs. unfold memory_snapshot. destruct (rps_memory_snapshot _ _ _ _) as [r st] eqn:E.
  split; [|done]. destruct Hs as [H1 H2 H3 H4 H5 H6 H7]. split; try done. by apply (snapshot_spec _ _ _ _ _ _ H4 E).
Qed.

(** What building returns is a well-formed argument for the table. *)
Lemma keeps_build {A : Type} (k : option (list ascii * nat) -> M (shim W) A) (P : forall B, M (shim W) B -> Prop) :
  P = (fun B => keeps) \/ P = (fun B => leaves) ->
  (forall out, (length out <= RPS_MEMINFO_BUFFER_SIZE)%nat -> P A (k (Some (out, length out)))) ->
  P A (k None) -> P A (proc_meminfo_build ≫= k).
Proof.
  intros HP Hsome Hnone.
  assert (forall s, shim_inv s -> exists st, mem_static_wf st /\
    exists r, proc_meminfo_build s = (r, set_mem st s) /\
    (r = None \/ exists out, r = Some (out, length out) /\ (length out <= RPS_MEMINFO_BUFFER_SIZE)%nat)) as Hb.
  { intros s [_ _ _ Hm]. unfold proc_meminfo_build.
    pose proof (meminfo_build_spec (lc_getenv (sh_world s)) (lc_contents (sh_world s))
      (lc_lock_ok (sh_world s)) RPS_MEMINFO_BUFFER_SIZE (sh_mem s) Hm) as Hspec.
    destruct (rps_memory_snapshot _ _ _ _) as [r st] eqn:E. rewrite Hspec.
    exists st. split; [by apply (snapshot_spec _ _ _ _ _ _ Hm E)|]. eexists. split; [done|].
    destruct r as [snap|]; [|by left]. destruct (open_meminfo _ _) as [fp|]; [|by left]. cbv zeta.
    set (out := rewrite_meminfo _ _ fp).
    destruct (Nat.leb_spec (length out) RPS_MEMINFO_BUFFER_SIZE); [|by left].
    destruct (negb (st_err fp)); [right; by eexists|by left]. }
  destruct HP as [-> | ->]; intros s Hs; [|intros Hd];
    (destruct (Hb s Hs) as (st & Hst & r & Hr & Hcase); unfold mbind, M_bind; rewrite Hr;
     assert (shim_inv (set_mem st s)) as Hs' by (by destruct Hs; constructor);
     destruct Hcase as [->|(out & -> & Hl)]; [first [exact (Hnone _ Hs')|exact (Hnone _ Hs' Hd)]|first [exact (Hsome out Hl _ Hs')|exact (Hsome out Hl _ Hs' Hd)]]).
Qed.

Lemma keeps_fd_map_put (fd : Z) (out : list ascii) :
  (length out <= RPS_MEMINFO_BUFFER_SIZE)%nat -> keeps (fd_map_put fd out (length out)).
Proof.
  intros Hl s [H1 H2 H3 H4 H5 H6 H7]. unfold fd_map_put.
  assert (table_wf (rps_fd_map_put (lc_lock_ok (sh_world s)) (lc_malloc_ok (sh_world s)) fd (Some out)
    (Z.of_nat (length out)) (sh_files s)).2) as Hwf.
  { apply put_wf; [done|]. unfold RPS_MEMINFO_BUFFER_SIZE in Hl. split; [unfold UINT64_MAX; lia|lia]. }
  destruct (rps_fd_map_put _ _ _ _ _ _). by split.
Qed.

Lemma keeps_fd_map_take_read (fd count : Z) : 0 <= count <= UINT64_MAX -> keeps (fd_map_take_read fd count).
Proof.
  intros Hc s [H1 H2 H3 H4 H5 H6 H7]. unfold fd_map_take_read.
  pose proof (read_wf (lc_lock_ok (sh_world s)) fd count false (sh_files s) H1 Hc) as Hwf.
  destruct (rps_fd_map_take_read _ _ _ _ _ _). by split.
Qed.

Lemma keeps_fd_map_remove (fd : Z) : keeps (fd_map_remove fd).
Proof. intros s [H1 H2 H3 H4 H5 H6 H7]. split; [|done]. split; try done. by apply remove_wf. Qed.

Lemma keeps_gpu_fd_map_remove (fd : Z) : keeps (gpu_fd_map_remove fd).
Proof. intros s [H1 H2 H3 H4 H5 H6 H7]. split; [|done]. split; try done; [by apply gpu_remove_refines|by apply remove_classified]. Qed.

Lemma keeps_gpu_fd_map_copy (oldfd newfd : Z) : keeps (gpu_fd_map_copy oldfd newfd).
Proof. intros s [H1 H2 H3 H4 H5 H6 H7]. split; [|done]. split; try done; [by apply gpu_copy_refines|by apply copy_classified]. Qed.

Lemma keeps_modify_nodes (f : shim W -> gpu_nodes) :
  (forall s, nodes_wf (sh_nodes s) -> nodes_wf (f s)) ->
  (forall s, classified (sh_nodes s) -> classified (f s)) -> keeps (modify (fun s => set_nodes (f s) s)).
Proof. intros Hf Hc s [H1 H2 H3 H4 H5 H6 H7]. split; [|done]. split; try done; [by apply Hf|by apply Hc]. Qed.

Lemma track_open_wf (malloc_ok : bool) (g : gpu_state) (path : option cstr) (fd : Z) :
  nodes_wf (gs_nodes g) -> nodes_wf (gpu_trace_and_track_open malloc_ok g path fd).
Proof.
  intros Hwf. unfold gpu_trace_and_track_open. destruct (negb (gs_video g)); [done|].
  destruct (rps_gpu_classify_path path) as [[] r]; cbn [negb]; (destruct (0 <=? fd); [|done]).
  - by apply gpu_set_refines.
  - by apply gpu_remove_refines.
Qed.

Lemma track_open_classified (malloc_ok : bool) (g : gpu_state) (path : option cstr) (fd : Z) :
  classified (gs_nodes g) -> classified (gpu_trace_and_track_open malloc_ok g path fd).
Proof.
  intros Hn. unfold gpu_trace_and_track_open. destruct (negb (gs_video g)); [done|].
  destruct (rps_gpu_classify_path path) as [[] r] eqn:E; cbn [negb]; (destruct (0 <=? fd); [|done]).
  - by apply (set_classified _ _ path).
  - by apply remove_classified.
Qed.

Lemma ioctl_ids_ok (cfg : rps_config) (allowed : option rps_gpu_allowed_gpus) (request arg result : Z)
    (ids : list Z) (m : mem) :
  ids_ok ids -> ids_ok (rps_gpu_ioctl_filter_after cfg allowed request arg result (ids, m)).1.
Proof.
  intros Hids. pose proof (after_ids (HookCall cfg allowed request arg result m) ids) as Hc.
  cbv zeta in Hc. cbn [hc_cfg hc_allowed hc_request hc_arg hc_result hc_mem] in Hc.
  destruct Hc as [->|(_ & _ & ->)]; [done|].
  by apply record_cards_spec.
Qed.

(** ** Every function *)

Ltac keeps_step :=
  match goal with
  | |- keeps (mret _) => apply keeps_ret
  | |- keeps (gets _) => apply keeps_gets
  | |- keeps (real _) => apply keeps_real
  | |- keeps (set_errno _) => apply keeps_set_errno
  | |- keeps config_get => apply keeps_config_get
  | |- keeps memory_snapshot => apply keeps_memory_snapshot
  | |- keeps (fd_map_put _ _ _) => apply keeps_fd_map_put; assumption
  | |- keeps (fd_map_take_read _ _) => apply keeps_fd_map_take_read; assumption
  | |- keeps (fd_map_remove _) => apply keeps_fd_map_remove
  | |- keeps (gpu_fd_map_remove _) => apply keeps_gpu_fd_map_remove
  | |- keeps (gpu_fd_map_copy _ _) => apply keeps_gpu_fd_map_copy
  | |- keeps (guard_enter ≫= _) => apply keeps_guarded
  | |- leaves (proc_meminfo_build ≫= _) =>
      apply (keeps_build _ (fun B => leaves)); [by right|intros|]
  | |- leaves guard_leave => apply leaves_guard
  | |- leaves (guard_leave ≫= _) => apply leaves_guard_bind; intros
  | |- leaves (_ ≫= _) => apply leaves_bind; [|intros]
  | |- keeps (_ ≫= _) => apply keeps_bind; [|intros]
  | |- context [match ?x with _ => _ end] => destruct x
  end.

Ltac keeps_tac := repeat (keeps_step; cbv beta).

Lemma keeps_gpu_video : keeps gpu_video_enabled.
Proof. intros s Hs. by rewrite config_video_eq by apply Hs. Qed.

Lemma keeps_gpu_ioctl : keeps gpu_ioctl_enabled.
Proof. intros s Hs. by rewrite config_ioctl_eq by apply Hs. Qed.

Lemma keeps_proc_denied (path : option cstr) : keeps (proc_denied path).
Proof. unfold proc_denied. apply keeps_bind; [apply keeps_gpu_video|intros; keeps_tac]. Qed.

Lemma keeps_track_open (path : option cstr) (fd : Z) : keeps (trace_and_track_open path fd).
Proof.
  unfold trace_and_track_open. apply keeps_bind; [apply keeps_gpu_video|intros video].
  apply keeps_modify_nodes; intros s Hs; [by apply track_open_wf|by apply track_open_classified].
Qed.

Lemma keeps_virtualize (path : option cstr) (flags : Z) : keeps (virtualize_meminfo path flags).
Proof. unfold virtualize_meminfo. keeps_tac. Qed.

Lemma keeps_attach (fd : Z) (path : option cstr) (flags : Z) : keeps (maybe_attach_meminfo fd path flags).
Proof.
  unfold maybe_attach_meminfo. destruct (fd <? 0); [apply keeps_ret|].
  apply keeps_bind; [apply keeps_virtualize|intros]. keeps_tac.
Qed.

Lemma keeps_open (path : option cstr) (flags mode : Z) (has_mode use_open64 : bool) :
  keeps (open_common path flags mode has_mode use_open64).
Proof.
  unfold open_common, gpu_open_denied_path. apply keeps_bind; [apply keeps_proc_denied|intros].
  keeps_tac; [apply keeps_attach|apply keeps_track_open].
Qed.

Lemma keeps_openat (dirfd : Z) (path : option cstr) (flags mode : Z) (has_mode use_open64 : bool) :
  keeps (openat_common dirfd path flags mode has_mode use_open64).
Proof.
  unfold openat_common, gpu_open_denied_path, effective_openat_path, openat64_via_next. apply keeps_bind; [apply keeps_gets|].
  intros [r path']. destruct r; try (by keeps_tac);
    (apply keeps_bind; [apply keeps_proc_denied|intros denied]; destruct denied; [by keeps_tac|];
     apply keeps_bind; [by keeps_tac|intros fd]; apply keeps_bind; [destruct (dirfd =? AT_FDCWD);
       [apply keeps_attach|apply keeps_ret]|intros _];
     apply keeps_bind; [destruct (path_is_absolute path' || (dirfd =? AT_FDCWD));
       [apply keeps_track_open|apply keeps_ret]|intros _; apply keeps_ret]).
Qed.

Lemma keeps_fopen (path mode : option cstr) (use_fopen64 : bool) :
  keeps (fopen_common path mode use_fopen64).
Proof.
  unfold fopen_common. destruct (negb (meminfo_mode_is_read_only mode)); [apply keeps_real|].
  apply keeps_bind; [apply keeps_virtualize|intros virtual]. destruct (negb virtual); [apply keeps_real|].
  keeps_tac.
Qed.

Lemma keeps_readdir_loop (fuel : nat) (b64 : bool) (dirp fd : Z) (entry : cstr) :
  keeps (readdir_loop fuel b64 dirp fd entry).
Proof.
  revert entry. induction fuel as [|n IH]; intros entry; cbn [readdir_loop]; [apply keeps_ret|].
  unfold readdir_entry_allowed.
  apply keeps_bind; [apply keeps_bind; [apply keeps_gpu_video|intros; apply keeps_gets]|intros allowed].
  destruct allowed; [apply keeps_ret|]. apply keeps_bind; [apply keeps_real|intros e].
  destruct e; [apply IH|apply keeps_ret].
Qed.

Lemma keeps_readdir (b64 : bool) (dirp : Z) : keeps (readdir_common b64 dirp).
Proof.
  unfold readdir_common. keeps_tac. apply keeps_readdir_loop.
Qed.

Lemma keeps_ioctl (fd request arg : Z) : keeps (shim_ioctl fd request arg).
Proof.
  unfold shim_ioctl. cbv zeta. apply keeps_bind; [apply keeps_real|intros rc].
  apply keeps_bind; [apply keeps_gpu_ioctl|intros enabled]. destruct enabled; [|apply keeps_ret].
  apply keeps_bind; [apply keeps_config_get|intros cfg]. apply keeps_bind; [|intros; apply keeps_ret].
  intros s Hs. unfold modify. cbn [snd]. destruct (rps_gpu_fd_map_get fd (sh_nodes s)) as [r|]; [|done].
  destruct (bool_decide _); [|done].
  pose proof (ioctl_ids_ok cfg (if sh_ready s then Some (sh_allowed s) else None) request
    (if ioctl_request_has_no_arg request then 0 else arg) rc (sh_ids s) (lc_mem (sh_world s)) (inv_ids s Hs)) as Hids.
  destruct (rps_gpu_ioctl_filter_after _ _ _ _ _ _) as [ids m]. by destruct Hs; split; [constructor|].
Qed.

Lemma keeps_hook (c : call) : call_ok c -> keeps (hook c).
Proof.
  intros Hok. destruct c; cbn [hook call_ok] in *; apply keeps_bind; try (intros; apply keeps_ret).
  - destruct use64; apply keeps_open.
  - destruct use64; apply keeps_openat.
  - destruct use64; apply keeps_fopen.
  - unfold shim_read. keeps_tac.
  - unfold shim_close. keeps_tac.
  - unfold shim_dup. keeps_tac.
  - unfold shim_dup2. keeps_tac.
  - unfold shim_dup3. keeps_tac.
  - unfold shim_fcntl. cbv zeta. keeps_tac.
  - unfold shim_stat. apply keeps_bind; [apply keeps_proc_denied|intros; keeps_tac].
  - apply keeps_real.
  - unfold fstatat_common, effective_openat_path. apply keeps_bind; [apply keeps_gets|].
    intros [r path']. destruct r; try (by keeps_tac);
      (apply keeps_bind; [apply keeps_proc_denied|intros; keeps_tac]).
  - unfold opendir_common, opendir64_via_next. apply keeps_bind; [apply keeps_proc_denied|intros].
    keeps_tac; apply keeps_track_open.
  - unfold shim_fdopendir. keeps_tac.
  - unfold shim_closedir. keeps_tac.
  - destruct b64; unfold shim_readdir, shim_readdir64; [|apply keeps_readdir].
    destruct (lc_has_symbol _); [apply keeps_readdir|keeps_tac].
  - unfold shim_getdents64. apply keeps_bind; [apply keeps_real|intros [rc b]].
    destruct (0 <? rc); [|apply keeps_ret]. apply keeps_bind; [apply keeps_gpu_video|intros; apply keeps_gets].
  - apply keeps_ioctl.
  - unfold shim_sysinfo. apply keeps_bind; [apply keeps_real|intros [rc info]]. keeps_tac.
  - unfold shim_sysconf. keeps_tac.
Qed.

Lemma init_inv (w : W) :
  shim_inv (runpod_shim_init (shim_start w)).2 /\ sh_depth (runpod_shim_init (shim_start w)).2 = 0.
Proof.
  assert (ids_ok []) as Hids by (split; [apply NoDup_nil_2|simpl; lia|apply not_elem_of_nil]).
  unfold runpod_shim_init, config_get, mbind, M_bind.
  destruct (rps_config_get (lc_getenv (sh_world (shim_start w))) (sh_config (shim_start w))) as [c st] eqn:E.
  apply config_get_sets in E as [E _].
  assert (shim_inv (set_config st (shim_start w))) as Hs.
  { split; try done; [apply entries_start_wf|apply nodes_wf_nil|constructor]. }
  destruct (cfg_gpu_video c); [|by split].
  unfold modify. cbn [snd].
  pose proof (init_allowed_wf (lc_list_dir (sh_world (set_config st (shim_start w))))
    (lc_contents (sh_world (set_config st (shim_start w)))) lc_sys_read None) as Hall.
  destruct (rps_gpu_proc_filter_runtime_init _ _ _ _). split; [by destruct Hs; constructor|done].
Qed.

(** ** Properties *)

(** C4: the state of the shim is sound in every reachable process.  After
    start-up, any sequence of interposed calls and any change of the outside
    world between them (whatever the real functions, the lock and the
    allocator do), both descriptor tables are well formed, the learnt gpu ids
    are at most 32 distinct valid ids, the cached cgroup has a proper limit,
    the configuration is fixed, every record is the classification of a path,
    the allowed GPUs are valid exactly when the detection succeeded, and no
    guard is held: every call has given it back. *)
Theorem reachable_sound (s : shim W) :
  reachable s -> shim_inv s /\ sh_depth s = 0.
Proof.
  induction 1 as [w|s c r s' _ [Hinv Hd] Hok Hc|s w _ [Hinv Hd]].
  - apply init_inv.
  - destruct (keeps_hook c Hok s Hinv) as [H1 H2]. rewrite Hc in *. cbn [snd] in *. split; [done|congruence].
  - split; [|done]. by destruct Hinv; constructor.
Qed.

End calls.

Lemma reachable_sound_witness :
  let s0 := (runpod_shim_init (shim_start toy_world)).2 in
  let s1 := (hook (COpen false (Some (cs "/proc/driver/nvidia/gpus")) 0 0) s0).2 in
  shim_inv s1 /\ sh_depth s1 = 0.
Proof.
  intros s0 s1. apply (reachable_sound s1).
  apply (reach_call s0 (COpen false (Some (cs "/proc/driver/nvidia/gpus")) 0 0)
    (hook (COpen false (Some (cs "/proc/driver/nvidia/gpus")) 0 0) s0).1).
  - apply reach_init.
  - exact I.
  - apply surjective_pairing.
Defined.
