(* ===== verification/HooksEval.v ===== *)
(** Evaluating the interposed functions: the equations of their common steps
    in a process whose configuration is fixed, and the sample process on the
    concrete C library that the witnesses run. *)

From S2P Require Import Prelude CString Config FdTable FdMap Paths Cgroup Memory Segments ProcFilter.
From S2P Require Import Dirent FdTracker IoctlFilter Preload Libc ToyLibc Hooks HooksInv.

#[local] Open Scope Z_scope.

Section eval.
Context `{Libc W}.

(** What the configuration says, once it is fixed. *)
Definition video_on (s : shim W) : bool := cfg_gpu_video (cs_config (sh_config s)).
Definition ioctl_on (s : shim W) : bool := cfg_gpu_ioctl (cs_config (sh_config s)).
Definition memory_on (s : shim W) : bool := cfg_cgroup_memory (cs_config (sh_config s)).

(** The call fails with ENOENT and nothing else happens. *)
Definition not_found (s : shim W) : shim W := set_world (lc_set_errno ENOENT (sh_world s)) s.

(** ** Lemmas: evaluating the pieces *)

Lemma bind_eq {S A B : Type} (m : M S A) (k : A -> M S B) (s s1 : S) (a : A) :
  m s = (a, s1) -> (m ≫= k) s = k a s1.
Proof. unfold mbind, M_bind. by intros ->. Qed.

Lemma gpu_video_eq (s : shim W) :
  cs_initialized (sh_config s) = true -> gpu_video_enabled s = (video_on s, s).
Proof. apply config_video_eq. Qed.

Lemma gpu_ioctl_eq (s : shim W) :
  cs_initialized (sh_config s) = true -> gpu_ioctl_enabled s = (video_on s && ioctl_on s, s).
Proof. apply config_ioctl_eq. Qed.

Lemma proc_denied_eq (path : option cstr) (s : shim W) :
  cs_initialized (sh_config s) = true ->
  proc_denied path s = (gpu_proc_denied (gpu_side (video_on s) s) path, s).
Proof. intros Hi. unfold proc_denied. by rewrite (bind_eq _ _ _ _ _ (gpu_video_eq s Hi)). Qed.

Lemma track_open_eq (path : option cstr) (fd : Z) (s : shim W) :
  cs_initialized (sh_config s) = true ->
  trace_and_track_open path fd s =
  (tt, set_nodes (gpu_trace_and_track_open (lc_malloc_ok (sh_world s)) (gpu_side (video_on s) s) path fd) s).
Proof. intros Hi. unfold trace_and_track_open. by rewrite (bind_eq _ _ _ _ _ (gpu_video_eq s Hi)). Qed.

Lemma real_eq {A : Type} (f : M W A) (s : shim W) :
  real f s = ((f (sh_world s)).1, set_world (f (sh_world s)).2 s).
Proof. unfold real. by destruct (f (sh_world s)). Qed.

Lemma virtualize_eq (path : option cstr) (flags : Z) (s : shim W) :
  cs_initialized (sh_config s) = true ->
  virtualize_meminfo path flags s = (should_virtualize_meminfo (cs_config (sh_config s)) path flags, s).
Proof.
  intros Hi. unfold virtualize_meminfo. destruct (bool_decide _) eqn:E.
  - by rewrite (bind_eq _ _ _ _ _ (config_get_init s Hi)).
  - to_prop. destruct path as [p|]; [|done]. unfold should_virtualize_meminfo.
    rewrite (proj2 (streq_neq p _)); [done|]. by intros ->.
Qed.

Lemma gpu_get_classified (s : shim W) (fd : Z) (r : rps_gpu_fd_record) :
  shim_inv s -> rps_gpu_fd_map_get fd (sh_nodes s) = Some r ->
  exists path, rps_gpu_classify_path path = (true, r).
Proof.
  intros Hinv Hg. unfold rps_gpu_fd_map_get in Hg. destruct (fd <? 0); [done|].
  destruct (find_index _ _) as [i|]; [|done]. cbn [mbind option_bind] in Hg.
  apply fmap_Some in Hg as (node & Hn & ->). pose proof (inv_records s Hinv) as Hr.
  unfold classified in Hr. rewrite Forall_lookup in Hr. by apply (Hr i).
Qed.

Lemma hook_int (m : M (shim W) Z) (s s' : shim W) (r : Z) :
  m s = (r, s') -> (m ≫= fun r => mret (RInt r)) s = (RInt r, s').
Proof. intros Hm. by rewrite (bind_eq _ _ _ _ _ Hm). Qed.

End eval.

(** ** The sample process *)

(** The state after start-up in the sample container, where only GPU b1 is
    mounted, and the one after the GPU base directory was opened as 3. *)
Definition toy_started : shim toy := (runpod_shim_init (shim_start toy_world)).2.
Definition toy_opened : shim toy :=
  (hook (COpen false (Some (cs "/proc/driver/nvidia/gpus")) 0 0) toy_started).2.

Lemma toy_started_inv : shim_inv toy_started.
Proof. apply init_inv. Qed.
Lemma toy_opened_inv : shim_inv toy_opened.
Proof. by apply keeps_hook, toy_started_inv. Qed.
