(* ===== verification/HooksHide.v ===== *)
(** Hidden GPUs are absent from every way of naming and listing them: the
    opening, status and directory calls. *)

From S2P Require Import Prelude CString Config FdTable FdMap Paths Cgroup Memory Segments ProcFilter.
From S2P Require Import Dirent FdTracker IoctlFilter Preload Libc ToyLibc Hooks HooksInv HooksEval.

#[local] Open Scope Z_scope.

Section hide.
Context `{Libc W}.

(** ** Lemmas: denied paths *)

(** A denied path is absolute. *)
Lemma deny_absolute (allowed : option rps_gpu_allowed_gpus) (path : cstr) :
  rps_gpu_proc_path_allowed allowed (Some path) = RPS_GPU_PROC_DENY -> head path = Some SLASH.
Proof.
  rewrite path_allowed_eq. unfold path_segments. destruct (bool_decide _) eqn:E; [|done].
  intros _. by to_prop.
Qed.

Lemma denied_decision (s : shim W) (path : cstr) :
  video_on s = true -> sh_ready s = true ->
  rps_gpu_proc_path_allowed (Some (sh_allowed s)) (Some path) = RPS_GPU_PROC_DENY ->
  gpu_proc_denied (gpu_side (video_on s) s) (Some path) = true.
Proof.
  intros Hv Hr Hd. unfold gpu_proc_denied. cbn [gs_video gs_ready gs_allowed gpu_side].
  rewrite Hv, Hr, Hd. cbn [andb path_is_absolute].
  by rewrite (deny_absolute _ _ Hd), bool_decide_eq_true_2.
Qed.

Lemma effective_absolute (nodes : gpu_nodes) (dirfd : Z) (path : cstr) (n : nat) :
  head path = Some SLASH ->
  gpu_effective_openat_path nodes dirfd (Some path) n = (RPS_GPU_EFFECTIVE_PASSTHROUGH, Some path).
Proof.
  intros Hh. unfold gpu_effective_openat_path, path_is_relative.
  by rewrite Hh, bool_decide_eq_true_2.
Qed.

(** The decision on a path is that on its normal form. *)
Lemma decision_normalized (allowed : option rps_gpu_allowed_gpus) (path q : cstr) :
  rps_gpu_proc_normalize_path (Some path) RPS_GPU_PROC_PATH_MAX = Some q ->
  rps_gpu_proc_path_allowed allowed (Some path) = rps_gpu_proc_path_allowed allowed (Some q).
Proof.
  intros Hq. unfold rps_gpu_proc_path_allowed.
  by rewrite Hq, (normalize_idempotent_gen _ _ _ Hq).
Qed.
(** ** Lemmas: denied calls *)

Section denied.
Variables (s : shim W) (path : cstr).
Hypothesis Hconf : cs_initialized (sh_config s) = true.
Hypothesis Hden : gpu_proc_denied (gpu_side (video_on s) s) (Some path) = true.

Lemma open_denied (b : bool) (flags mode : Z) (h : bool) :
  open_common (Some path) flags mode h b s = (-1, not_found s).
Proof. unfold open_common. rewrite (bind_eq _ _ _ _ _ (proc_denied_eq _ s Hconf)), Hden. done. Qed.

Lemma stat_denied (buf : Z) : shim_stat (Some path) buf s = (-1, not_found s).
Proof. unfold shim_stat. rewrite (bind_eq _ _ _ _ _ (proc_denied_eq _ s Hconf)), Hden. done. Qed.

Lemma opendir_denied (b : bool) : opendir_common (Some path) b s = (None, not_found s).
Proof. unfold opendir_common. rewrite (bind_eq _ _ _ _ _ (proc_denied_eq _ s Hconf)), Hden. done. Qed.
End denied.

(** A path relative to a directory, or absolute, whose effective path is
    denied or does not exist. *)
Section denied_at.
Variables (s : shim W) (dirfd : Z) (path : option cstr).
Hypothesis Hconf : cs_initialized (sh_config s) = true.
Hypothesis Heff :
  match gpu_effective_openat_path (sh_nodes s) dirfd path RPS_GPU_PATH_MAX with
  | (RPS_GPU_EFFECTIVE_DENY, _) => True
  | (_, p) => gpu_proc_denied (gpu_side (video_on s) s) p = true
  end.

Lemma openat_denied (b : bool) (flags mode : Z) (h : bool) :
  openat_common dirfd path flags mode h b s = (-1, not_found s).
Proof.
  unfold openat_common, effective_openat_path, mbind at 1, M_bind, gets.
  destruct (gpu_effective_openat_path _ _ _ _) as [[] p]; try done;
    by rewrite (bind_eq _ _ _ _ _ (proc_denied_eq _ s Hconf)), Heff.
Qed.

Lemma fstatat_denied (buf flags : Z) : fstatat_common dirfd path buf flags s = (-1, not_found s).
Proof.
  unfold fstatat_common, effective_openat_path, mbind at 1, M_bind, gets.
  destruct (gpu_effective_openat_path _ _ _ _) as [[] p]; try done;
    by rewrite (bind_eq _ _ _ _ _ (proc_denied_eq _ s Hconf)), Heff.
Qed.
End denied_at.

End hide.

(** ** Properties: hidden GPUs *)

(** C1: a hidden GPU is absent.  With the module on and the GPUs detected, a
    path the procfs decision denies cannot be opened (by [open], [openat] or
    [opendir], in either width) nor looked at (by [stat] or [fstatat]): the
    call fails with ENOENT, the real function is not called, and the shim's
    state does not change. *)
Theorem hidden_gpu_absent `{Libc W} (s : shim W) (path : cstr) :
  shim_inv s -> video_on s = true -> sh_ready s = true ->
  rps_gpu_proc_path_allowed (Some (sh_allowed s)) (Some path) = RPS_GPU_PROC_DENY ->
  (forall b flags mode, hook (COpen b (Some path) flags mode) s = (RInt (-1), not_found s)) /\
  (forall b dirfd flags mode, hook (COpenat b dirfd (Some path) flags mode) s = (RInt (-1), not_found s)) /\
  (forall b, hook (COpendir b (Some path)) s = (RDir None, not_found s)) /\
  (forall buf, hook (CStat (Some path) buf) s = (RInt (-1), not_found s)) /\
  (forall dirfd buf flags, hook (CFstatat dirfd (Some path) buf flags) s = (RInt (-1), not_found s)) /\
  lc_errno (sh_world (not_found s)) = ENOENT.
Proof.
  intros Hinv Hv Hr Hd. pose proof (inv_config s Hinv) as Hc.
  pose proof (denied_decision s path Hv Hr Hd) as Hden.
  assert (forall dirfd, match gpu_effective_openat_path (sh_nodes s) dirfd (Some path) RPS_GPU_PATH_MAX with
    | (RPS_GPU_EFFECTIVE_DENY, _) => True
    | (_, p) => gpu_proc_denied (gpu_side (video_on s) s) p = true end) as Heff.
  { intros dirfd. rewrite effective_absolute by by apply (deny_absolute _ _ Hd). exact Hden. }
  split_and!; intros; cbn [hook].
  - apply hook_int. destruct b; by apply open_denied.
  - apply hook_int. destruct b; (apply openat_denied; [done|apply Heff]).
  - by rewrite (bind_eq _ _ _ _ _ (opendir_denied s path Hc Hden b)).
  - apply hook_int. by apply stat_denied.
  - apply hook_int. apply fstatat_denied; [done|apply Heff].
  - apply lc_errno_set.
Qed.

(** C7: nor is it reachable from a tracked directory.  When [dirfd] is tracked
    as the GPU base directory or as a GPU directory, a relative path whose
    absolute spelling is denied, or that leaves the base directory, fails the
    same way in [openat] and [fstatat]. *)
Theorem hidden_gpu_absent_at `{Libc W} (s : shim W) (dirfd : Z) (record : rps_gpu_fd_record)
    (start : list cstr) (path : cstr) :
  shim_inv s -> video_on s = true -> sh_ready s = true ->
  rps_gpu_fd_map_get dirfd (sh_nodes s) = Some record -> record_segments record = Some start ->
  head path <> Some SLASH ->
  gpu_resolve_relative_proc_path record (Some path) RPS_GPU_PATH_MAX = None \/
  rps_gpu_proc_path_allowed (Some (sh_allowed s)) (Some (render start ++ SLASH :: path)) = RPS_GPU_PROC_DENY ->
  (forall b flags mode, hook (COpenat b dirfd (Some path) flags mode) s = (RInt (-1), not_found s)) /\
  (forall buf flags, hook (CFstatat dirfd (Some path) buf flags) s = (RInt (-1), not_found s)).
Proof.
  intros Hinv Hv Hr Hget Hstart Hrel Hcase. pose proof (inv_config s Hinv) as Hc.
  assert (match gpu_effective_openat_path (sh_nodes s) dirfd (Some path) RPS_GPU_PATH_MAX with
    | (RPS_GPU_EFFECTIVE_DENY, _) => True
    | (_, p) => gpu_proc_denied (gpu_side (video_on s) s) p = true end) as Heff.
  { unfold gpu_effective_openat_path, path_is_relative.
    rewrite bool_decide_eq_false_2 by done. cbn [negb orb]. rewrite Hget.
    assert (bool_decide (fr_kind record <> RPS_GPU_FD_PROC_GPUS_DIR) &&
            bool_decide (fr_kind record <> RPS_GPU_FD_PROC_GPU_BUS_DIR) = false) as ->.
    { unfold record_segments in Hstart. by destruct (fr_kind record). }
    change (RPS_GPU_PATH_MAX =? 0)%nat with false. cbv iota.
    destruct (gpu_resolve_relative_proc_path record (Some path) RPS_GPU_PATH_MAX) as [out|] eqn:E; [|done].
    destruct Hcase as [|Hd]; [done|]. apply denied_decision; [done|done|].
    rewrite <-Hd. symmetry. apply decision_normalized.
    destruct (gpu_get_classified s dirfd record Hinv Hget) as [opened Ho].
    apply (relative_normalized opened record start path out Ho Hstart E). }
  split; intros; cbn [hook]; apply hook_int; [destruct b; by apply openat_denied|by apply fstatat_denied].
Qed.

(** ** Lemmas: directory listings *)

Section listing.
Context `{Libc W}.

(** The GPU base directory is open as [fd]. *)
Definition base_dir (s : shim W) (fd : Z) : Prop :=
  exists r, gpu_view (sh_nodes s) !! fd = Some r /\ fr_kind r = RPS_GPU_FD_PROC_GPUS_DIR.

(** The names a listing of the base directory may hold. *)
Definition shown (s : shim W) (name : cstr) : Prop :=
  name = cs "." \/ name = cs ".." \/
  (name <> [] /\ exists g, g ∈ al_gpus (sh_allowed s) /\ gi_bus_id g = name).

Definition visible (s : shim W) (fd : Z) (name : cstr) : Prop :=
  video_on s = true -> sh_ready s = true -> base_dir s fd -> shown s name.

(** [skips ok b64 dirp w e w']: reading entries of the stream from [w] on, the
    first one that is [ok], or the end of the stream, is [e]. *)
Inductive skips (ok : cstr -> Prop) (b64 : bool) (dirp : Z) : W -> option cstr -> W -> Prop :=
| skips_end w w' : real_readdir b64 dirp w = (None, w') -> skips ok b64 dirp w None w'
| skips_ok w e w' : real_readdir b64 dirp w = (Some e, w') -> ok e -> skips ok b64 dirp w (Some e) w'
| skips_hidden w e w1 r w' :
    real_readdir b64 dirp w = (Some e, w1) -> ~ ok e -> skips ok b64 dirp w1 r w' ->
    skips ok b64 dirp w r w'.

Lemma shown_iff (s : shim W) (name : cstr) :
  shim_inv s -> sh_ready s = true ->
  (streq name (cs ".") || streq name (cs "..") ||
   rps_gpu_allowed_contains_bus (Some (sh_allowed s)) (Some name) = true) <-> shown s name.
Proof.
  intros Hinv Hr. destruct (inv_allowed s Hinv) as [Hv Hc].
  rewrite !orb_true_iff, !streq_spec, contains_bus_spec by done.
  unfold shown. rewrite Hv. naive_solver.
Qed.

Lemma entry_allowed_spec (s : shim W) (fd : Z) (name : cstr) :
  shim_inv s -> exists b, readdir_entry_allowed fd name s = (b, s) /\ (b = true <-> visible s fd name).
Proof.
  intros Hinv. unfold readdir_entry_allowed.
  rewrite (bind_eq _ _ _ _ _ (gpu_video_eq s (inv_config s Hinv))). unfold gets.
  eexists. split; [done|]. unfold gpu_readdir_entry_allowed. cbn [gs_video gs_ready gs_nodes gs_allowed gpu_side].
  unfold visible. destruct (video_on s); cbn [negb orb]; [|naive_solver].
  destruct (sh_ready s) eqn:Hr; cbn [negb orb]; [|naive_solver].
  rewrite gpu_get_refines by apply Hinv. unfold base_dir.
  destruct (gpu_view (sh_nodes s) !! fd) as [r|] eqn:Hg; [|naive_solver].
  destruct (decide (fr_kind r = RPS_GPU_FD_PROC_GPUS_DIR)) as [Hk|Hk].
  - rewrite bool_decide_eq_false_2 by naive_solver. rewrite <-shown_iff by done. cbn [orb].
    destruct (streq name (cs ".") || streq name (cs "..")); cbn [orb]; naive_solver.
  - rewrite bool_decide_eq_true_2 by done. cbn [orb]. naive_solver.
Qed.

Lemma inv_world (s : shim W) (w : W) : shim_inv s -> shim_inv (set_world w s).
Proof. intros Hs. by destruct Hs; constructor. Qed.

(** The loop, started on the entry [real_readdir] has just given. *)
Lemma readdir_loop_spec (fuel : nat) (b64 : bool) (dirp fd : Z) (entry : cstr) (w : W) (s : shim W) :
  shim_inv s -> real_readdir b64 dirp w = (Some entry, sh_world s) ->
  (lc_dir_left (sh_world s) dirp < fuel)%nat ->
  exists e w', readdir_loop fuel b64 dirp fd entry s = (Some e, set_world w' s) /\
    skips (visible s fd) b64 dirp w e w'.
Proof.
  revert entry w s. induction fuel as [|n IH]; intros entry w s Hinv Hread Hf; [lia|].
  cbn [readdir_loop]. destruct (entry_allowed_spec s fd entry Hinv) as (b & Hb & Hvis).
  rewrite (bind_eq _ _ _ _ _ Hb). destruct b.
  - exists (Some entry), (sh_world s). split; [by destruct s|]. apply skips_ok; naive_solver.
  - destruct (real_readdir b64 dirp (sh_world s)) as [e w1] eqn:E.
    erewrite bind_eq by (rewrite real_eq, E; reflexivity). cbn [fst snd].
    assert (~ visible s fd entry) as Hhid by naive_solver.
    destruct e as [entry'|].
    + pose proof (real_readdir_left b64 dirp (sh_world s)) as Hleft. rewrite E in Hleft.
      destruct (IH entry' (sh_world s) (set_world w1 s)) as (e & w' & He & Hs);
        [by apply inv_world|done|cbn [sh_world set_world]; specialize (Hleft ltac:(done)); lia|].
      exists e, w'. split; [exact He|]. by apply (skips_hidden _ _ _ _ entry (sh_world s)).
    + exists None, w1. split; [done|]. apply (skips_hidden _ _ _ _ entry (sh_world s)); [done..|].
      by constructor.
Qed.

Lemma readdir_common_spec (b64 : bool) (dirp : Z) (s : shim W) :
  shim_inv s ->
  let fd := lc_dirfd (real_readdir b64 dirp (sh_world s)).2 dirp in
  exists e w', readdir_common b64 dirp s = (Some e, set_world w' s) /\
    skips (visible s fd) b64 dirp (sh_world s) e w'.
Proof.
  intros Hinv. cbv zeta. unfold readdir_common.
  destruct (real_readdir b64 dirp (sh_world s)) as [e w1] eqn:E.
  erewrite bind_eq by (rewrite real_eq, E; reflexivity). cbn [fst snd].
  destruct e as [entry|].
  - destruct (readdir_loop_spec (S (lc_dir_left w1 dirp)) b64 dirp (lc_dirfd w1 dirp) entry (sh_world s)
      (set_world w1 s)) as (e & w' & He & Hs); [by apply inv_world|done|cbn [sh_world set_world]; lia|].
    exists e, w'. split; [exact He|done].
  - exists None, w1. split; [done|by constructor].
Qed.

Lemma getdents_tracked (s : shim W) (fd count : Z) (es : list dirent) (tail gap : list ascii) (w' : W) :
  let filtered := encode_dirents (kept (Some (sh_allowed s)) es) in
  let out := (Z.of_nat (length filtered), filtered ++ gap ++ tail) in
  shim_inv s -> video_on s = true -> sh_ready s = true -> base_dir s fd ->
  sys_getdents64 fd count (sh_world s) =
    ((Z.of_nat (length (encode_dirents es)), encode_dirents es ++ tail), w') ->
  rps_gpu_filter_dirent64_buffer (encode_dirents es ++ tail) (Z.of_nat (length (encode_dirents es)))
    (Some (sh_allowed s)) = Some out ->
  shim_getdents64 fd count s = (out, set_world w' s).
Proof.
  intros filtered out Hinv Hv Hr [r [Hg Hk]] Hsys Hfil. unfold shim_getdents64.
  erewrite bind_eq by (rewrite real_eq, Hsys; reflexivity). cbn [fst snd].
  destruct (Z.ltb_spec 0 (Z.of_nat (length (encode_dirents es)))) as [Hpos|Hpos].
  - rewrite (bind_eq _ _ _ _ _ (gpu_video_eq (set_world w' s) (inv_config s Hinv))).
    unfold gets. change (video_on (set_world w' s)) with (video_on s). rewrite Hv.
    cbn [sh_ready sh_nodes sh_allowed set_world]. rewrite Hr. cbn [andb].
    rewrite gpu_get_refines, Hg by apply Hinv. rewrite (bool_decide_eq_true_2 _ Hk), Hfil. done.
  - unfold rps_gpu_filter_dirent64_buffer in Hfil. rewrite (proj2 (Z.leb_le _ 0)) in Hfil by lia.
    cbn [orb] in Hfil. injection Hfil as H1 H2. unfold out. by rewrite <-H1, <-H2.
Qed.
End listing.

(** ** Properties: directory listings *)

(** C8: [readdir] gives the next entry that may be seen.  With the detection
    done at start-up, in a stream over the GPU base directory the entries that
    are neither "." nor ".." nor the bus id of an allowed GPU are skipped, and
    the first other one, or the end of the stream, is returned; in every other
    stream each entry is returned as it is read.  The loop ends, and nothing
    of the shim's state changes. *)
Theorem readdir_next_visible `{Libc W} (s : shim W) (b64 : bool) (dirp : Z) :
  shim_inv s -> (b64 = true -> lc_has_symbol (cs "readdir64") = true) ->
  let fd := lc_dirfd (real_readdir b64 dirp (sh_world s)).2 dirp in
  exists e w', hook (CReaddir b64 dirp) s = (REntry (Some e), set_world w' s) /\
    skips (visible s fd) b64 dirp (sh_world s) e w'.
Proof.
  intros Hinv Hsym fd. destruct (readdir_common_spec b64 dirp s Hinv) as (e & w' & He & Hs).
  exists e, w'. split; [|done]. cbn [hook].
  assert ((if b64 then shim_readdir64 dirp else shim_readdir dirp) s = (Some e, set_world w' s)) as Hc.
  { destruct b64; [|exact He]. unfold shim_readdir64. by rewrite Hsym. }
  by rewrite (bind_eq _ _ _ _ _ Hc).
Qed.

(** C9: [getdents64] on the GPU base directory gives the filtered listing.
    When the kernel fills the buffer with well-formed records (none more than
    16 bytes longer than another), the call returns the listing with only ".",
    ".." and the allowed GPUs, in order, and the rest of the buffer behind the
    kernel's listing is what it was; the shim's state does not change. *)
Theorem getdents_shows_allowed `{Libc W} (s : shim W) (fd count : Z) (es : list dirent)
    (tail : list ascii) (w' : W) :
  shim_inv s -> video_on s = true -> sh_ready s = true -> base_dir s fd ->
  sys_getdents64 fd count (sh_world s) =
    ((Z.of_nat (length (encode_dirents es)), encode_dirents es ++ tail), w') ->
  Forall dirent_wf es -> sizes_close es ->
  exists kept_es gap,
    hook (CGetdents64 fd count) s =
      (RBytes (Z.of_nat (length (encode_dirents kept_es)), encode_dirents kept_es ++ gap ++ tail), set_world w' s) /\
    length gap = (length (encode_dirents es) - length (encode_dirents kept_es))%nat /\
    kept_es `sublist_of` es /\
    (forall e, e ∈ kept_es <-> e ∈ es /\ shown s (de_name e)).
Proof.
  intros Hinv Hv Hr [r [Hg Hk]] Hsys Hes Hclose.
  destruct (filter_buffer_spec (sh_allowed s) es tail) as (gap & Hgap & Hfil);
    [destruct (inv_allowed s Hinv); congruence|done..|].
  exists (kept (Some (sh_allowed s)) es), gap. split; [|split; [exact Hgap|split]].
  - cbn [hook]. by rewrite (bind_eq _ _ _ _ _ (getdents_tracked s fd count es tail gap w' Hinv Hv Hr (ex_intro _ r (conj Hg Hk)) Hsys Hfil)).
  - apply kept_sublist.
  - intros e. rewrite kept_elem, <-shown_iff by done. unfold keep_name. naive_solver.
Qed.

Lemma hidden_gpu_absent_witness :
  hook (COpen false (Some (cs "/proc/driver/nvidia/gpus/b0")) 0 0) toy_started =
    (RInt (-1), not_found toy_started) /\
  hook (COpendir true (Some (cs "/proc/driver/nvidia/gpus/b0"))) toy_started = (RDir None, not_found toy_started).
Proof.
  destruct (hidden_gpu_absent toy_started (cs "/proc/driver/nvidia/gpus/b0")) as (Hopen & _ & Hdir & _).
  - apply toy_started_inv.
  - reflexivity.
  - vm_compute. reflexivity.
  - vm_compute. reflexivity.
  - split; [apply Hopen|apply Hdir].
Defined.

Lemma hidden_gpu_absent_at_witness :
  hook (COpenat false 3 (Some (cs "b1/../b0/information")) 0 0) toy_opened = (RInt (-1), not_found toy_opened).
Proof.
  destruct (hidden_gpu_absent_at toy_opened 3
    (FdRecord RPS_GPU_FD_PROC_GPUS_DIR (-1) (cs "/proc/driver/nvidia/gpus") []) base_segs
    (cs "b1/../b0/information")) as [Hopen _].
  - apply toy_opened_inv.
  - vm_compute. reflexivity.
  - vm_compute. reflexivity.
  - vm_compute. reflexivity.
  - reflexivity.
  - vm_compute. discriminate.
  - right. vm_compute. reflexivity.
  - apply Hopen.
Defined.

(** The sample process after the base directory was also opened as a stream. *)
Definition toy_listing : shim toy :=
  (hook (COpendir false (Some (cs "/proc/driver/nvidia/gpus"))) toy_started).2.

Lemma toy_listing_inv : shim_inv toy_listing.
Proof. by apply keeps_hook, toy_started_inv. Qed.

Lemma readdir_next_visible_witness :
  exists e w', hook (CReaddir true 3) toy_listing = (REntry (Some e), set_world w' toy_listing) /\
    skips (visible toy_listing 3) true 3 (sh_world toy_listing) e w'.
Proof.
  pose proof (readdir_next_visible toy_listing true 3 toy_listing_inv (fun _ => eq_refl)) as H.
  cbv zeta in H. set (w := (real_readdir true 3 (sh_world toy_listing)).2) in H.
  change (lc_dirfd w 3) with 3 in H. exact H.
Defined.

(** The four entries are ".", "..", the hidden b0 and b1: the third call
    gives b1, the fourth the end. *)
Example readdir_hides_b0 :
  let step s := hook (CReaddir false 3) s in
  let s2 := (step (step toy_listing).2).2 in
  (step s2).1 = REntry (Some (Some (cs "b1"))) /\ (step (step s2).2).1 = REntry (Some None).
Proof. vm_compute. split; reflexivity. Qed.

Lemma getdents_shows_allowed_witness :
  exists kept_es gap,
    hook (CGetdents64 3 4096) toy_opened =
      (RBytes (Z.of_nat (length (encode_dirents kept_es)), encode_dirents kept_es ++ gap ++ []),
       set_world (sh_world toy_opened) toy_opened) /\
    length gap = (length (encode_dirents (map (fun n => toy_dirent (cs n)) ["."; ".."; "b0"; "b1"]%string)) -
                  length (encode_dirents kept_es))%nat /\
    kept_es `sublist_of` map (fun n => toy_dirent (cs n)) ["."; ".."; "b0"; "b1"]%string /\
    (forall e, e ∈ kept_es <-> e ∈ map (fun n => toy_dirent (cs n)) ["."; ".."; "b0"; "b1"]%string /\
                             shown toy_opened (de_name e)).
Proof.
  apply (getdents_shows_allowed toy_opened 3 4096
    (map (fun n => toy_dirent (cs n)) ["."; ".."; "b0"; "b1"]%string) [] (sh_world toy_opened)).
  - apply toy_opened_inv.
  - reflexivity.
  - vm_compute. reflexivity.
  - exists (FdRecord RPS_GPU_FD_PROC_GPUS_DIR (-1) (cs "/proc/driver/nvidia/gpus") []).
    split; [|reflexivity]. rewrite <-gpu_get_refines by apply toy_opened_inv. vm_compute. reflexivity.
  - vm_compute. reflexivity.
  - unfold dirent_wf.
    repeat (apply Forall_cons; split; [split_and!; [reflexivity|by apply (bool_decide_unpack _)|vm_compute; reflexivity]|]). constructor.
  - apply sizes_close_check. vm_compute. reflexivity.
Defined.
