(* ===== verification/HooksFds.v ===== *)
(** The descriptor tables follow the descriptors: opening, closing and
    duplicating. *)

From S2P Require Import Prelude CString Config FdTable FdMap Paths Cgroup Memory Segments ProcFilter.
From S2P Require Import Dirent FdTracker IoctlFilter Preload Libc ToyLibc Hooks HooksInv HooksEval.

#[local] Open Scope Z_scope.

(** ** Lemmas: descriptor bookkeeping *)

Section tables.
Context `{Libc W}.

(** The two states differ in the virtual files, the cached cgroup and the
    guard at most. *)
Record gpu_same (s s' : shim W) : Prop := {
  same_world : sh_world s' = sh_world s;
  same_config : sh_config s' = sh_config s;
  same_nodes : sh_nodes s' = sh_nodes s;
  same_ids : sh_ids s' = sh_ids s;
  same_allowed : sh_allowed s' = sh_allowed s;
  same_ready : sh_ready s' = sh_ready s
}.

Lemma attach_same (fd : Z) (path : option cstr) (flags : Z) (s : shim W) :
  cs_initialized (sh_config s) = true -> gpu_same s (maybe_attach_meminfo fd path flags s).2.
Proof.
  intros Hi. unfold maybe_attach_meminfo. destruct (fd <? 0); [done|].
  rewrite (bind_eq _ _ _ _ _ (virtualize_eq path flags s Hi)).
  destruct (negb _); [done|]. unfold mbind, M_bind, guard_enter.
  destruct (rps_guard_enter (sh_depth s)) as [[] d]; cbn [negb]; [|done].
  unfold proc_meminfo_build. destruct (rps_proc_meminfo_build _ _ _ _ _) as [[[out len]|] st].
  - unfold fd_map_put, guard_leave. destruct (rps_fd_map_put _ _ _ _ _ _).
    by destruct (rps_guard_leave _).
  - unfold mret, M_ret, guard_leave. by destruct (rps_guard_leave _).
Qed.

(** An open that is not denied. *)
Lemma open_eq (b : bool) (path : option cstr) (flags mode : Z) (h : bool) (s : shim W) :
  cs_initialized (sh_config s) = true ->
  gpu_proc_denied (gpu_side (video_on s) s) path = false ->
  let '(fd, w) := real_open b path flags (if h then Some mode else None) (sh_world s) in
  let s1 := (maybe_attach_meminfo fd path flags (set_world w s)).2 in
  open_common path flags mode h b s =
  (fd, set_nodes (gpu_trace_and_track_open (lc_malloc_ok w) (gpu_side (video_on s) s) path fd) s1) /\
  gpu_same (set_world w s) s1.
Proof.
  intros Hi Hd. destruct (real_open _ _ _ _ _) as [fd w] eqn:E. intros s1.
  pose proof (attach_same fd path flags (set_world w s) Hi) as Hsame. fold s1 in Hsame.
  split; [|done]. unfold open_common.
  rewrite (bind_eq _ _ _ _ _ (proc_denied_eq _ s Hi)), Hd. cbv iota.
  erewrite bind_eq by (rewrite real_eq, E; reflexivity).
  assert (maybe_attach_meminfo fd path flags (set_world w s) = (tt, s1)) as Ha.
  { unfold s1. by destruct (maybe_attach_meminfo fd path flags (set_world w s)) as [[] ?]. }
  rewrite (bind_eq _ _ _ _ _ Ha). destruct Hsame as [H1 H2 H3 H4 H5 H6]. cbn [sh_config set_world] in H2.
  assert (cs_initialized (sh_config s1) = true) as Hi1 by by rewrite H2.
  rewrite (bind_eq _ _ _ _ _ (track_open_eq path fd s1 Hi1)). unfold mret, M_ret.
  unfold video_on, gpu_side. rewrite H1, H2, H3, H5, H6. reflexivity.
Qed.

Lemma track_open_view (malloc_ok : bool) (g : gpu_state) (path : option cstr) (fd : Z) :
  nodes_wf (gs_nodes g) -> gs_video g = true -> 0 <= fd ->
  gpu_view (gpu_trace_and_track_open malloc_ok g path fd) =
  match rps_gpu_classify_path path with
  | (true, r) => spec_set malloc_ok fd r (gpu_view (gs_nodes g))
  | (false, _) => delete fd (gpu_view (gs_nodes g))
  end.
Proof.
  intros Hwf Hv Hfd. unfold gpu_trace_and_track_open. rewrite Hv. cbn [negb].
  rewrite (proj2 (Z.leb_le 0 fd)) by done.
  destruct (rps_gpu_classify_path path) as [[] r]; cbn [negb].
  - destruct (gpu_set_refines malloc_ok fd r (gs_nodes g) Hwf) as [_ ->].
    by rewrite (proj2 (Z.ltb_ge fd 0)).
  - by apply gpu_remove_refines.
Qed.

(** How an operation leaves the record of [fd]: as [src], unless memory ran out
    ([ok]), and never as anything else; the other records are kept. *)
Record tracks_as (ok : bool) (fd : Z) (src : option rps_gpu_fd_record) (m m' : gmap Z rps_gpu_fd_record)
    : Prop := {
  ta_only : forall r, m' !! fd = Some r -> src = Some r;
  ta_tracked : ok = true -> m' !! fd = src;
  ta_others : forall fd', fd' <> fd -> m' !! fd' = m !! fd'
}.

Lemma delete_tracks (ok : bool) (fd : Z) (m : gmap Z rps_gpu_fd_record) :
  tracks_as ok fd None m (delete fd m).
Proof.
  split; [intros r; by rewrite lookup_delete_eq|intros _; apply lookup_delete_eq|].
  intros fd' Hne. by apply lookup_delete_ne.
Qed.

Lemma spec_set_tracks (ok : bool) (fd : Z) (r : rps_gpu_fd_record) (m : gmap Z rps_gpu_fd_record) :
  tracks_as ok fd (Some r) m (spec_set ok fd r m).
Proof.
  unfold spec_set. destruct (ok || bool_decide _) eqn:E.
  - split; [intros r'; rewrite lookup_insert_eq; naive_solver|intros _; apply lookup_insert_eq|].
    intros fd' Hne. by apply lookup_insert_ne.
  - to_prop. subst ok. split; [|done|done]. intros r' Hr. by destruct H1.
Qed.

Lemma spec_copy_tracks (ok : bool) (oldfd newfd : Z) (m : gmap Z rps_gpu_fd_record) :
  tracks_as ok newfd (m !! oldfd) m (spec_copy ok oldfd newfd m).
Proof.
  unfold spec_copy. destruct (m !! oldfd); [apply spec_set_tracks|apply delete_tracks].
Qed.

(** The shim's part of duplicating a descriptor. *)
Lemma copy_tracks (oldfd newfd : Z) (s : shim W) :
  shim_inv s -> 0 <= oldfd -> 0 <= newfd ->
  exists n, gpu_fd_map_copy oldfd newfd s = (tt, set_nodes n s) /\
    tracks_as (lc_malloc_ok (sh_world s)) newfd (gpu_view (sh_nodes s) !! oldfd)
      (gpu_view (sh_nodes s)) (gpu_view n).
Proof.
  intros Hinv Ho Hn. eexists. split; [reflexivity|].
  destruct (gpu_copy_refines (lc_malloc_ok (sh_world s)) oldfd newfd (sh_nodes s)) as [_ ->]; [apply Hinv|].
  rewrite (proj2 (Z.ltb_ge oldfd 0)), (proj2 (Z.ltb_ge newfd 0)) by done. apply spec_copy_tracks.
Qed.

(** [read] on a descriptor with and without virtual contents. *)
Lemma shim_read_eq (fd count : Z) (s : shim W) :
  shim_inv s -> sh_depth s = 0 -> 0 <= count <= UINT64_MAX -> lc_lock_ok (sh_world s) = true ->
  match fd_view (sh_files s) !! fd with
  | None => shim_read fd count s = real (real_read fd count) s
  | Some rest =>
      let got := take (Z.to_nat count) rest in
      exists t, shim_read fd count s = ((Z.of_nat (length got), got), set_files t s) /\ table_wf t /\
        fd_view t = <[fd := drop (Z.to_nat count) rest]> (fd_view (sh_files s))
  end.
Proof.
  intros Hinv Hd Hc Hlock. pose proof (inv_files s Hinv) as Hwf.
  assert (forall d, sh_depth s = d -> set_depth d s = s) as Hself by (intros d <-; by destruct s).
  assert (shim_read fd count s =
    match rps_fd_map_take_read true fd false count false (sh_files s) with
    | (Some out, t) => (out, set_files t s)
    | (None, t) => real (real_read fd count) (set_files t s)
    end) as ->.
  { unfold shim_read, guard_enter, mbind, M_bind. rewrite Hd, guard_enter_free. cbn [negb].
    unfold fd_map_take_read. cbn [sh_world sh_files set_depth]. rewrite Hlock.
    destruct (rps_fd_map_take_read _ _ _ _ _ _) as [r t]. unfold guard_leave.
    cbn [sh_depth set_depth set_files]. rewrite guard_leave_one.
    destruct s. cbn in Hd. subst. by destruct r. }
  pose proof (read_refines fd count false (sh_files s) Hwf Hc eq_refl) as Hr. unfold spec_read in Hr.
  destruct (fd_view (sh_files s) !! fd) as [rest|] eqn:Hv.
  - destruct (rps_fd_map_take_read _ _ _ _ _ _) as [r t]. destruct Hr as [Hwf' [= -> Hview]]. by exists t.
  - unfold rps_fd_map_take_read in *. cbn [andb orb negb] in *.
    destruct (find_index (entry_holds fd) (sh_files s)) as [i|] eqn:E; [|by destruct s].
    destruct (fd_view_held fd (sh_files s) i Hwf E) as (e & _ & _ & _ & Hheld). congruence.
Qed.

(** A call that can make [newfd] a duplicate, and of which descriptor. *)
Definition dup_source (c : call) (newfd : Z) : option Z :=
  match c with
  | CDup oldfd => Some oldfd
  | CDup2 oldfd n | CDup3 oldfd n _ => if n =? newfd then Some oldfd else None
  | CFcntl oldfd cmd _ => if (cmd =? F_DUPFD) || (cmd =? F_DUPFD_CLOEXEC) then Some oldfd else None
  | _ => None
  end.

(** The real call first, then the bookkeeping [k]. *)
Lemma real_then (f : M W Z) (k : Z -> M (shim W) unit) (m : M (shim W) Z) (s s' : shim W) (rc : Z) :
  m = (r ← real f; _ ← k r; mret r) ->
  (r ← m; mret (RInt r)) s = (RInt rc, s') ->
  exists w, k rc (set_world w s) = (tt, s').
Proof.
  intros -> Hm. unfold mbind, M_bind, mret, M_ret, real in Hm.
  destruct (f (sh_world s)) as [r w]. destruct (k r (set_world w s)) as [[] s1] eqn:E.
  injection Hm as -> ->. by exists w.
Qed.

(** [dup2] and [dup3]: the virtual contents of [newfd] go, then the copy. *)
Lemma remove_copy_tracks (oldfd newfd : Z) (s : shim W) :
  shim_inv s -> 0 <= oldfd -> 0 <= newfd ->
  let s' := ((_ ← fd_map_remove newfd; gpu_fd_map_copy oldfd newfd) s).2 in
  tracks_as (lc_malloc_ok (sh_world s')) newfd (gpu_view (sh_nodes s) !! oldfd)
    (gpu_view (sh_nodes s)) (gpu_view (sh_nodes s')) /\
  (lc_lock_ok (sh_world s') = true -> fd_view (sh_files s') = delete newfd (fd_view (sh_files s))).
Proof.
  intros Hinv Ho Hn. unfold mbind, M_bind, fd_map_remove.
  set (s1 := set_files _ s).
  assert (shim_inv s1) as Hinv1 by apply (keeps_fd_map_remove newfd s Hinv).
  destruct (copy_tracks oldfd newfd s1 Hinv1 Ho Hn) as (n & -> & Ht). cbn [snd sh_nodes set_nodes sh_world].
  split; [exact Ht|]. intros Hl. change (lc_lock_ok (sh_world s) = true) in Hl.
  change (sh_files (set_nodes n s1)) with (rps_fd_map_remove (lc_lock_ok (sh_world s)) newfd (sh_files s)).
  rewrite Hl. apply remove_refines, Hinv.
Qed.

End tables.

(** ** Properties: descriptors *)

(** C13: an opened descriptor is tracked as what was opened.  After an [open]
    that succeeds with the GPU module on, the record of the returned
    descriptor is the classification of the path just opened, or none when it
    is not a GPU path, and never that of an earlier file under the same
    number; only running out of memory can leave a GPU path untracked; the
    records of the other descriptors have not changed. *)
Theorem open_tracks `{Libc W} (s s' : shim W) (b : bool) (path : option cstr) (flags mode fd : Z) :
  shim_inv s -> video_on s = true -> hook (COpen b path flags mode) s = (RInt fd, s') -> 0 <= fd ->
  tracks_as (lc_malloc_ok (sh_world s')) fd
    (let '(ok, r) := rps_gpu_classify_path path in if ok then Some r else None)
    (gpu_view (sh_nodes s)) (gpu_view (sh_nodes s')).
Proof.
  intros Hinv Hv Hopen Hfd. pose proof (inv_config s Hinv) as Hi.
  assert (exists h, open_common path flags mode h b s = (fd, s')) as [h Hcommon].
  { exists (open_needs_mode flags). cbn [hook] in Hopen. unfold mbind, M_bind in Hopen.
    destruct b; [unfold shim_open64 in Hopen|unfold shim_open in Hopen];
      destruct (open_common _ _ _ _ _ s) as [rc s1]; by injection Hopen as -> ->. }
  destruct (gpu_proc_denied (gpu_side (video_on s) s) path) eqn:Hd.
  { exfalso. unfold open_common in Hcommon.
    rewrite (bind_eq _ _ _ _ _ (proc_denied_eq _ s Hi)), Hd in Hcommon. injection Hcommon as <- _. lia. }
  pose proof (open_eq b path flags mode h s Hi Hd) as Hopen'.
  destruct (real_open b path flags _ (sh_world s)) as [fd0 w]. destruct Hopen' as [He Hsame].
  rewrite He in Hcommon. injection Hcommon as -> <-. cbn [sh_nodes set_nodes sh_world].
  rewrite (same_world _ _ Hsame). cbn [sh_world set_world].
  rewrite track_open_view by (done || apply Hinv). cbn [gs_nodes gpu_side].
  destruct (rps_gpu_classify_path path) as [[] r0]; [apply spec_set_tracks|apply delete_tracks].
Qed.

(** C14: duplicating a GPU descriptor duplicates its record.  After a
    successful [dup], [dup2], [dup3] or [fcntl] with F_DUPFD or
    F_DUPFD_CLOEXEC, the new descriptor is tracked exactly as the old one (only running out of
    memory can leave it untracked), and no other record has changed.  [dup2]
    and [dup3] onto another number drop the virtual contents it had; [dup] and
    [fcntl] leave the virtual files as they are. *)
Theorem dup_copies_record `{Libc W} (s s' : shim W) (c : call) (oldfd newfd : Z) :
  shim_inv s -> dup_source c newfd = Some oldfd -> 0 <= oldfd -> 0 <= newfd ->
  hook c s = (RInt newfd, s') ->
  tracks_as (lc_malloc_ok (sh_world s')) newfd (gpu_view (sh_nodes s) !! oldfd)
    (gpu_view (sh_nodes s)) (gpu_view (sh_nodes s')) /\
  match c with
  | CDup2 _ _ | CDup3 _ _ _ => oldfd <> newfd -> lc_lock_ok (sh_world s') = true ->
      fd_view (sh_files s') = delete newfd (fd_view (sh_files s))
  | _ => sh_files s' = sh_files s
  end.
Proof.
  intros Hinv Hsrc Ho Hn Hh.
  assert ((0 <=? newfd) = true) as Hle by by apply Z.leb_le.
  assert (forall w, shim_inv (set_world w s)) as Hw by (intros w; by destruct Hinv; constructor).
  destruct c; try done; cbn [dup_source hook] in *.
  - injection Hsrc as ->. apply (real_then _ (fun rc => if 0 <=? rc then gpu_fd_map_copy oldfd rc else mret tt) _ _ _ _ eq_refl) in Hh as [w Hk].
    cbv beta in Hk. rewrite Hle in Hk.
    destruct (copy_tracks oldfd newfd _ (Hw w) Ho Hn) as (n & He & Ht). rewrite He in Hk. by injection Hk as <-.
  - case_hyp Hsrc; [|done]. apply Z.eqb_eq in Heqb as ->. injection Hsrc as ->.
    apply (real_then _ (fun rc => if (0 <=? rc) && negb (oldfd =? newfd) then
        _ ← fd_map_remove newfd; gpu_fd_map_copy oldfd newfd else mret tt) _ _ _ _ eq_refl) in Hh as [w Hk].
    cbv beta in Hk. rewrite Hle in Hk. cbn [andb] in Hk.
    destruct (Z.eqb_spec oldfd newfd) as [->|Hne]; cbn [negb] in Hk.
    + injection Hk as <-. by split.
    + destruct (remove_copy_tracks oldfd newfd _ (Hw w) Ho Hn) as [Ht Hf]. rewrite Hk in Ht, Hf. by split.
  - case_hyp Hsrc; [|done]. apply Z.eqb_eq in Heqb as ->. injection Hsrc as ->.
    apply (real_then _ (fun rc => if 0 <=? rc then
        _ ← fd_map_remove newfd; gpu_fd_map_copy oldfd newfd else mret tt) _ _ _ _ eq_refl) in Hh as [w Hk].
    cbv beta in Hk. rewrite Hle in Hk.
    destruct (remove_copy_tracks oldfd newfd _ (Hw w) Ho Hn) as [Ht Hf]. rewrite Hk in Ht, Hf. by split.
  - assert (((cmd =? F_DUPFD) || (cmd =? F_DUPFD_CLOEXEC)) = fcntl_duplicates_fd cmd) as E
      by (unfold fcntl_duplicates_fd; by repeat case_goal).
    rewrite E in Hsrc. case_hyp Hsrc; [|done]. injection Hsrc as ->. clear E.
    apply (real_then _ (fun rc => if (0 <=? rc) && fcntl_duplicates_fd cmd then
        gpu_fd_map_copy oldfd rc else mret tt) _ _ _ _ eq_refl) in Hh as [w Hk].
    cbv beta in Hk. rewrite Hle in Hk. cbn [andb] in Hk.
    destruct (fcntl_duplicates_fd cmd); [|done].
    destruct (copy_tracks oldfd newfd _ (Hw w) Ho Hn) as (n & He & Ht). rewrite He in Hk. by injection Hk as <-.
Qed.

(** C15: closing a descriptor forgets it.  When the lock of the virtual files
    can be taken, [close] returns what the real
    function returns; both tables have lost the descriptor, successful or not,
    and kept every other one, and nothing else of the shim's state changes. *)
Theorem close_forgets `{Libc W} (s : shim W) (fd : Z) :
  shim_inv s -> lc_lock_ok (sh_world s) = true ->
  exists files nodes,
    hook (CClose fd) s =
      (let '(rc, w) := real_close fd (sh_world s) in
       (RInt rc, set_world w (set_nodes nodes (set_files files s)))) /\
    ft_view files = delete fd (ft_view (sh_files s)) /\
    ft_view nodes = delete fd (ft_view (sh_nodes s)).
Proof.
  intros Hinv Hlock.
  exists (ft_remove fd (sh_files s)), (ft_remove fd (sh_nodes s)). split; [|split; apply ft_remove_view; apply Hinv].
  cbn [hook]. unfold shim_close, fd_map_remove, gpu_fd_map_remove, real, mbind, M_bind.
  rewrite Hlock. cbn [sh_world set_nodes set_files]. by destruct (real_close fd (sh_world s)).
Qed.

Lemma open_tracks_witness :
  tracks_as true 3 (Some (FdRecord RPS_GPU_FD_PROC_GPUS_DIR (-1) (cs "/proc/driver/nvidia/gpus") []))
    (gpu_view (sh_nodes toy_started)) (gpu_view (sh_nodes toy_opened)).
Proof.
  pose proof (open_tracks toy_started toy_opened false (Some (cs "/proc/driver/nvidia/gpus")) 0 0 3) as Ht.
  destruct (rps_gpu_classify_path (Some (cs "/proc/driver/nvidia/gpus"))) as [ok r] eqn:E.
  vm_compute in E. injection E as <- <-. apply Ht.
  - apply toy_started_inv.
  - vm_compute. reflexivity.
  - vm_compute. reflexivity.
  - lia.
Defined.

(** The sample process after 3 was duplicated as 7, and as 4 with
    F_DUPFD_CLOEXEC and with F_DUPFD. *)
Definition toy_duped : shim toy := (hook (CDup2 3 7) toy_opened).2.
Definition toy_fcntl_duped (cmd : Z) : shim toy := (hook (CFcntl 3 cmd 0) toy_opened).2.

Lemma dup_copies_record_witness :
  tracks_as (lc_malloc_ok (sh_world toy_duped)) 7 (gpu_view (sh_nodes toy_opened) !! 3)
    (gpu_view (sh_nodes toy_opened)) (gpu_view (sh_nodes toy_duped)) /\
  forall cmd, cmd = F_DUPFD \/ cmd = F_DUPFD_CLOEXEC ->
  tracks_as (lc_malloc_ok (sh_world (toy_fcntl_duped cmd))) 4 (gpu_view (sh_nodes toy_opened) !! 3)
    (gpu_view (sh_nodes toy_opened)) (gpu_view (sh_nodes (toy_fcntl_duped cmd))).
Proof.
  split; [|intros cmd Hcmd].
  - apply (dup_copies_record toy_opened toy_duped (CDup2 3 7) 3 7).
    + apply toy_opened_inv.
    + reflexivity.
    + lia.
    + lia.
    + vm_compute. reflexivity.
  - apply (dup_copies_record toy_opened (toy_fcntl_duped cmd) (CFcntl 3 cmd 0) 3 4).
    + apply toy_opened_inv.
    + by destruct Hcmd as [->| ->].
    + lia.
    + lia.
    + destruct Hcmd as [->| ->]; vm_compute; reflexivity.
Defined.

Lemma close_forgets_witness :
  exists files nodes,
    hook (CClose 3) toy_opened =
      (let '(rc, w) := real_close 3 (sh_world toy_opened) in
       (RInt rc, set_world w (set_nodes nodes (set_files files toy_opened)))) /\
    ft_view files = delete 3 (ft_view (sh_files toy_opened)) /\
    ft_view nodes = delete 3 (ft_view (sh_nodes toy_opened)).
Proof. apply (close_forgets toy_opened 3); [apply toy_opened_inv|reflexivity]. Defined.
