(* ===== verification/HooksMem.v ===== *)
(** The memory side of the interposed functions: [/proc/meminfo] through
    [open] and [read] and through [fopen], the sizes [sysinfo] and [sysconf]
    report, and the calls made while the guard is held. *)

From S2P Require Import Prelude CString Config FdTable FdMap Paths Cgroup Memory Segments ProcFilter.
From S2P Require Import Dirent FdTracker IoctlFilter Preload Libc ToyLibc Hooks HooksInv HooksEval HooksFds.

#[local] Open Scope Z_scope.

Definition meminfo_path : option cstr := Some (cs "/proc/meminfo").

(** An access mode and flags for which the file is virtualised. *)
Definition reads_only (flags : Z) : Prop :=
  Z.land flags O_ACCMODE <> O_WRONLY /\ Z.land flags O_PATH <> O_PATH.

Section memory.
Context `{Libc W}.

(** ** The text served *)

(** In the world [w] with the statics [st], the real [/proc/meminfo] with the
    cgroup's sizes in it is [text], it fits the buffer, and taking the
    snapshot leaves the statics [st']. *)
Definition meminfo_text (w : W) (st : mem_static) (text : list ascii) (st' : mem_static) : Prop :=
  exists snap fp,
    rps_memory_snapshot (lc_getenv w) (lc_contents w) (lc_lock_ok w) st = (Some snap, st') /\
    open_meminfo (lc_getenv w) (lc_contents w) = Some fp /\ st_err fp = false /\
    text = rewrite_meminfo (snap_total snap / 1024) (snap_available snap / 1024) fp /\
    (length text <= RPS_MEMINFO_BUFFER_SIZE)%nat.

Lemma build_text (s : shim W) (text : list ascii) (st' : mem_static) :
  shim_inv s -> meminfo_text (sh_world s) (sh_mem s) text st' ->
  proc_meminfo_build s = (Some (text, length text), set_mem st' s).
Proof.
  intros Hinv (snap & fp & Hsnap & Hopen & Herr & -> & Hfit). unfold proc_meminfo_build.
  pose proof (meminfo_build_spec (lc_getenv (sh_world s)) (lc_contents (sh_world s))
    (lc_lock_ok (sh_world s)) RPS_MEMINFO_BUFFER_SIZE (sh_mem s) (inv_mem s Hinv)) as Hb.
  rewrite Hsnap, Hopen in Hb. cbv zeta in Hb. rewrite Hb, Herr.
  by rewrite (proj2 (Nat.leb_le _ _) Hfit).
Qed.

(** Successive reads of a descriptor, of the given sizes: the results, and the
    state. *)
Fixpoint reads (fd : Z) (counts : list Z) : M (shim W) (list result) :=
  match counts with
  | [] => mret []
  | n :: counts => r ← hook (CRead fd n); rs ← reads fd counts; mret (r :: rs)
  end.

(** The bytes a result delivers; the count must be their number. *)
Definition bytes_of (r : result) : list ascii :=
  match r with
  | RBytes (n, out) => if n =? Z.of_nat (length out) then out else []
  | _ => []
  end.

Definition total (counts : list Z) : nat := foldr (fun n m => (Z.to_nat n + m)%nat) 0%nat counts.

Lemma reads_deliver (fd : Z) (counts : list Z) (rest : list ascii) (s : shim W) :
  shim_inv s -> sh_depth s = 0 -> lc_lock_ok (sh_world s) = true ->
  Forall (fun n => 0 <= n <= UINT64_MAX) counts -> fd_view (sh_files s) !! fd = Some rest ->
  exists rs s', reads fd counts s = (rs, s') /\ sh_world s' = sh_world s /\
    concat (map bytes_of rs) = take (total counts) rest.
Proof.
  revert rest s. induction counts as [|n counts IH]; intros rest s Hinv Hd Hl Hc Hv.
  { exists [], s. done. }
  apply Forall_cons in Hc as [Hn Hc]. pose proof (shim_read_eq fd n s Hinv Hd Hn Hl) as Hr.
  rewrite Hv in Hr. cbv zeta in Hr. destruct Hr as (t & Hr & Hwf & Hview).
  set (s1 := set_files t s) in *.
  destruct (IH (drop (Z.to_nat n) rest) s1) as (rs & s' & Hrs & Hw & Hcat); try done.
  { by destruct Hinv; constructor. }
  { cbn [sh_files set_files s1]. rewrite Hview. apply lookup_insert_eq. }
  exists (RBytes (Z.of_nat (length (take (Z.to_nat n) rest)), take (Z.to_nat n) rest) :: rs), s'.
  split; [|split; [done|]].
  - cbn [reads]. erewrite bind_eq; [|cbn [hook]; rewrite (bind_eq _ _ _ _ _ Hr); reflexivity].
    by rewrite (bind_eq _ _ _ _ _ Hrs).
  - cbn [map concat bytes_of total foldr]. rewrite Z.eqb_refl, Hcat. fold (total counts).
    by rewrite take_drop_app.
Qed.

(** ** Attaching *)

Lemma meminfo_virtual (s : shim W) (flags : Z) :
  memory_on s = true -> reads_only flags ->
  should_virtualize_meminfo (cs_config (sh_config s)) meminfo_path flags = true.
Proof.
  intros Hm [H1 H2]. unfold should_virtualize_meminfo, meminfo_path. unfold memory_on in Hm.
  change (streq (cs "/proc/meminfo") (cs "/proc/meminfo")) with true. rewrite Hm. cbn [negb].
  by rewrite (proj2 (Z.eqb_neq _ _) H1), (proj2 (Z.eqb_neq _ _) H2).
Qed.

Lemma meminfo_not_denied (g : gpu_state) : gpu_proc_denied g meminfo_path = false.
Proof.
  unfold gpu_proc_denied. assert (rps_gpu_proc_path_allowed (Some (gs_allowed g)) meminfo_path = RPS_GPU_PROC_IGNORE) as ->.
  { unfold rps_gpu_proc_path_allowed. vm_compute. reflexivity. }
  by rewrite andb_false_r.
Qed.

Lemma attach_text (fd flags : Z) (s : shim W) (text : list ascii) (st' : mem_static) :
  shim_inv s -> sh_depth s = 0 -> memory_on s = true -> reads_only flags -> 0 <= fd ->
  lc_lock_ok (sh_world s) = true -> lc_malloc_ok (sh_world s) = true ->
  is_Some (fd_view (sh_files s) !! fd) \/ (size (fd_view (sh_files s)) < RPS_FD_MAP_CAPACITY)%nat ->
  meminfo_text (sh_world s) (sh_mem s) text st' ->
  exists t, maybe_attach_meminfo fd meminfo_path flags s = (tt, set_files t (set_mem st' s)) /\
    table_wf t /\ fd_view t = <[fd := text]> (fd_view (sh_files s)).
Proof.
  intros Hinv Hd Hm Hro Hfd Hlock Hmal Hroom Htext.
  assert (put_args_ok (Some text) (Z.of_nat (length text))) as Hargs.
  { destruct Htext as (snap & fp & _ & _ & _ & _ & Hfit). unfold RPS_MEMINFO_BUFFER_SIZE in Hfit.
    split; [unfold UINT64_MAX; lia|lia]. }
  pose proof (put_refines fd (Z.of_nat (length text)) (Some text) (sh_files s) (inv_files s Hinv) Hargs) as Hput.
  destruct (rps_fd_map_put true true fd _ _ _) as [ok t] eqn:E. destruct Hput as [Hwf Hview].
  rewrite (proj2 (Z.ltb_ge fd 0)), bool_decide_eq_false_2 in Hview by done. cbn [orb andb] in Hview.
  unfold spec_put in Hview. assert (bool_decide (is_Some (fd_view (sh_files s) !! fd)) ||
    (size (fd_view (sh_files s)) <? RPS_FD_MAP_CAPACITY)%nat = true) as Hroom'.
  { destruct Hroom as [Hr|Hr]; [by rewrite bool_decide_eq_true_2|].
    by rewrite (proj2 (Nat.ltb_lt _ _) Hr), orb_true_r. }
  rewrite Hroom' in Hview. injection Hview as -> Hview.
  exists t. split; [|split; [done|rewrite Hview; f_equal; unfold put_bytes; cbn; rewrite Nat2Z.id; by rewrite firstn_all]].
  unfold maybe_attach_meminfo. rewrite (proj2 (Z.ltb_ge fd 0)) by done.
  rewrite (bind_eq _ _ _ _ _ (virtualize_eq meminfo_path flags s (inv_config s Hinv))).
  rewrite (meminfo_virtual s flags Hm Hro). cbn [negb].
  erewrite bind_eq by (unfold guard_enter; rewrite Hd, guard_enter_free; reflexivity). cbn [negb].
  erewrite bind_eq; [|apply (build_text (set_depth 1 s)); [by destruct Hinv; constructor|exact Htext]].
  unfold mbind, M_bind, fd_map_put. cbn [sh_world sh_files set_mem set_depth]. rewrite Hlock, Hmal, E.
  unfold guard_leave. cbn [sh_depth set_files set_mem set_depth]. rewrite guard_leave_one.
  destruct s. cbn in Hd. by subst.
Qed.

(** ** Writing a buffer *)

(** [written fd buf w w']: starting from [w] the whole of [buf] is accepted, in
    order, by writes that take a part of it or are interrupted. *)
Inductive written (fd : Z) : list ascii -> W -> W -> Prop :=
| written_all w : written fd [] w w
| written_part buf w n w1 w' :
    buf <> [] -> sys_write fd buf w = (n, w1) -> 0 < n -> written fd (drop (Z.to_nat n) buf) w1 w' ->
    written fd buf w w'
| written_retry buf w n w1 w' :
    buf <> [] -> sys_write fd buf w = (n, w1) -> n < 0 -> lc_errno w1 = EINTR -> written fd buf w1 w' ->
    written fd buf w w'.

Lemma written_step (fd : Z) (buf : list ascii) (w w1 w' : W) (n : Z) :
  buf <> [] -> sys_write fd buf w = (n, w1) -> written fd buf w w' ->
  (0 < n /\ written fd (drop (Z.to_nat n) buf) w1 w') \/ (n < 0 /\ lc_errno w1 = EINTR /\ written fd buf w1 w').
Proof.
  intros Hne E Hw. destruct Hw as [w|buf w m w2 w' _ E2 Hm Hw|buf w m w2 w' _ E2 Hm He Hw]; [done| |];
    rewrite E in E2; injection E2 as <- <-; auto.
Qed.

Lemma write_loop_spec (fuel : nat) (fd : Z) (buf : list ascii) (w : W) :
  (lc_interrupts w + length buf < fuel)%nat ->
  exists ok w', write_loop fuel fd buf w = (Some ok, w') /\
    if (ok : bool) then written fd buf w w' else forall w'', ~ written fd buf w w''.
Proof.
  revert buf w. induction fuel as [|n IH]; intros buf w Hf; [lia|]. cbn [write_loop].
  destruct buf as [|c b]; [exists true, w; split; [done|constructor]|].
  pose proof (sys_write_le fd (c :: b) w) as Hle.
  pose proof (sys_write_interrupts fd (c :: b) w) as Hint.
  destruct (sys_write fd (c :: b) w) as [out w1] eqn:E. cbn [fst] in Hle. destruct Hint as [Hle1 Hlt].
  destruct (Z.ltb_spec out 0) as [Hneg|Hpos].
  - destruct (Z.eqb_spec (lc_errno w1) EINTR) as [Hi|Hi].
    + destruct (IH (c :: b) w1) as (ok & w' & -> & Hw); [specialize (Hlt Hneg Hi); lia|].
      exists ok, w'. split; [done|]. destruct ok; [by apply (written_retry fd _ _ out w1)|].
      intros w'' H''. apply (written_step _ _ _ w1 _ out) in H'' as [[? _]|(_ & _ & H'')]; [lia|by apply (Hw w'')|done..].
    + exists false, w1. split; [done|]. intros w'' H''.
      by apply (written_step _ _ _ w1 _ out) in H'' as [[? _]|(_ & ? & _)]; [lia| |done..].
  - destruct (Z.eqb_spec out 0) as [->|Hne].
    + exists false, w1. split; [done|]. intros w'' H''.
      by apply (written_step _ _ _ w1 _ 0) in H'' as [[? _]|(? & _)]; [lia|lia|done..].
    + destruct (IH (drop (Z.to_nat out) (c :: b)) w1) as (ok & w' & -> & Hw).
      { rewrite length_drop. cbn [length] in *. lia. }
      exists ok, w'. split; [done|]. destruct ok; [by apply (written_part fd _ _ out w1); [..|lia|]|].
      intros w'' H''. apply (written_step _ _ _ w1 _ out) in H'' as [[_ H'']|(? & _)]; [by apply (Hw w'')|lia|done..].
Qed.

Lemma written_func (fd : Z) (buf : list ascii) (w w1 w2 : W) :
  written fd buf w w1 -> written fd buf w w2 -> w1 = w2.
Proof.
  induction 1 as [w|buf w n w1 w' Hne E Hn _ IH|buf w n w1 w' Hne E Hn He _ IH]; intros H2.
  - by inversion H2.
  - apply (written_step _ _ _ w1 _ n) in H2 as [[_ H2]|(? & _)]; [by apply IH|lia|done..].
  - apply (written_step _ _ _ w1 _ n) in H2 as [[? _]|(_ & _ & H2)]; [lia|by apply IH|done..].
Qed.

Lemma write_all_written (fd : Z) (buf : list ascii) (w w' : W) :
  written fd buf w w' -> write_all_fd fd buf w = (Some true, w').
Proof.
  intros Hw. unfold write_all_fd.
  destruct (write_loop_spec (S (lc_interrupts w + length buf)) fd buf w) as (ok & w2 & -> & H2); [lia|].
  destruct ok; [by rewrite (written_func fd buf w w' w2)|by destruct (H2 w')].
Qed.

(** ** While the guard is held *)

Lemma guard_busy {A : Type} (no yes : M (shim W) A) (s : shim W) :
  sh_depth s <> 0 -> (entered ← guard_enter; if negb entered then no else yes) s = no s.
Proof.
  intros Hd. unfold mbind, M_bind, guard_enter. rewrite guard_enter_busy by done. by destruct s.
Qed.

Lemma memory_enabled_eq {A : Type} (k : rps_config -> M (shim W) A) (s : shim W) :
  shim_inv s -> (cfg ← config_get; k cfg) s = k (cs_config (sh_config s)) s.
Proof. intros Hinv. apply bind_eq, config_get_init, Hinv. Qed.

(** ** Taking a snapshot *)

Lemma snapshot_taken (s : shim W) (snap : rps_memory_snapshot_t) (st' : mem_static) :
  shim_inv s ->
  rps_memory_snapshot (lc_getenv (sh_world s)) (lc_contents (sh_world s)) (lc_lock_ok (sh_world s)) (sh_mem s) =
    (Some snap, st') ->
  memory_snapshot s = (Some snap, set_mem st' s) /\
  0 < snap_total snap < RPS_CGROUP_UNLIMITED_SENTINEL /\ 0 <= snap_available snap <= snap_total snap.
Proof.
  intros Hinv E. split; [unfold memory_snapshot; by rewrite E|].
  destruct (snapshot_spec _ _ _ _ _ _ (inv_mem s Hinv) E) as (Hwf & _ & Hdet & -> & _).
  destruct (Hwf Hdet) as [Hlim Hcur]. apply snapshot_range; [exact Hlim|apply Hcur].
Qed.

(** On a 64-bit platform the sizes are counted in bytes. *)
Lemma encode_bytes (t a : Z) :
  0 <= t <= ULONG_MAX -> 0 <= a <= ULONG_MAX ->
  encode_sysinfo_memory ULONG_MAX t a = Some (Some (SysinfoMemory t a 1)).
Proof.
  intros Ht Ha. unfold encode_sysinfo_memory. cbn [scale_loop]. rewrite !Z.div_1_r.
  rewrite (proj2 (Z.ltb_ge ULONG_MAX t)), (proj2 (Z.ltb_ge ULONG_MAX a)) by lia.
  cbn [orb mbind option_bind]. change (UINT_MAX <? 1) with false. cbv iota. by rewrite !Z.div_1_r.
Qed.

End memory.

(** ** Properties: [/proc/meminfo] *)

(** C2: a process that opens [/proc/meminfo] reads the cgroup's sizes.  When
    the file is opened for reading with the memory module on, no call of the
    shim in progress, a slot and memory available, and the rewritten text can
    be built, then reads of any sizes deliver that text from its beginning, in
    order, without loss or repetition, up to its end; the real [read] is not
    called. *)
Theorem meminfo_served `{Libc W} (s : shim W) (b : bool) (flags mode fd : Z) (w : W)
    (text : list ascii) (st' : mem_static) (counts : list Z) :
  shim_inv s -> sh_depth s = 0 -> memory_on s = true -> reads_only flags ->
  real_open b meminfo_path flags (if open_needs_mode flags then Some mode else None) (sh_world s) = (fd, w) ->
  0 <= fd -> lc_lock_ok w = true -> lc_malloc_ok w = true ->
  is_Some (fd_view (sh_files s) !! fd) \/ (size (fd_view (sh_files s)) < RPS_FD_MAP_CAPACITY)%nat ->
  meminfo_text w (sh_mem s) text st' ->
  Forall (fun n => 0 <= n <= UINT64_MAX) counts ->
  exists s1 rs s2, hook (COpen b meminfo_path flags mode) s = (RInt fd, s1) /\
    reads fd counts s1 = (rs, s2) /\ concat (map bytes_of rs) = take (total counts) text /\
    sh_world s2 = w.
Proof.
  intros Hinv Hd Hm Hro Hreal Hfd Hlock Hmal Hroom Htext Hc.
  pose proof (inv_config s Hinv) as Hi.
  pose proof (open_eq b meminfo_path flags mode (open_needs_mode flags) s Hi (meminfo_not_denied _)) as Hopen.
  rewrite Hreal in Hopen.
  assert (shim_inv (set_world w s)) as Hinvw by (by destruct Hinv; constructor).
  destruct (attach_text fd flags (set_world w s) text st') as (t & Ha & Hwf & Hview); try done.
  rewrite Ha in Hopen. cbn [snd] in Hopen. destruct Hopen as [Hopen _].
  set (s1 := set_nodes _ _) in Hopen.
  assert (hook (COpen b meminfo_path flags mode) s = (RInt fd, s1)) as Hhook.
  { cbn [hook]. destruct b; by rewrite (bind_eq _ _ _ _ _ Hopen). }
  assert (shim_inv s1) as Hinv1.
  { pose proof (keeps_hook (COpen b meminfo_path flags mode) I s Hinv) as [Hk _]. by rewrite Hhook in Hk. }
  destruct (reads_deliver fd counts text s1) as (rs & s2 & Hrs & Hw & Hcat); try done.
  { cbn [sh_files s1 set_nodes set_files]. rewrite Hview. apply lookup_insert_eq. }
  by exists s1, rs, s2.
Qed.

(** C16: [fopen] hands out a copy of that text.  For [/proc/meminfo] in a
    reading mode, when the text can be built and the anonymous file is
    created, takes all of it (over any number of partial or interrupted
    writes), rewinds and can be wrapped, the stream returned is the one over
    that file; the real [fopen] is not called. *)
Theorem fopen_meminfo_served `{Libc W} (s : shim W) (b : bool) (mode : cstr) (text : list ascii)
    (st' : mem_static) (fd fp : Z) (w1 w2 w3 w4 : W) :
  shim_inv s -> sh_depth s = 0 -> memory_on s = true -> meminfo_mode_is_read_only (Some mode) = true ->
  meminfo_text (sh_world s) (sh_mem s) text st' ->
  sys_memfd_create (cs "runpod-shim-meminfo") MFD_CLOEXEC (sh_world s) = (fd, w1) -> 0 <= fd ->
  written fd text w1 w2 -> sys_lseek fd 0 0 w2 = (0, w3) ->
  real_fdopen fd (cs "r") w3 = (fp, w4) -> fp <> 0 ->
  hook (CFopen b meminfo_path (Some mode)) s = (RInt fp, set_world w4 (set_mem st' s)).
Proof.
  intros Hinv Hd Hm Hmode Htext Hmemfd Hfd Hwritten Hseek Hfdopen Hfp.
  assert (fopen_common meminfo_path (Some mode) b s = (fp, set_world w4 (set_mem st' s))) as Hf;
    [|cbn [hook]; destruct b; by rewrite (bind_eq _ _ _ _ _ Hf)].
  unfold fopen_common. rewrite Hmode. cbn [negb].
  rewrite (bind_eq _ _ _ _ _ (virtualize_eq meminfo_path O_RDONLY s (inv_config s Hinv))).
  rewrite (meminfo_virtual s O_RDONLY Hm ltac:(done)). cbn [negb].
  erewrite bind_eq by (unfold guard_enter; rewrite Hd, guard_enter_free; reflexivity). cbn [negb].
  erewrite bind_eq; [|apply (build_text (set_depth 1 s)); [by destruct Hinv; constructor|exact Htext]].
  cbv beta iota. rewrite firstn_all. erewrite bind_eq; cycle 1.
  { erewrite bind_eq by (rewrite real_eq; cbn [sh_world set_mem set_depth]; rewrite Hmemfd; reflexivity).
    cbn [fst snd]. rewrite (proj2 (Z.leb_le 0 fd)) by done.
    erewrite bind_eq by (rewrite real_eq; cbn [sh_world set_world];
      rewrite (write_all_written fd text w1 w2 Hwritten); reflexivity).
    cbn [fst snd]. change (default false (Some true)) with true. cbv iota. erewrite bind_eq; cycle 1.
    { erewrite bind_eq by (rewrite real_eq; cbn [sh_world set_world]; rewrite Hseek; reflexivity).
      cbn [fst snd]. rewrite Z.eqb_refl, real_eq. cbn [sh_world set_world]. rewrite Hfdopen. reflexivity. }
    cbn [fst snd]. rewrite (proj2 (Z.eqb_neq fp 0)) by done. reflexivity. }
  erewrite bind_eq by (unfold guard_leave; cbn [sh_depth set_world set_mem set_depth];
    rewrite guard_leave_one; reflexivity).
  rewrite (proj2 (Z.eqb_neq fp 0)) by done. cbn [negb]. destruct s. cbn in Hd. by subst.
Qed.

(** C20: writing the text out terminates and is all or nothing.  Whatever the
    kernel accepts per call and however often it interrupts, the loop ends;
    it reports success exactly when the whole buffer was accepted in order. *)
Theorem write_all_complete `{Libc W} (fd : Z) (buf : list ascii) (w : W) :
  exists ok w', write_all_fd fd buf w = (Some ok, w') /\
    if (ok : bool) then written fd buf w w' else forall w'', ~ written fd buf w w''.
Proof. apply write_loop_spec. lia. Qed.

(** ** Properties: memory sizes *)

(** C17: [sysinfo] reports the cgroup.  When the real call succeeds and a
    snapshot can be taken, the sizes are the cgroup's limit and the amount
    still available, in bytes. *)
Theorem sysinfo_reports `{Libc W} (s : shim W) (w : W) (info : sysinfo_memory)
    (snap : rps_memory_snapshot_t) (st' : mem_static) :
  shim_inv s -> sh_depth s = 0 -> memory_on s = true ->
  real_sysinfo false (sh_world s) = ((0, info), w) ->
  rps_memory_snapshot (lc_getenv w) (lc_contents w) (lc_lock_ok w) (sh_mem s) = (Some snap, st') ->
  hook (CSysinfo false) s =
    (RSysinfo (0, SysinfoMemory (snap_total snap) (snap_available snap) 1), set_mem st' (set_world w s)).
Proof.
  intros Hinv Hd Hm Hreal Hsnap. set (s1 := set_depth 1 (set_world w s)).
  assert (shim_inv s1) as Hinv1 by (by destruct Hinv; constructor).
  destruct (snapshot_taken s1 snap st' Hinv1 Hsnap) as (Htake & Ht & Ha).
  assert (shim_sysinfo false s = ((0, SysinfoMemory (snap_total snap) (snap_available snap) 1),
    set_mem st' (set_world w s))) as Hs; [|cbn [hook]; by rewrite (bind_eq _ _ _ _ _ Hs)].
  unfold shim_sysinfo. erewrite bind_eq by (rewrite real_eq, Hreal; reflexivity). cbn [fst snd].
  change (negb (0 =? 0) || false) with false. cbv iota.
  rewrite memory_enabled_eq by (by destruct Hinv; constructor).
  change (cfg_cgroup_memory (cs_config (sh_config (set_world w s)))) with (memory_on s). rewrite Hm. cbn [negb].
  erewrite bind_eq by (unfold guard_enter; cbn [sh_depth set_world]; rewrite Hd, guard_enter_free; reflexivity).
  cbn [negb]. rewrite (bind_eq _ _ _ _ _ Htake). cbv beta iota zeta.
  unfold RPS_CGROUP_UNLIMITED_SENTINEL in Ht.
  rewrite encode_bytes by (unfold ULONG_MAX, UINT64_MAX; lia). unfold s1, guard_leave, mbind, M_bind.
  cbn [sh_depth set_mem set_depth]. rewrite guard_leave_one. destruct s. cbn in Hd. by subst.
Qed.

(** C18: [sysconf] reports the cgroup in pages.  With a positive page size and a
    snapshot, _SC_PHYS_PAGES is the limit and _SC_AVPHYS_PAGES the available
    amount, in whole pages; neither overflows a [long], and there are at most
    as many available pages as pages. *)
Theorem sysconf_reports `{Libc W} (s : shim W) (w : W) (page_size : Z)
    (snap : rps_memory_snapshot_t) (st' : mem_static) :
  shim_inv s -> sh_depth s = 0 -> memory_on s = true ->
  real_sysconf SC_PAGESIZE (sh_world s) = (page_size, w) -> 0 < page_size ->
  rps_memory_snapshot (lc_getenv w) (lc_contents w) (lc_lock_ok w) (sh_mem s) = (Some snap, st') ->
  let s' := set_mem st' (set_world w s) in
  hook (CSysconf SC_PHYS_PAGES) s = (RInt (snap_total snap / page_size), s') /\
  hook (CSysconf SC_AVPHYS_PAGES) s = (RInt (snap_available snap / page_size), s') /\
  0 <= snap_available snap / page_size <= snap_total snap / page_size /\
  snap_total snap / page_size <= LONG_MAX.
Proof.
  intros Hinv Hd Hm Hreal Hp Hsnap s'. set (s1 := set_world w (set_depth 1 s)).
  assert (shim_inv s1) as Hinv1 by (by destruct Hinv; constructor).
  destruct (snapshot_taken s1 snap st' Hinv1 Hsnap) as (Htake & Ht & Ha).
  unfold RPS_CGROUP_UNLIMITED_SENTINEL in Ht.
  assert (0 <= snap_available snap / page_size <= snap_total snap / page_size) as Hpages
    by (split; [apply Z.div_pos; lia|apply Z.div_le_mono; lia]).
  assert (snap_total snap / page_size <= LONG_MAX) as Hmax by (unfold LONG_MAX; zlia).
  assert (forall name, name = SC_PHYS_PAGES \/ name = SC_AVPHYS_PAGES ->
    shim_sysconf name s = ((if name =? SC_PHYS_PAGES then snap_total snap else snap_available snap) / page_size, s')) as Hc.
  { intros name Hname. unfold shim_sysconf.
    assert (negb (name =? SC_PHYS_PAGES) && negb (name =? SC_AVPHYS_PAGES) = false) as -> by (by destruct Hname as [-> | ->]).
    rewrite memory_enabled_eq by done. change (cfg_cgroup_memory (cs_config (sh_config s))) with (memory_on s).
    rewrite Hm. cbn [negb].
    erewrite bind_eq by (unfold guard_enter; rewrite Hd, guard_enter_free; reflexivity). cbn [negb].
    erewrite bind_eq by (rewrite real_eq; cbn [sh_world set_depth]; rewrite Hreal; reflexivity). cbn [fst snd].
    rewrite (proj2 (Z.leb_gt page_size 0)) by done. rewrite (bind_eq _ _ _ _ _ Htake). cbv beta iota zeta.
    rewrite (proj2 (Z.ltb_ge LONG_MAX _)) by (destruct (name =? SC_PHYS_PAGES); lia).
    unfold s1, s', guard_leave, mbind, M_bind. cbn [sh_depth set_mem set_world set_depth].
    rewrite guard_leave_one. destruct s. cbn in Hd. by subst. }
  split_and!; [..|lia|lia|done]; cbn [hook]; erewrite bind_eq; try (apply Hc; auto); done.
Qed.

(** C19: the shim's own calls reach the real functions.  While the guard is
    held, [read], [fopen], [sysinfo] and [sysconf] are the real functions and
    an [open] virtualises nothing: the files the shim reads to answer a call
    are the kernel's, and no call recurses. *)
Theorem reentrant_calls_real `{Libc W} (s : shim W) :
  shim_inv s -> sh_depth s <> 0 ->
  (forall fd count, shim_read fd count s = real (real_read fd count) s) /\
  (forall path mode b, fopen_common path mode b s = real (real_fopen b path mode) s) /\
  (forall null, shim_sysinfo null s = real (real_sysinfo null) s) /\
  (forall name, shim_sysconf name s = real (real_sysconf name) s) /\
  (forall fd path flags, maybe_attach_meminfo fd path flags s = (tt, s)).
Proof.
  intros Hinv Hd. split_and!.
  - intros fd count. unfold shim_read. by rewrite guard_busy.
  - intros path mode b. unfold fopen_common. destruct (negb (meminfo_mode_is_read_only mode)); [done|].
    rewrite (bind_eq _ _ _ _ _ (virtualize_eq path O_RDONLY s (inv_config s Hinv))).
    destruct (negb _); [done|]. by rewrite guard_busy.
  - intros null. unfold shim_sysinfo. destruct (real_sysinfo null (sh_world s)) as [[rc info] w] eqn:E.
    erewrite bind_eq by (rewrite real_eq, E; reflexivity). cbn [fst snd].
    rewrite real_eq, E. cbn [fst snd]. destruct (negb (rc =? 0) || null); [done|].
    rewrite memory_enabled_eq by (by destruct Hinv; constructor).
    destruct (negb _); [done|]. by rewrite guard_busy.
  - intros name. unfold shim_sysconf. destruct (_ && _); [done|]. rewrite memory_enabled_eq by done.
    destruct (negb _); [done|]. by rewrite guard_busy.
  - intros fd path flags. unfold maybe_attach_meminfo. destruct (fd <? 0); [done|].
    rewrite (bind_eq _ _ _ _ _ (virtualize_eq path flags s (inv_config s Hinv))).
    destruct (negb _); [done|]. by rewrite guard_busy.
Qed.

(** ** Witnesses on the sample process *)

Definition toy_text : list ascii :=
  sample_line "MemTotal:         1048576 kB" ++ sample_line "Buffers:           12 kB"
  ++ sample_line "MemFree:         1044480 kB".
Definition toy_mem : mem_static := MemStatic sample_cgroup true.
(** The world after [/proc/meminfo] was opened as 3. *)
Definition toy_world_opened : toy := (toy_open meminfo_path (sh_world toy_started)).2.

Lemma toy_snapshot (w : toy) :
  t_env w = t_env toy_world -> t_files w = t_files toy_world ->
  rps_memory_snapshot (lc_getenv w) (lc_contents w) (lc_lock_ok w) mem_static_start =
  (Some (Snapshot 1073741824 1069547520), toy_mem).
Proof.
  intros He Hf. cbn [lc_getenv lc_contents lc_lock_ok toy_libc]. rewrite He, Hf. vm_compute. reflexivity.
Qed.

Lemma toy_meminfo (w : toy) :
  t_env w = t_env toy_world -> t_files w = t_files toy_world ->
  meminfo_text w mem_static_start toy_text toy_mem.
Proof.
  intros He Hf. exists (Snapshot 1073741824 1069547520), (default (Stream [] false) (sample_files (cs "/proc/meminfo"))).
  split; [by apply toy_snapshot|].
  cbn [lc_getenv lc_contents toy_libc]. rewrite He, Hf.
  split_and!; [vm_compute; reflexivity..|]. apply Nat.leb_le. vm_compute. reflexivity.
Qed.

Lemma meminfo_served_witness :
  exists s1 rs s2, hook (COpen false meminfo_path O_RDONLY 0) toy_started = (RInt 3, s1) /\
    reads 3 [40; 100] s1 = (rs, s2) /\ concat (map bytes_of rs) = take 140 toy_text /\
    sh_world s2 = toy_world_opened.
Proof.
  apply (meminfo_served toy_started false O_RDONLY 0 3 toy_world_opened toy_text toy_mem [40; 100]).
  - apply toy_started_inv.
  - vm_compute. reflexivity.
  - vm_compute. reflexivity.
  - split; vm_compute; discriminate.
  - vm_compute. reflexivity.
  - lia.
  - reflexivity.
  - reflexivity.
  - right. apply Nat.ltb_lt. vm_compute. reflexivity.
  - apply toy_meminfo; vm_compute; reflexivity.
  - repeat (constructor; [unfold UINT64_MAX; lia|]). constructor.
Defined.

(** The world after the anonymous file was created as 3. *)
Definition toy_world_memfd : toy := (toy_alloc (cs "memfd") (sh_world toy_started)).2.

Lemma fopen_meminfo_served_witness :
  hook (CFopen false meminfo_path (Some (cs "r"))) toy_started =
    (RInt 1003, set_world toy_world_memfd (set_mem toy_mem toy_started)).
Proof.
  apply (fopen_meminfo_served toy_started false (cs "r") toy_text toy_mem 3 1003
    toy_world_memfd toy_world_memfd toy_world_memfd toy_world_memfd).
  - apply toy_started_inv.
  - vm_compute. reflexivity.
  - vm_compute. reflexivity.
  - reflexivity.
  - apply toy_meminfo; vm_compute; reflexivity.
  - reflexivity.
  - lia.
  - apply (written_part 3 toy_text toy_world_memfd (Z.of_nat (length toy_text)) toy_world_memfd).
    + discriminate.
    + reflexivity.
    + vm_compute. reflexivity.
    + rewrite Nat2Z.id, drop_all. constructor.
  - reflexivity.
  - reflexivity.
  - lia.
Defined.

Lemma sysinfo_reports_witness :
  hook (CSysinfo false) toy_started =
    (RSysinfo (0, SysinfoMemory 1073741824 1069547520 1), set_mem toy_mem (set_world (sh_world toy_started) toy_started)).
Proof.
  apply (sysinfo_reports toy_started (sh_world toy_started) (SysinfoMemory 268435456 1048576 1)
    (Snapshot 1073741824 1069547520) toy_mem).
  - apply toy_started_inv.
  - vm_compute. reflexivity.
  - vm_compute. reflexivity.
  - reflexivity.
  - apply toy_snapshot; vm_compute; reflexivity.
Defined.

Lemma sysconf_reports_witness :
  hook (CSysconf SC_PHYS_PAGES) toy_started =
    (RInt (1073741824 / 4096), set_mem toy_mem (set_world (sh_world toy_started) toy_started)).
Proof.
  destruct (sysconf_reports toy_started (sh_world toy_started) 4096
    (Snapshot 1073741824 1069547520) toy_mem) as (Hphys & _).
  - apply toy_started_inv.
  - vm_compute. reflexivity.
  - vm_compute. reflexivity.
  - reflexivity.
  - lia.
  - apply toy_snapshot; vm_compute; reflexivity.
  - exact Hphys.
Defined.

(** The sample process inside a call of the shim. *)
Definition toy_guarded : shim toy := set_depth 1 toy_started.

Lemma reentrant_calls_real_witness :
  fopen_common meminfo_path (Some (cs "r")) false toy_guarded = real (real_fopen false meminfo_path (Some (cs "r"))) toy_guarded.
Proof.
  destruct (reentrant_calls_real toy_guarded) as (_ & Hfopen & _).
  - destruct toy_started_inv; constructor; assumption.
  - vm_compute. discriminate.
  - apply Hfopen.
Defined.
