(* ===== verification/HooksOff.v ===== *)
(** With both modules switched off the shim is not there: any sequence of
    calls behaves as the real functions do. *)

From S2P Require Import Prelude CString Config FdTable FdMap Paths Cgroup Memory Segments ProcFilter.
From S2P Require Import Dirent FdTracker IoctlFilter Preload Libc ToyLibc Hooks HooksInv HooksEval.

#[local] Open Scope Z_scope.

Section off.
Context `{Libc W}.

(** ** The real functions *)

(** The mode is an argument of [open] when the flags have O_CREAT (bit 6) or
    both bits of O_TMPFILE (16 and 22). *)
Definition open_mode (flags mode : Z) : option Z :=
  if Z.testbit flags 6 || (Z.testbit flags 16 && Z.testbit flags 22) then Some mode else None.

(** The requests of [ioctl] without an argument: FIOCLEX, FIONCLEX, TIOCEXCL,
    TIOCNXCL and TIOCNOTTY. *)
Definition ioctl_arg (request arg : Z) : option Z :=
  if bool_decide (request ∈ [0x5450; 0x5451; 0x540C; 0x540D; 0x5422]) then None else Some arg.

(** The commands of [fcntl], by number, and the argument their documentation
    gives them. *)
Inductive manual_arg := TakesInt | TakesPtr | TakesNothing.

Definition fcntl_manual : list (Z * manual_arg) :=
  [(0, TakesInt);        (* F_DUPFD *)
   (1, TakesNothing);    (* F_GETFD *)
   (2, TakesInt);        (* F_SETFD *)
   (3, TakesNothing);    (* F_GETFL *)
   (4, TakesInt);        (* F_SETFL *)
   (5, TakesPtr);        (* F_GETLK *)
   (6, TakesPtr);        (* F_SETLK *)
   (7, TakesPtr);        (* F_SETLKW *)
   (8, TakesInt);        (* F_SETOWN *)
   (9, TakesNothing);    (* F_GETOWN *)
   (10, TakesInt);       (* F_SETSIG *)
   (11, TakesNothing);   (* F_GETSIG *)
   (15, TakesPtr);       (* F_SETOWN_EX *)
   (16, TakesPtr);       (* F_GETOWN_EX *)
   (36, TakesPtr);       (* F_OFD_GETLK *)
   (37, TakesPtr);       (* F_OFD_SETLK *)
   (38, TakesPtr);       (* F_OFD_SETLKW *)
   (1024, TakesInt);     (* F_SETLEASE *)
   (1025, TakesNothing); (* F_GETLEASE *)
   (1026, TakesInt);     (* F_NOTIFY *)
   (1030, TakesInt);     (* F_DUPFD_CLOEXEC *)
   (1031, TakesInt);     (* F_SETPIPE_SZ *)
   (1032, TakesNothing); (* F_GETPIPE_SZ *)
   (1033, TakesInt);     (* F_ADD_SEALS *)
   (1034, TakesNothing); (* F_GET_SEALS *)
   (1035, TakesPtr);     (* F_GET_RW_HINT *)
   (1036, TakesPtr);     (* F_SET_RW_HINT *)
   (1037, TakesPtr);     (* F_GET_FILE_RW_HINT *)
   (1038, TakesPtr)].    (* F_SET_FILE_RW_HINT *)

Definition fcntl_takes (cmd : Z) : option manual_arg :=
  snd <$> List.find (fun e => e.1 =? cmd) fcntl_manual.

Definition fcntl_arg_passed (cmd arg : Z) : fcntl_arg :=
  match fcntl_takes cmd with
  | Some TakesInt => FcntlInt arg
  | Some TakesPtr => FcntlPtr arg
  | Some TakesNothing | None => FcntlNone
  end.

(** What a process without the shim executes for a call.  The wide variants a
    platform does not have are the plain ones. *)
Definition real_call (c : call) : M W result :=
  match c with
  | COpen b path flags mode => r ← real_open b path flags (open_mode flags mode); mret (RInt r)
  | COpenat b dirfd path flags mode =>
      r ← real_openat (b && lc_has_symbol (cs "openat64")) dirfd path flags (open_mode flags mode); mret (RInt r)
  | CFopen b path mode => r ← real_fopen b path mode; mret (RInt r)
  | CRead fd count => r ← real_read fd count; mret (RBytes r)
  | CClose fd => r ← real_close fd; mret (RInt r)
  | CDup oldfd => r ← real_dup oldfd; mret (RInt r)
  | CDup2 oldfd newfd => r ← real_dup2 oldfd newfd; mret (RInt r)
  | CDup3 oldfd newfd flags => r ← real_dup3 oldfd newfd flags; mret (RInt r)
  | CFcntl fd cmd arg =>
      r ← real_fcntl fd cmd (fcntl_arg_passed cmd arg); mret (RInt r)
  | CStat path statbuf => r ← real_stat path statbuf; mret (RInt r)
  | CFstat fd statbuf => r ← real_fstat fd statbuf; mret (RInt r)
  | CFstatat dirfd path statbuf flags => r ← sys_newfstatat dirfd path statbuf flags; mret (RInt r)
  | COpendir b path => r ← real_opendir (b && lc_has_symbol (cs "opendir64")) path; mret (RDir r)
  | CFdopendir fd => r ← real_fdopendir fd; mret (RDir r)
  | CClosedir dirp => r ← real_closedir dirp; mret (RInt r)
  | CReaddir b dirp => r ← real_readdir b dirp; mret (REntry (Some r))
  | CGetdents64 fd count => r ← sys_getdents64 fd count; mret (RBytes r)
  | CIoctl fd request arg => r ← real_ioctl fd request (ioctl_arg request arg); mret (RInt r)
  | CSysinfo null => r ← real_sysinfo null; mret (RSysinfo r)
  | CSysconf name => r ← real_sysconf name; mret (RInt r)
  end.

(** Calls with a meaning of their own: the commands of [fcntl] are those of
    the table, with an [int] where they take one; the two functions that have
    no replacement exist. *)
Definition call_valid (c : call) : Prop :=
  match c with
  | CFcntl _ cmd arg =>
      match fcntl_takes cmd with
      | Some TakesInt => - 2 ^ 31 <= arg < 2 ^ 31
      | Some _ => True
      | None => False
      end
  | CFdopendir _ => lc_has_symbol (cs "fdopendir") = true
  | CReaddir true _ => lc_has_symbol (cs "readdir64") = true
  | _ => True
  end.

Fixpoint calls_run {S : Type} (step : call -> M S result) (calls : list call) : M S (list result) :=
  match calls with
  | [] => mret []
  | c :: calls => r ← step c; rs ← calls_run step calls; mret (r :: rs)
  end.

(** ** Nothing to do *)

(** Both modules off, nothing tracked, no call in progress. *)
Record idle (s : shim W) : Prop := {
  idle_inv : shim_inv s;
  idle_video : video_on s = false;
  idle_memory : memory_on s = false;
  idle_files : find_index (fun e => e_active e) (sh_files s) = None;
  idle_nodes : sh_nodes s = [];
  idle_depth : sh_depth s = 0
}.

Lemma idle_world (s : shim W) (w : W) : idle s -> idle (set_world w s).
Proof. intros [H1 H2 H3 H4 H5 H6]. split; try done. by destruct H1; constructor. Qed.

(** The function is the real one and touches no state. *)
Definition passes {A : Type} (m : M (shim W) A) (f : M W A) : Prop :=
  forall s, idle s -> m s = real f s.

Lemma passes_real {A : Type} (f : M W A) : passes (real f) f.
Proof. by intros s _. Qed.

Lemma passes_bind {A B : Type} (m : M (shim W) A) (f : M W A) (k : A -> M (shim W) B) (g : A -> M W B) :
  passes m f -> (forall a, passes (k a) (g a)) -> passes (m ≫= k) (f ≫= g).
Proof.
  intros Hm Hk s Hs. unfold mbind, M_bind. rewrite (Hm s Hs). unfold real.
  destruct (f (sh_world s)) as [a w]. rewrite (Hk a (set_world w s)) by by apply idle_world.
  unfold real. cbn [sh_world set_world]. by destruct (g a w).
Qed.

(** Bookkeeping that does nothing in front of, or behind, the real function. *)
Lemma passes_skip {A B : Type} (m : M (shim W) A) (a : A) (k : A -> M (shim W) B) (f : M W B) :
  (forall s, idle s -> m s = (a, s)) -> passes (k a) f -> passes (m ≫= k) f.
Proof. intros Hm Hk s Hs. rewrite (bind_eq _ _ _ _ _ (Hm s Hs)). by apply Hk. Qed.

Lemma passes_then {A : Type} (f : M W A) (k : A -> M (shim W) unit) :
  (forall a s, idle s -> k a s = (tt, s)) -> passes (r ← real f; _ ← k r; mret r) f.
Proof.
  intros Hk s Hs. unfold mbind, M_bind, real. destruct (f (sh_world s)) as [a w].
  by rewrite Hk by by apply idle_world.
Qed.

Lemma video_off (s : shim W) : idle s -> gpu_video_enabled s = (false, s).
Proof. intros Hs. rewrite gpu_video_eq by apply Hs. by rewrite (idle_video s Hs). Qed.

Lemma denied_off (path : option cstr) (s : shim W) : idle s -> proc_denied path s = (false, s).
Proof.
  intros Hs. rewrite proc_denied_eq by apply Hs. rewrite (idle_video s Hs). done.
Qed.

Lemma track_off (path : option cstr) (fd : Z) (s : shim W) :
  idle s -> trace_and_track_open path fd s = (tt, s).
Proof.
  intros Hs. rewrite track_open_eq by apply Hs. rewrite (idle_video s Hs).
  unfold gpu_trace_and_track_open. cbn. by destruct s.
Qed.

Lemma virtual_off (path : option cstr) (flags : Z) (s : shim W) :
  idle s -> virtualize_meminfo path flags s = (false, s).
Proof.
  intros Hs. rewrite virtualize_eq by apply Hs. unfold should_virtualize_meminfo.
  destruct path as [p|]; [|done]. destruct (negb (streq p _)); [done|].
  pose proof (idle_memory s Hs) as Hm. unfold memory_on in Hm. by rewrite Hm.
Qed.

Lemma attach_off (fd flags : Z) (path : option cstr) (s : shim W) :
  idle s -> maybe_attach_meminfo fd path flags s = (tt, s).
Proof.
  intros Hs. unfold maybe_attach_meminfo. destruct (fd <? 0); [done|].
  by rewrite (bind_eq _ _ _ _ _ (virtual_off path flags s Hs)).
Qed.

Lemma effective_off (dirfd : Z) (path : option cstr) (s : shim W) :
  idle s -> effective_openat_path dirfd path s = ((RPS_GPU_EFFECTIVE_PASSTHROUGH, path), s).
Proof.
  intros Hs. unfold effective_openat_path, gets, gpu_effective_openat_path. rewrite (idle_nodes s Hs).
  unfold rps_gpu_fd_map_get. destruct (_ || _); [done|]. by destruct (dirfd <? 0).
Qed.

Lemma not_held (s : shim W) (fd : Z) : idle s -> find_index (entry_holds fd) (sh_files s) = None.
Proof.
  intros Hs. apply find_index_None_2. intros e He.
  pose proof (find_index_None _ _ e (idle_files s Hs) He) as Hf. cbn in Hf. unfold entry_holds. by rewrite Hf.
Qed.

Lemma remove_off (fd : Z) (s : shim W) : idle s -> fd_map_remove fd s = (tt, s).
Proof.
  intros Hs. unfold fd_map_remove, rps_fd_map_remove. rewrite not_held by done.
  destruct (negb _); by destruct s.
Qed.

Lemma gpu_remove_off (fd : Z) (s : shim W) : idle s -> gpu_fd_map_remove fd s = (tt, s).
Proof.
  intros Hs. unfold gpu_fd_map_remove, rps_gpu_fd_map_remove. rewrite (idle_nodes s Hs).
  rewrite <-(idle_nodes s Hs). destruct (fd <? 0); [by destruct s|]. rewrite (idle_nodes s Hs). cbn.
  rewrite <-(idle_nodes s Hs). by destruct s.
Qed.

Lemma copy_off (oldfd newfd : Z) (s : shim W) : idle s -> gpu_fd_map_copy oldfd newfd s = (tt, s).
Proof.
  intros Hs. unfold gpu_fd_map_copy. assert (rps_gpu_fd_map_copy (lc_malloc_ok (sh_world s)) oldfd newfd (sh_nodes s) = sh_nodes s) as ->.
  { unfold rps_gpu_fd_map_copy. destruct (_ || _); [done|]. by rewrite (idle_nodes s Hs). }
  by destruct s.
Qed.

(** ** The arguments *)

Lemma i32_int (z : Z) : - 2 ^ 31 <= z < 2 ^ 31 -> i32 z = z.
Proof.
  intros Hz. unfold i32. destruct (Z.ltb_spec (z mod 2 ^ 32) (2 ^ 31)); pose proof (Z.mod_pos_bound z (2 ^ 32));
    pose proof (Z.div_mod z (2 ^ 32)); nia.
Qed.

Lemma open_mode_eq (flags mode : Z) :
  open_mode flags mode = if open_needs_mode flags then Some mode else None.
Proof.
  assert ((Z.land flags O_CREAT =? 0) = negb (Z.testbit flags 6)) as Hc.
  { apply eq_true_iff_eq. rewrite Z.eqb_eq, negb_true_iff. split; intros Hz.
    - apply (f_equal (fun z => Z.testbit z 6)) in Hz. rewrite Z.land_spec in Hz. by rewrite andb_true_r in Hz.
    - apply Z.bits_inj'. intros n Hn. change O_CREAT with (2 ^ 6).
      rewrite Z.land_spec, Z.pow2_bits_eqb, Z.bits_0 by lia.
      destruct (Z.eqb_spec 6 n) as [<-|]; [by rewrite Hz|apply andb_false_r]. }
  assert ((Z.land flags O_TMPFILE =? O_TMPFILE) = Z.testbit flags 16 && Z.testbit flags 22) as Ht.
  { apply eq_true_iff_eq. rewrite Z.eqb_eq, andb_true_iff. split; [intros Hz; split|intros [H1 H2]].
    - apply (f_equal (fun z => Z.testbit z 16)) in Hz. rewrite Z.land_spec in Hz. by rewrite andb_true_r in Hz.
    - apply (f_equal (fun z => Z.testbit z 22)) in Hz. rewrite Z.land_spec in Hz. by rewrite andb_true_r in Hz.
    - apply Z.bits_inj'. intros n Hn. change O_TMPFILE with (Z.lor (2 ^ 16) (2 ^ 22)).
      rewrite Z.land_spec, Z.lor_spec, !Z.pow2_bits_eqb by lia.
      destruct (Z.eqb_spec 16 n) as [<-|]; [by rewrite H1|].
      destruct (Z.eqb_spec 22 n) as [<-|]; [by rewrite H2|apply andb_false_r]. }
  unfold open_mode, open_needs_mode. rewrite Hc, Ht.
  destruct (Z.testbit flags 6); [done|]. by destruct (Z.testbit flags 16 && Z.testbit flags 22).
Qed.

Lemma ioctl_arg_eq (request arg : Z) :
  ioctl_arg request arg = if ioctl_request_has_no_arg request then None else Some arg.
Proof.
  unfold ioctl_arg, ioctl_request_has_no_arg. erewrite bool_decide_ext; [reflexivity|]. set_solver.
Qed.

Lemma fcntl_arg_eq (fd cmd arg : Z) :
  call_valid (CFcntl fd cmd arg) ->
  fcntl_arg_passed cmd arg = match fcntl_arg_kind cmd with
                             | RPS_FCNTL_ARG_INT => FcntlInt (i32 arg)
                             | RPS_FCNTL_ARG_PTR => FcntlPtr arg
                             | RPS_FCNTL_ARG_NONE => FcntlNone
                             end.
Proof.
  cbn [call_valid]. unfold fcntl_arg_passed, fcntl_takes.
  assert (Forall (fun e => fcntl_arg_kind e.1 = match e.2 with
                             | TakesInt => RPS_FCNTL_ARG_INT
                             | TakesPtr => RPS_FCNTL_ARG_PTR
                             | TakesNothing => RPS_FCNTL_ARG_NONE
                             end) fcntl_manual) as Hall
    by (repeat (constructor; [vm_compute; reflexivity|]); constructor).
  destruct (List.find _ fcntl_manual) as [[c k]|] eqn:E; [|done]. cbn [fmap option_fmap option_map snd].
  apply find_some in E as [Hin Hc]. cbn [fst] in Hc. apply Z.eqb_eq in Hc as ->.
  apply list_elem_of_In in Hin. rewrite Forall_forall in Hall. specialize (Hall _ Hin). cbn [fst snd] in Hall.
  rewrite Hall. destruct k; [|done|done]. intros Hz. by rewrite i32_int.
Qed.

(** ** Every function *)

Lemma open_passes (path : option cstr) (flags mode : Z) (b : bool) :
  passes (open_common path flags mode (open_needs_mode flags) b) (real_open b path flags (open_mode flags mode)).
Proof.
  rewrite open_mode_eq. unfold open_common. apply (passes_skip _ false); [intros; by apply denied_off|].
  intros s Hs. unfold mbind, M_bind, real.
  destruct (real_open _ _ _ _ _) as [fd w]. rewrite attach_off by by apply idle_world.
  by rewrite track_off by by apply idle_world.
Qed.

Lemma openat_real (dirfd : Z) (path : option cstr) (flags : Z) (mode : option Z) (b : bool) :
  passes (if b then
            r ← openat64_via_next dirfd path flags mode;
            match r with
            | Some fd => mret fd
            | None => real (real_openat false dirfd path flags mode)
            end
          else real (real_openat false dirfd path flags mode))
    (real_openat (b && lc_has_symbol (cs "openat64")) dirfd path flags mode).
Proof.
  destruct b; [|by apply passes_real]. unfold openat64_via_next. cbn [andb].
  destruct (lc_has_symbol (cs "openat64")); intros s Hs; unfold mbind, M_bind, real; [|done].
  by destruct (real_openat _ _ _ _ _ _).
Qed.

Lemma openat_passes (dirfd : Z) (path : option cstr) (flags mode : Z) (b : bool) :
  passes (openat_common dirfd path flags mode (open_needs_mode flags) b)
    (real_openat (b && lc_has_symbol (cs "openat64")) dirfd path flags (open_mode flags mode)).
Proof.
  rewrite open_mode_eq. unfold openat_common. apply (passes_skip _ (RPS_GPU_EFFECTIVE_PASSTHROUGH, path)); [intros; by apply effective_off|].
  apply (passes_skip _ false); [intros; by apply denied_off|].
  intros s Hs. cbv iota zeta.
  pose proof (openat_real dirfd path flags (if open_needs_mode flags then Some mode else None) b s Hs) as Hr.
  rewrite real_eq in Hr. rewrite (bind_eq _ _ _ _ _ Hr), real_eq. clear Hr. destruct (real_openat _ _ _ _ _ _) as [fd w]. cbn [fst snd].
  assert (idle (set_world w s)) as Hw by by apply idle_world.
  assert ((if dirfd =? AT_FDCWD then maybe_attach_meminfo fd path flags else mret tt) (set_world w s) =
          (tt, set_world w s)) as H1 by (destruct (dirfd =? AT_FDCWD); [by apply attach_off|done]).
  assert ((if path_is_absolute path || (dirfd =? AT_FDCWD) then trace_and_track_open path fd else mret tt)
            (set_world w s) = (tt, set_world w s)) as H2 by (destruct (_ || _); [by apply track_off|done]).
  by rewrite (bind_eq _ _ _ _ _ H1), (bind_eq _ _ _ _ _ H2).
Qed.

Lemma fopen_passes (path mode : option cstr) (b : bool) :
  passes (fopen_common path mode b) (real_fopen b path mode).
Proof.
  unfold fopen_common. destruct (negb (meminfo_mode_is_read_only mode)); [apply passes_real|].
  apply (passes_skip _ false); [intros; by apply virtual_off|apply passes_real].
Qed.

Lemma read_passes (fd count : Z) : passes (shim_read fd count) (real_read fd count).
Proof.
  intros s Hs. unfold shim_read, mbind, M_bind, guard_enter. rewrite (idle_depth s Hs), guard_enter_free.
  cbn [negb]. unfold fd_map_take_read, rps_fd_map_take_read. cbn [sh_world sh_files set_depth].
  rewrite not_held by done. cbn [andb orb]. destruct (negb _);
    unfold guard_leave; cbn [sh_depth set_depth set_files]; rewrite guard_leave_one;
    pose proof (idle_depth s Hs) as Hd; destruct s; cbn in Hd; by subst.
Qed.

Lemma opendir_passes (path : option cstr) (b : bool) :
  passes (opendir_common path b) (real_opendir (b && lc_has_symbol (cs "opendir64")) path).
Proof.
  unfold opendir_common. apply (passes_skip _ false); [intros; by apply denied_off|]. cbv iota.
  assert (passes (if b then
             r ← opendir64_via_next path;
             match r with Some dir => mret dir | None => real (real_opendir false path) end
           else real (real_opendir false path)) (real_opendir (b && lc_has_symbol (cs "opendir64")) path)) as Hr.
  { destruct b; [|apply passes_real]. unfold opendir64_via_next. cbn [andb].
    destruct (lc_has_symbol (cs "opendir64")); intros s Hs; unfold mbind, M_bind, real; [|done].
    by destruct (real_opendir _ _ _). }
  intros s Hs. specialize (Hr s Hs). rewrite real_eq in Hr. rewrite (bind_eq _ _ _ _ _ Hr), real_eq. clear Hr.
  destruct (real_opendir _ _ _) as [[d|] w]; [|done]. cbn [fst snd].
  unfold mbind, M_bind, gets. by rewrite track_off by by apply idle_world.
Qed.

Lemma readdir_passes (b : bool) (dirp : Z) :
  passes (readdir_common b dirp) (e ← real_readdir b dirp; mret (Some e)).
Proof.
  intros s Hs. rewrite real_eq. unfold readdir_common.
  destruct (real_readdir b dirp (sh_world s)) as [e w] eqn:E.
  erewrite bind_eq by (rewrite real_eq, E; reflexivity). cbn [fst snd].
  assert ((e ← real_readdir b dirp; mret (Some e)) (sh_world s) = (Some e, w)) as -> by by erewrite bind_eq by exact E.
  destruct e as [entry|]; [|done]. cbn [fst snd].
  erewrite bind_eq by reflexivity. erewrite bind_eq by reflexivity. cbn [readdir_loop].
  assert (idle (set_world w s)) as Hw by by apply idle_world.
  erewrite bind_eq; [|unfold readdir_entry_allowed; rewrite (bind_eq _ _ _ _ _ (video_off _ Hw)); reflexivity].
  done.
Qed.

Lemma getdents_passes (fd count : Z) : passes (shim_getdents64 fd count) (sys_getdents64 fd count).
Proof.
  intros s Hs. unfold shim_getdents64, mbind, M_bind, real.
  destruct (sys_getdents64 fd count (sh_world s)) as [[rc b] w]. destruct (0 <? rc); [|done].
  by rewrite (video_off _ (idle_world s w Hs)).
Qed.

Lemma ioctl_passes (fd request arg : Z) :
  passes (shim_ioctl fd request arg)
    (real_ioctl fd request (ioctl_arg request arg)).
Proof.
  rewrite ioctl_arg_eq. intros s Hs. unfold shim_ioctl. cbv zeta.
  assert ((if ioctl_request_has_no_arg request then None
           else Some (if ioctl_request_has_no_arg request then 0 else arg)) =
          (if ioctl_request_has_no_arg request then None else Some arg)) as ->
    by by destruct (ioctl_request_has_no_arg request).
  rewrite !(real_eq _ s). erewrite bind_eq by (rewrite real_eq; reflexivity).
  assert (idle (set_world (real_ioctl fd request (if ioctl_request_has_no_arg request then None else Some arg) (sh_world s)).2 s)) as Hw
    by by apply idle_world.
  erewrite bind_eq; [|apply gpu_ioctl_eq, Hw]. by rewrite (idle_video _ Hw).
Qed.

Lemma sysinfo_passes (null : bool) : passes (shim_sysinfo null) (real_sysinfo null).
Proof.
  intros s Hs. unfold shim_sysinfo, mbind, M_bind, real.
  destruct (real_sysinfo null (sh_world s)) as [[rc info] w]. destruct (negb (rc =? 0) || null); [done|].
  pose proof (idle_world s w Hs) as Hw. rewrite config_get_init by apply Hw.
  pose proof (idle_memory _ Hw) as Hm. unfold memory_on in Hm. by rewrite Hm.
Qed.

Lemma sysconf_passes (name : Z) : passes (shim_sysconf name) (real_sysconf name).
Proof.
  intros s Hs. unfold shim_sysconf. destruct (_ && _); [done|].
  rewrite (bind_eq _ _ _ _ _ (config_get_init s (inv_config s (idle_inv s Hs)))).
  pose proof (idle_memory _ Hs) as Hm. unfold memory_on in Hm. by rewrite Hm.
Qed.

Lemma fstatat_passes (dirfd : Z) (path : option cstr) (statbuf flags : Z) :
  passes (fstatat_common dirfd path statbuf flags) (sys_newfstatat dirfd path statbuf flags).
Proof.
  unfold fstatat_common.
  apply (passes_skip _ (RPS_GPU_EFFECTIVE_PASSTHROUGH, path)); [intros; by apply effective_off|].
  apply (passes_skip _ false); [intros; by apply denied_off|apply passes_real].
Qed.

Lemma passes_mret {A : Type} (a : A) : passes (mret a) (mret a).
Proof. intros s _. by destruct s. Qed.

Lemma passes_ext {A : Type} (m : M (shim W) A) (f g : M W A) :
  (forall w, f w = g w) -> passes m f -> passes m g.
Proof. intros He Hm s Hs. by rewrite (Hm s Hs), !real_eq, He. Qed.

Lemma hook_passes (c : call) : call_valid c -> passes (hook c) (real_call c).
Proof.
  intros Hex. destruct c; cbn [hook real_call call_valid] in *; try (apply passes_bind; [|intros; apply passes_mret]).
  - destruct use64; apply open_passes.
  - destruct use64; apply openat_passes.
  - destruct use64; apply fopen_passes.
  - apply read_passes.
  - unfold shim_close. apply (passes_skip _ tt); [by apply remove_off|].
    apply (passes_skip _ tt); [by apply gpu_remove_off|apply passes_real].
  - apply (passes_then _ (fun rc => if 0 <=? rc then gpu_fd_map_copy oldfd rc else mret tt)).
    intros rc s Hs. destruct (0 <=? rc); [by apply copy_off|done].
  - apply (passes_then _ (fun rc => if (0 <=? rc) && negb (oldfd =? newfd) then
        _ ← fd_map_remove newfd; gpu_fd_map_copy oldfd newfd else mret tt)).
    intros rc s Hs. destruct (_ && _); [|done]. by rewrite (bind_eq _ _ _ _ _ (remove_off newfd s Hs)), copy_off.
  - apply (passes_then _ (fun rc => if 0 <=? rc then
        _ ← fd_map_remove newfd; gpu_fd_map_copy oldfd newfd else mret tt)).
    intros rc s Hs. destruct (0 <=? rc); [|done]. by rewrite (bind_eq _ _ _ _ _ (remove_off newfd s Hs)), copy_off.
  - rewrite (fcntl_arg_eq fd cmd arg Hex).
    apply (passes_then _ (fun rc => if (0 <=? rc) && fcntl_duplicates_fd cmd then
        gpu_fd_map_copy fd rc else mret tt)).
    intros rc s Hs. destruct (_ && _); [by apply copy_off|done].
  - unfold shim_stat. apply (passes_skip _ false); [by apply denied_off|apply passes_real].
  - apply passes_real.
  - apply fstatat_passes.
  - apply opendir_passes.
  - unfold shim_fdopendir. rewrite Hex. apply passes_real.
  - intros s Hs. unfold shim_closedir. erewrite bind_eq by reflexivity. revert s Hs.
    intros s Hs. apply (passes_then _ (fun rc => if (rc =? 0) && (0 <=? lc_dirfd (sh_world s) dirp)
      then gpu_fd_map_remove (lc_dirfd (sh_world s) dirp) else mret tt)); [|done].
    intros rc s' Hs'. destruct (_ && _); [by apply gpu_remove_off|done].
  - apply (passes_ext _ (e ← (e ← real_readdir b64 dirp; mret (Some e)); mret (REntry e))).
    { intros w. unfold mbind, M_bind, mret, M_ret. by destruct (real_readdir b64 dirp w). }
    apply passes_bind; [|intros; apply passes_mret].
    destruct b64; [|apply readdir_passes]. unfold shim_readdir64. rewrite Hex. apply readdir_passes.
  - apply getdents_passes.
  - apply ioctl_passes.
  - apply sysinfo_passes.
  - apply sysconf_passes.
Qed.

Lemma calls_pass (calls : list call) :
  Forall call_valid calls -> passes (calls_run hook calls) (calls_run real_call calls).
Proof.
  induction 1 as [|c calls Hc _ IH]; cbn [calls_run]; [apply passes_mret|].
  apply passes_bind; [by apply hook_passes|]. intros r. apply passes_bind; [done|]. intros; apply passes_mret.
Qed.

Lemma init_idle (w : W) :
  rps_env_is_disabled (lc_getenv w) (cs "RUNPOD_SHIM_GPU_VIDEO") = true ->
  rps_env_is_disabled (lc_getenv w) (cs "RUNPOD_SHIM_CGROUP_MEMORY") = true ->
  let s := (runpod_shim_init (shim_start w)).2 in idle s /\ sh_world s = w.
Proof.
  intros Hv Hm s. destruct (init_inv w) as [Hinv Hd]. subst s. revert Hinv Hd.
  unfold runpod_shim_init, config_get, mbind, M_bind, rps_config_get. cbn [sh_world sh_config shim_start config_start cs_initialized negb].
  rewrite Hv, Hm. cbn [negb cfg_gpu_video]. intros Hinv Hd. split; [by split|done].
Qed.

End off.

(** ** Properties *)

(** C3: with both modules off the shim is transparent.  In a process started
    with the GPU and the memory module disabled in its environment, every
    sequence of calls has the results and the effects of the real functions,
    whatever they do, each given the caller's own arguments (those the manual
    gives the call: the mode of a creating [open], the argument of the
    documented [fcntl] commands and of [ioctl]), and leaves the shim's state as
    it was.  Left aside are [fcntl] commands outside the table and functions
    the platform does not have. *)
Theorem disabled_transparent `{Libc W} (w : W) (calls : list call) :
  rps_env_is_disabled (lc_getenv w) (cs "RUNPOD_SHIM_GPU_VIDEO") = true ->
  rps_env_is_disabled (lc_getenv w) (cs "RUNPOD_SHIM_CGROUP_MEMORY") = true ->
  Forall call_valid calls ->
  let s := (runpod_shim_init (shim_start w)).2 in
  let '(rs, w') := calls_run real_call calls w in
  calls_run hook calls s = (rs, set_world w' s).
Proof.
  intros Hv Hm Hc s. destruct (init_idle w Hv Hm) as [Hidle Hw]. fold s in Hidle, Hw.
  pose proof (calls_pass calls Hc s Hidle) as Hp. rewrite real_eq, Hw in Hp.
  destruct (calls_run real_call calls w) as [rs w']. exact Hp.
Qed.

Definition sample_calls : list call :=
  [COpen false (Some (cs "/proc/driver/nvidia/gpus/b0/information")) 0x42 0x1a4; CRead 3 8;
   CFcntl 3 4 2048; CFcntl 3 3 7; CFcntl 3 6 5000; CIoctl 3 0x5451 9; CSysconf 85].

Lemma disabled_transparent_witness :
  let s := (runpod_shim_init (shim_start toy_world_off)).2 in
  (calls_run hook sample_calls s).1 =
    [RInt 3; RBytes (8, cs "Device M"); RInt 2048; RInt 0; RInt 5000; RInt 0; RInt 65536] /\
  let '(rs, w') := calls_run real_call sample_calls toy_world_off in
  calls_run hook sample_calls s = (rs, set_world w' s).
Proof.
  intros s. split; [vm_compute; reflexivity|]. apply (disabled_transparent toy_world_off sample_calls).
  - vm_compute. reflexivity.
  - vm_compute. reflexivity.
  - unfold sample_calls. repeat (constructor; [cbn; (exact I || lia)|]). constructor.
Defined.
