(* ===== verification/HooksCases.v ===== *)
(** Concrete runs of the interposed functions on the sample process that show
    behaviour at odds with the documentation or with the code's intention. *)

From S2P Require Import Prelude CString Config FdTable FdMap Paths Cgroup Memory Segments ProcFilter.
From S2P Require Import Dirent FdTracker IoctlFilter Preload Libc ToyLibc Hooks HooksInv HooksEval.

#[local] Open Scope Z_scope.

(** Run calls in order and keep the last result and the state. *)
Fixpoint run_calls (calls : list call) (last : result) (s : shim toy) : result * shim toy :=
  match calls with
  | [] => (last, s)
  | c :: calls => let '(r, s) := hook c s in run_calls calls r s
  end.

(** The descriptor is closed in a way the shim does not see, as [fclose] on a
    stream made by [fdopen] does. *)
Definition closed_unseen (fd : Z) (s : shim toy) : shim toy :=
  set_world (toy_close fd (sh_world s)).2 s.

Definition case_meminfo : shim toy :=
  (run_calls [COpen false (Some (cs "/proc/meminfo")) 0 0] (RInt 0) toy_started).2.

(** A descriptor that carried [/proc/meminfo] and was closed unseen still has
    the text when its number is given to another file. *)
Example stale_meminfo :
  let '(r, s1) := run_calls [COpen false (Some (cs "/etc/passwd")) 0 0] (RInt 0) (closed_unseen 3 case_meminfo) in
  r = RInt 3 /\
  (run_calls [CRead 3 25] (RInt 0) s1).1 = RBytes (25, cs "MemTotal:         1048576") /\
  (real_read 3 25 (sh_world s1)).1 = (10, cs "root:x:0:0").
Proof. vm_compute. split_and!; reflexivity. Qed.

(** A duplicate of a descriptor of [/proc/meminfo] gives the host's sizes. *)
Example duplicate_meminfo :
  let '(r, s1) := run_calls [CDup 3] (RInt 0) case_meminfo in
  r = RInt 4 /\
  (run_calls [CRead 3 25] (RInt 0) s1).1 = RBytes (25, cs "MemTotal:         1048576") /\
  (run_calls [CRead 4 25] (RInt 0) s1).1 = RBytes (25, cs "MemTotal:       263843440").
Proof. vm_compute. split_and!; reflexivity. Qed.

(** An [openat] below an untracked directory does not clear the record its
    descriptor number had: the file [/etc/passwd] is then taken for the GPU
    base directory. *)
Example stale_record :
  let '(r, s1) := run_calls [COpen false (Some (cs "/etc")) 0 0] (RInt 0) toy_opened in
  let '(r2, s2) := run_calls [COpenat false 4 (Some (cs "passwd")) 0 0] (RInt 0) (closed_unseen 3 s1) in
  r = RInt 4 /\ r2 = RInt 3 /\ toy_path 3 (sh_world s2) = Some (cs "/etc/passwd") /\
  fr_kind <$> rps_gpu_fd_map_get 3 (sh_nodes s2) = Some RPS_GPU_FD_PROC_GPUS_DIR.
Proof. vm_compute. split_and!; reflexivity. Qed.

(** With the detection failed nothing should be filtered, yet a path that
    leaves the base directory is refused. *)
Example escape_refused_unready :
  let s := (runpod_shim_init (shim_start toy_world_unmounted)).2 in
  let '(r, s1) := run_calls [COpen false (Some (cs "/proc/driver/nvidia/gpus")) 0 0] (RInt 0) s in
  sh_ready s1 = false /\ r = RInt 3 /\
  (run_calls [COpenat false 3 (Some (cs "../../../../etc/passwd")) 0 0] (RInt 0) s1).1 = RInt (-1).
Proof. vm_compute. split_and!; reflexivity. Qed.

(** Of a hidden GPU's directory only the "information" file is refused: any
    other file in it is left alone. *)
Example hidden_registry_open :
  rps_gpu_proc_path_allowed (Some (sh_allowed toy_started)) (Some (cs "/proc/driver/nvidia/gpus/b0/information")) = RPS_GPU_PROC_DENY /\
  rps_gpu_proc_path_allowed (Some (sh_allowed toy_started)) (Some (cs "/proc/driver/nvidia/gpus/b0/registry")) = RPS_GPU_PROC_IGNORE.
Proof. vm_compute. split; reflexivity. Qed.

(** An absolute [/proc/meminfo] given to [openat] with a directory other than
    AT_FDCWD gives the host's sizes, although the directory is then ignored. *)
Example openat_absolute_host :
  let '(r, s1) := run_calls [COpen false (Some (cs "/etc")) 0 0;
    COpenat false 3 (Some (cs "/proc/meminfo")) 0 0] (RInt 0) toy_started in
  r = RInt 4 /\ (run_calls [CRead 4 25] (RInt 0) s1).1 = RBytes (25, cs "MemTotal:       263843440").
Proof. vm_compute. split; reflexivity. Qed.

(** An [fcntl] command the table of [fcntl_arg_kind] does not list loses its
    argument: F_DUPFD_QUERY (1027) asks the kernel about descriptor 3 and is
    handed none. *)
Example unlisted_fcntl_argument :
  (run_calls [CFcntl 3 1027 3] (RInt 0) toy_opened).1 = RInt 0 /\
  (real_fcntl 3 1027 (FcntlInt 3) (sh_world toy_opened)).1 = 3.
Proof. vm_compute. split; reflexivity. Qed.
